(* ===== verification/_CoqProject ===== *)
-Q . S2P
Prelude.v
GoFmt.v
GoStrings.v
Flags.v
GoNet.v
Sha256.v
Prog.v
Api.v
Kube.v
Server.v
ServerWorld.v
ServerAuth.v
ServerLifecycle.v
Controller.v
ControllerSafety.v
Runner.v
RunnerContract.v
RunnerSafety.v
Node.v
NodeSafety.v
Json.v
Wire.v
Url.v
GoFloat.v
JsonText.v
JsonAny.v
GoTime.v
Client.v
Provider.v
ProviderSafety.v
System.v
Proxy.v
Cluster.v
Manager.v
DeepCopy.v
PatchBase.v
Convergence.v
Registration.v
