(* ===== verification/Prelude.v ===== *)
(** * The Kubernetes provider for Cloud API Adaptor: a verification development

    ** The program

    The repository lets Cloud API Adaptor (CAA) run Kata peer pods as PodVMs
    inside Pods of a Kubernetes cluster. Its parts, in the order a sandbox meets
    them:

    - the CAA provider plug-in (provider.go, client.go, manager.go) sends an HTTP
      request per instance to
    - the Pod Sandbox API server (internal/server/server.go), which authorizes it,
      stores the user data in a Secret and a PodSandbox object
      (api/v1alpha1), and polls the PodSandbox until it is ready, failed or the
      request times out;
    - the controller (internal/controller/podsandbox_controller.go) reconciles a
      PodSandbox into a runner Pod and mirrors the Pod's state in its status;
    - the runner (cmd/runner/main.go), the program of that Pod, prepares disks and
      network, starts Cloud Hypervisor and its proxies, and answers the readiness
      probe;
    - the peer-pod node (cmd/peer-pod-node/main.go) supervises kubelet, containerd
      and CAA on the workload side.

    ** How it is modelled

    A Go function that only computes is a Rocq function of the same name. A
    function with effects is a program ([Prog.prog]): a finite tree of the calls
    it makes, in the source's order, with a continuation for each possible answer.
    Kubernetes, the operating system, the clock and randomness are the answers.
    [exec p t r] says that [p] can make the calls [t], with the answers in [t],
    and return [r]; a theorem about all executions holds whatever the surroundings
    answer. [run] executes a program against a concrete handler. Errors are values
    of [go_error]; machine integers are [Z] with their wrap-around written out;
    strings are byte strings; Go maps are [gmap].

    ** Files

    - [Prelude] (this file): results, errors, machine integers, tactics, shared
      lemmas. [Prog]: programs, executions and a weakest-precondition calculus.
    - [GoFmt], [GoStrings], [GoNet], [Flags], [Sha256]: what the sources use of the
      Go standard library ([%d], [ParseInt], [hex], [strings], [filepath], [subtle],
      [net.ParseIP], [flag], [crypto/sha256]), executable.
    - [Api]: the resources of api/v1alpha1 with the validation of their
      kubebuilder markers, and the fields used of the Kubernetes core types.
    - [Kube]: the calls of controller-runtime's client and the documented contract
      of their answers. The class [ApiServer] is a store with laws, against which
      theorems on stored objects are proved; [Mem] is a concrete instance, on which
      witnesses and counterexamples are run. The class [ControllerUtil] stands for
      [SetControllerReference].
    - [Server], [ServerWorld], [ServerAuth], [ServerLifecycle]: the API server.
    - [Controller], [ControllerSafety]: the controller. The class
      [StatusConditions] stands for apimachinery's [meta.SetStatusCondition].
    - [Runner], [RunnerContract], [RunnerSafety]: the runner, and its contract with
      the controller.
    - [Node], [NodeSafety]: the peer-pod node.
    - [Json], [Wire]: encoding/json, and the bodies the plug-in and the server exchange.
    - [Url], [GoFloat], [GoTime], [JsonText], [JsonAny]: net/url, float64 with its JSON
      text, time.ParseDuration, and decoding into and encoding from [map[string]any].
    - [Client], [Provider], [ProviderSafety]: the plug-in (client.go; provider.go,
      manager.go and config.go). The record [sandboxClient] is the interface between
      the two; Cloud API Adaptor's own packages are parameters.
    - [System]: the plug-in connected to the API server through URLs and bodies.
    - [Proxy]: the agent and HTTP proxies of the runner. [bridge_step] is the step
      relation of the three goroutines of [bridgeConnections].
    - [Cluster]: plug-ins, API server, controller and the rest of the cluster as one
      concurrent system over a store ([cluster_step]), with stale reads and lost
      answers; the class [StatusLaws] (in [Kube]) is what it relies on. [run_actions]
      runs schedules of it.
    - [Manager]: the controller manager command (cmd/main.go) and the smoke test of
      the plug-in (cmd/plugin-smoke).
    - [DeepCopy]: zz_generated.deepcopy.go on a heap with pointers, slices and maps
      (classes [Copier], [CopierLaws]). [PatchBase]: the controller's statements
      before a status patch on that heap, which refine [with_ready] and [observed].
    - [Convergence]: reconciliations one after the other, while the scheduler and the
      kubelet act on the Pod, against any store with the laws of the class
      [RunnerLaws], under which the deletion of a Pod may take any time.
    - [Registration]: the scheme, the watches of [SetupWithManager] (classes [Scheme]
      and [Builder] with their laws) and the role of the rbac markers.

    ** What the theorems show

    - Server: a request touches only the namespace and the class its token
      resolves to; tokens are compared exactly; a creation that does not end in 201
      is rolled back; 201 means a sandbox that was read as ready; creation ends
      when the request's context does, and the first decisive read is its answer; what
      is stored, and under which name. A creation that comes late is shown to delete
      the user data of the one that came first.
    - Controller: a written status is backed by a runner that was seen; what the
      API server reads in it (ready, failed, neither) is exactly the runner's
      state; a reconciliation touches only its own objects, rests only when nothing
      is left to do, replaces the runner exactly when its template is stale, and
      converges.
    - Controller and runner: the runner parses the arguments of its Pod back to the
      sandbox's capacity and accepts them; the probe checks the runner's socket;
      the shape of the Pod.
    - Runner: it boots in order and starts the hypervisor last; listeners are
      closed on every path; a stop is graceful; the probe is exact; MAC, instance
      identity and name servers are well formed.
    - Peer-pod node: attempts of CAA never overlap; processes are asked to end before
      they are killed, and none is left behind, except in one case that a theorem
      exhibits; waits end; namespaces are cleaned; the plug-in is pinned by its
      hash.
    - Protocol: requests and responses are decoded by the other side to what was
      sent.
    - Plug-in: the user data differs from the input in the MTU and two drop-ins
      only; an instance without an error is a usable one.
    - Plug-in and server together: an instance is a sandbox that was read as ready,
      and a deletion reaches the sandbox it names and no other.
    - Proxies: bytes are relayed in order, unaltered; connections and bodies are closed
      or handed over on every path, but for the transport of a plain HTTP
      request. A lemma exhibits the loss of a response's tail after a half close.
    - The whole control plane: in every interleaving, an instance without an error
      has a runner Pod that was up, whose address it carries.
    - Manager: it starts with everything registered, or the command fails.
    - Convergence: a stale runner is asked to go, and from the first round that begins
      without one the status follows the runner. It assumes that nobody else writes the
      objects of the sandbox, that no call fails of itself and that reads are up to
      date. A lemma exhibits a sandbox that takes over the Pod of a deleted one.
    - Registration: what a reconciliation reads is watched, secrets apart, if the Pod
      is controlled by the sandbox and the list of the sandboxes does not fail; the
      scheme and the role are enough for every call.
    - Deep copies share nothing, so that a status patch is the difference between
      the sandbox as it was read and as it was changed.

    ** Bounds and fuel

    The polling loop of [createSandbox] has no bound of its own: it ends with the
    request's context. [poll] takes the number of ticks as fuel and returns
    [None] when it is used up; [create_terminates] shows that fuel above the
    number of ticks before the context ends gives a response. The fuel of number
    printing ([fmt_u_fuel]), of [Fields] and [TrimSpace] (one step per byte) and
    of the IPv6 parser (eight fields) is always enough. [accept_loop] takes the
    number of connections as fuel: the source's loop ends with its listener only.

    ** Not modelled

    Logging and file modes are left out, as are redirects and retries of Go's HTTP
    transport. controller-runtime's work queue is not modelled: reconciliations start
    at any time, and [Registration] says which changes ask for one. Cloud API
    Adaptor's flag registrar and cloud-init generators, apimachinery's scheme and
    conditions and controller-runtime's builder are not part of the repository and
    stay parameters. Shell scripts, manifests and tests are not program logic. *)

From stdpp Require Export base gmap strings list.
From Stdlib Require Export ZArith Lia.

(** ** Results of fallible Go calls

    A Go function that returns [(T, error)] is modelled by a function into
    [result E T]: [Ok] is the [err == nil] branch. *)

Inductive result (E A : Type) : Type :=
| Ok (a : A)
| Err (e : E).

Arguments Ok {E A} a.
Arguments Err {E A} e.

Declare Scope go_scope.
Delimit Scope go_scope with go.
Open Scope go_scope.

(** [let? x := e in k] is the Go idiom [x, err := e; if err != nil { return err }]. *)
Notation "'let?' x ':=' e 'in' k" :=
  (match e with Ok x => k | Err err => Err err end)
  (at level 200, x pattern, e at level 100, k at level 200) : go_scope.

Definition is_ok {E A} (r : result E A) : bool :=
  match r with Ok _ => true | Err _ => false end.

(** ** Errors

    An error built by [fmt.Errorf] is kept as its format string and its
    arguments; [%w] arguments are [ArgErr]. [ApiStatus] is the
    [*apierrors.StatusError] a Kubernetes client returns. *)

Inductive status_reason : Type :=
| ReasonNotFound
| ReasonAlreadyExists
| ReasonConflict
| ReasonInvalid
| ReasonForbidden
| ReasonOther.

#[export] Instance status_reason_eq_dec : EqDecision status_reason.
Proof. solve_decision. Defined.

Inductive go_error : Type :=
| ApiStatus (reason : status_reason) (message : string)
| ErrorsNew (message : string)
| Errorf (format : string) (args : list fmt_arg)
| ContextErr (message : string)
| Errno (number : Z)
| ErrNotExist (path : string)
| ProcessExit (name : string) (err : go_error)
| NilError
| ErrServerClosed
with fmt_arg : Type :=
| ArgS (s : string)
| ArgD (d : Z)
| ArgErr (e : go_error).

(** [apierrors.IsNotFound] and [apierrors.IsAlreadyExists]. *)
Definition IsNotFound (e : go_error) : bool :=
  match e with ApiStatus ReasonNotFound _ => true | _ => false end.

Definition IsAlreadyExists (e : go_error) : bool :=
  match e with ApiStatus ReasonAlreadyExists _ => true | _ => false end.

(** ** Machine integers: Go's [int64] (and [int] on the 64-bit targets the
    images are built for) with two's-complement wrap-around, and [int32]. *)

Definition min_int64 : Z := (- 2 ^ 63)%Z.
Definition max_int64 : Z := (2 ^ 63 - 1)%Z.
Definition wrap64 (z : Z) : Z := ((z + 2 ^ 63) `mod` 2 ^ 64 - 2 ^ 63)%Z.
Definition in_int64 (z : Z) : Prop := (min_int64 ≤ z ≤ max_int64)%Z.
Definition in_int32 (z : Z) : Prop := (- 2 ^ 31 ≤ z < 2 ^ 31)%Z.

Definition add64 (x y : Z) : Z := wrap64 (x + y).

Create HintDb go.

Lemma wrap64_id z : in_int64 z → wrap64 z = z.
Proof.
  unfold in_int64, min_int64, max_int64, wrap64. intros.
  rewrite Z.mod_small; lia.
Qed.

Lemma wrap64_in_int64 z : in_int64 (wrap64 z).
Proof.
  unfold in_int64, min_int64, max_int64, wrap64.
  pose proof (Z.mod_pos_bound (z + 2 ^ 63) (2 ^ 64)). lia.
Qed.

Lemma add64_exact x y : in_int64 (x + y)%Z → add64 x y = (x + y)%Z.
Proof. apply wrap64_id. Qed.

#[export] Hint Resolve wrap64_in_int64 : go.
#[export] Hint Rewrite wrap64_id add64_exact using done : go.

(** ** Tactics *)

(** Case analysis on the scrutinee of a [match] or [if] of the goal or of a
    hypothesis, keeping the equation. *)
Ltac case_goal :=
  match goal with
  | |- context [match ?x with _ => _ end] =>
      lazymatch x with
      | context [match _ with _ => _ end] => fail
      | _ => let E := fresh "E" in destruct x eqn:E
      end
  end.

Ltac case_in_as H E :=
  match type of H with
  | context [match ?x with _ => _ end] =>
      lazymatch x with
      | context [match _ with _ => _ end] => fail
      | _ => destruct x eqn:E
      end
  end.

Tactic Notation "case_in" hyp(H) := let E := fresh "E" in case_in_as H E.
Tactic Notation "case_in" hyp(H) "as" ident(E) := case_in_as H E.

(** ** Shared lemmas on lists *)

Lemma Forall_snoc {A} (P : A → Prop) l x : Forall P (l ++ [x]) ↔ Forall P l ∧ P x.
Proof. rewrite Forall_app, Forall_singleton. done. Qed.

(** ** Shared lemmas on strings *)

Lemma string_app_cons c (a b : string) : String c a +:+ b = String c (a +:+ b).
Proof. done. Qed.

Lemma string_app_nil_l (a : string) : "" +:+ a = a.
Proof. done. Qed.

Lemma string_app_assoc (a b c : string) : (a +:+ b) +:+ c = a +:+ (b +:+ c).
Proof. induction a as [|x a IH]; [done|]. by rewrite !string_app_cons, IH. Qed.

Lemma string_app_nil_r (a : string) : a +:+ "" = a.
Proof. induction a as [|x a IH]; [done|]. by rewrite string_app_cons, IH. Qed.

Lemma string_length_app (a b : string) :
  String.length (a +:+ b) = String.length a + String.length b.
Proof. induction a as [|x a IH]; [done|]. rewrite string_app_cons. cbn. by rewrite IH. Qed.

#[export] Hint Rewrite string_app_assoc string_app_nil_r string_app_nil_l : go.

Lemma is_Some_default {A} (d : A) (o : option A) : (if o then true else false) = true → o = Some (default d o).
Proof. by destruct o. Qed.

Lemma elem_of_map {A B} (f : A → B) (l : list A) x : x ∈ l → f x ∈ map f l.
Proof. intros Hx. apply list_elem_of_In, in_map, list_elem_of_In, Hx. Qed.

(** ** Lists of results *)

Section all_some.
Context {A B : Type} (f : A → option B).

(** All the results, if there is one for every element. *)
Fixpoint all_some (l : list A) : option (list B) :=
  match l with
  | [] => Some []
  | x :: l =>
      match f x, all_some l with
      | Some y, Some ys => Some (y :: ys)
      | _, _ => None
      end
  end.

Lemma all_some_Forall2 l k : all_some l = Some k ↔ Forall2 (λ x y, f x = Some y) l k.
Proof.
  revert k. induction l as [|x l IH]; intros k; cbn [all_some].
  - split; [by intros [= <-]|]. by inversion 1.
  - split.
    + destruct (f x) eqn:Hx; [|done]. destruct (all_some l); [|done]. intros [= <-].
      constructor; [done|]. by apply IH.
    + inversion_clear 1 as [|? y ? ys Hx Hl]. apply IH in Hl. by rewrite Hx, Hl.
Qed.
End all_some.
