(* ===== verification/GoFmt.v ===== *)
(** * Number formatting and parsing of the Go standard library

    What the sources use of [fmt] ([%d], [%x]), [encoding/hex] and [strconv]
    ([Itoa], and the [ParseInt(s, 0, 64)] behind [flag.IntVar]). A Go string is
    a sequence of bytes, here Stdlib's [string]. *)

From S2P Require Import Prelude.
From Stdlib Require Import Ascii.

Local Open Scope Z_scope.

(** ** Bytes *)

Definition byte_val (c : ascii) : Z := Z.of_N (N_of_ascii c).
Definition byte_chr (z : Z) : ascii := ascii_of_N (Z.to_N z).

Definition between (lo hi z : Z) : bool := (lo <=? z) && (z <=? hi).

(** ** Decimal digits *)

Definition digit_chr (d : Z) : ascii := byte_chr (48 + d).
Definition digit_val (c : ascii) : option Z :=
  if between 48 57 (byte_val c) then Some (byte_val c - 48) else None.

(** [fuel] bounds the number of digits; [fmt_u] gives one more than the number
    of bits of [n], which is enough ([fmt_u_fuel] below). *)
Fixpoint fmt_digits (fuel : nat) (n : Z) (acc : string) : string :=
  match fuel with
  | O => acc
  | S fuel =>
      if n <? 10 then String (digit_chr n) acc
      else fmt_digits fuel (n / 10) (String (digit_chr (n mod 10)) acc)
  end.

Definition fmt_u (n : Z) : string := fmt_digits (S (Z.to_nat (Z.log2 n))) n "".

(** [%d] of [fmt], [strconv.Itoa]. *)
Definition fmt_d (z : Z) : string :=
  if z <? 0 then String "-" (fmt_u (- z)) else fmt_u z.

(** ** [strconv.ParseInt(s, 0, 64)] *)

Definition max_uint64 : Z := 2 ^ 64 - 1.

(** [lower(c)] of strconv: [c | 0x20]. *)
Definition lower (c : ascii) : Z := Z.lor (byte_val c) 32.

Inductive num_error : Type := ErrSyntax | ErrRange.

Definition parse_digit (c : ascii) : option Z :=
  if between 48 57 (byte_val c) then Some (byte_val c - 48)
  else if between 97 122 (lower c) then Some (lower c - 97 + 10)
  else None.

(** The digit loop of [ParseUint]: [underscores] records whether an underscore
    was skipped. *)
Fixpoint parse_uint_loop (base0 : bool) (base : Z) (s : string) (n : Z)
    (underscores : bool) : result num_error (Z * bool) :=
  match s with
  | EmptyString => Ok (n, underscores)
  | String c s =>
      if base0 && (byte_val c =? 95)
      then parse_uint_loop base0 base s n true
      else
        match parse_digit c with
        | None => Err ErrSyntax
        | Some d =>
            if base <=? d then Err ErrSyntax
            else if max_uint64 <? n * base + d then Err ErrRange
            else parse_uint_loop base0 base s (n * base + d) underscores
        end
  end.

(** [underscoreOK]'s scan; [saw] is the class of the last byte: [None] for the
    beginning or another byte, [Some true] for a digit, [Some false] for an
    underscore. *)
Fixpoint underscore_scan (hex : bool) (saw : option bool) (s : string) : bool :=
  match s with
  | EmptyString => match saw with Some false => false | _ => true end
  | String c s =>
      if between 48 57 (byte_val c) || (hex && between 97 102 (lower c))
      then underscore_scan hex (Some true) s
      else if byte_val c =? 95
      then match saw with
           | Some true => underscore_scan hex (Some false) s
           | _ => false
           end
      else match saw with
           | Some false => false
           | _ => underscore_scan hex None s
           end
  end.

Definition is_base_letter (c : ascii) : bool :=
  (lower c =? 98) || (lower c =? 111) || (lower c =? 120).

Definition underscoreOK (s : string) : bool :=
  match s with
  | String "0" (String c rest) =>
      if is_base_letter c
      then underscore_scan (lower c =? 120) (Some true) rest
      else underscore_scan false None s
  | _ => underscore_scan false None s
  end.

(** [ParseUint(s, 0, 64)]: the base prefix, then the digits. *)
Definition ParseUint0 (s : string) : result num_error Z :=
  let body :=
    match s with
    | String "0" (String c (String _ _ as rest)) =>
        if lower c =? 98 then (2, rest)
        else if lower c =? 111 then (8, rest)
        else if lower c =? 120 then (16, rest)
        else (8, String c rest)
    | String "0" rest => (8, rest)
    | _ => (10, s)
    end in
  match s with
  | EmptyString => Err ErrSyntax
  | _ =>
      let? (n, underscores) := parse_uint_loop true body.1 body.2 0 false in
      if underscores && negb (underscoreOK s) then Err ErrSyntax else Ok n
  end.

Definition ParseInt0 (s : string) : result num_error Z :=
  match s with
  | EmptyString => Err ErrSyntax
  | String c rest =>
      let neg := byte_val c =? 45 in
      let digits := if neg || (byte_val c =? 43) then rest else s in
      let? un := ParseUint0 digits in
      if negb neg && (2 ^ 63 <=? un) then Err ErrRange
      else if neg && (2 ^ 63 <? un) then Err ErrRange
      else Ok (if neg then - un else un)
  end.

(** [strconv.ParseInt(s, 10, 64)]: the same without prefixes and underscores. *)
Definition ParseUint10 (s : string) : result num_error Z :=
  match s with
  | EmptyString => Err ErrSyntax
  | _ => let? (n, _) := parse_uint_loop false 10 s 0 false in Ok n
  end.

Definition ParseInt10 (s : string) : result num_error Z :=
  match s with
  | EmptyString => Err ErrSyntax
  | String c rest =>
      let neg := byte_val c =? 45 in
      let digits := if neg || (byte_val c =? 43) then rest else s in
      let? un := ParseUint10 digits in
      if negb neg && (2 ^ 63 <=? un) then Err ErrRange
      else if neg && (2 ^ 63 <? un) then Err ErrRange
      else Ok (if neg then - un else un)
  end.

(** ** Hexadecimal *)

Definition hex_chr (d : Z) : ascii :=
  if d <? 10 then byte_chr (48 + d) else byte_chr (87 + d).

(** [hex.EncodeToString], and [%x] of a byte slice. *)
Fixpoint hex_encode (s : string) : string :=
  match s with
  | EmptyString => EmptyString
  | String c s =>
      String (hex_chr (byte_val c / 16)) (String (hex_chr (byte_val c mod 16)) (hex_encode s))
  end.

Definition is_hex (c : ascii) : bool :=
  between 48 57 (byte_val c) || between 97 102 (byte_val c).

Definition hex_val (c : ascii) : Z :=
  if between 48 57 (byte_val c) then byte_val c - 48 else byte_val c - 87.

(** The inverse of [hex_encode], to state that it loses nothing. *)
Fixpoint hex_decode (s : string) : string :=
  match s with
  | String a (String b s) => String (byte_chr (16 * hex_val a + hex_val b)) (hex_decode s)
  | _ => EmptyString
  end.

Fixpoint string_forall (P : ascii → bool) (s : string) : bool :=
  match s with
  | EmptyString => true
  | String c s => P c && string_forall P s
  end.

(** ** Lemmas *)

Lemma byte_val_bound c : 0 ≤ byte_val c < 256.
Proof. unfold byte_val. pose proof (N_ascii_bounded c). lia. Qed.

Lemma byte_val_chr z : 0 ≤ z < 256 → byte_val (byte_chr z) = z.
Proof. intros. unfold byte_val, byte_chr. rewrite N_ascii_embedding; lia. Qed.

Lemma byte_chr_val c : byte_chr (byte_val c) = c.
Proof. unfold byte_val, byte_chr. rewrite N2Z.id. apply ascii_N_embedding. Qed.

Lemma byte_val_inj a b : byte_val a = byte_val b → a = b.
Proof. intros E. by rewrite <- (byte_chr_val a), <- (byte_chr_val b), E. Qed.

Lemma between_spec lo hi z : between lo hi z = true ↔ lo ≤ z ≤ hi.
Proof. unfold between. rewrite andb_true_iff, !Z.leb_le. lia. Qed.

Lemma between_false lo hi z : between lo hi z = false ↔ z < lo ∨ hi < z.
Proof. unfold between. rewrite andb_false_iff, !Z.leb_gt. lia. Qed.

Lemma byte_val_digit d : 0 ≤ d < 10 → byte_val (digit_chr d) = 48 + d.
Proof. intros. apply byte_val_chr. lia. Qed.

Lemma parse_digit_chr d : 0 ≤ d < 10 → parse_digit (digit_chr d) = Some d.
Proof.
  intros. unfold parse_digit. rewrite byte_val_digit by done.
  rewrite (proj2 (between_spec _ _ _)) by lia. f_equal. lia.
Qed.

Lemma string_forall_app P a b :
  string_forall P (a +:+ b) = string_forall P a && string_forall P b.
Proof.
  induction a as [|c a IH]; [done|].
  rewrite string_app_cons. cbn. by rewrite IH, andb_assoc.
Qed.

Lemma string_forall_impl (P Q : ascii → bool) s :
  (∀ c, P c = true → Q c = true) → string_forall P s = true → string_forall Q s = true.
Proof.
  intros HPQ. induction s as [|c s IH]; [done|]. cbn.
  rewrite !andb_true_iff. intros []. auto.
Qed.

(** *** Printing decimals *)

(** The parse of the digits printed for [n] in front of [acc] is the parse of
    [acc] started at [n]: the loop invariant that [%d] and the digit loop share. *)
Lemma parse_fmt_digits base0 fuel n acc u :
  0 ≤ n < 10 ^ Z.of_nat fuel → n ≤ max_uint64 →
  parse_uint_loop base0 10 (fmt_digits fuel n acc) 0 u = parse_uint_loop base0 10 acc n u.
Proof.
  revert n acc. induction fuel as [|fuel IH]; intros n acc Hn Hmax.
  - cbn in Hn. replace n with 0 by lia. done.
  - rewrite Nat2Z.inj_succ, Z.pow_succ_r in Hn by lia. cbn [fmt_digits].
    assert (Hstep : ∀ m d, 0 ≤ d < 10 → m * 10 + d ≤ max_uint64 →
      parse_uint_loop base0 10 (String (digit_chr d) acc) m u
      = parse_uint_loop base0 10 acc (m * 10 + d) u).
    { intros m d Hd Hm. cbn [parse_uint_loop]. rewrite parse_digit_chr, byte_val_digit by done.
      rewrite (proj2 (Z.eqb_neq (48 + d) 95)), andb_false_r by lia.
      destruct (Z.leb_spec 10 d); [lia|].
      destruct (Z.ltb_spec max_uint64 (m * 10 + d)); [lia|done]. }
    destruct (Z.ltb_spec n 10).
    + rewrite Hstep by lia. f_equal.
    + pose proof (Z.div_mod n 10 ltac:(lia)). pose proof (Z.mod_pos_bound n 10 ltac:(lia)).
      rewrite IH; [|split; [apply Z.div_pos|apply Z.div_lt_upper_bound]; lia|lia].
      rewrite Hstep by lia. f_equal. lia.
Qed.

Lemma fmt_u_fuel n : 0 ≤ n → n < 10 ^ Z.of_nat (S (Z.to_nat (Z.log2 n))).
Proof.
  intros Hn. rewrite Nat2Z.inj_succ, Z2Nat.id by apply Z.log2_nonneg.
  destruct (decide (n = 0)) as [->|]; [done|].
  pose proof (Z.log2_spec n ltac:(lia)) as [_ Hlt].
  eapply Z.lt_le_trans; [exact Hlt|]. apply Z.pow_le_mono_l. lia.
Qed.

(** A printed positive number starts with a digit other than [0]. *)
Lemma fmt_digits_head fuel n acc :
  0 < n < 10 ^ Z.of_nat fuel →
  ∃ d s, fmt_digits fuel n acc = String (digit_chr d) s ∧ 1 ≤ d < 10.
Proof.
  revert n acc. induction fuel as [|fuel IH]; intros n acc Hn; [cbn in Hn; lia|].
  rewrite Nat2Z.inj_succ, Z.pow_succ_r in Hn by lia. cbn [fmt_digits].
  destruct (Z.ltb_spec n 10); [eauto with lia|].
  apply IH. split; [|apply Z.div_lt_upper_bound; lia].
  apply Z.div_str_pos. lia.
Qed.

Lemma fmt_digits_forall fuel n acc :
  0 ≤ n → string_forall (λ c, between 48 57 (byte_val c)) acc = true →
  string_forall (λ c, between 48 57 (byte_val c)) (fmt_digits fuel n acc) = true.
Proof.
  revert n acc. induction fuel as [|fuel IH]; intros n acc Hn Hacc; [done|].
  assert (Hd : ∀ d, 0 ≤ d < 10 → between 48 57 (byte_val (digit_chr d)) = true)
    by (intros; rewrite byte_val_digit by done; apply between_spec; lia).
  cbn [fmt_digits]. destruct (Z.ltb_spec n 10).
  - cbn. by rewrite Hd, Hacc by lia.
  - apply IH; [apply Z.div_pos; lia|]. cbn.
    by rewrite Hd, Hacc by (apply Z.mod_pos_bound; lia).
Qed.

Lemma fmt_u_digits n : 0 ≤ n → string_forall (λ c, between 48 57 (byte_val c)) (fmt_u n) = true.
Proof. intros. by apply fmt_digits_forall. Qed.

Lemma parse_fmt_u n : 0 ≤ n ≤ max_uint64 → ParseUint0 (fmt_u n) = Ok n.
Proof.
  intros Hn. destruct (decide (n = 0)) as [->|Hn0]; [done|].
  pose proof (fmt_u_fuel n ltac:(lia)) as Hf. assert (0 < n) as Hpos by lia.
  destruct (fmt_digits_head _ n "" (conj Hpos Hf)) as (d & s & Hs & Hd).
  unfold ParseUint0.
  assert (Hbody : parse_uint_loop true 10 (fmt_u n) 0 false = Ok (n, false))
    by (unfold fmt_u; rewrite parse_fmt_digits by lia; done).
  unfold fmt_u in *. rewrite Hs in *.
  assert (Hnz : digit_chr d ≠ "0"%char).
  { intros E. apply (f_equal byte_val) in E. rewrite byte_val_digit in E by lia.
    change (byte_val "0"%char) with 48 in E. lia. }
  destruct (digit_chr d) as [[] [] [] [] [] [] [] []]; 
    first [done | cbn [fst snd]; by rewrite Hbody].
Qed.

(** [strconv.ParseInt(_, 0, 64)] reads back every [int64] that [%d] prints. *)
Lemma parse_fmt_d z : in_int64 z → ParseInt0 (fmt_d z) = Ok z.
Proof.
  unfold in_int64, min_int64, max_int64. intros Hz. unfold fmt_d.
  destruct (Z.ltb_spec z 0).
  - cbn [ParseInt0]. change (byte_val "-") with 45. cbn -[Z.pow ParseUint0 fmt_u].
    rewrite parse_fmt_u by (unfold max_uint64; lia).
    destruct (Z.ltb_spec (2 ^ 63) (- z)); [lia|]. f_equal. lia.
  - pose proof (parse_fmt_u z ltac:(unfold max_uint64; lia)) as Hp.
    pose proof (fmt_u_digits z ltac:(lia)) as Hdig.
    destruct (fmt_u z) as [|c s]; [done|]. cbn in Hdig.
    apply andb_true_iff in Hdig as [Hc%between_spec _].
    unfold ParseInt0. destruct (Z.eqb_spec (byte_val c) 45); [lia|].
    destruct (Z.eqb_spec (byte_val c) 43); [lia|]. cbn -[Z.pow ParseUint0].
    rewrite Hp. destruct (Z.leb_spec (2 ^ 63) z); [lia|]. done.
Qed.

Lemma parse10_fmt_u n : 0 ≤ n ≤ max_uint64 → ParseUint10 (fmt_u n) = Ok n.
Proof.
  intros Hn. pose proof (fmt_u_fuel n ltac:(lia)) as Hf. unfold ParseUint10.
  assert (Hbody : parse_uint_loop false 10 (fmt_u n) 0 false = Ok (n, false))
    by (unfold fmt_u; rewrite parse_fmt_digits by lia; done).
  rewrite Hbody. destruct (fmt_u n) eqn:E; [|done].
  destruct (decide (n = 0)) as [->|Hn0]; [done|]. assert (0 < n) as Hpos by lia.
  destruct (fmt_digits_head _ n "" (conj Hpos Hf)) as (d & s & Hs & _).
  unfold fmt_u in E. congruence.
Qed.

Lemma parse10_fmt_d z : in_int64 z → ParseInt10 (fmt_d z) = Ok z.
Proof.
  unfold in_int64, min_int64, max_int64. intros Hz. unfold fmt_d.
  destruct (Z.ltb_spec z 0).
  - cbn [ParseInt10]. change (byte_val "-") with 45. cbn -[Z.pow ParseUint10 fmt_u].
    rewrite parse10_fmt_u by (unfold max_uint64; lia).
    destruct (Z.ltb_spec (2 ^ 63) (- z)); [lia|]. f_equal. lia.
  - pose proof (parse10_fmt_u z ltac:(unfold max_uint64; lia)) as Hp.
    pose proof (fmt_u_digits z ltac:(lia)) as Hdig.
    destruct (fmt_u z) as [|c s]; [done|]. cbn in Hdig.
    apply andb_true_iff in Hdig as [Hc%between_spec _].
    unfold ParseInt10. destruct (Z.eqb_spec (byte_val c) 45); [lia|].
    destruct (Z.eqb_spec (byte_val c) 43); [lia|]. cbn -[Z.pow ParseUint10].
    rewrite Hp. destruct (Z.leb_spec (2 ^ 63) z); [lia|]. done.
Qed.

Lemma fmt_d_inj x y : in_int64 x → in_int64 y → fmt_d x = fmt_d y → x = y.
Proof.
  intros Hx Hy E. apply (f_equal ParseInt0) in E.
  rewrite !parse_fmt_d in E by done. congruence.
Qed.

(** A printed number holds only digits and a sign: no separator of the formats
    it is spliced into. *)
Definition is_num_char (c : ascii) : bool := between 48 57 (byte_val c) || (byte_val c =? 45).

Lemma fmt_d_chars z : string_forall is_num_char (fmt_d z) = true.
Proof.
  assert (Hu : ∀ n, 0 ≤ n → string_forall is_num_char (fmt_u n) = true).
  { intros n Hn. eapply string_forall_impl; [|by apply fmt_u_digits].
    intros c Hc. unfold is_num_char. by rewrite Hc. }
  unfold fmt_d. destruct (Z.ltb_spec z 0); [|by apply Hu; lia].
  cbn [string_forall]. by rewrite Hu by lia.
Qed.

Lemma fmt_u_nonempty n : 0 ≤ n → fmt_u n ≠ "".
Proof.
  intros Hn E. destruct (decide (n = 0)) as [->|]; [done|].
  pose proof (fmt_u_fuel n Hn).
  destruct (fmt_digits_head (S (Z.to_nat (Z.log2 n))) n "" ltac:(lia)) as (d & s & Hs & _).
  unfold fmt_u in E. congruence.
Qed.

(** *** Hexadecimal *)

Lemma hex_chr_val d : 0 ≤ d < 16 → hex_val (hex_chr d) = d ∧ is_hex (hex_chr d) = true.
Proof.
  intros. unfold hex_val, is_hex, hex_chr. destruct (Z.ltb_spec d 10);
    rewrite byte_val_chr by lia.
  - rewrite (proj2 (between_spec 48 57 _)) by lia. split; [lia|done].
  - rewrite (proj2 (between_false 48 57 _)) by lia.
    rewrite (proj2 (between_spec 97 102 _)) by lia. split; [lia|done].
Qed.

Lemma byte_nibbles c : 0 ≤ byte_val c / 16 < 16 ∧ 0 ≤ byte_val c mod 16 < 16.
Proof.
  pose proof (byte_val_bound c). split; [|apply Z.mod_pos_bound; lia].
  split; [apply Z.div_pos; lia | apply Z.div_lt_upper_bound; lia].
Qed.

Lemma hex_decode_encode s : hex_decode (hex_encode s) = s.
Proof.
  induction s as [|c s IH]; [done|]. cbn. pose proof (byte_nibbles c) as [H1 H2].
  rewrite (proj1 (hex_chr_val _ H1)), (proj1 (hex_chr_val _ H2)), IH.
  f_equal. rewrite <- (byte_chr_val c) at 3. f_equal.
  pose proof (Z.div_mod (byte_val c) 16 ltac:(lia)). lia.
Qed.

Lemma hex_encode_inj a b : hex_encode a = hex_encode b → a = b.
Proof. intros E. apply (f_equal hex_decode) in E. by rewrite !hex_decode_encode in E. Qed.

Lemma hex_encode_length s : String.length (hex_encode s) = (2 * String.length s)%nat.
Proof. induction s as [|c s IH]; [done|]. cbn. rewrite IH. lia. Qed.

Lemma hex_encode_chars s : string_forall is_hex (hex_encode s) = true.
Proof.
  induction s as [|c s IH]; [done|]. cbn. pose proof (byte_nibbles c) as [H1 H2].
  by rewrite (proj2 (hex_chr_val _ H1)), (proj2 (hex_chr_val _ H2)), IH.
Qed.

#[export] Hint Resolve byte_val_bound hex_encode_chars fmt_d_chars : go.
