(* ===== verification/GoStrings.v ===== *)
(** * The [strings], [path/filepath], [net] and [crypto/subtle] functions the
    sources use, over byte strings *)

From S2P Require Import Prelude GoFmt.
From Stdlib Require Import Ascii.

(** ** Prefixes and suffixes *)

Fixpoint strip_prefix (p s : string) : option string :=
  match p, s with
  | EmptyString, _ => Some s
  | String a p, String b s => if decide (a = b) then strip_prefix p s else None
  | String _ _, EmptyString => None
  end.

Definition string_rev (s : string) : string := String.rev s.

(** [strings.TrimPrefix] and [strings.TrimSuffix]. *)
Definition TrimPrefix (s p : string) : string := default s (strip_prefix p s).
Definition TrimSuffix (s p : string) : string :=
  match strip_prefix (string_rev p) (string_rev s) with
  | Some r => string_rev r
  | None => s
  end.

(** ** White space

    [unicode.IsSpace]: the ASCII bytes and the UTF-8 encodings of the other
    white-space code points (U+0085, U+00A0, U+1680, U+2000 to U+200A, U+2028,
    U+2029, U+202F, U+205F, U+3000). [space_rune s] is the rest of [s] after one
    leading white-space rune. An encoding starts with a lead byte, so scanning
    byte by byte meets it exactly where Go's rune scan does. *)
Definition space_rune (s : string) : option string :=
  match s with
  | String a s1 =>
      if between 9 13 (byte_val a) || (byte_val a =? 32)%Z then Some s1
      else
        match s1 with
        | String b s2 =>
            if (byte_val a =? 194)%Z && ((byte_val b =? 133)%Z || (byte_val b =? 160)%Z)
            then Some s2
            else
              match s2 with
              | String c s3 =>
                  let a := byte_val a in let b := byte_val b in let c := byte_val c in
                  if ((a =? 225) && (b =? 154) && (c =? 128)
                      || (a =? 226) && (b =? 128) && between 128 138 c
                      || (a =? 226) && (b =? 128) && ((c =? 168) || (c =? 169) || (c =? 175))
                      || (a =? 226) && (b =? 129) && (c =? 159)
                      || (a =? 227) && (b =? 128) && (c =? 128))%Z
                  then Some s3 else None
              | EmptyString => None
              end
        | EmptyString => None
        end
  | EmptyString => None
  end.

(** The same at the end of a reversed string. *)
Definition space_rune_rev (s : string) : option string :=
  match s with
  | String a s1 =>
      if between 9 13 (byte_val a) || (byte_val a =? 32)%Z then Some s1
      else
        match s1 with
        | String b s2 =>
            if (byte_val b =? 194)%Z && ((byte_val a =? 133)%Z || (byte_val a =? 160)%Z)
            then Some s2
            else
              match s2 with
              | String c s3 =>
                  match space_rune (String c (String b (String a EmptyString))) with
                  | Some EmptyString => Some s3
                  | _ => None
                  end
              | EmptyString => None
              end
        | EmptyString => None
        end
  | EmptyString => None
  end.

Fixpoint drop_spaces (step : string → option string) (fuel : nat) (s : string) : string :=
  match fuel with
  | O => s
  | S fuel => match step s with Some s' => drop_spaces step fuel s' | None => s end
  end.

(** [strings.TrimSpace]: at most one rune is dropped per byte. *)
Definition TrimSpace (s : string) : string :=
  let l := drop_spaces space_rune (String.length s) s in
  string_rev (drop_spaces space_rune_rev (String.length l) (string_rev l)).

(** [strings.Fields]: the maximal runs of bytes that start no white-space rune;
    [cur] is the field being read, reversed. *)
Fixpoint fields_go (fuel : nat) (cur s : string) : list string :=
  let flush := match cur with EmptyString => [] | _ => [string_rev cur] end in
  match fuel with
  | O => flush
  | S fuel =>
      match s with
      | EmptyString => flush
      | String c rest =>
          match space_rune s with
          | Some s' => flush ++ fields_go fuel EmptyString s'
          | None => fields_go fuel (String c cur) rest
          end
      end
  end.

Definition Fields (s : string) : list string := fields_go (S (String.length s)) EmptyString s.

(** ** Splitting, joining, searching *)

(** [strings.Split] (and [SplitSeq]) by a one-byte separator. *)
Fixpoint split_go (sep : ascii) (cur s : string) : list string :=
  match s with
  | EmptyString => [string_rev cur]
  | String c s =>
      if decide (c = sep) then string_rev cur :: split_go sep EmptyString s
      else split_go sep (String c cur) s
  end.

Definition Split (s : string) (sep : ascii) : list string := split_go sep EmptyString s.

(** [strings.SplitN(s, sep, 2)[0]]: what precedes the first separator. *)
Fixpoint before (sep : ascii) (s : string) : string :=
  match s with
  | EmptyString => EmptyString
  | String c s => if decide (c = sep) then EmptyString else String c (before sep s)
  end.

Fixpoint Join (l : list string) (sep : string) : string :=
  match l with
  | [] => EmptyString
  | [s] => s
  | s :: l => s +:+ sep +:+ Join l sep
  end.

(** [strings.Contains] of a one-byte substring. *)
Fixpoint contains_char (c : ascii) (s : string) : bool :=
  match s with
  | EmptyString => false
  | String d s => if decide (d = c) then true else contains_char c s
  end.

(** [strings.ReplaceAll(s, c, "")] of a one-byte substring. *)
Fixpoint remove_char (c : ascii) (s : string) : string :=
  match s with
  | EmptyString => EmptyString
  | String d s => if decide (d = c) then remove_char c s else String d (remove_char c s)
  end.

(** ** [filepath.Clean] and [filepath.Join] on Unix

    [Clean] keeps a stack of the components written so far; [dotdot] is the
    number of leading [..] of a relative path, which a later [..] cannot pop. *)
Definition clean_step (rooted : bool) (stack : list string) (part : string) : list string :=
  if decide (part = "" ∨ part = ".") then stack
  else if decide (part = "..") then
    match stack with
    | top :: rest => if decide (top = "..") then ".." :: stack else rest
    | [] => if rooted then [] else [".."]
    end
  else part :: stack.

Definition Clean (path : string) : string :=
  match path with
  | EmptyString => "."
  | String c _ =>
      let rooted := bool_decide (c = "/"%char) in
      let stack := foldl (clean_step rooted) [] (Split path "/"%char) in
      let body := Join (reverse stack) "/" in
      if rooted then String "/" body
      else match body with EmptyString => "." | _ => body end
  end.

Definition filepath_Join (elems : list string) : string :=
  match filter (λ e, e ≠ "") elems with
  | [] => ""
  | es => Clean (Join es "/")
  end.

(** [net.JoinHostPort]. *)
Definition JoinHostPort (host port : string) : string :=
  if contains_char ":" host || contains_char "%" host
  then "[" +:+ host +:+ "]:" +:+ port
  else host +:+ ":" +:+ port.

(** ** [subtle.ConstantTimeCompare]: the or of the xors of the bytes, compared
    with zero; 0 at once for different lengths. *)
Fixpoint xor_or (a b : string) (v : Z) : Z :=
  match a, b with
  | String x a, String y b => xor_or a b (Z.lor v (Z.lxor (byte_val x) (byte_val y)))
  | _, _ => v
  end.

(** [ConstantTimeByteEq(x, y) = int((uint32(x^y) - 1) >> 31)], in 32 bits. *)
Definition ConstantTimeByteEq (x y : Z) : Z :=
  Z.shiftr ((Z.lxor x y - 1) `mod` 2 ^ 32)%Z 31.

Definition ConstantTimeCompare (x y : string) : Z :=
  if decide (String.length x = String.length y)
  then ConstantTimeByteEq (xor_or x y 0) 0
  else 0%Z.

(** ** Lemmas *)

Lemma strip_prefix_app p s : strip_prefix p (p +:+ s) = Some s.
Proof.
  induction p as [|c p IH]; [done|].
  rewrite string_app_cons. cbn. by rewrite decide_True.
Qed.

Lemma strip_prefix_Some p s r : strip_prefix p s = Some r → s = p +:+ r.
Proof.
  revert s. induction p as [|a p IH]; intros s; [by intros [= ->]|].
  destruct s as [|b s]; [done|]. cbn. case_decide as Hab; [subst b|done].
  intros ->%IH. by rewrite string_app_cons.
Qed.

Lemma TrimPrefix_app p s : TrimPrefix (p +:+ s) p = s.
Proof. unfold TrimPrefix. by rewrite strip_prefix_app. Qed.

(** *** Constant-time comparison *)

Lemma xor_byte_bound x y : (0 ≤ Z.lxor (byte_val x) (byte_val y) < 256)%Z.
Proof.
  pose proof (byte_val_bound x). pose proof (byte_val_bound y). split.
  - apply Z.lxor_nonneg. lia.
  - destruct (decide (Z.lxor (byte_val x) (byte_val y) = 0%Z)) as [->|]; [lia|].
    apply (Z.log2_lt_pow2 _ 8); [pose proof (Z.lxor_nonneg (byte_val x) (byte_val y)); lia|].
    eapply Z.le_lt_trans; [apply Z.log2_lxor; lia|].
    apply Z.max_lub_lt; (eapply Z.le_lt_trans;
      [apply (Z.log2_le_mono _ 255); lia | by vm_compute]).
Qed.

Lemma lor_byte_bound a b : (0 ≤ a < 256 → 0 ≤ b < 256 → 0 ≤ Z.lor a b < 256)%Z.
Proof.
  intros Ha Hb. split; [apply Z.lor_nonneg; lia|].
  destruct (decide (Z.lor a b = 0%Z)) as [->|]; [lia|].
  apply (Z.log2_lt_pow2 _ 8); [pose proof (Z.lor_nonneg a b); lia|].
  rewrite Z.log2_lor by lia.
  apply Z.max_lub_lt; (eapply Z.le_lt_trans;
    [apply (Z.log2_le_mono _ 255); lia | by vm_compute]).
Qed.

Lemma xor_or_bound a b v : (0 ≤ v < 256)%Z → (0 ≤ xor_or a b v < 256)%Z.
Proof.
  revert b v. induction a as [|x a IH]; intros [|y b] v Hv; try done.
  cbn. apply IH, lor_byte_bound; [done|apply xor_byte_bound].
Qed.

(** The accumulated difference is zero exactly when it started at zero and the
    two strings agree on every byte. *)
Lemma xor_or_zero a b v :
  String.length a = String.length b → xor_or a b v = 0%Z ↔ v = 0%Z ∧ a = b.
Proof.
  revert b v. induction a as [|x a IH]; intros [|y b] v Hlen; try done.
  - cbn. naive_solver.
  - cbn in *. rewrite IH by congruence. rewrite Z.lor_eq_0_iff, Z.lxor_eq_0_iff.
    split; [intros [[-> E%byte_val_inj] ->]; by subst|].
    intros [-> [= -> ->]]. done.
Qed.

Lemma ConstantTimeByteEq_zero v :
  (0 ≤ v < 256)%Z → ConstantTimeByteEq v 0 = if decide (v = 0%Z) then 1%Z else 0%Z.
Proof.
  intros Hv. unfold ConstantTimeByteEq. rewrite Z.lxor_0_r. case_decide as E.
  - by subst.
  - rewrite Z.mod_small by lia. rewrite Z.shiftr_div_pow2 by lia.
    apply Z.div_small. lia.
Qed.

(** The constant-time comparison decides equality. *)
Lemma ConstantTimeCompare_spec x y : ConstantTimeCompare x y = 1%Z ↔ x = y.
Proof.
  unfold ConstantTimeCompare. case_decide as Hlen; [|naive_solver].
  pose proof (xor_or_bound x y 0 ltac:(lia)).
  rewrite ConstantTimeByteEq_zero by done. case_decide as E.
  - rewrite xor_or_zero in E by done. naive_solver.
  - rewrite xor_or_zero in E by done. naive_solver.
Qed.

(** *** Character classes *)

Lemma contains_char_app c a b :
  contains_char c (a +:+ b) = contains_char c a || contains_char c b.
Proof.
  induction a as [|d a IH]; [done|]. rewrite string_app_cons. cbn.
  by case_decide.
Qed.

Lemma string_forall_not_contains (P : ascii → bool) c s :
  P c = false → string_forall P s = true → contains_char c s = false.
Proof.
  intros Hc. induction s as [|d s IH]; [done|]. cbn. rewrite andb_true_iff.
  intros [Hd Hs]. case_decide; [congruence|auto].
Qed.

Lemma remove_char_not_in c s : contains_char c s = false → remove_char c s = s.
Proof.
  induction s as [|d s IH]; [done|]. cbn. case_decide; [done|]. intros. f_equal. auto.
Qed.

Lemma remove_char_app c a b :
  remove_char c (a +:+ b) = remove_char c a +:+ remove_char c b.
Proof.
  induction a as [|d a IH]; [done|]. rewrite string_app_cons. cbn.
  case_decide; [done|]. by rewrite IH, string_app_cons.
Qed.

Lemma before_app_sep sep a b :
  contains_char sep a = false → before sep (a +:+ String sep b) = a.
Proof.
  induction a as [|d a IH]; intros Ha.
  - change (before sep (String sep b) = ""). cbn. by rewrite decide_True.
  - rewrite string_app_cons. cbn in *. case_decide; [done|]. f_equal. auto.
Qed.

(** A separator that the left parts do not hold splits a string in one way. *)
Lemma split_at_sep sep a b a' b' :
  contains_char sep a = false → contains_char sep a' = false →
  a +:+ String sep b = a' +:+ String sep b' → a = a' ∧ b = b'.
Proof.
  revert a'. induction a as [|d a IH]; intros [|d' a'] Ha Ha' E; cbn in *.
  - by injection E.
  - rewrite string_app_cons, string_app_nil_l in E. injection E as -> ->.
    by rewrite decide_True in Ha'.
  - rewrite string_app_cons, string_app_nil_l in E. injection E as -> <-.
    by rewrite decide_True in Ha.
  - rewrite !string_app_cons in E. injection E as -> E.
    case_decide; [done|]. destruct (IH a' Ha Ha' E) as [-> ->]. done.
Qed.

#[export] Hint Rewrite strip_prefix_app TrimPrefix_app : go.

(** ** Induction, reversal and splitting *)

(** Induction on the length of a string. *)
Lemma string_len_ind (P : string → Prop) :
  (∀ s, (∀ s', (String.length s' < String.length s)%nat → P s') → P s) → ∀ s, P s.
Proof.
  intros H s. remember (String.length s) as n eqn:Hn. revert s Hn.
  induction n as [n IH] using lt_wf_ind. intros s ->. apply H. intros s' Hlt. by eapply IH.
Qed.

Lemma rev_app_app (a b acc : string) : String.rev_app (a +:+ b) acc = String.rev_app b (String.rev_app a acc).
Proof. revert acc. induction a as [|c a IH]; intros acc; [done|]. rewrite string_app_cons. apply IH. Qed.

Lemma rev_app_rev_app (s a b : string) : String.rev_app (String.rev_app s a) b = String.rev_app a (s +:+ b).
Proof. revert a b. induction s as [|c s IH]; intros a b; [done|]. cbn. rewrite IH. done. Qed.

Lemma string_rev_involutive s : string_rev (String.rev_app s "") = s.
Proof. unfold string_rev, String.rev. rewrite rev_app_rev_app. cbn. apply string_app_nil_r. Qed.

Lemma rev_app_append (a b : string) : String.rev_app a b = String.rev_app a "" +:+ b.
Proof.
  revert b. induction a as [|c a IH]; intros b; [done|]. cbn.
  rewrite IH, (IH (String c "")), string_app_assoc. done.
Qed.

Lemma split_go_acc sep cur s :
  split_go sep cur s = match Split s sep with x :: l => (string_rev cur +:+ x) :: l | [] => [] end.
Proof.
  unfold Split. revert cur. induction s as [|c s IH]; intros cur; cbn [split_go].
  - by rewrite string_app_nil_r.
  - destruct (decide (c = sep)); [by rewrite string_app_nil_r|].
    rewrite IH, (IH (String c "")). destruct (split_go sep "" s) as [|x l]; [done|]. f_equal.
    unfold string_rev, String.rev. cbn. rewrite (rev_app_append cur), string_app_assoc. done.
Qed.

Lemma Split_cons sep c s :
  Split (String c s) sep
  = if decide (c = sep) then "" :: Split s sep
    else match Split s sep with x :: l => String c x :: l | [] => [] end.
Proof.
  unfold Split at 1. cbn [split_go]. destruct (decide (c = sep)); [done|]. by rewrite split_go_acc.
Qed.

Lemma Split_app_plain sep a s :
  contains_char sep a = false →
  Split (a +:+ s) sep = match Split s sep with x :: l => (a +:+ x) :: l | [] => [] end.
Proof.
  induction a as [|c a IH]; intros H.
  - rewrite string_app_nil_l. by destruct (Split s sep).
  - rewrite string_app_cons, Split_cons. cbn [contains_char] in H. destruct (decide (c = sep)); [done|].
    rewrite IH by done. by destruct (Split s sep).
Qed.

(** ** Prefixes of a string *)

Lemma substring_add a n (s : string) :
  (a + n ≤ String.length s)%nat →
  String.substring 0 (a + n) s = String.substring 0 a s +:+ String.substring a n s.
Proof.
  revert a. induction s as [|c s IH]; intros a H; cbn [String.length] in H.
  - by assert (a = 0 ∧ n = 0)%nat as [-> ->] by lia.
  - destruct a as [|a]; [done|]. cbn [Nat.add].
    change (String.substring 0 (S (a + n)) (String c s)) with (String c (String.substring 0 (a + n) s)).
    change (String.substring 0 (S a) (String c s)) with (String c (String.substring 0 a s)).
    change (String.substring (S a) n (String c s)) with (String.substring a n s).
    rewrite string_app_cons. by rewrite IH by lia.
Qed.

Lemma substring_app n (s t : string) :
  (n ≤ String.length s)%nat → String.substring 0 n (s +:+ t) = String.substring 0 n s.
Proof.
  revert n. induction s as [|c s IH]; intros n H; cbn [String.length] in H.
  - assert (n = 0%nat) as -> by lia. by destruct t.
  - destruct n as [|n]; [done|]. rewrite string_app_cons.
    change (String c (String.substring 0 n (s +:+ t)) = String c (String.substring 0 n s)). by rewrite IH by lia.
Qed.

Lemma substring_prefix n (s : string) : ∃ t, s = String.substring 0 n s +:+ t.
Proof.
  revert n. induction s as [|c s IH]; intros n; [by exists ""; destruct n|].
  destruct n as [|n]; [by exists (String c s)|]. destruct (IH n) as [t Ht]. exists t.
  change (String.substring 0 (S n) (String c s)) with (String c (String.substring 0 n s)).
  rewrite string_app_cons. by rewrite <- Ht.
Qed.
