(* ===== verification/Flags.v ===== *)
(** * Command-line flags: what the commands use of Go's [flag] package

    A flag set over an options record [O] is a list of flags, each with a setter.
    [Parse] is [FlagSet.Parse] under [ExitOnError]: it returns the options and
    the arguments left over, or the process exits with a status. *)

From S2P Require Import Prelude GoFmt GoStrings.
From Stdlib Require Import Ascii.

Record flag (O : Type) : Type := Flag {
  fl_name : string;
  fl_bool : bool;
  fl_set : string → O → option O;
}.

Arguments Flag {O} _ _ _.
Arguments fl_name {O} _.
Arguments fl_bool {O} _.
Arguments fl_set {O} _ _ _.

(** [strconv.ParseBool]. *)
Definition ParseBool (s : string) : option bool :=
  if decide (s ∈ ["1"; "t"; "T"; "true"; "TRUE"; "True"]) then Some true
  else if decide (s ∈ ["0"; "f"; "F"; "false"; "FALSE"; "False"]) then Some false
  else None.

(** [StringVar], [IntVar] and [BoolVar], by the field they set. *)
Definition StringVar {O} (name : string) (set : string → O → O) : flag O :=
  Flag name false (λ v o, Some (set v o)).

Definition IntVar {O} (name : string) (set : Z → O → O) : flag O :=
  Flag name false (λ v o, match ParseInt0 v with Ok n => Some (set n o) | Err _ => None end).

Definition BoolVar {O} (name : string) (set : bool → O → O) : flag O :=
  Flag name true (λ v o, (λ b, set b o) <$> ParseBool v).

(** ** [parseOne] *)

(** [name[=value]], where the first byte of the name is not looked at. *)
Fixpoint cut_equals (s : string) : string * option string :=
  match s with
  | EmptyString => (EmptyString, None)
  | String c s =>
      if decide (c = "="%char) then (EmptyString, Some s)
      else let '(name, value) := cut_equals s in (String c name, value)
  end.

(** What an argument is to [parseOne]: not a flag, the terminator [--], bad
    syntax, or a flag with perhaps a value. *)
Inductive argument : Type :=
| NonFlag
| Terminator
| BadSyntax
| FlagArg (name : string) (value : option string).

Definition flag_of (body : string) : argument :=
  match body with
  | EmptyString => BadSyntax
  | String c rest =>
      if decide (c = "-"%char ∨ c = "="%char) then BadSyntax
      else let '(name, value) := cut_equals rest in FlagArg (String c name) value
  end.

Definition classify (s : string) : argument :=
  match s with
  | String "-" (String "-" EmptyString) => Terminator
  | String "-" (String "-" body) => flag_of body
  | String "-" (String c body) => flag_of (String c body)
  | _ => NonFlag
  end.

Fixpoint find_flag {O} (flags : list (flag O)) (name : string) : option (flag O) :=
  match flags with
  | [] => None
  | f :: flags => if String.eqb f.(fl_name) name then Some f else find_flag flags name
  end.

(** [Err 0]: help was asked for; [Err 2]: a parse error. *)
Fixpoint Parse {O} (flags : list (flag O)) (args : list string) (o : O) : result Z (O * list string) :=
  match args with
  | [] => Ok (o, [])
  | s :: rest =>
      match classify s with
      | NonFlag => Ok (o, args)
      | Terminator => Ok (o, rest)
      | BadSyntax => Err 2%Z
      | FlagArg name value =>
          match find_flag flags name with
          | None => Err (if decide (name = "help" ∨ name = "h") then 0 else 2)%Z
          | Some f =>
              match value, rest with
              | Some v, _ =>
                  match f.(fl_set) v o with Some o => Parse flags rest o | None => Err 2%Z end
              | None, v :: rest' =>
                  if f.(fl_bool)
                  then match f.(fl_set) "true" o with Some o => Parse flags rest o | None => Err 2%Z end
                  else match f.(fl_set) v o with Some o => Parse flags rest' o | None => Err 2%Z end
              | None, [] =>
                  if f.(fl_bool)
                  then match f.(fl_set) "true" o with Some o => Ok (o, []) | None => Err 2%Z end
                  else Err 2%Z
              end
          end
      end
  end.

(** ** Lemmas *)

(** [--name=value], for a name without [=]. *)
Lemma cut_equals_app name value :
  contains_char "=" name = false → cut_equals (name +:+ String "=" value) = (name, Some value).
Proof.
  induction name as [|c name IH]; [done|]. rewrite string_app_cons. cbn.
  case_decide; [done|]. intros Hn. by rewrite IH.
Qed.

(** A name a flag may have: non-empty, without [=], not starting with [-]. *)
Definition flag_name (name : string) : bool :=
  match name with
  | EmptyString => false
  | String c rest => negb (bool_decide (c = "-"%char)) && negb (contains_char "=" name)
  end.

Lemma classify_long name value :
  flag_name name = true →
  classify ("--" +:+ name +:+ String "=" value) = FlagArg name (Some value).
Proof.
  destruct name as [|c name]; [done|]. cbn [flag_name contains_char].
  rewrite andb_true_iff, !negb_true_iff, bool_decide_eq_false. intros [Hc Heq].
  case_decide; [done|]. rewrite !string_app_cons.
  change (classify (String "-" (String "-" (String c (name +:+ String "=" value))))
          = FlagArg (String c name) (Some value)).
  unfold classify. cbn [classify flag_of]. rewrite decide_False by naive_solver.
  by rewrite cut_equals_app.
Qed.

(** One step of [Parse] on a flag given as [--name=value]. *)
Lemma Parse_long {O} (flags : list (flag O)) f name value args o o' :
  flag_name name = true → find_flag flags name = Some f → f.(fl_set) value o = Some o' →
  Parse flags (("--" +:+ name +:+ String "=" value) :: args) o = Parse flags args o'.
Proof.
  intros Hn Hf Hs. cbn [Parse]. by rewrite classify_long, Hf, Hs.
Qed.
