(* ===== verification/GoNet.v ===== *)
(** * Addresses: what the runner uses of Go's [net] package

    [net.ParseIP] (only whether it accepts), [net.HardwareAddr.String] and the
    quoting of a MAC by [%q]. *)

From S2P Require Import Prelude GoFmt GoStrings.
From Stdlib Require Import Ascii.

Local Open Scope Z_scope.

(** ** [netip.ParseAddr] *)

Definition dot : ascii := "."%char.
Definition colon : ascii := ":"%char.

(** [parseIPv4Fields]: [val] and [digits] are the value and the length of the
    octet being read, [pos] the number of octets before it. A dot needs a digit
    before it and a byte after it. *)
Fixpoint ipv4_go (s : string) (pos digits : nat) (val : Z) : bool :=
  match s with
  | EmptyString => bool_decide (pos = 3%nat)
  | String c rest =>
      if between 48 57 (byte_val c) then
        if bool_decide (digits = 1%nat) && (val =? 0) then false
        else
          let val := val * 10 + (byte_val c - 48) in
          if 255 <? val then false else ipv4_go rest pos (S digits) val
      else if decide (c = dot) then
        if bool_decide (digits = 0%nat) || String.eqb rest "" || bool_decide (pos = 3%nat)
        then false
        else ipv4_go rest (S pos) 0 0
      else false
  end.

Definition parseIPv4 (s : string) : bool := ipv4_go s 0 0 0.

Definition is_hexdigit (c : ascii) : bool :=
  between 48 57 (byte_val c) || between 97 102 (byte_val c) || between 65 70 (byte_val c).

(** The number of leading hexadecimal digits, and what follows them. *)
Fixpoint hex_run (s : string) : nat * string :=
  match s with
  | EmptyString => (0%nat, s)
  | String c rest =>
      if is_hexdigit c then let '(n, r) := hex_run rest in (S n, r) else (0%nat, s)
  end.

(** The loop of [parseIPv6]: [i] bytes are filled, [ellipsis] tells whether [::]
    was met. Up to eight fields are read, hence the fuel of nine. *)
Fixpoint ipv6_go (fuel : nat) (s : string) (i : nat) (ellipsis : bool) : bool :=
  let finish (s : string) (i : nat) (ellipsis : bool) :=
    String.eqb s "" && (if bool_decide (i < 16)%nat then ellipsis else negb ellipsis) in
  match fuel with
  | O => false
  | S fuel =>
      if bool_decide (16 ≤ i)%nat then finish s i ellipsis
      else
        let '(off, rest) := hex_run s in
        if bool_decide (off = 0 ∨ 4 < off)%nat then false
        else
          match rest with
          | EmptyString => finish "" (i + 2)%nat ellipsis
          | String c more =>
              if decide (c = dot) then
                if negb ellipsis && negb (bool_decide (i = 12%nat)) then false
                else if bool_decide (16 < i + 4)%nat then false
                else parseIPv4 s && finish "" (i + 4)%nat ellipsis
              else if decide (c = colon) then
                match more with
                | EmptyString => false
                | String d more' =>
                    if decide (d = colon) then
                      if ellipsis then false
                      else if String.eqb more' "" then finish "" (i + 2)%nat true
                      else ipv6_go fuel more' (i + 2)%nat true
                    else ipv6_go fuel more (i + 2)%nat ellipsis
                end
              else false
          end
  end.

Definition parseIPv6 (s : string) : bool :=
  match strip_prefix "::" s with
  | Some rest => if String.eqb rest "" then true else ipv6_go 9 rest 0 true
  | None => ipv6_go 9 s 0 false
  end.

(** The first byte that tells the families apart. *)
Fixpoint ip_family (s : string) : option bool :=
  match s with
  | EmptyString => None
  | String c s =>
      if decide (c = dot) then Some false
      else if decide (c = colon) then Some true
      else if decide (c = "%"%char) then None
      else ip_family s
  end.

(** [net.ParseIP(s) != nil]: an address without a zone. *)
Definition ParseIP_ok (s : string) : bool :=
  match ip_family s with
  | None => false
  | Some false => parseIPv4 s
  | Some true => if contains_char "%" s then false else parseIPv6 s
  end.

(** [netip.ParseAddr(s)] succeeds: an IPv6 address may have a non-empty zone. *)
Definition ParseAddr_ok (s : string) : bool :=
  match ip_family s with
  | None => false
  | Some false => parseIPv4 s
  | Some true =>
      if contains_char "%" s
      then parseIPv6 (before "%" s) && negb (String.eqb (before "%" s +:+ "%") s)
      else parseIPv6 s
  end.

Example ParseIP_examples :
  map ParseIP_ok ["10.96.0.10"; "fd00::10"; "::"; "::ffff:1.2.3.4"; "1:2:3:4:5:6:7:8"; "1:2:3:4:5:6:1.2.3.4"]
    = repeat true 6
  ∧ map ParseIP_ok [""; "10.96.0"; "010.1.1.1"; "256.1.1.1"; "1.2.3.4.5"; "fe80::1%eth0"; "1::2::3";
                    "1:2:3:4:5:6:7:8:9"; "1:2:3:4:5:6:7::8"; "12345::"; "kube-dns"; "1:2"]
    = repeat false 12.
Proof. vm_compute. split; reflexivity. Qed.

(** ** [net.HardwareAddr.String] *)

Fixpoint HardwareAddr_String (b : string) : string :=
  match b with
  | EmptyString => EmptyString
  | String c EmptyString => hex_encode (String c EmptyString)
  | String c rest => hex_encode (String c EmptyString) +:+ String colon (HardwareAddr_String rest)
  end.

(** ** Lemmas *)

(** The bytes an address is written with. *)
Definition is_ip_char (c : ascii) : bool :=
  is_hexdigit c || bool_decide (c = dot) || bool_decide (c = colon).

Lemma ipv4_go_chars s pos digits val :
  ipv4_go s pos digits val = true → string_forall is_ip_char s = true.
Proof.
  revert pos digits val. induction s as [|c s IH]; intros pos digits val H; cbn in *; [done|].
  unfold is_ip_char at 1. unfold is_hexdigit.
  repeat case_in H; simplify_eq; try done; try rewrite E; cbn; try (by eapply IH).
Qed.

Lemma hex_run_chars s off rest :
  hex_run s = (off, rest) → string_forall is_ip_char rest = true → string_forall is_ip_char s = true.
Proof.
  revert off. induction s as [|c s IH]; intros off H; cbn in *; [by simplify_eq|].
  destruct (is_hexdigit c) eqn:Hc; [|by simplify_eq].
  destruct (hex_run s) as [n r] eqn:Hr. simplify_eq. intros Hrest.
  unfold is_ip_char at 1. rewrite Hc. cbn. by eapply IH.
Qed.

Lemma ipv6_go_chars fuel s i ellipsis :
  ipv6_go fuel s i ellipsis = true → string_forall is_ip_char s = true.
Proof.
  revert s i ellipsis. induction fuel as [|fuel IH]; intros s i ellipsis H; [done|].
  cbn [ipv6_go] in H. case_bool_decide.
  { apply andb_true_iff in H as [->%String.eqb_eq _]. done. }
  destruct (hex_run s) as [off rest] eqn:Hrun. case_bool_decide; [done|].
  destruct rest as [|c more]; [by eapply hex_run_chars|].
  case_decide as Hdot.
  { destruct (negb ellipsis && _); [done|]. case_bool_decide; [done|].
    apply andb_true_iff in H as [H _]. by eapply ipv4_go_chars. }
  case_decide as Hcolon; [|done]. subst c. eapply hex_run_chars; [done|].
  destruct more as [|d more']; [done|]. case_decide.
  - subst d. destruct ellipsis; [done|]. destruct (String.eqb_spec more' "") as [->|]; [done|].
    apply IH in H. exact H.
  - apply IH in H. exact H.
Qed.

Lemma ParseIP_chars s : ParseIP_ok s = true → string_forall is_ip_char s = true.
Proof.
  unfold ParseIP_ok. destruct (ip_family s) as [[]|]; [|apply ipv4_go_chars|done].
  destruct (contains_char _ s); [done|]. unfold parseIPv6.
  destruct (strip_prefix "::" s) as [rest|] eqn:Hp; [|apply ipv6_go_chars].
  apply strip_prefix_Some in Hp as ->. rewrite string_forall_app.
  destruct (String.eqb_spec rest "") as [->|]; [done|]. by intros ->%ipv6_go_chars.
Qed.
