(* ===== verification/Sha256.v ===== *)
(** * SHA-256, as [crypto/sha256] computes it (FIPS 180-4)

    The sources hash sandbox IDs ([sandboxName] of internal/server/server.go)
    and the provider plugin ([fileSHA256] of cmd/peer-pod-node/main.go). The
    definition is executable and is run on test vectors at the end of the file,
    among them the one of the repository's own test. *)

From S2P Require Import Prelude GoFmt.

Local Open Scope Z_scope.

Definition word (z : Z) : Z := z mod 2 ^ 32.

Definition rotr (n x : Z) : Z := Z.lor (Z.shiftr x n) (word (Z.shiftl x (32 - n))).

Definition ch (x y z : Z) : Z := Z.lxor (Z.land x y) (Z.land (2 ^ 32 - 1 - x) z).
Definition maj (x y z : Z) : Z := Z.lxor (Z.lxor (Z.land x y) (Z.land x z)) (Z.land y z).
Definition big_sigma0 (x : Z) : Z := Z.lxor (Z.lxor (rotr 2 x) (rotr 13 x)) (rotr 22 x).
Definition big_sigma1 (x : Z) : Z := Z.lxor (Z.lxor (rotr 6 x) (rotr 11 x)) (rotr 25 x).
Definition small_sigma0 (x : Z) : Z := Z.lxor (Z.lxor (rotr 7 x) (rotr 18 x)) (Z.shiftr x 3).
Definition small_sigma1 (x : Z) : Z := Z.lxor (Z.lxor (rotr 17 x) (rotr 19 x)) (Z.shiftr x 10).

(** *** Constants, from their definition in the standard: the first 32 bits of the
    fractional parts of the cube roots of the first 64 primes, and of the square
    roots of the first eight. *)

Definition is_prime (n : Z) : bool :=
  (2 <=? n) && forallb (λ d, negb (n mod Z.of_nat d =? 0)) (seq 2 (Z.to_nat n - 2)).

(** 311 is the 64th prime. *)
Definition primes : list Z := List.filter is_prime (map Z.of_nat (seq 2 310)).

(** The integer cube root of [n] in [lo, lo + 2^bits), bit by bit. *)
Fixpoint cbrt_from (bits : nat) (lo n : Z) : Z :=
  match bits with
  | O => lo
  | S bits =>
      let mid := lo + 2 ^ Z.of_nat bits in
      cbrt_from bits (if mid ^ 3 <=? n then mid else lo) n
  end.

Definition cbrt_fraction (p : Z) : Z := word (cbrt_from 36 0 (p * 2 ^ 96)).
Definition sqrt_fraction (p : Z) : Z := word (Z.sqrt (p * 2 ^ 64)).

Definition round_constants : list Z := Eval vm_compute in map cbrt_fraction primes.
Definition initial_words : list Z := Eval vm_compute in map sqrt_fraction (firstn 8 primes).

(** The eight working variables. *)
Record hash_state : Type := mk_hash_state {
  hs_a : Z; hs_b : Z; hs_c : Z; hs_d : Z; hs_e : Z; hs_f : Z; hs_g : Z; hs_h : Z
}.

Definition initial_hash : hash_state :=
  let w i := nth i initial_words 0 in
  mk_hash_state (w 0%nat) (w 1%nat) (w 2%nat) (w 3%nat) (w 4%nat) (w 5%nat) (w 6%nat) (w 7%nat).

Definition round (s : hash_state) (kw : Z * Z) : hash_state :=
  let t1 := s.(hs_h) + big_sigma1 s.(hs_e) + ch s.(hs_e) s.(hs_f) s.(hs_g) + kw.1 + kw.2 in
  let t2 := big_sigma0 s.(hs_a) + maj s.(hs_a) s.(hs_b) s.(hs_c) in
  mk_hash_state (word (t1 + t2)) s.(hs_a) s.(hs_b) s.(hs_c)
                (word (s.(hs_d) + t1)) s.(hs_e) s.(hs_f) s.(hs_g).

(** The message schedule; [ws] holds the words so far, the newest first. *)
Fixpoint schedule (n : nat) (ws : list Z) : list Z :=
  match n with
  | O => reverse ws
  | S n =>
      let w i := nth i ws 0 in
      schedule n (word (small_sigma1 (w 1%nat) + w 6%nat + small_sigma0 (w 14%nat) + w 15%nat) :: ws)
  end.

Definition compress (s : hash_state) (block : list Z) : hash_state :=
  let r := foldl round s (zip round_constants (schedule 48 (reverse block))) in
  mk_hash_state (word (s.(hs_a) + r.(hs_a))) (word (s.(hs_b) + r.(hs_b)))
                (word (s.(hs_c) + r.(hs_c))) (word (s.(hs_d) + r.(hs_d)))
                (word (s.(hs_e) + r.(hs_e))) (word (s.(hs_f) + r.(hs_f)))
                (word (s.(hs_g) + r.(hs_g))) (word (s.(hs_h) + r.(hs_h))).

(** *** Bytes, words and padding *)

Fixpoint bytes_of_string (s : string) : list Z :=
  match s with
  | EmptyString => []
  | String c s => byte_val c :: bytes_of_string s
  end.

Fixpoint string_of_bytes (l : list Z) : string :=
  match l with
  | [] => EmptyString
  | b :: l => String (byte_chr b) (string_of_bytes l)
  end.

(** The [n] big-endian bytes of [z]. *)
Fixpoint be_bytes (n : nat) (z : Z) : list Z :=
  match n with
  | O => []
  | S n => Z.shiftr z (8 * Z.of_nat n) mod 256 :: be_bytes n z
  end.

Definition pad (msg : list Z) : list Z :=
  let len := Z.of_nat (length msg) in
  msg ++ [0x80] ++ replicate (Z.to_nat ((55 - len) mod 64)) 0 ++ be_bytes 8 (8 * len).

Fixpoint words_of_bytes (l : list Z) : list Z :=
  match l with
  | a :: b :: c :: d :: l => (((a * 256 + b) * 256 + c) * 256 + d) :: words_of_bytes l
  | _ => []
  end.

(** [fuel] bounds the number of 16-word blocks. *)
Fixpoint compress_blocks (fuel : nat) (s : hash_state) (ws : list Z) : hash_state :=
  match fuel, ws with
  | S fuel, _ :: _ => compress_blocks fuel (compress s (take 16 ws)) (drop 16 ws)
  | _, _ => s
  end.

(** [sha256.Sum256]: the 32 bytes of the digest. *)
Definition Sum256 (msg : string) : string :=
  let ws := words_of_bytes (pad (bytes_of_string msg)) in
  let s := compress_blocks (length ws) initial_hash ws in
  string_of_bytes (be_bytes 4 s.(hs_a) ++ be_bytes 4 s.(hs_b) ++ be_bytes 4 s.(hs_c)
    ++ be_bytes 4 s.(hs_d) ++ be_bytes 4 s.(hs_e) ++ be_bytes 4 s.(hs_f)
    ++ be_bytes 4 s.(hs_g) ++ be_bytes 4 s.(hs_h)).

(** ** Lemmas and test vectors *)

Lemma length_string_of_bytes l : String.length (string_of_bytes l) = length l.
Proof. induction l as [|b l IH]; [done|]. cbn. by rewrite IH. Qed.

Lemma length_be_bytes n z : length (be_bytes n z) = n.
Proof. induction n as [|n IH]; [done|]. cbn. by rewrite IH. Qed.

Lemma Sum256_length msg : String.length (Sum256 msg) = 32%nat.
Proof.
  unfold Sum256. rewrite length_string_of_bytes, !length_app, !length_be_bytes. done.
Qed.

Example sha256_empty :
  hex_encode (Sum256 "") = "e3b0c44298fc1c149afbf4c8996fb92427ae41e4649b934ca495991b7852b855".
Proof. vm_compute. reflexivity. Qed.

Example sha256_abc :
  hex_encode (Sum256 "abc") = "ba7816bf8f01cfea414140de5dae2223b00361a396177a9cb410ff61f20015ad".
Proof. vm_compute. reflexivity. Qed.

(** The vector of [TestFileSHA256] (cmd/peer-pod-node/main_test.go). *)
Example sha256_provider :
  hex_encode (Sum256 "provider") = "5c4c1964340aca5b65393bbe9d3249cdd71be26665b3320ad694f034f2743283".
Proof. vm_compute. reflexivity. Qed.

(** Two blocks of padded message. *)
Example sha256_two_blocks :
  hex_encode (Sum256 "abcdbcdecdefdefgefghfghighijhijkijkljklmklmnlmnomnopnopq")
  = "248d6a61d20638b8e5c026930c3e6039a33ce45964ff2167f6ecedd419db06c1".
Proof. vm_compute. reflexivity. Qed.
