(* ===== verification/Prog.v ===== *)
(** * Effectful Go functions as programs over calls

    A handler talks to its surroundings: the Kubernetes API, the clock, the
    operating system. It is modelled by a [prog E A]: a finite tree whose nodes
    are the calls it makes, in order, each with one continuation per answer, and
    whose leaves are its results. The tree says nothing about how a call is
    answered, so a theorem about all the executions of a program ([exec]) holds
    whatever the surroundings do; [run] executes it against a concrete
    surrounding, which is how witnesses evaluate. *)

From S2P Require Import Prelude.

(** ** Signatures and programs *)

Structure effects : Type := Effects {
  call :> Type;
  answer : call → Type;
}.

Arguments answer {_} _.

Inductive prog (E : effects) (A : Type) : Type :=
| Ret (a : A)
| Call (c : E) (k : answer c → prog E A).

Arguments Ret {E A} a.
Arguments Call {E A} c k.

Fixpoint bind {E A B} (p : prog E A) (f : A → prog E B) : prog E B :=
  match p with
  | Ret a => f a
  | Call c k => Call c (λ r, bind (k r) f)
  end.

Definition perform {E : effects} (c : E) : prog E (answer c) := Call c Ret.

Declare Scope prog_scope.
Delimit Scope prog_scope with prog.
Open Scope prog_scope.

Notation "'let!' x ':=' p 'in' k" := (bind p (λ x, k))
  (at level 200, x pattern, p at level 100, k at level 200) : prog_scope.
Notation "p ';;;' k" := (bind p (λ _, k))
  (at level 199, right associativity) : prog_scope.

(** A loop over a list that stops at the first error. *)
Fixpoint each {E : effects} {X F} (body : X → prog E (result F unit)) (l : list X)
    : prog E (result F unit) :=
  match l with
  | [] => Ret (Ok tt)
  | x :: l =>
      let! r := body x in
      match r with Ok _ => each body l | Err e => Ret (Err e) end
  end.

(** ** Executions *)

(** One call with the answer it got. *)
Record event (E : effects) : Type := Ev { ev_call : E; ev_answer : answer ev_call }.

Arguments Ev {E} ev_call ev_answer.
Arguments ev_call {E} _.
Arguments ev_answer {E} _.

(** [exec p t a]: [p] can make the calls of [t], get the answers of [t], and
    then return [a]. *)
Fixpoint exec {E A} (p : prog E A) (t : list (event E)) (a : A) : Prop :=
  match p, t with
  | Ret b, [] => a = b
  | Call c k, e :: t => ∃ r, e = Ev c r ∧ exec (k r) t a
  | _, _ => False
  end.

(** [run h s p]: the execution of [p] in which [h] answers, from state [s]. *)
Fixpoint run {E : effects} {S A} (h : S → ∀ c : E, S * answer c) (s : S) (p : prog E A) : S * A :=
  match p with
  | Ret a => (s, a)
  | Call c k => let '(s', r) := h s c in run h s' (k r)
  end.

Fixpoint run_trace {E : effects} {S A} (h : S → ∀ c : E, S * answer c) (s : S) (p : prog E A)
    : list (event E) :=
  match p with
  | Ret _ => []
  | Call c k => let '(s', r) := h s c in Ev c r :: run_trace h s' (k r)
  end.

(** Every result of a program satisfies [P], whatever is answered. *)
Fixpoint returns {E A} (P : A → Prop) (p : prog E A) : Prop :=
  match p with
  | Ret a => P a
  | Call c k => ∀ r, returns P (k r)
  end.

(** Every call a program can make satisfies [P]. *)
Fixpoint calls {E : effects} {A} (P : E → Prop) (p : prog E A) : Prop :=
  match p with
  | Ret _ => True
  | Call c k => P c ∧ ∀ r, calls P (k r)
  end.

(** [after p t q]: [p], having made the calls of [t], is left with [q]. *)
Fixpoint after {E A} (p : prog E A) (t : list (event E)) (q : prog E A) {struct t} : Prop :=
  match t with
  | [] => q = p
  | e :: t => match p with Call c k => ∃ r, e = Ev c r ∧ after (k r) t q | Ret _ => False end
  end.

(** ** A calculus for executions with a ghost state

    [wp R p Q g] : from ghost state [g], every call of [p] is allowed by
    [R.(allowed)], and, as long as the answers are among [R.(answers)], every
    result satisfies [Q] in the ghost state reached. *)

Record rely (E : effects) (G : Type) : Type := Rely {
  allowed : G → E → Prop;
  answers : G → ∀ c : E, answer c → G → Prop;
}.

Arguments Rely {E G} _ _.
Arguments allowed {E G} _ _ _.
Arguments answers {E G} _ _ _ _ _.

Fixpoint wp {E G A} (R : rely E G) (p : prog E A) (Q : G → A → Prop) (g : G) : Prop :=
  match p with
  | Ret a => Q g a
  | Call c k => R.(allowed) g c ∧ ∀ r g', R.(answers) g c r g' → wp R (k r) Q g'
  end.

(** The ghost state that records the history of calls and answers, with a
    condition [ok] on each answer and a condition [may] on each call, which can
    look at the history. *)
Definition history {E : effects} (may : list (event E) → E → Prop) (ok : event E → Prop)
    : rely E (list (event E)) :=
  Rely may (λ h c r h', ok (Ev c r) ∧ h' = h ++ [Ev c r]).

(** A ghost state that every answer updates by [step]. *)
Definition tracked {E : effects} {G} (may : G → E → Prop) (step : G → event E → G) : rely E G :=
  Rely may (λ g c r g', g' = step g (Ev c r)).

(** Every call of a trace is allowed by the history before it. *)
Definition allowed_along {E : effects} (may : list (event E) → E → Prop) (h t : list (event E)) : Prop :=
  ∀ t1 e t2, t = t1 ++ e :: t2 → may (h ++ t1) (ev_call e).

(** ** Lemmas *)

Section lemmas.
Context {E : effects}.

Lemma exec_ret_inv {A} (a b : A) (t : list (event E)) : exec (Ret b) t a → t = [] ∧ a = b.
Proof. by destruct t. Qed.

Lemma exec_call_inv {A} c (k : answer c → prog E A) (t : list (event E)) a :
  exec (Call c k) t a → ∃ r t', t = Ev c r :: t' ∧ exec (k r) t' a.
Proof. destruct t as [|e t]; [done|]. intros (r & -> & H). eauto. Qed.

Lemma bind_assoc {A B C} (p : prog E A) (f : A → prog E B) (g : B → prog E C) t c :
  exec (bind (bind p f) g) t c ↔ exec (bind p (λ a, bind (f a) g)) t c.
Proof.
  revert t. induction p as [a|c' k IH]; intros t; [done|].
  destruct t as [|e t]; [done|]. cbn. by setoid_rewrite IH.
Qed.

Lemma exec_bind {A B} (p : prog E A) (f : A → prog E B) t b :
  exec (bind p f) t b ↔ ∃ t1 t2 a, t = t1 ++ t2 ∧ exec p t1 a ∧ exec (f a) t2 b.
Proof.
  revert t. induction p as [a|c k IH]; intros t.
  - split.
    + intros Hf. by exists [], t, a.
    + by intros (t1 & t2 & a' & -> & Hp & Hf); destruct t1; [cbn in Hp; subst|].
  - destruct t as [|e t]; cbn.
    + split; [done|]. by intros ([|] & t2 & a & Ht & Hp & _).
    + setoid_rewrite IH. split.
      * intros (r & -> & t1 & t2 & a & -> & Hp & Hf).
        exists (Ev c r :: t1), t2, a. eauto.
      * intros ([|e' t1] & t2 & a & Ht & Hp & Hf); [done|].
        injection Ht as <- ->. destruct Hp as (r & -> & Hp). eauto 10.
Qed.

(** An execution exists against every surrounding: [run] is one. *)
Lemma run_exec {S A} (h : S → ∀ c : E, S * answer c) s (p : prog E A) :
  exec p (run_trace h s p) (run h s p).2.
Proof.
  revert s. induction p as [a|c k IH]; intros s; [done|].
  cbn. destruct (h s c) as [s' r] eqn:Hh. cbn. eauto.
Qed.

Lemma run_bind {S A B} (h : S → ∀ c : E, S * answer c) s (p : prog E A) (f : A → prog E B) :
  run h s (bind p f) = let '(s', a) := run h s p in run h s' (f a).
Proof. revert s. induction p as [a|c k IH]; intros s; [done|]. cbn. destruct (h s c). apply IH. Qed.

Lemma returns_exec {A} (P : A → Prop) (p : prog E A) t a : returns P p → exec p t a → P a.
Proof.
  revert t. induction p as [b|c k IH]; intros t Hp Hx.
  - apply exec_ret_inv in Hx as [_ ->]. done.
  - apply exec_call_inv in Hx as (r & t' & _ & Hx). by eapply IH.
Qed.

Lemma returns_bind {A B} (P : B → Prop) (p : prog E A) (f : A → prog E B) :
  returns (λ a, returns P (f a)) p → returns P (bind p f).
Proof. induction p as [a|c k IH]; cbn; auto. Qed.

Lemma returns_mono {A} (P Q : A → Prop) (p : prog E A) : (∀ a, P a → Q a) → returns P p → returns Q p.
Proof. intros HPQ. induction p as [a|c k IH]; cbn; auto. Qed.

Lemma calls_bind {A B} (P : E → Prop) (p : prog E A) (f : A → prog E B) :
  calls P p → (∀ a, calls P (f a)) → calls P (bind p f).
Proof. intros Hp Hf. induction p as [a|c k IH]; cbn in *; [done|]. split; [apply Hp|]. intros r. apply IH, Hp. Qed.

Lemma calls_exec {A} (P : E → Prop) (p : prog E A) t a : calls P p → exec p t a → Forall (λ e, P (ev_call e)) t.
Proof.
  revert t. induction p as [b|c k IH]; intros t Hc Hx; [by apply exec_ret_inv in Hx as [-> _]|].
  apply exec_call_inv in Hx as (r & t' & -> & Hx). destruct Hc as [Hc Hk]. constructor; [done|]. by eapply IH.
Qed.

Lemma after_exec {A} (p : prog E A) t a : after p t (Ret a) → exec p t a.
Proof.
  revert p. induction t as [|e t IH]; intros p Hp; [by cbn in Hp; subst p|].
  destruct p as [b|c k]; [done|]. destruct Hp as (r & -> & Hp). exists r. split; [done|by apply IH].
Qed.

Lemma after_snoc {A} (p : prog E A) t c k r : after p t (Call c k) → after p (t ++ [Ev c r]) (k r).
Proof.
  revert p. induction t as [|e t IH]; intros p Hp; [cbn in Hp; subst p; by exists r|].
  destruct p as [b|c' k']; [done|]. destruct Hp as (r' & -> & Hp). exists r'. split; [done|by apply IH].
Qed.

Lemma after_calls {A} (P : E → Prop) (p : prog E A) t q : calls P p → after p t q → calls P q.
Proof.
  revert p. induction t as [|e t IH]; intros p Hc Hp; [by cbn in Hp; subst q|].
  destruct p as [b|c k]; [done|]. destruct Hp as (r & _ & Hp). destruct Hc as [_ Hc]. by eapply IH.
Qed.

Section wp.
Context {G : Type} (R : rely E G).

Lemma wp_mono {A} (p : prog E A) (Q Q' : G → A → Prop) g :
  (∀ g a, Q g a → Q' g a) → wp R p Q g → wp R p Q' g.
Proof.
  intros HQ. revert g. induction p as [a|c k IH]; intros g; cbn; [auto|].
  intros [Ha Hk]. split; [done|]. intros r g' Hr. apply IH, Hk, Hr.
Qed.

Lemma wp_bind {A B} (p : prog E A) (f : A → prog E B) Q g :
  wp R p (λ g a, wp R (f a) Q g) g → wp R (bind p f) Q g.
Proof.
  revert g. induction p as [a|c k IH]; intros g; cbn; [auto|].
  intros [Ha Hk]. split; [done|]. intros r g' Hr. apply IH, Hk, Hr.
Qed.

Lemma wp_call {A} (c : E) (k : answer c → prog E A) Q g :
  R.(allowed) g c → (∀ r g', R.(answers) g c r g' → wp R (k r) Q g') →
  wp R (Call c k) Q g.
Proof. done. Qed.

(** Adequacy: what [wp] proves holds of the run against any handler whose
    answers the rely admits. *)
Lemma wp_run {A} (h : G → ∀ c : E, G * answer c) (p : prog E A) Q g :
  (∀ g c, R.(allowed) g c → R.(answers) g c (h g c).2 (h g c).1) →
  wp R p Q g → Q (run h g p).1 (run h g p).2.
Proof.
  intros Hh. revert g. induction p as [a|c k IH]; intros g; cbn; [done|].
  intros [Ha Hk]. specialize (Hh g c Ha). destruct (h g c) as [g' r]. cbn in *. eauto.
Qed.
End wp.

(** Adequacy for the history: [wp] over [history may ok] bounds every execution
    whose answers satisfy [ok]. *)
Lemma wp_history_exec {A} may ok (p : prog E A) Q h t a :
  wp (history may ok) p Q h → exec p t a → Forall ok t →
  Q (h ++ t) a ∧ allowed_along may h t.
Proof.
  revert h t. induction p as [b|c k IH]; intros h t Hwp Hexec Hok.
  - destruct t; [|done]. cbn in *. subst b. rewrite app_nil_r. split; [done|].
    intros t1 e t2 Ht. by destruct t1.
  - destruct t as [|e t]; [done|]. destruct Hexec as (r & -> & Hexec).
    inv Hok. destruct Hwp as [Hmay Hk].
    destruct (IH r (h ++ [Ev c r]) t) as [HQ Hal]; [by apply Hk|done|done|].
    rewrite <- app_assoc in HQ. split; [exact HQ|].
    intros t1 e t2 Ht. destruct t1 as [|e1 t1]; injection Ht as <- ->.
    + by rewrite app_nil_r.
    + specialize (Hal t1 e t2 eq_refl). by rewrite <- app_assoc in Hal.
Qed.

(** What [wp] says of a program holds of what is left of it. *)
Lemma wp_history_after {A} may ok (p : prog E A) Q h t q :
  wp (history may ok) p Q h → after p t q → Forall ok t → wp (history may ok) q Q (h ++ t).
Proof.
  revert h p. induction t as [|e t IH]; intros h p Hwp Hp Hok; [cbn in Hp; subst q; by rewrite app_nil_r|].
  destruct p as [b|c k]; [done|]. destruct Hp as (r & -> & Hp). inv Hok. destruct Hwp as [_ Hk].
  specialize (IH (h ++ [Ev c r]) (k r)). rewrite <- app_assoc in IH. apply IH; [by apply Hk|done|done].
Qed.

(** Adequacy for a tracked ghost state. *)
Lemma wp_tracked_exec {G A} may step (p : prog E A) Q (g : G) t a :
  wp (tracked may step) p Q g → exec p t a →
  Q (foldl step g t) a ∧ ∀ t1 e t2, t = t1 ++ e :: t2 → may (foldl step g t1) (ev_call e).
Proof.
  revert g t. induction p as [b|c k IH]; intros g t Hwp Hexec.
  - destruct t; [|done]. cbn in *. subst b. split; [done|]. intros t1 e t2 Ht. by destruct t1.
  - destruct t as [|e t]; [done|]. destruct Hexec as (r & -> & Hexec). destruct Hwp as [Hmay Hk].
    destruct (IH r (step g (Ev c r)) t) as [HQ Hal]; [by apply Hk|done|].
    split; [exact HQ|]. intros t1 e t2 Ht. destruct t1 as [|e1 t1]; injection Ht as <- ->; [done|].
    by apply (Hal t1 e t2).
Qed.
End lemmas.

(** ** Tactics *)

(** Peel one call off an execution hypothesis, or finish it at a result. *)
Ltac exec_step H :=
  cbn [bind perform] in H;
  lazymatch type of H with
  | exec (Ret _) ?t _ =>
      let Ht := fresh "Ht" in let Ha := fresh "Ha" in
      apply exec_ret_inv in H as [Ht Ha]; try subst t; try subst
  | exec (Call ?c ?k) ?t _ =>
      let t' := fresh "t" in let r := fresh "r" in let He := fresh "He" in
      apply exec_call_inv in H as (r & t' & He & H); try subst t; cbn beta in H
  | exec (perform _) _ _ => unfold perform at 1 in H; exec_step H
  end.

(** [calls P p], call by call; [known] is what is known of the parts of [p]. *)
Ltac all_calls known :=
  repeat first [done | lazymatch goal with |- calls _ _ => apply known end | apply calls_bind; [|intros ?]
    | progress cbn [calls perform] | split; [done|intros ?] | case_match].

(** One step of [wp]. *)
Ltac wp_step :=
  lazymatch goal with
  | |- wp _ (bind (bind _ _) _) _ _ => apply wp_bind
  | |- wp _ (bind _ _) _ _ => apply wp_bind
  | |- wp _ (perform _) _ _ => apply wp_call
  | |- wp _ (Call _ _) _ _ => apply wp_call
  | |- wp _ (Ret _) _ _ => cbn [wp]
  end.
