(* ===== verification/Api.v ===== *)
(** * API types

    The PodSandbox and PodSandboxClass resources of api/v1alpha1, with the
    validation, defaulting and immutability their kubebuilder markers put on
    them, and the fields of the Kubernetes core types (metadata, Secret, Pod)
    that the sources read or write. Go's [nil] and empty slices and maps are
    both the empty list or map; no source distinguishes them. *)

From S2P Require Import Prelude.

Local Open Scope Z_scope.

(** ** Kubernetes metadata *)

(** [types.NamespacedName]: a cluster-scoped object has namespace [""]. *)
Record NamespacedName : Type := NN { nn_Namespace : string; nn_Name : string }.

#[export] Instance NamespacedName_eq_dec : EqDecision NamespacedName.
Proof. solve_decision. Defined.

#[export] Instance NamespacedName_countable : Countable NamespacedName.
Proof.
  refine (inj_countable' (λ n, (nn_Namespace n, nn_Name n)) (λ p, NN p.1 p.2) _).
  by intros [].
Defined.

Record OwnerReference : Type := mk_OwnerReference {
  or_APIVersion : string; or_Kind : string; or_Name : string; or_UID : string;
  or_Controller : bool; or_BlockOwnerDeletion : bool
}.

Record ObjectMeta : Type := mk_ObjectMeta {
  om_Name : string;
  om_Namespace : string;
  om_UID : string;
  om_Generation : Z;
  om_DeletionTimestamp : option Z;
  om_Labels : gmap string string;
  om_Annotations : gmap string string;
  om_OwnerReferences : list OwnerReference;
}.

(** A composite literal that sets only name and namespace. *)
Definition meta (name namespace : string) : ObjectMeta :=
  mk_ObjectMeta name namespace "" 0 None ∅ ∅ [].

Definition key_of_meta (m : ObjectMeta) : NamespacedName := NN m.(om_Namespace) m.(om_Name).

Definition LocalObjectReference : Type := string.

Inductive ConditionStatus : Type := ConditionTrue | ConditionFalse | ConditionUnknown.

#[export] Instance ConditionStatus_eq_dec : EqDecision ConditionStatus.
Proof. solve_decision. Defined.

(** [metav1.Condition]. *)
Record Condition : Type := mk_Condition {
  c_Type : string;
  c_Status : ConditionStatus;
  c_ObservedGeneration : Z;
  c_LastTransitionTime : Z;
  c_Reason : string;
  c_Message : string;
}.

#[export] Instance Condition_eq_dec : EqDecision Condition.
Proof. solve_decision. Defined.

(** ** PodSandbox *)

Definition ConditionReady : string := "Ready".
Definition ConditionProgressing : string := "Progressing".

Record WorkloadReference : Type := mk_WorkloadReference {
  wr_Namespace : string;
  wr_Name : string;
  wr_UID : string;
}.

#[export] Instance WorkloadReference_eq_dec : EqDecision WorkloadReference.
Proof. solve_decision. Defined.

Record PodSandboxSpec : Type := mk_PodSandboxSpec {
  ps_WorkloadRef : WorkloadReference;
  ps_SandboxID : string;
  ps_UserDataSecretRef : LocalObjectReference;
  ps_ClassName : string;
  ps_VCPUs : Z;
  ps_MemoryMiB : Z;
  ps_Arch : string;
}.

#[export] Instance PodSandboxSpec_eq_dec : EqDecision PodSandboxSpec.
Proof. solve_decision. Defined.

Record PodSandboxStatus : Type := mk_PodSandboxStatus {
  st_ObservedGeneration : Z;
  st_RunnerRef : option LocalObjectReference;
  st_NodeName : string;
  st_IPs : list string;
  st_Conditions : list Condition;
}.

#[export] Instance PodSandboxStatus_eq_dec : EqDecision PodSandboxStatus.
Proof. solve_decision. Defined.

Definition empty_status : PodSandboxStatus := mk_PodSandboxStatus 0 None "" [] [].

Record PodSandbox : Type := mk_PodSandbox {
  sb_meta : ObjectMeta;
  sb_Spec : PodSandboxSpec;
  sb_Status : PodSandboxStatus;
}.

Definition sandbox_key (s : PodSandbox) : NamespacedName := key_of_meta s.(sb_meta).

(** The CRD's checks on a spec, from the [+kubebuilder:validation] markers. *)
Definition spec_valid (s : PodSandboxSpec) : bool :=
  negb (String.eqb s.(ps_WorkloadRef).(wr_Name) "")
  && negb (String.eqb s.(ps_SandboxID) "")
  && negb (String.eqb s.(ps_ClassName) "")
  && (1 <=? s.(ps_VCPUs))
  && (128 <=? s.(ps_MemoryMiB)).

(** [XValidation:rule="self == oldSelf"]: an update keeps the spec. *)
Definition spec_update_valid (old new : PodSandboxSpec) : bool :=
  spec_valid new && bool_decide (new = old).

(** ** PodSandboxClass *)

(** [corev1.Toleration], copied to the runner Pod unread. *)
Record Toleration : Type := mk_Toleration {
  tol_Key : string; tol_Operator : string; tol_Value : string; tol_Effect : string;
  tol_TolerationSeconds : option Z
}.

Record PodSandboxClassSpec : Type := mk_PodSandboxClassSpec {
  pc_RunnerImage : string;
  pc_PodVMImage : string;
  pc_NetworkMTU : Z;
  pc_Annotations : gmap string string;
  pc_Labels : gmap string string;
  pc_NodeSelector : gmap string string;
  pc_Tolerations : list Toleration;
  pc_RuntimeAssetsDir : string;
  pc_MemoryOverheadMiB : Z;
}.

Record PodSandboxClass : Type := mk_PodSandboxClass {
  cl_meta : ObjectMeta;
  cl_Spec : PodSandboxClassSpec;
}.

(** The markers of the class: the range of an MTU that is present, the two
    images, and a non-negative overhead. The zero value of an [omitempty] field
    is not sent, so the check does not see it. *)
Definition class_valid (s : PodSandboxClassSpec) : bool :=
  negb (String.eqb s.(pc_RunnerImage) "")
  && negb (String.eqb s.(pc_PodVMImage) "")
  && ((s.(pc_NetworkMTU) =? 0) || ((576 <=? s.(pc_NetworkMTU)) && (s.(pc_NetworkMTU) <=? 9216)))
  && (0 <=? s.(pc_MemoryOverheadMiB)).

(** ** Secret *)

Record Secret : Type := mk_Secret {
  sec_meta : ObjectMeta;
  sec_Immutable : bool;
  sec_Data : gmap string string;
  sec_Type : string;
}.

Definition secret_key (s : Secret) : NamespacedName := key_of_meta s.(sec_meta).

(** [secret.Data[k]] converted to a string: [""] for a missing key. *)
Definition secret_data (s : Secret) (k : string) : string := default "" (s.(sec_Data) !! k).

(** ** Pod *)

(** [resource.Quantity]: built by [NewQuantity(n, DecimalSI)], or by
    [MustParse(text)]. *)
Inductive Quantity : Type :=
| NewQuantity (n : Z)
| MustParse (text : string).

Record VolumeMount : Type := mk_VolumeMount {
  vm_Name : string; vm_MountPath : string; vm_ReadOnly : bool
}.

Inductive VolumeSource : Type :=
| EmptyDir
| SecretVolume (secretName : string)
| HostPath (path : string) (type : string).

Record Volume : Type := mk_Volume { vol_Name : string; vol_Source : VolumeSource }.

Record SecurityContext : Type := mk_SecurityContext {
  sc_Privileged : bool; sc_AllowPrivilegeEscalation : bool; sc_RunAsUser : Z
}.

Record Probe : Type := mk_Probe {
  pr_Command : list string;
  pr_InitialDelaySeconds : Z; pr_PeriodSeconds : Z; pr_TimeoutSeconds : Z
}.

Record Container : Type := mk_Container {
  ct_Name : string;
  ct_Image : string;
  ct_ImagePullPolicy : string;
  ct_Args : list string;
  ct_Requests : gmap string Quantity;
  ct_Limits : gmap string Quantity;
  ct_SecurityContext : option SecurityContext;
  ct_VolumeMounts : list VolumeMount;
  ct_ReadinessProbe : option Probe;
}.

Record PodSpec : Type := mk_PodSpec {
  pod_NodeName : string;
  pod_NodeSelector : gmap string string;
  pod_Tolerations : list Toleration;
  pod_InitContainers : list Container;
  pod_Containers : list Container;
  pod_Volumes : list Volume;
  pod_RestartPolicy : string;
  pod_TerminationGracePeriodSeconds : option Z;
}.

Inductive PodPhase : Type :=
| PodPending | PodRunning | PodSucceeded | PodFailed | PodPhaseOther (phase : string).

Record PodCondition : Type := mk_PodCondition { pcd_Type : string; pcd_Status : ConditionStatus }.

Record ContainerStateTerminated : Type := mk_Terminated { tm_ExitCode : Z; tm_Message : string }.

Record ContainerStatus : Type := mk_ContainerStatus {
  cs_Name : string; cs_Terminated : option ContainerStateTerminated
}.

Record PodStatus : Type := mk_PodStatus {
  pst_Phase : PodPhase;
  pst_PodIP : string;
  pst_Conditions : list PodCondition;
  pst_ContainerStatuses : list ContainerStatus;
}.

Definition empty_pod_status : PodStatus := mk_PodStatus (PodPhaseOther "") "" [] [].

Record Pod : Type := mk_Pod {
  pod_meta : ObjectMeta;
  pod_Spec : PodSpec;
  pod_Status : PodStatus;
}.

Definition pod_key (p : Pod) : NamespacedName := key_of_meta p.(pod_meta).

(** ** Lemmas *)

Lemma spec_valid_capacity s :
  spec_valid s = true → 1 ≤ s.(ps_VCPUs) ∧ 128 ≤ s.(ps_MemoryMiB).
Proof. unfold spec_valid. rewrite !andb_true_iff, !Z.leb_le. tauto. Qed.

Lemma spec_update_valid_eq old new : spec_update_valid old new = true → new = old.
Proof. unfold spec_update_valid. rewrite andb_true_iff, bool_decide_eq_true. tauto. Qed.
