(* ===== verification/Kube.v ===== *)
(** * The Kubernetes API client

    The server and the controller talk to the Kubernetes API through
    controller-runtime's [client.Client]. That client, the API server behind it
    and [controllerutil.SetControllerReference] are other projects' code: they
    enter the model as calls ([kube_call]), as the documented contract of their
    answers ([kube_ok]) and, for theorems about stored objects, as the class
    [ApiServer] of stores with its laws. [Mem] is a concrete store, an instance
    of the class, against which programs run. *)

From S2P Require Import Prelude Prog Api.

(** ** Calls *)

Inductive kube_call : Type :=
| GetClass (name : string)
| GetSandbox (key : NamespacedName)
| ListSandboxes
| CreateSandbox (s : PodSandbox)
| DeleteSandbox (key : NamespacedName)
| PatchSandboxStatus (base modified : PodSandbox)
| GetSecret (key : NamespacedName)
| ListSecrets (namespace labelKey labelValue : string)
| CreateSecret (s : Secret)
| UpdateSecret (s : Secret)
| DeleteSecret (key : NamespacedName)
| GetPod (key : NamespacedName)
| CreatePod (p : Pod)
| DeletePod (key : NamespacedName).

(** [Create] and [Update] also fill in the object they were given: their [Ok]
    answer is that object afterwards. *)
Definition kube_answer (c : kube_call) : Type :=
  match c with
  | GetClass _ => result go_error PodSandboxClass
  | GetSandbox _ => result go_error PodSandbox
  | ListSandboxes => result go_error (list PodSandbox)
  | CreateSandbox _ => result go_error PodSandbox
  | DeleteSandbox _ => result go_error unit
  | PatchSandboxStatus _ _ => result go_error PodSandbox
  | GetSecret _ => result go_error Secret
  | ListSecrets _ _ _ => result go_error (list Secret)
  | CreateSecret _ => result go_error Secret
  | UpdateSecret _ => result go_error Secret
  | DeleteSecret _ => result go_error unit
  | GetPod _ => result go_error Pod
  | CreatePod _ => result go_error Pod
  | DeletePod _ => result go_error unit
  end.

(** The namespace a call reads or writes; [None] for cluster-scoped calls and
    for the list over all namespaces. *)
Definition call_namespace (c : kube_call) : option string :=
  match c with
  | GetClass _ | ListSandboxes => None
  | GetSandbox k | DeleteSandbox k | GetSecret k | DeleteSecret k | GetPod k | DeletePod k =>
      Some k.(nn_Namespace)
  | CreateSandbox s => Some s.(sb_meta).(om_Namespace)
  | PatchSandboxStatus _ s => Some s.(sb_meta).(om_Namespace)
  | ListSecrets ns _ _ => Some ns
  | CreateSecret s | UpdateSecret s => Some s.(sec_meta).(om_Namespace)
  | CreatePod p => Some p.(pod_meta).(om_Namespace)
  end.

(** Calls that change the cluster. *)
Definition is_mutation (c : kube_call) : bool :=
  match c with
  | GetClass _ | GetSandbox _ | ListSandboxes | GetSecret _ | ListSecrets _ _ _ | GetPod _ => false
  | _ => true
  end.

(** ** The contract of the answers

    What the client documents about a successful answer whatever the state of
    the cluster: [Get] returns the object of that name, [List] only objects that
    match, [Create] the object that was given with server-side fields filled in. *)
Definition kube_ok (c : kube_call) : kube_answer c → Prop :=
  match c return kube_answer c → Prop with
  | GetClass name => λ r, ∀ o, r = Ok o → o.(cl_meta).(om_Name) = name
  | GetSandbox k => λ r, ∀ o, r = Ok o → sandbox_key o = k
  | CreateSandbox x => λ r, ∀ o, r = Ok o →
      sandbox_key o = sandbox_key x ∧ o.(sb_Spec) = x.(sb_Spec)
  | PatchSandboxStatus _ x => λ r, ∀ o, r = Ok o → sandbox_key o = sandbox_key x
  | GetSecret k => λ r, ∀ o, r = Ok o → secret_key o = k
  | ListSecrets ns lk lv => λ r, ∀ l, r = Ok l →
      Forall (λ o, o.(sec_meta).(om_Namespace) = ns ∧ o.(sec_meta).(om_Labels) !! lk = Some lv) l
  | CreateSecret x => λ r, ∀ o, r = Ok o →
      secret_key o = secret_key x ∧ o.(sec_Data) = x.(sec_Data)
      ∧ o.(sec_Immutable) = x.(sec_Immutable)
  | UpdateSecret x => λ r, ∀ o, r = Ok o → secret_key o = secret_key x
  | GetPod k => λ r, ∀ o, r = Ok o → pod_key o = k
  | CreatePod x => λ r, ∀ o, r = Ok o →
      pod_key o = pod_key x
      ∧ ∀ k v, x.(pod_meta).(om_Annotations) !! k = Some v → o.(pod_meta).(om_Annotations) !! k = Some v
  | _ => λ _, True
  end.

(** ** Owner references: [controllerutil.SetControllerReference]

    [set_owner_*] stands for the function on a Secret and on a Pod. It fails
    when the object already has another controller; otherwise it only changes
    the owner references, adding one that names the owner. *)
Class ControllerUtil : Type := {
  SetControllerReference_secret : PodSandbox → Secret → result go_error Secret;
  SetControllerReference_pod : PodSandbox → Pod → result go_error Pod;
}.

Definition with_owners (m : ObjectMeta) (l : list OwnerReference) : ObjectMeta :=
  mk_ObjectMeta m.(om_Name) m.(om_Namespace) m.(om_UID) m.(om_Generation)
    m.(om_DeletionTimestamp) m.(om_Labels) m.(om_Annotations) l.

Definition owned_by (s : PodSandbox) (m : ObjectMeta) : Prop :=
  ∃ r, r ∈ m.(om_OwnerReferences) ∧ r.(or_Controller) = true
       ∧ r.(or_Name) = s.(sb_meta).(om_Name) ∧ r.(or_UID) = s.(sb_meta).(om_UID).

Class ControllerUtilLaws `{ControllerUtil} : Prop := {
  secret_owner_only : ∀ s x x', SetControllerReference_secret s x = Ok x' →
    ∃ l, x' = mk_Secret (with_owners x.(sec_meta) l) x.(sec_Immutable) x.(sec_Data) x.(sec_Type);
  pod_owner_only : ∀ s p p', SetControllerReference_pod s p = Ok p' →
    ∃ l, p' = mk_Pod (with_owners p.(pod_meta) l) p.(pod_Spec) p.(pod_Status);
  secret_owner_set : ∀ s x x', SetControllerReference_secret s x = Ok x' → owned_by s x'.(sec_meta);
  pod_owner_set : ∀ s p p', SetControllerReference_pod s p = Ok p' → owned_by s p'.(pod_meta);
}.

(** ** Stores

    [ApiServer S]: [S] is the state of a cluster, with the objects it stores and
    the answers it may give. The laws are those of linearizable storage in
    which any call may also fail without effect. *)
Class ApiServer (S : Type) : Type := {
  api_classes : S → gmap string PodSandboxClass;
  api_sandboxes : S → gmap NamespacedName PodSandbox;
  api_secrets : S → gmap NamespacedName Secret;
  api_pods : S → gmap NamespacedName Pod;
  api_step : S → ∀ c : kube_call, kube_answer c → S → Prop;
}.

(** The contents of a store. *)
Definition contents {S} `{ApiServer S} (s : S) :=
  (api_classes s, api_sandboxes s, api_secrets s, api_pods s).

Class ApiServerLaws (S : Type) `{ApiServer S} : Prop := {
  step_ok : ∀ s c r s', api_step s c r s' → kube_ok c r;
  step_read : ∀ s c r s', api_step s c r s' → is_mutation c = false → contents s' = contents s;
  step_get_sandbox : ∀ s k r s', api_step s (GetSandbox k) r s' →
    match r with
    | Ok o => api_sandboxes s !! k = Some o
    | Err e => IsNotFound e = true → api_sandboxes s !! k = None
    end;
  step_get_secret : ∀ s k r s', api_step s (GetSecret k) r s' →
    match r with
    | Ok o => api_secrets s !! k = Some o
    | Err e => IsNotFound e = true → api_secrets s !! k = None
    end;
  step_create_secret : ∀ s x r s', api_step s (CreateSecret x) r s' →
    match r with
    | Ok o => api_secrets s !! secret_key x = None
              ∧ contents s' = (api_classes s, api_sandboxes s,
                               <[secret_key x := o]> (api_secrets s), api_pods s)
    | Err e => contents s' = contents s
               ∧ (IsAlreadyExists e = true → is_Some (api_secrets s !! secret_key x))
    end;
  step_create_sandbox : ∀ s x r s', api_step s (CreateSandbox x) r s' →
    match r with
    | Ok o => api_sandboxes s !! sandbox_key x = None
              ∧ contents s' = (api_classes s, <[sandbox_key x := o]> (api_sandboxes s),
                               api_secrets s, api_pods s)
    | Err e => contents s' = contents s
    end;
  step_update_secret : ∀ s x r s', api_step s (UpdateSecret x) r s' →
    match r with
    | Ok o => contents s' = (api_classes s, api_sandboxes s,
                             <[secret_key x := o]> (api_secrets s), api_pods s)
              ∧ is_Some (api_secrets s !! secret_key x)
              ∧ (∀ old, api_secrets s !! secret_key x = Some old →
                  old.(sec_Immutable) = true → o.(sec_Data) = old.(sec_Data))
    | Err e => contents s' = contents s
    end;
  step_delete_secret : ∀ s k r s', api_step s (DeleteSecret k) r s' →
    match r with
    | Ok _ => contents s' = (api_classes s, api_sandboxes s, delete k (api_secrets s), api_pods s)
    | Err e => contents s' = contents s
    end;
  step_delete_sandbox : ∀ s k r s', api_step s (DeleteSandbox k) r s' →
    match r with
    | Ok _ => contents s' = (api_classes s, delete k (api_sandboxes s), api_secrets s, api_pods s)
    | Err e => contents s' = contents s
    end;
}.

(** The status subresource under a merge patch: the fields in which [new]
    differs from [base] are written. *)
Definition merge_status (base new stored : PodSandboxStatus) : PodSandboxStatus :=
  mk_PodSandboxStatus
    (if decide (new.(st_ObservedGeneration) = base.(st_ObservedGeneration))
     then stored.(st_ObservedGeneration) else new.(st_ObservedGeneration))
    (if decide (new.(st_RunnerRef) = base.(st_RunnerRef))
     then stored.(st_RunnerRef) else new.(st_RunnerRef))
    (if decide (new.(st_NodeName) = base.(st_NodeName))
     then stored.(st_NodeName) else new.(st_NodeName))
    (if decide (new.(st_IPs) = base.(st_IPs)) then stored.(st_IPs) else new.(st_IPs))
    (if decide (new.(st_Conditions) = base.(st_Conditions))
     then stored.(st_Conditions) else new.(st_Conditions)).

(** ** The status subresource

    Where the status of a sandbox comes from after a call: it is the one stored
    before; or the sandbox was just created, which ignores a status; or it was
    patched. *)
Definition status_from (c : kube_call) (stored : option PodSandbox) (k : NamespacedName) (o' : PodSandbox) : Prop :=
  (∃ o, stored = Some o ∧ o'.(sb_Status) = o.(sb_Status))
  ∨ match c with
    | CreateSandbox x => k = sandbox_key x ∧ o'.(sb_Status) = empty_status
    | PatchSandboxStatus base new =>
        k = sandbox_key new
        ∧ ∃ o, stored = Some o ∧ o'.(sb_Status) = merge_status base.(sb_Status) new.(sb_Status) o.(sb_Status)
    | _ => False
    end.

Class StatusLaws (S : Type) `{ApiServer S} : Prop := {
  step_get_class : ∀ s n o s', api_step s (GetClass n) (Ok o) s' → api_classes s !! n = Some o;
  step_get_pod : ∀ s k o s', api_step s (GetPod k) (Ok o) s' → api_pods s !! k = Some o;
  step_status : ∀ s c r s' k o', api_step s c r s' → api_sandboxes s' !! k = Some o' →
    status_from c (api_sandboxes s !! k) k o';
}.

(** ** A concrete cluster

    A store with the admission rules of the two resources, without concurrent
    writers and without transport failures. It is the instance of [ApiServer]
    on which programs are run. *)
Module Mem.
Record mem : Type := mk_mem {
  classes : gmap string PodSandboxClass;
  sandboxes : gmap NamespacedName PodSandbox;
  secrets : gmap NamespacedName Secret;
  pods : gmap NamespacedName Pod;
}.

Definition set_sandboxes (m : mem) x := mk_mem m.(classes) x m.(secrets) m.(pods).
Definition set_secrets (m : mem) x := mk_mem m.(classes) m.(sandboxes) x m.(pods).
Definition set_pods (m : mem) x := mk_mem m.(classes) m.(sandboxes) m.(secrets) x.

Definition notFound : go_error := ApiStatus ReasonNotFound "not found".
Definition alreadyExists : go_error := ApiStatus ReasonAlreadyExists "already exists".
Definition invalid : go_error := ApiStatus ReasonInvalid "invalid".

Definition found {A} (o : option A) : result go_error A :=
  match o with Some a => Ok a | None => Err notFound end.

(** Server-side metadata of a new object. *)
Definition admit_meta (m : ObjectMeta) : ObjectMeta :=
  mk_ObjectMeta m.(om_Name) m.(om_Namespace) ("uid-" +:+ m.(om_Name)) 1 None
    m.(om_Labels) m.(om_Annotations) m.(om_OwnerReferences).

Definition remove {A} (k : NamespacedName) (o : gmap NamespacedName A) (m m' : mem)
    : mem * result go_error unit :=
  match o !! k with Some _ => (m', Ok tt) | None => (m, Err notFound) end.

Definition handle (m : mem) (c : kube_call) : mem * kube_answer c :=
  match c return mem * kube_answer c with
  | GetClass n =>
      (m, match m.(classes) !! n with
          | Some o => if decide (o.(cl_meta).(om_Name) = n) then Ok o else Err (ErrorsNew "corrupt")
          | None => Err notFound
          end)
  | GetSandbox k =>
      (m, match m.(sandboxes) !! k with
          | Some o => if decide (sandbox_key o = k) then Ok o else Err (ErrorsNew "corrupt")
          | None => Err notFound
          end)
  | ListSandboxes => (m, Ok (map_to_list m.(sandboxes)).*2)
  | CreateSandbox s =>
      match m.(sandboxes) !! sandbox_key s with
      | Some _ => (m, Err alreadyExists)
      | None =>
          if spec_valid s.(sb_Spec)
          then let o := mk_PodSandbox (admit_meta s.(sb_meta)) s.(sb_Spec) empty_status in
               (set_sandboxes m (<[sandbox_key s := o]> m.(sandboxes)), Ok o)
          else (m, Err invalid)
      end
  | DeleteSandbox k =>
      remove k m.(sandboxes) m (set_sandboxes m (delete k m.(sandboxes)))
  | PatchSandboxStatus base new =>
      match m.(sandboxes) !! sandbox_key new with
      | None => (m, Err notFound)
      | Some o =>
          if decide (sandbox_key o = sandbox_key new)
          then let o' := mk_PodSandbox o.(sb_meta) o.(sb_Spec)
                           (merge_status base.(sb_Status) new.(sb_Status) o.(sb_Status)) in
               (set_sandboxes m (<[sandbox_key new := o']> m.(sandboxes)), Ok o')
          else (m, Err (ErrorsNew "corrupt"))
      end
  | GetSecret k =>
      (m, match m.(secrets) !! k with
          | Some o => if decide (secret_key o = k) then Ok o else Err (ErrorsNew "corrupt")
          | None => Err notFound
          end)
  | ListSecrets ns lk lv =>
      (m, Ok (filter (λ o, o.(sec_meta).(om_Namespace) = ns
                           ∧ o.(sec_meta).(om_Labels) !! lk = Some lv)
                (map_to_list m.(secrets)).*2))
  | CreateSecret s =>
      match m.(secrets) !! secret_key s with
      | Some _ => (m, Err alreadyExists)
      | None =>
          let o := mk_Secret (admit_meta s.(sec_meta)) s.(sec_Immutable) s.(sec_Data) s.(sec_Type) in
          (set_secrets m (<[secret_key s := o]> m.(secrets)), Ok o)
      end
  | UpdateSecret s =>
      match m.(secrets) !! secret_key s with
      | None => (m, Err notFound)
      | Some old =>
          if decide (old.(sec_Immutable) = true ∧ s.(sec_Data) ≠ old.(sec_Data))
          then (m, Err invalid)
          else (set_secrets m (<[secret_key s := s]> m.(secrets)), Ok s)
      end
  | DeleteSecret k => remove k m.(secrets) m (set_secrets m (delete k m.(secrets)))
  | GetPod k =>
      (m, match m.(pods) !! k with
          | Some o => if decide (pod_key o = k) then Ok o else Err (ErrorsNew "corrupt")
          | None => Err notFound
          end)
  | CreatePod p =>
      match m.(pods) !! pod_key p with
      | Some _ => (m, Err alreadyExists)
      | None =>
          let o := mk_Pod (admit_meta p.(pod_meta)) p.(pod_Spec) empty_pod_status in
          (set_pods m (<[pod_key p := o]> m.(pods)), Ok o)
      end
  | DeletePod k => remove k m.(pods) m (set_pods m (delete k m.(pods)))
  end.

#[global] Instance mem_api : ApiServer mem := {|
  api_classes := classes;
  api_sandboxes := sandboxes;
  api_secrets := secrets;
  api_pods := pods;
  api_step m c r m' := handle m c = (m', r);
|}.

Lemma handle_ok m c : kube_ok c (handle m c).2.
Proof.
  destruct c; cbn; try done; unfold remove; repeat (case_match; simplify_eq/=); try done;
    intros ? [= <-]; try done.
  apply Forall_forall. intros x Hx. by apply list_elem_of_filter in Hx as [? _].
Qed.

#[global] Instance mem_laws : ApiServerLaws mem.
Proof.
  split; cbn -[handle].
  - intros s c r s' Hs. pose proof (handle_ok s c) as Hok. by rewrite Hs in Hok.
  - intros s c r s' Hs Hro. destruct c; try done; cbn in Hs; by simplify_eq.
  - intros s k r s'. cbn. intros [= <- <-]. repeat case_match; by simplify_eq/=.
  - intros s k r s'. cbn. intros [= <- <-]. repeat case_match; by simplify_eq/=.
  - intros s x r s'. cbn. case_match eqn:E; intros [= <- <-]; [|done].
    split; [done|]. intros _. eauto.
  - intros s x r s'. cbn. case_match eqn:E; [intros [= <- <-]; done|].
    case_match; intros [= <- <-]; done.
  - intros s x r s'. cbn. case_match eqn:E; [|intros [= <- <-]; done].
    case_decide as Hd; intros [= <- <-]; [done|]. split_and!; [done|eauto|].
    intros old [= <-] Himm. destruct (decide (sec_Data x = sec_Data s0)); [done|]. naive_solver.
  - intros s k r s'. cbn. unfold remove. case_match eqn:E; intros [= <- <-]; done.
  - intros s k r s'. cbn. unfold remove. case_match eqn:E; intros [= <- <-]; done.
Qed.

#[global] Instance mem_status_laws : StatusLaws mem.
Proof.
  split; cbn -[handle].
  - intros s n o s'. cbn. repeat case_match; intros; by simplify_eq.
  - intros s k o s'. cbn. repeat case_match; intros; by simplify_eq.
  - intros s c r s' k o' Hs Ho. unfold status_from.
    destruct c; cbn in Hs; unfold remove in Hs; repeat case_match; simplify_eq; try (left; by eexists);
      cbn in Ho; try (left; by eexists); apply lookup_insert_Some in Ho as [[<- <-]|[_ Ho]] ||
      apply lookup_delete_Some in Ho as [_ Ho]; try (left; by eexists); right; eauto.
Qed.

(** An instance of [SetControllerReference]: it refuses an object that has a
    controller, and appends the owner otherwise. *)
Definition owner_ref (s : PodSandbox) : OwnerReference :=
  mk_OwnerReference "sandbox.caa.mnicloud.jp/v1alpha1" "PodSandbox"
    s.(sb_meta).(om_Name) s.(sb_meta).(om_UID) true true.

Definition add_owner (s : PodSandbox) (m : ObjectMeta) : option ObjectMeta :=
  if existsb or_Controller m.(om_OwnerReferences) then None
  else Some (with_owners m (m.(om_OwnerReferences) ++ [owner_ref s])).

#[global] Instance controller_util : ControllerUtil := {|
  SetControllerReference_secret s x :=
    match add_owner s x.(sec_meta) with
    | Some m => Ok (mk_Secret m x.(sec_Immutable) x.(sec_Data) x.(sec_Type))
    | None => Err (ErrorsNew "already owned")
    end;
  SetControllerReference_pod s p :=
    match add_owner s p.(pod_meta) with
    | Some m => Ok (mk_Pod m p.(pod_Spec) p.(pod_Status))
    | None => Err (ErrorsNew "already owned")
    end;
|}.

Lemma add_owner_owned s m m' :
  add_owner s m = Some m' → (∃ l, m' = with_owners m l) ∧ owned_by s m'.
Proof.
  unfold add_owner. case_match; [done|]. intros [= <-]. split; [eauto|].
  exists (owner_ref s). cbn. split; [set_solver|done].
Qed.

#[global] Instance controller_util_laws : ControllerUtilLaws.
Proof.
  split; cbn.
  - intros s x x'. destruct (add_owner s (sec_meta x)) eqn:E; [|done]. intros [= <-].
    apply add_owner_owned in E as [[l ->] _]. eauto.
  - intros s x x'. destruct (add_owner s (pod_meta x)) eqn:E; [|done]. intros [= <-].
    apply add_owner_owned in E as [[l ->] _]. eauto.
  - intros s x x'. destruct (add_owner s (sec_meta x)) eqn:E; [|done]. intros [= <-].
    by apply add_owner_owned in E as [_ ?].
  - intros s x x'. destruct (add_owner s (pod_meta x)) eqn:E; [|done]. intros [= <-].
    by apply add_owner_owned in E as [_ ?].
Qed.
End Mem.
