(* ===== verification/Server.v ===== *)
(** * The Pod Sandbox API server: internal/server/server.go

    Every method of [Server] is a program over [server_call]: the Kubernetes
    client calls in the order the source makes them, the reads of
    [crypto/rand], the wait of the polling loop and the listener. An HTTP
    handler returns the response it writes. *)

From S2P Require Import Prelude GoFmt GoStrings Sha256 Prog Api Kube.
From Stdlib Require Import Ascii.

Local Open Scope Z_scope.

(** ** Configuration and data *)

Record Config : Type := mk_Config {
  cfg_Address : string;
  cfg_Namespace : string;
  cfg_Token : string;
  cfg_TokenSecretName : string;
  cfg_ClassName : string;
}.

Definition AccessSecretLabel : string := "sandbox.caa.mnicloud.jp/access".
Definition AccessSecretLabelValue : string := "true".
Definition AccessSecretTokenKey : string := "token".
Definition AccessSecretClassKey : string := "className".
Definition AccessSecretNamespaceKey : string := "namespace".
Definition userDataKey : string := "userdata".

Record authorizedAccess : Type := mk_access { acc_ClassName : string; acc_Namespace : string }.

#[export] Instance authorizedAccess_eq_dec : EqDecision authorizedAccess.
Proof. solve_decision. Defined.

Definition no_access : authorizedAccess := mk_access "" "".

Record createSandboxRequest : Type := mk_createSandboxRequest {
  rq_WorkloadRef : WorkloadReference;
  rq_SandboxID : string;
  rq_UserData : string;
  rq_VCPUs : Z;
  rq_MemoryMiB : Z;
  rq_Arch : string;
}.

Record sandboxResponse : Type := mk_sandboxResponse {
  rs_ID : string; rs_Name : string; rs_IPs : list string
}.

Inductive response_body : Type :=
| NoBody
| BodyError (e : go_error)
| BodyConfig (networkMTU : Z)
| BodySandbox (s : sandboxResponse).

Record response : Type := mk_response { resp_code : Z; resp_body : response_body }.

Definition StatusOK : Z := 200.
Definition StatusCreated : Z := 201.
Definition StatusNoContent : Z := 204.
Definition StatusBadRequest : Z := 400.
Definition StatusUnauthorized : Z := 401.
Definition StatusForbidden : Z := 403.
Definition StatusNotFound : Z := 404.
Definition StatusMethodNotAllowed : Z := 405.
Definition StatusConflict : Z := 409.
Definition StatusInternalServerError : Z := 500.
Definition StatusServiceUnavailable : Z := 503.
Definition StatusGatewayTimeout : Z := 504.

(** ** Effects *)

(** How the [select] of [Start] ends: the context is done and [Shutdown]
    returned, or [ListenAndServe] returned. *)
Inductive serve_outcome : Type :=
| ServeCtxDone (shutdown : option go_error)
| ServeListen (e : go_error).

Inductive server_call : Type :=
| SKube (c : kube_call)
| SRandRead (n : nat)        (* rand.Read of n bytes *)
| SWait                      (* the select of the polling loop: a tick, or ctx.Err() *)
| SServe.

Definition server_answer (c : server_call) : Type :=
  match c with
  | SKube c => kube_answer c
  | SRandRead _ => result go_error string
  | SWait => option go_error
  | SServe => serve_outcome
  end.

Definition ServerE : effects := Effects server_call server_answer.

Notation kube c := (@perform ServerE (SKube c)).
Notation rand_read n := (@perform ServerE (SRandRead n)).
Notation wait := (@perform ServerE SWait).
Notation serve := (@perform ServerE SServe).

(** [http.Error] and [writeJSON]. *)
Definition httpError (e : go_error) (code : Z) : response := mk_response code (BodyError e).

(** ** Construction *)

Definition New (config : Config) : result go_error Config :=
  let address := if String.eqb config.(cfg_Address) "" then ":8080" else config.(cfg_Address) in
  let tokenSecretName :=
    if String.eqb config.(cfg_TokenSecretName) "" then "pod-sandbox-api"
    else config.(cfg_TokenSecretName) in
  if String.eqb config.(cfg_Namespace) "" || String.eqb config.(cfg_ClassName) ""
  then Err (ErrorsNew "namespace and class name are required")
  else Ok (mk_Config address config.(cfg_Namespace) config.(cfg_Token) tokenSecretName
             config.(cfg_ClassName)).

(** ** Conditions and names *)

Fixpoint conditionByType (conditions : list Condition) (conditionType : string) : option Condition :=
  match conditions with
  | [] => None
  | c :: rest =>
      if String.eqb c.(c_Type) conditionType then Some c else conditionByType rest conditionType
  end.

Definition conditionTrue (conditions : list Condition) (conditionType : string) : bool :=
  match conditionByType conditions conditionType with
  | Some c => bool_decide (c.(c_Status) = ConditionTrue)
  | None => false
  end.

Definition sandboxName (sandboxID : string) : string :=
  "psb-" +:+ hex_encode (String.substring 0 10 (Sum256 sandboxID)).

(** ** Authorization *)

Definition tokenMatches (got expected : string) : bool :=
  negb (String.eqb got "")
  && Nat.eqb (String.length got) (String.length expected)
  && (ConstantTimeCompare got expected =? 1).

(** [token]: the configured token, or the one of the token secret. *)
Definition token (cfg : Config) : prog ServerE (result go_error string) :=
  if negb (String.eqb cfg.(cfg_Token) "") then Ret (Ok cfg.(cfg_Token))
  else
    let! r := kube (GetSecret (NN cfg.(cfg_Namespace) cfg.(cfg_TokenSecretName))) in
    match r with
    | Err err => Ret (Err err)
    | Ok secret =>
        let token := secret_data secret "token" in
        if String.eqb token "" then Ret (Err (ErrorsNew "pod sandbox API token is empty"))
        else Ret (Ok token)
    end.

(** The loop over the access secrets, from the access matched so far. *)
Fixpoint match_accesses (got : string) (items : list Secret) (matched : authorizedAccess)
    : result go_error authorizedAccess :=
  match items with
  | [] => Ok matched
  | item :: rest =>
      if negb (tokenMatches got (secret_data item AccessSecretTokenKey))
      then match_accesses got rest matched
      else
        let className := secret_data item AccessSecretClassKey in
        let namespace := secret_data item AccessSecretNamespaceKey in
        let candidateAccess := mk_access className namespace in
        if String.eqb className "" || String.eqb namespace ""
           || (negb (String.eqb matched.(acc_ClassName) "")
               && bool_decide (matched ≠ candidateAccess))
        then Err (ErrorsNew "pod sandbox API access secret is invalid")
        else match_accesses got rest candidateAccess
  end.

Definition authorizedAccess_of (cfg : Config) (got : string)
    : prog ServerE (result go_error authorizedAccess) :=
  let! expected := token cfg in
  match expected with
  | Err err => Ret (Err err)
  | Ok expected =>
      if tokenMatches got expected
      then Ret (Ok (mk_access cfg.(cfg_ClassName) cfg.(cfg_Namespace)))
      else
        let! r := kube (ListSecrets cfg.(cfg_Namespace) AccessSecretLabel AccessSecretLabelValue) in
        match r with
        | Err err => Ret (Err (Errorf "list Pod Sandbox API access secrets: %w" [ArgErr err]))
        | Ok items => Ret (match_accesses got items no_access)
        end
  end.

(** [authorize(next)]: [next] gets the access through the request's context. *)
Definition authorize (cfg : Config) (next : authorizedAccess → prog ServerE (option response))
    (authorization : string) : prog ServerE (option response) :=
  let! r := authorizedAccess_of cfg (TrimPrefix authorization "Bearer ") in
  match r with
  | Err _ => Ret (Some (httpError (ErrorsNew "authorization is unavailable") StatusServiceUnavailable))
  | Ok access =>
      if String.eqb access.(acc_ClassName) "" || String.eqb access.(acc_Namespace) ""
      then Ret (Some (httpError (ErrorsNew "unauthorized") StatusUnauthorized))
      else next access
  end.

(** [ensureTokenSecret]. *)
Definition ensureTokenSecret (cfg : Config) : prog ServerE (result go_error unit) :=
  let key := NN cfg.(cfg_Namespace) cfg.(cfg_TokenSecretName) in
  let! existing := kube (GetSecret key) in
  match existing with
  | Ok existing =>
      if String.eqb (secret_data existing "token") ""
      then Ret (Err (Errorf "secret %s/%s has no token key"
                       [ArgS key.(nn_Namespace); ArgS key.(nn_Name)]))
      else Ret (Ok tt)
  | Err err =>
      if negb (IsNotFound err)
      then Ret (Err (Errorf "get Pod Sandbox API token secret: %w" [ArgErr err]))
      else
        let! random := rand_read 32%nat in
        match random with
        | Err err => Ret (Err (Errorf "generate Pod Sandbox API token: %w" [ArgErr err]))
        | Ok random =>
            let secret := mk_Secret (meta key.(nn_Name) key.(nn_Namespace)) false
                            {["token" := hex_encode random]} "Opaque" in
            let! created := kube (CreateSecret secret) in
            match created with
            | Ok _ => Ret (Ok tt)
            | Err err =>
                if IsAlreadyExists err then Ret (Ok tt)
                else Ret (Err (Errorf "create Pod Sandbox API token secret: %w" [ArgErr err]))
            end
        end
  end.

(** [Start]. *)
Definition Start (cfg : Config) : prog ServerE (option go_error) :=
  let! ready :=
    if String.eqb cfg.(cfg_Token) "" then ensureTokenSecret cfg else Ret (Ok tt) in
  match ready with
  | Err err => Ret (Some err)
  | Ok _ =>
      let! outcome := serve in
      match outcome with
      | ServeCtxDone shutdown => Ret shutdown
      | ServeListen ErrServerClosed => Ret None
      | ServeListen err => Ret (Some err)
      end
  end.

(** ** Handlers *)

Definition getClass (className : string) : prog ServerE (result go_error PodSandboxClass) :=
  let! r := kube (GetClass className) in
  match r with
  | Err err => Ret (Err (Errorf "get PodSandboxClass %q: %w" [ArgS className; ArgErr err]))
  | Ok sandboxClass => Ret (Ok sandboxClass)
  end.

Definition getConfig (access : authorizedAccess) : prog ServerE (option response) :=
  let! sandboxClass := getClass access.(acc_ClassName) in
  match sandboxClass with
  | Err err => Ret (Some (httpError err StatusServiceUnavailable))
  | Ok sandboxClass =>
      let networkMTU := sandboxClass.(cl_Spec).(pc_NetworkMTU) in
      let networkMTU := if networkMTU =? 0 then 1500 else networkMTU in
      Ret (Some (mk_response StatusOK (BodyConfig networkMTU)))
  end.

Definition deleteSandbox (access : authorizedAccess) (id : string) : prog ServerE (option response) :=
  if String.eqb id "" || contains_char "/"%char id
  then Ret (Some (httpError (ErrorsNew "invalid sandbox id") StatusBadRequest))
  else
    let! r := kube (GetSandbox (NN access.(acc_Namespace) id)) in
    match r with
    | Err err =>
        if IsNotFound err then Ret (Some (mk_response StatusNoContent NoBody))
        else Ret (Some (httpError err StatusInternalServerError))
    | Ok sandbox =>
        if negb (String.eqb sandbox.(sb_Spec).(ps_ClassName) access.(acc_ClassName))
        then Ret (Some (httpError (ErrorsNew "forbidden") StatusForbidden))
        else
          let! r := kube (DeleteSandbox (sandbox_key sandbox)) in
          match r with
          | Err err =>
              if IsNotFound err then Ret (Some (mk_response StatusNoContent NoBody))
              else Ret (Some (httpError err StatusInternalServerError))
          | Ok _ => Ret (Some (mk_response StatusNoContent NoBody))
          end
    end.

(** The polling loop of [createSandbox]. The result is the response, whether the
    sandbox was completed, and the sandbox last read (the deferred delete uses
    it); [None] means the loop is still running after [fuel] ticks. *)
Fixpoint poll (fuel : nat) (key : NamespacedName) (workloadName : string) (sandbox : PodSandbox)
    : prog ServerE (option (response * bool * PodSandbox)) :=
  match fuel with
  | O => Ret None
  | S fuel =>
      let! r := kube (GetSandbox key) in
      match r with
      | Err err => Ret (Some (httpError err StatusInternalServerError, false, sandbox))
      | Ok sandbox =>
          let conditions := sandbox.(sb_Status).(st_Conditions) in
          if conditionTrue conditions ConditionReady
             && negb (bool_decide (sandbox.(sb_Status).(st_IPs) = []))
          then Ret (Some (mk_response StatusCreated
                            (BodySandbox (mk_sandboxResponse sandbox.(sb_meta).(om_Name) workloadName
                                            sandbox.(sb_Status).(st_IPs))), true, sandbox))
          else
            let keep_waiting :=
              let! w := wait in
              match w with
              | Some err => Ret (Some (httpError err StatusGatewayTimeout, false, sandbox))
              | None => poll fuel key workloadName sandbox
              end in
            match conditionByType conditions ConditionReady with
            | Some condition =>
                if bool_decide (condition.(c_Status) = ConditionFalse)
                   && String.eqb condition.(c_Reason) "RunnerFailed"
                then Ret (Some (httpError (ErrorsNew condition.(c_Message)) StatusInternalServerError,
                                false, sandbox))
                else keep_waiting
            | None => keep_waiting
            end
      end
  end.

Section create.
Context `{ControllerUtil}.

(** [json.NewDecoder(http.MaxBytesReader(w, r.Body, 1<<20)).Decode(&request)]. *)
Context (decode : string → result go_error createSandboxRequest).

(** The request with the defaults of [createSandbox] filled in. *)
Definition with_defaults (request : createSandboxRequest) : createSandboxRequest :=
  mk_createSandboxRequest request.(rq_WorkloadRef) request.(rq_SandboxID) request.(rq_UserData)
    (if request.(rq_VCPUs) <=? 0 then 2 else request.(rq_VCPUs))
    (if request.(rq_MemoryMiB) <=? 0 then 2048 else request.(rq_MemoryMiB))
    request.(rq_Arch).

Definition userdata_secret (key : NamespacedName) (request : createSandboxRequest) : Secret :=
  mk_Secret (meta (key.(nn_Name) +:+ "-userdata") key.(nn_Namespace)) true
    {[userDataKey := request.(rq_UserData)]} "".

Definition new_sandbox (key : NamespacedName) (className secretName : string)
    (request : createSandboxRequest) : PodSandbox :=
  mk_PodSandbox (meta key.(nn_Name) key.(nn_Namespace))
    (mk_PodSandboxSpec request.(rq_WorkloadRef) request.(rq_SandboxID) secretName className
       request.(rq_VCPUs) request.(rq_MemoryMiB) request.(rq_Arch))
    empty_status.

(** Lines 287 to 307: the sandbox, from the userdata secret in hand. [inl] is
    an early response, [inr] the sandbox created. *)
Definition create_with_secret (key : NamespacedName) (className : string)
    (request : createSandboxRequest) (secret : Secret) : prog ServerE (response + PodSandbox) :=
  let! r := kube (CreateSandbox (new_sandbox key className secret.(sec_meta).(om_Name) request)) in
  match r with
  | Err err =>
      kube (DeleteSecret (secret_key secret)) ;;;
      Ret (inl (httpError err StatusInternalServerError))
  | Ok sandbox =>
      match SetControllerReference_secret sandbox secret with
      | Ok owned => kube (UpdateSecret owned) ;;; Ret (inr sandbox)
      | Err _ => Ret (inr sandbox)
      end
  end.

(** Lines 277 to 307: the branch that creates the userdata secret and the
    sandbox. A secret that is there already is taken as it is. *)
Definition create_objects (key : NamespacedName) (className : string)
    (request : createSandboxRequest) : prog ServerE (response + PodSandbox) :=
  let secret := userdata_secret key request in
  let! r := kube (CreateSecret secret) in
  match r with
  | Ok created => create_with_secret key className request created
  | Err err =>
      if IsAlreadyExists err then create_with_secret key className request secret
      else Ret (inl (httpError err StatusInternalServerError))
  end.

(** The deferred function: a sandbox created by this request and not completed
    is deleted. *)
Definition deferred_delete (createdHere : bool)
    (r : option (response * bool * PodSandbox)) : prog ServerE (option response) :=
  match r with
  | None => Ret None
  | Some (resp, completed, sandbox) =>
      if createdHere && negb completed
      then kube (DeleteSandbox (sandbox_key sandbox)) ;;; Ret (Some resp)
      else Ret (Some resp)
  end.

(** From line 261 on: a decoded request with its defaults. *)
Definition create_decoded (fuel : nat) (access : authorizedAccess) (request : createSandboxRequest)
    : prog ServerE (option response) :=
  let className := access.(acc_ClassName) in
  let key := NN access.(acc_Namespace) (sandboxName request.(rq_SandboxID)) in
  let! r := kube (GetSandbox key) in
  match r with
  | Err err =>
      if negb (IsNotFound err) then Ret (Some (httpError err StatusInternalServerError))
      else
        let! created := create_objects key className request in
        match created with
        | inl resp => Ret (Some resp)
        | inr sandbox =>
            let! out := poll fuel key request.(rq_WorkloadRef).(wr_Name) sandbox in
            deferred_delete true out
        end
  | Ok sandbox =>
      if negb (String.eqb sandbox.(sb_Spec).(ps_SandboxID) request.(rq_SandboxID))
         || negb (String.eqb sandbox.(sb_Spec).(ps_ClassName) className)
         || bool_decide (sandbox.(sb_Spec).(ps_WorkloadRef) ≠ request.(rq_WorkloadRef))
      then Ret (Some (httpError (ErrorsNew "sandbox identity conflict") StatusConflict))
      else
        let! out := poll fuel key request.(rq_WorkloadRef).(wr_Name) sandbox in
        deferred_delete false out
  end.

Definition createSandbox (fuel : nat) (access : authorizedAccess) (body : string)
    : prog ServerE (option response) :=
  let! sandboxClass := getClass access.(acc_ClassName) in
  match sandboxClass with
  | Err err => Ret (Some (httpError err StatusServiceUnavailable))
  | Ok _ =>
      match decode body with
      | Err err => Ret (Some (httpError (Errorf "invalid request: %s" [ArgErr err]) StatusBadRequest))
      | Ok request =>
          if String.eqb request.(rq_WorkloadRef).(wr_Name) ""
             || String.eqb request.(rq_SandboxID) "" || String.eqb request.(rq_UserData) ""
          then Ret (Some (httpError (ErrorsNew "workloadRef.name, sandboxID, and userData are required")
                            StatusBadRequest))
          else create_decoded fuel access (with_defaults request)
      end
  end.

(** ** Routing: the patterns [New] registers on the ServeMux

    [segments] are the unescaped segments of a canonical request path. A [GET]
    pattern also serves [HEAD], and a wildcard matches one non-empty segment. *)
Record http_request : Type := mk_http_request {
  req_method : string;
  req_segments : list string;
  req_authorization : string;
  req_body : string;
}.

Definition is_get (method : string) : bool := String.eqb method "GET" || String.eqb method "HEAD".

Definition not_found : response := httpError (ErrorsNew "404 page not found") StatusNotFound.
Definition not_allowed : response := httpError (ErrorsNew "Method Not Allowed") StatusMethodNotAllowed.

Definition ServeHTTP (cfg : Config) (fuel : nat) (r : http_request)
    : prog ServerE (option response) :=
  let method := r.(req_method) in
  match r.(req_segments) with
  | ["v1"; "config"] =>
      if is_get method then authorize cfg getConfig r.(req_authorization)
      else Ret (Some not_allowed)
  | ["v1"; "sandboxes"] =>
      if String.eqb method "POST"
      then authorize cfg (λ access, createSandbox fuel access r.(req_body)) r.(req_authorization)
      else Ret (Some not_allowed)
  | ["v1"; "sandboxes"; id] =>
      if String.eqb id "" then Ret (Some not_found)
      else if String.eqb method "DELETE"
      then authorize cfg (λ access, deleteSandbox access id) r.(req_authorization)
      else Ret (Some not_allowed)
  | ["healthz"] =>
      if is_get method then Ret (Some (mk_response StatusOK NoBody))
      else Ret (Some not_allowed)
  | _ => Ret (Some not_found)
  end.
End create.
