(* ===== verification/ServerWorld.v ===== *)
(** * Surroundings of the API server

    The contract of the answers the server gets ([server_ok]), and a concrete
    world in which its programs run: a cluster, and what other actors do to the
    cluster at each tick of the polling loop. *)

From S2P Require Import Prelude GoFmt GoStrings Prog Api Kube Server.

Local Open Scope Z_scope.

(** The answers' contract, per event of the server: the client's [kube_ok], and
    [rand.Read] fills the whole buffer. *)
Definition server_ok (e : event ServerE) : Prop :=
  match e with
  | Ev (SKube c) r => kube_ok c r
  | Ev (SRandRead n) r => ∀ b, r = Ok b → String.length b = n
  | _ => True
  end.

(** ** One iteration of the polling loop *)

(** The two tests of an iteration, and the response to a ready sandbox. *)
Definition is_ready (o : PodSandbox) : bool :=
  conditionTrue o.(sb_Status).(st_Conditions) ConditionReady
  && negb (bool_decide (o.(sb_Status).(st_IPs) = [])).

Definition runner_failed (o : PodSandbox) : option string :=
  match conditionByType o.(sb_Status).(st_Conditions) ConditionReady with
  | Some c => if bool_decide (c.(c_Status) = ConditionFalse) && String.eqb c.(c_Reason) "RunnerFailed"
              then Some c.(c_Message) else None
  | None => None
  end.

Definition ready_response (workloadName : string) (o : PodSandbox) : response :=
  mk_response StatusCreated (BodySandbox
    (mk_sandboxResponse o.(sb_meta).(om_Name) workloadName o.(sb_Status).(st_IPs))).

Notation got_sandbox k r := (@Ev ServerE (SKube (GetSandbox k)) r).
Notation waited r := (@Ev ServerE SWait r).

(** The answer to a read of a sandbox, to compare events by. *)
Definition sandbox_read (e : event ServerE) : option (result go_error PodSandbox) :=
  match e with Ev (SKube (GetSandbox _)) r => Some r | _ => None end.

(** The answer to a read of a class. *)
Definition class_read (e : event ServerE) : option (result go_error PodSandboxClass) :=
  match e with Ev (SKube (GetClass _)) r => Some r | _ => None end.

Lemma got_sandbox_inj k k' (r r' : result go_error PodSandbox) :
  got_sandbox k r = got_sandbox k' r' → r = r'.
Proof. intros E. apply (f_equal sandbox_read) in E. by injection E. Qed.

(** What one iteration can do: fail to read, finish on a ready or on a failed
    sandbox, run out of time, or tick and go on with the sandbox it read. *)
Inductive poll_step (key : NamespacedName) (wn : string) (sb : PodSandbox) (fuel : nat)
    : list (event ServerE) → option (response * bool * PodSandbox) → Prop :=
| poll_error err :
    poll_step key wn sb fuel [got_sandbox key (Err err)]
      (Some (httpError err StatusInternalServerError, false, sb))
| poll_ready o :
    is_ready o = true →
    poll_step key wn sb fuel [got_sandbox key (Ok o)] (Some (ready_response wn o, true, o))
| poll_failed o msg :
    is_ready o = false → runner_failed o = Some msg →
    poll_step key wn sb fuel [got_sandbox key (Ok o)]
      (Some (httpError (ErrorsNew msg) StatusInternalServerError, false, o))
| poll_timeout o err :
    is_ready o = false → runner_failed o = None →
    poll_step key wn sb fuel [got_sandbox key (Ok o); waited (Some err)]
      (Some (httpError err StatusGatewayTimeout, false, o))
| poll_tick o t out :
    is_ready o = false → runner_failed o = None → exec (poll fuel key wn o) t out →
    poll_step key wn sb fuel (got_sandbox key (Ok o) :: waited None :: t) out.

Lemma exec_poll_S fuel key wn sb t out :
  exec (poll (S fuel) key wn sb) t out → poll_step key wn sb fuel t out.
Proof.
  cbn [poll]. intros H. exec_step H. destruct r as [o|err]; [|exec_step H; constructor].
  cbn zeta in H. destruct (conditionTrue _ _ && _) eqn:Hready;
    [exec_step H; by constructor|].
  change (is_ready o = false) in Hready.
  assert (Hwait : runner_failed o = None → exec (let! w := wait in
        match w with
        | Some err => Ret (Some (httpError err StatusGatewayTimeout, false, o))
        | None => poll fuel key wn o
        end) t0 out → poll_step key wn sb fuel (got_sandbox key (Ok o) :: t0) out).
  { clear H. intros Hf H. exec_step H. destruct r as [err|]; [|by constructor].
    exec_step H. by constructor. }
  unfold runner_failed in Hwait. destruct (conditionByType _ _) as [c|] eqn:Hc; [|by apply Hwait].
  destruct (bool_decide _ && _) eqn:Hfail; [|by apply Hwait].
  exec_step H. constructor; [done|]. unfold runner_failed. by rewrite Hc, Hfail.
Qed.

(** ** A concrete world *)

(** A request's context is done once the script of ticks is used up. *)
Record world : Type := mk_world { w_mem : Mem.mem; w_ticks : list (Mem.mem → Mem.mem) }.

Definition deadline_exceeded : go_error := ContextErr "context deadline exceeded".

Fixpoint repeat_string (n : nat) (s : string) : string :=
  match n with O => "" | S n => s +:+ repeat_string n s end.

Definition world_handle (w : world) (c : ServerE) : world * answer c :=
  match c return world * @answer ServerE c with
  | SKube c => let '(m, r) := Mem.handle w.(w_mem) c in (mk_world m w.(w_ticks), r)
  | SRandRead n => (w, Ok (repeat_string n "r"))
  | SWait =>
      match w.(w_ticks) with
      | [] => (w, Some deadline_exceeded)
      | f :: ticks => (mk_world (f w.(w_mem)) ticks, None)
      end
  | SServe => (w, ServeCtxDone None)
  end.

Lemma length_repeat_string n : String.length (repeat_string n "r") = n.
Proof.
  induction n as [|n IH]; [done|]. cbn [repeat_string]. rewrite string_length_app.
  cbn. by rewrite IH.
Qed.

Lemma world_ok w (c : ServerE) : server_ok (Ev c (world_handle w c).2).
Proof.
  destruct c as [c|n| |]; try done.
  - cbn. pose proof (Mem.handle_ok w.(w_mem) c) as Hok.
    destruct (Mem.handle w.(w_mem) c). done.
  - cbn. intros b [= <-]. apply length_repeat_string.
Qed.

(** Every answer of the world keeps the contract. *)
Lemma run_trace_ok {A} (p : prog ServerE A) w : Forall server_ok (run_trace world_handle w p).
Proof.
  revert w. induction p as [a|c k IH]; intros w; [constructor|].
  pose proof (world_ok w c) as Hok.
  cbn [run_trace]. destruct (world_handle w c) as [w' r]. constructor; [done|]. apply IH.
Qed.

(** *** Fixtures of the witnesses *)

Definition class_fixture : PodSandboxClass :=
  mk_PodSandboxClass (mk_ObjectMeta "cluster-a" "" "uid-class" 3 None ∅ ∅ [])
    (mk_PodSandboxClassSpec "example.test/runner:v1" "example.test/podvm:v1" 1400
       {["juneau.loutres.me/subnet" := "tenant-subnet"]} ∅ {["mnicloud.jp/kata" := "true"]}
       [] "" 256).

Definition access_secret_fixture : Secret :=
  mk_Secret (mk_ObjectMeta "cluster-a" "provider-system" "" 1 None
               {[AccessSecretLabel := AccessSecretLabelValue]} ∅ []) false
    {["token" := "cluster-secret"; "className" := "cluster-a"; "namespace" := "cluster-a-runtime"]}
    "Opaque".

Definition config_fixture : Config :=
  mk_Config ":8080" "provider-system" "default-secret" "pod-sandbox-api" "default".

Definition request_fixture : createSandboxRequest :=
  mk_createSandboxRequest (mk_WorkloadReference "apps" "api-7d9c" "uid-1") "sandbox-id" "userdata" 2 512 "amd64".

Definition decode_fixture (body : string) : result go_error createSandboxRequest :=
  if String.eqb body "{}" then Ok request_fixture else Err (ErrorsNew "unexpected EOF").

Definition mem_fixture : Mem.mem :=
  Mem.mk_mem {["cluster-a" := class_fixture]} ∅
    {[NN "provider-system" "cluster-a" := access_secret_fixture]} ∅.

Definition access_fixture : authorizedAccess := mk_access "cluster-a" "cluster-a-runtime".

Definition ready_condition : Condition :=
  mk_Condition ConditionReady ConditionTrue 1 0 "PodVMReady" "The PodVM is ready".

Definition failed_condition : Condition :=
  mk_Condition ConditionReady ConditionFalse 1 0 "RunnerFailed" "out of memory".

(** Another actor reports a condition and addresses on every sandbox. *)
Definition report (c : Condition) (ips : list string) (m : Mem.mem) : Mem.mem :=
  Mem.set_sandboxes m ((λ s, mk_PodSandbox s.(sb_meta) s.(sb_Spec)
    (mk_PodSandboxStatus 1 (Some s.(sb_meta).(om_Name)) "node-1" ips [c])) <$> m.(Mem.sandboxes)).
