(* ===== verification/ServerAuth.v ===== *)
(** * Authentication and tenancy of the Pod Sandbox API

    Who may do what: the token comparison, the resolution of a token to an
    access, the guard that [authorize] puts before every handler, and the
    confinement of each handler to the namespace and class of its access. *)

From S2P Require Import Prelude GoFmt GoStrings Sha256 Prog Api Kube Server ServerWorld.

Local Open Scope Z_scope.

(** ** What the statements are about *)

Definition access_of (item : Secret) : authorizedAccess :=
  mk_access (secret_data item AccessSecretClassKey) (secret_data item AccessSecretNamespaceKey).

Definition access_valid (a : authorizedAccess) : bool :=
  negb (String.eqb a.(acc_ClassName) "" || String.eqb a.(acc_Namespace) "").

(** The access secrets that hold the presented token. *)
Definition matching (got : string) (items : list Secret) : list Secret :=
  filter (λ i, tokenMatches got (secret_data i AccessSecretTokenKey) = true) items.

(** The token names an access: none of the secrets holds it, or all that hold it
    agree on one valid access. *)
Definition resolves (got : string) (items : list Secret) (a : authorizedAccess) : Prop :=
  (matching got items = [] ∧ a = no_access)
  ∨ (matching got items ≠ [] ∧ access_valid a = true
     ∧ Forall (λ i, access_of i = a) (matching got items)).

(** [entitled cfg got t a]: in the answers of [t], the token [got] is the API's
    own token and [a] the default access, or [got] is in the access secrets and
    they resolve it to [a]. *)
Definition entitled (cfg : Config) (got : string) (t : list (event ServerE))
    (a : authorizedAccess) : Prop :=
  got ≠ "" ∧ access_valid a = true ∧
  ((a = mk_access cfg.(cfg_ClassName) cfg.(cfg_Namespace)
    ∧ (got = cfg.(cfg_Token)
       ∨ cfg.(cfg_Token) = ""
         ∧ ∃ s, (@Ev ServerE (SKube (GetSecret (NN cfg.(cfg_Namespace) cfg.(cfg_TokenSecretName)))) (Ok s)) ∈ t
                ∧ secret_data s "token" = got))
   ∨ ∃ items, (@Ev ServerE (SKube (ListSecrets cfg.(cfg_Namespace) AccessSecretLabel
                                     AccessSecretLabelValue)) (Ok items)) ∈ t
              ∧ resolves got items a).

(** A call that only finds out who is asking: the token secret and the access secrets
    of the provider's namespace are read. *)
Definition auth_read (cfg : Config) (e : event ServerE) : Prop :=
  ev_call e = SKube (GetSecret (NN cfg.(cfg_Namespace) cfg.(cfg_TokenSecretName)))
  ∨ ev_call e = SKube (ListSecrets cfg.(cfg_Namespace) AccessSecretLabel AccessSecretLabelValue).

(** After [h], the sandbox [k] is one that this request created, or one that it read
    with the class of the access. *)
Definition own_sandbox (a : authorizedAccess) (h : list (event ServerE)) (k : NamespacedName) : Prop :=
  (∃ x o, @Ev ServerE (SKube (CreateSandbox x)) (Ok o) ∈ h ∧ sandbox_key x = k)
  ∨ ∃ o, got_sandbox k (Ok o) ∈ h ∧ o.(sb_Spec).(ps_ClassName) = a.(acc_ClassName).

(** A userdata secret in the namespace of the access. *)
Definition is_userdata (a : authorizedAccess) (k : NamespacedName) : Prop :=
  ∃ name, k = NN a.(acc_Namespace) (name +:+ "-userdata").

(** What a request with the access [a] may call after [h]: it reads its class and the
    sandboxes of its namespace, creates sandboxes of its class there, deletes its own
    ones, and writes userdata secrets there. *)
Definition confined (a : authorizedAccess) (h : list (event ServerE)) (c : ServerE) : Prop :=
  match c with
  | SWait => True
  | SKube (GetClass n) => n = a.(acc_ClassName)
  | SKube (GetSandbox k) => k.(nn_Namespace) = a.(acc_Namespace)
  | SKube (CreateSandbox x) =>
      x.(sb_meta).(om_Namespace) = a.(acc_Namespace) ∧ x.(sb_Spec).(ps_ClassName) = a.(acc_ClassName)
  | SKube (DeleteSandbox k) => k.(nn_Namespace) = a.(acc_Namespace) ∧ own_sandbox a h k
  | SKube (CreateSecret x) | SKube (UpdateSecret x) => is_userdata a (secret_key x)
  | SKube (DeleteSecret k) => is_userdata a k
  | _ => False
  end.

(** ** Token comparison *)

Lemma tokenMatches_eq got expected :
  tokenMatches got expected = true ↔ got = expected ∧ got ≠ "".
Proof.
  unfold tokenMatches.
  rewrite !andb_true_iff, negb_true_iff, String.eqb_neq, Nat.eqb_eq, Z.eqb_eq,
    ConstantTimeCompare_spec.
  naive_solver.
Qed.

(** ** Resolution of access secrets *)

Lemma access_invalid_iff item :
  String.eqb (secret_data item AccessSecretClassKey) ""
  || String.eqb (secret_data item AccessSecretNamespaceKey) "" = negb (access_valid (access_of item)).
Proof. unfold access_valid, access_of. cbn. by rewrite negb_involutive. Qed.

Lemma valid_access_class a : access_valid a = true → String.eqb a.(acc_ClassName) "" = false.
Proof. unfold access_valid. rewrite negb_true_iff, orb_false_iff. tauto. Qed.

Lemma matching_cons got item items :
  matching got (item :: items)
  = if tokenMatches got (secret_data item AccessSecretTokenKey)
    then item :: matching got items else matching got items.
Proof.
  unfold matching. rewrite filter_cons.
  destruct (tokenMatches _ _); [by rewrite decide_True | by rewrite decide_False].
Qed.

(** The loop after it has matched a valid access [m]. *)
Lemma match_accesses_from got items m a :
  access_valid m = true →
  match_accesses got items m = Ok a ↔ a = m ∧ Forall (λ i, access_of i = m) (matching got items).
Proof.
  intros Hm. induction items as [|item items IH].
  - cbn. split; [intros [= ->]; done | by intros [-> _]].
  - cbn [match_accesses]. rewrite matching_cons, access_invalid_iff.
    destruct (tokenMatches got _); cbn [negb]; [|done].
    rewrite (valid_access_class m) by done. cbn [negb andb].
    change (mk_access _ _) with (access_of item). rewrite Forall_cons.
    destruct (decide (access_of item = m)) as [->|Hne].
    + rewrite Hm, bool_decide_false by naive_solver. cbn. rewrite IH. naive_solver.
    + rewrite bool_decide_true by congruence. rewrite orb_true_r. naive_solver.
Qed.

Lemma match_accesses_spec got items a :
  match_accesses got items no_access = Ok a ↔ resolves got items a.
Proof.
  unfold resolves. induction items as [|item items IH].
  - cbn. naive_solver.
  - cbn [match_accesses]. rewrite matching_cons, access_invalid_iff.
    destruct (tokenMatches got _); cbn [negb]; [|done].
    change (mk_access _ _) with (access_of item). cbn [no_access acc_ClassName String.eqb negb andb].
    rewrite orb_false_r, Forall_cons.
    destruct (access_valid (access_of item)) eqn:Hv; cbn [negb].
    + rewrite match_accesses_from by done. naive_solver.
    + split; [done|]. intros [[]|(_ & Ha & <- & _)]; congruence.
Qed.

Lemma matching_Permutation got items items' :
  items ≡ₚ items' → matching got items ≡ₚ matching got items'.
Proof. intros Hp. unfold matching. by rewrite Hp. Qed.

Lemma resolves_Permutation got items items' a :
  items ≡ₚ items' → resolves got items a → resolves got items' a.
Proof.
  intros Hp. pose proof (matching_Permutation got _ _ Hp) as Hm. unfold resolves.
  intros [[Hnil ->]|(Hne & Hv & Hall)].
  - left. rewrite Hnil in Hm. by apply Permutation_nil_l in Hm as <-.
  - right. split_and!; [|done|by rewrite <- Hm]. intros Hnil. rewrite Hnil in Hm.
    by apply Permutation_nil_r in Hm.
Qed.

(** ** The token and the access of a request *)

Lemma exec_token cfg t r :
  exec (token cfg) t r →
  Forall (auth_read cfg) t ∧
  match r with
  | Ok tok => tok ≠ "" ∧
      (tok = cfg.(cfg_Token)
       ∨ cfg.(cfg_Token) = "" ∧ ∃ s,
           (@Ev ServerE (SKube (GetSecret (NN cfg.(cfg_Namespace) cfg.(cfg_TokenSecretName)))) (Ok s)) ∈ t
           ∧ secret_data s "token" = tok)
  | Err _ => True
  end.
Proof.
  unfold token. destruct (String.eqb_spec cfg.(cfg_Token) "") as [Htok|Htok]; cbn [negb]; intros H.
  - exec_step H. destruct r0 as [secret|err]; [|by exec_step H; repeat constructor].
    destruct (String.eqb_spec (secret_data secret "token") ""); exec_step H;
      (split; [by repeat constructor|]); [done|].
    split; [done|]. right. split; [done|]. exists secret. split; [|done]. set_solver.
  - exec_step H. split; [constructor|]. auto.
Qed.

Lemma exec_authorizedAccess cfg got t r :
  exec (authorizedAccess_of cfg got) t r →
  Forall (auth_read cfg) t
  ∧ (∀ a, r = Ok a → access_valid a = true → entitled cfg got t a).
Proof.
  unfold authorizedAccess_of. intros (t1 & t2 & tok & -> & Htok & H)%exec_bind.
  apply exec_token in Htok as [Hro Htok].
  destruct tok as [expected|err]; [|exec_step H; rewrite app_nil_r; naive_solver].
  destruct (tokenMatches got expected) eqn:Hm.
  - exec_step H. rewrite app_nil_r. split; [done|]. intros a [= <-] Hv.
    apply tokenMatches_eq in Hm as [-> Hne]. split_and!; [done..|]. left. split; [done|]. naive_solver.
  - exec_step H. destruct r0 as [items|err]; exec_step H;
      (split; [apply Forall_app; split; [done|]; constructor; [by right|done]|]); [|done].
    intros a Ha%match_accesses_spec Hv. split_and!; [|done|].
    + intros ->. destruct Ha as [[_ ->]|(Hne & _ & _)]; [done|]. apply Hne.
      unfold matching. clear. induction items as [|i items IH]; [done|]. by rewrite filter_cons.
    + right. exists items. split; [set_solver|done].
Qed.

(** [authorize] runs [next] only with an access the token is entitled to; a
    refused request only looks for it. *)
Lemma exec_authorize cfg next authorization t r :
  exec (authorize cfg next authorization) t r →
  (∃ t1 t2 a, t = t1 ++ t2 ∧ Forall (auth_read cfg) t1
     ∧ entitled cfg (TrimPrefix authorization "Bearer ") t1 a ∧ exec (next a) t2 r)
  ∨ (Forall (auth_read cfg) t
     ∧ ∃ resp, r = Some resp ∧ (resp.(resp_code) = StatusUnauthorized
                                ∨ resp.(resp_code) = StatusServiceUnavailable)).
Proof.
  unfold authorize. intros (t1 & t2 & acc & -> & Hacc & H)%exec_bind.
  apply exec_authorizedAccess in Hacc as [Hro Hent].
  destruct acc as [a|err].
  - destruct (_ || _) eqn:Hv.
    + exec_step H. rewrite app_nil_r. right. split; [done|]. eauto.
    + left. exists t1, t2, a. split_and!; [done|done| |done].
      apply Hent; [done|]. unfold access_valid. by rewrite Hv.
  - exec_step H. rewrite app_nil_r. right. split; [done|]. eauto.
Qed.

(** ** Confinement of the handlers *)

(** Every call of a handler is allowed by the answers before it. *)
Notation keeps a := (history (confined a) server_ok).

Lemma got_later {X} (e : X) h h' : e ∈ h → e ∈ h ++ h'.
Proof. intros He. apply elem_of_app. by left. Qed.

Lemma own_later a h h' k : own_sandbox a h k → own_sandbox a (h ++ h') k.
Proof.
  intros [(x & o & Hin & Hk)|(o & Hin & Ho)]; [left; exists x, o|right; exists o]; (split; [by apply got_later|done]).
Qed.

Lemma getConfig_keeps a h : wp (keeps a) (getConfig a) (λ _ _, True) h.
Proof. unfold getConfig, getClass. split; [done|]. intros [class|err] h' _; done. Qed.

Lemma deleteSandbox_keeps a id h : wp (keeps a) (deleteSandbox a id) (λ _ _, True) h.
Proof.
  unfold deleteSandbox. destruct (_ || _); [done|]. split; [done|]. intros [sb|err] h' [Hok ->]; cbn [bind];
    [|by destruct (IsNotFound err)].
  destruct (String.eqb_spec sb.(sb_Spec).(ps_ClassName) a.(acc_ClassName)) as [Hc|]; cbn [negb]; [|done].
  specialize (Hok _ eq_refl). split.
  - rewrite Hok. split; [done|]. right. exists sb. split; [set_solver|done].
  - intros [u|err] h' _; [done|]. cbn [bind]. by destruct (IsNotFound err).
Qed.

(** The loop keeps the sandbox of its key. *)
Definition polled (h : list (event ServerE)) (key : NamespacedName) (h' : list (event ServerE))
    (out : option (response * bool * PodSandbox)) : Prop :=
  (∃ t, h' = h ++ t) ∧ ∀ resp c o, out = Some (resp, c, o) → sandbox_key o = key.

Lemma polled_stop h key t resp c o : sandbox_key o = key → polled h key (h ++ t) (Some (resp, c, o)).
Proof. intros Ho. split; [by eexists|]. by intros ? ? ? [= <- <- <-]. Qed.

Lemma poll_keeps a fuel key wn sb h :
  key.(nn_Namespace) = a.(acc_Namespace) → sandbox_key sb = key →
  wp (keeps a) (poll fuel key wn sb) (polled h key) h.
Proof.
  intros Hns. revert sb h. induction fuel as [|fuel IH]; intros sb h Hsb; cbn [poll].
  { split; [by exists []; rewrite app_nil_r|done]. }
  split; [done|]. intros [o|err] h' [Hok ->]; cbn [bind]; [|by apply polled_stop].
  specialize (Hok _ eq_refl).
  assert (Hwait : wp (keeps a) (let! w := wait in match w with
        | Some err => Ret (Some (httpError err StatusGatewayTimeout, false, o))
        | None => poll fuel key wn o end) (polled h key) (h ++ [got_sandbox key (Ok o)])).
  { split; [done|]. intros [err|] h' [_ ->]; cbn [bind]; rewrite <- app_assoc; [by apply polled_stop|].
    eapply wp_mono; [|by apply IH]. intros h' out [[t ->] Hout]. rewrite <- app_assoc. split; [by eexists|done]. }
  destruct (conditionTrue _ _ && _); [by apply polled_stop|]. destruct (conditionByType _ _); [|exact Hwait].
  destruct (bool_decide _ && _); [by apply polled_stop|exact Hwait].
Qed.

Lemma deferred_keeps a b out h :
  (∀ resp c o, out = Some (resp, c, o) → b = true →
     (sandbox_key o).(nn_Namespace) = a.(acc_Namespace) ∧ own_sandbox a h (sandbox_key o)) →
  wp (keeps a) (deferred_delete b out) (λ _ _, True) h.
Proof.
  intros Hout. destruct out as [[[resp c] o]|]; [|done]. cbn. specialize (Hout _ _ _ eq_refl).
  destruct b; cbn [andb]; [|done]. destruct (negb c); [|done]. split; [by apply Hout|done].
Qed.

Section create_keeps.
Context `{ControllerUtilLaws} (decode : string → result go_error createSandboxRequest).

(** After the objects were created, the sandbox is this request's own. *)
Definition made_own (a : authorizedAccess) (key : NamespacedName) (h : list (event ServerE))
    (r : response + PodSandbox) : Prop :=
  ∀ sb, r = inr sb → sandbox_key sb = key ∧ own_sandbox a h key.

Lemma create_with_secret_keeps a key request secret h :
  key.(nn_Namespace) = a.(acc_Namespace) → is_userdata a (secret_key secret) →
  wp (keeps a) (create_with_secret key a.(acc_ClassName) request secret) (made_own a key) h.
Proof.
  intros Hns Hsec. unfold create_with_secret. split; [done|].
  intros [sb|err] h' [Hok ->]; cbn [bind]; [|by split].
  assert (Hk : sandbox_key sb = key) by (destruct (Hok _ eq_refl) as [-> _]; by destruct key).
  assert (Hown : own_sandbox a (h ++ [@Ev ServerE (SKube (CreateSandbox
    (new_sandbox key a.(acc_ClassName) secret.(sec_meta).(om_Name) request))) (Ok sb)]) key).
  { left. eexists _, sb. split; [apply elem_of_app; right; by left|]. by destruct key. }
  destruct (SetControllerReference_secret sb secret) as [owned|] eqn:Ho; [|by intros ? [= <-]].
  apply secret_owner_only in Ho as [l ->]. split; [done|]. intros u h' [_ ->] ? [= <-]. split; [done|by apply own_later].
Qed.

Lemma create_objects_keeps a key request h :
  key.(nn_Namespace) = a.(acc_Namespace) →
  wp (keeps a) (create_objects key a.(acc_ClassName) request) (made_own a key) h.
Proof.
  intros Hns. unfold create_objects.
  assert (Hud : is_userdata a (secret_key (userdata_secret key request))) by (exists key.(nn_Name); by rewrite <- Hns).
  split; [done|]. intros [created|err] h' [Hok ->]; cbn [bind].
  - destruct (Hok _ eq_refl) as [Hk _]. apply create_with_secret_keeps; [done|by rewrite Hk].
  - destruct (IsAlreadyExists err); [by apply create_with_secret_keeps|done].
Qed.

Lemma create_decoded_keeps fuel a request h :
  wp (keeps a) (create_decoded fuel a request) (λ _ _, True) h.
Proof.
  unfold create_decoded. set (key := NN _ _). split; [done|]. intros [sb|err] h' [Hok ->]; cbn [bind].
  - destruct (_ || _); [done|]. apply wp_bind. eapply wp_mono; [|apply poll_keeps; [done|by apply Hok]].
    intros h' out _. by apply deferred_keeps.
  - destruct (negb _); [done|]. apply wp_bind. eapply wp_mono; [|by apply create_objects_keeps].
    intros h' [resp|sb] Hmade; [done|]. destruct (Hmade _ eq_refl) as [Hk Hown].
    apply wp_bind. eapply wp_mono; [|by apply poll_keeps].
    intros h2 out [[t ->] Hout]. apply deferred_keeps. intros resp c o E _. rewrite (Hout _ _ _ E).
    split; [done|by apply own_later].
Qed.

Lemma createSandbox_keeps fuel a body h :
  wp (keeps a) (createSandbox decode fuel a body) (λ _ _, True) h.
Proof.
  unfold createSandbox, getClass. split; [done|]. intros [class|err] h' _; cbn [bind]; [|done].
  destruct (decode body) as [request|err]; [|done]. destruct (_ || _); [done|]. apply create_decoded_keeps.
Qed.
End create_keeps.

(** ** Properties *)

Section properties.
Context `{ControllerUtilLaws} (decode : string → result go_error createSandboxRequest).

(** C1. Tenancy. Whatever the request and whatever the cluster answers, a request
    makes no call but those that look for its access (the token secret and the access
    secrets of the provider's namespace); or it first establishes an access its token
    is entitled to, and every call after that is confined to it: the class it reads is
    the access's; sandboxes are read, created and deleted in the access's namespace,
    created with its class, and deleted only if this request created them or has read
    them with that class; and the only secrets it writes are userdata secrets of that
    namespace. *)
Theorem requests_confined cfg fuel req t r :
  exec (ServeHTTP decode cfg fuel req) t r → Forall server_ok t →
  Forall (auth_read cfg) t
  ∨ ∃ t1 t2 a, t = t1 ++ t2 ∧ Forall (auth_read cfg) t1
      ∧ entitled cfg (TrimPrefix req.(req_authorization) "Bearer ") t1 a
      ∧ ∀ before e after, t2 = before ++ e :: after → confined a before (ev_call e).
Proof.
  intros Hx Hok. unfold ServeHTTP in Hx.
  assert (Hret : ∀ resp, exec (Ret (Some resp)) t r → Forall (auth_read cfg) t)
    by (intros resp Hr; exec_step Hr; constructor).
  assert (Hauth : ∀ next, exec (authorize cfg next req.(req_authorization)) t r →
    (∀ a, wp (keeps a) (next a) (λ _ _, True) []) →
    Forall (auth_read cfg) t ∨ ∃ t1 t2 a, t = t1 ++ t2 ∧ Forall (auth_read cfg) t1
      ∧ entitled cfg (TrimPrefix req.(req_authorization) "Bearer ") t1 a
      ∧ allowed_along (confined a) [] t2).
  { intros next [(t1 & t2 & a & -> & Hro & Hent & Hn)|[Hro _]]%exec_authorize Hkeeps; [|auto].
    right. exists t1, t2, a. split_and!; [done..|]. apply Forall_app in Hok as [_ Hok].
    by eapply wp_history_exec in Hn as [_ Hn]; [|apply Hkeeps|]. }
  repeat case_match; eauto using getConfig_keeps, deleteSandbox_keeps, createSandbox_keeps.
Qed.
End properties.

Definition create_request_fixture : http_request :=
  mk_http_request "POST" ["v1"; "sandboxes"] "Bearer cluster-secret" "{}".

(** The witness's world: the class and the access secret exist, and another
    actor reports the sandbox ready at the first tick. *)
Definition authorized_world : world := mk_world mem_fixture [report ready_condition ["10.90.0.8"]].

Lemma requests_confined_witness :
  let p := ServeHTTP decode_fixture config_fixture 5 create_request_fixture in
  let t := run_trace world_handle authorized_world p in
  (run world_handle authorized_world p).2
    = Some (mk_response 201 (BodySandbox (mk_sandboxResponse (sandboxName "sandbox-id") "api-7d9c" ["10.90.0.8"])))
  ∧ (Forall (auth_read config_fixture) t
     ∨ ∃ t1 t2 a, t = t1 ++ t2 ∧ Forall (auth_read config_fixture) t1
         ∧ entitled config_fixture "cluster-secret" t1 a
         ∧ ∀ before e after, t2 = before ++ e :: after → confined a before (ev_call e)).
Proof.
  intros p t. split; [vm_compute; reflexivity|].
  exact (requests_confined decode_fixture config_fixture 5 create_request_fixture t
           (run world_handle authorized_world p).2 (run_exec _ _ _) (run_trace_ok _ _)).
Defined.

(** C22. The constant-time comparison of tokens accepts exactly a token equal to
    the expected one, and never an empty one. *)
Theorem token_comparison_exact got expected :
  tokenMatches got expected = true ↔ got = expected ∧ got ≠ "".
Proof. apply tokenMatches_eq. Qed.

(** The token that is expected: the configured one, or that of the token secret, which
    is read when none is configured. *)
Definition token_read (cfg : Config) (t : list (event ServerE)) (expected : option string) : Prop :=
  if String.eqb cfg.(cfg_Token) ""
  then ∃ r : result go_error Secret,
         t = [@Ev ServerE (SKube (GetSecret (NN cfg.(cfg_Namespace) cfg.(cfg_TokenSecretName)))) r]
         ∧ expected = match r with
                      | Ok s => if String.eqb (secret_data s "token") "" then None else Some (secret_data s "token")
                      | Err _ => None
                      end
  else t = [] ∧ expected = Some cfg.(cfg_Token).

Lemma exec_token_read cfg t r :
  exec (token cfg) t r → token_read cfg t (match r with Ok tok => Some tok | Err _ => None end).
Proof.
  unfold token, token_read. destruct (String.eqb cfg.(cfg_Token) ""); cbn [negb]; intros Hx; [|by exec_step Hx].
  exec_step Hx. exists r0. split; [|by destruct r0 as [s|]; [destruct (String.eqb _ _)|]; exec_step Hx].
  by destruct r0 as [s|]; [destruct (String.eqb _ _)|]; exec_step Hx.
Qed.

(** C21. What a token resolves to. Without an expected token there is an error. The
    expected token gives exactly the configured class and namespace, and no access
    secret is read. Any other token is looked up in the access secrets of the
    provider's namespace: it gives an access exactly when the secrets that hold it all
    name that one valid access, no access when none holds it, and an error when one
    that holds it is incomplete or they disagree, in whatever order the API lists
    them. *)
Theorem access_resolution_exact cfg got t r :
  exec (authorizedAccess_of cfg got) t r →
  ∃ t1 t2 expected, t = t1 ++ t2 ∧ token_read cfg t1 expected ∧
    match expected with
    | None => t2 = [] ∧ ∃ err, r = Err err
    | Some tok =>
        if decide (got = tok ∧ got ≠ "")
        then t2 = [] ∧ r = Ok (mk_access cfg.(cfg_ClassName) cfg.(cfg_Namespace))
        else ∃ listed : result go_error (list Secret),
          t2 = [@Ev ServerE (SKube (ListSecrets cfg.(cfg_Namespace) AccessSecretLabel AccessSecretLabelValue)) listed]
          ∧ match listed with
            | Err _ => ∃ err, r = Err err
            | Ok items => ∀ items' a, items ≡ₚ items' → r = Ok a ↔ resolves got items' a
            end
    end.
Proof.
  unfold authorizedAccess_of. intros (t1 & t2 & tok & -> & Htok%exec_token_read & Hx)%exec_bind.
  exists t1, t2. destruct tok as [tok|err]; [|exec_step Hx; exists None; by eauto].
  exists (Some tok). split_and!; [done..|]. destruct (tokenMatches got tok) eqn:Hm.
  - rewrite decide_True by by apply tokenMatches_eq. by exec_step Hx.
  - rewrite decide_False by (rewrite <- tokenMatches_eq; congruence).
    exec_step Hx. exists r0. destruct r0 as [items|err]; exec_step Hx; (split; [done|]); [|by eexists].
    intros items' a Hp. rewrite match_accesses_spec.
    split; apply resolves_Permutation; [done | by symmetry].
Qed.

(** A token of an access secret, with a token of the API configured. *)
Definition listed_secrets (t : list (event ServerE)) : option (result go_error (list Secret)) :=
  match t with [Ev (SKube (ListSecrets _ _ _)) r] => Some r | _ => None end.

Lemma access_resolution_exact_witness :
  (run world_handle authorized_world (authorizedAccess_of config_fixture "cluster-secret")).2 = Ok access_fixture
  ∧ resolves "cluster-secret" [access_secret_fixture] access_fixture.
Proof.
  set (t := run_trace world_handle authorized_world (authorizedAccess_of config_fixture "cluster-secret")).
  assert (Hr : (run world_handle authorized_world (authorizedAccess_of config_fixture "cluster-secret")).2
               = Ok access_fixture) by (vm_compute; reflexivity).
  split; [exact Hr|].
  pose proof (run_exec world_handle authorized_world (authorizedAccess_of config_fixture "cluster-secret")) as Hx.
  rewrite Hr in Hx.
  destruct (access_resolution_exact config_fixture "cluster-secret" t _ Hx) as (t1 & t2 & expected & Ht & [-> ->] & Hres).
  rewrite decide_False in Hres by (intros [E _]; discriminate E). destruct Hres as (listed & -> & Hres).
  apply (f_equal listed_secrets) in Ht. vm_compute in Ht. injection Ht as <-.
  exact (proj1 (Hres [access_secret_fixture] access_fixture (Permutation_refl _)) eq_refl).
Defined.
