(* ===== verification/ServerLifecycle.v ===== *)
(** * The life of a sandbox in the API server

    What [createSandbox], [deleteSandbox] and [ensureTokenSecret] of
    internal/server/server.go do, on every branch: what a 201 answer means, what
    is rolled back when there is none, when the handler returns, which sandbox a
    delete removes, and what is stored in the cluster. *)

From Stdlib Require Import Ascii.
From S2P Require Import Prelude GoFmt GoStrings Sha256 Prog Api Kube Server ServerWorld.

Local Open Scope Z_scope.

(** ** What the statements are about *)

(** The sandboxes a trace created, and those it asked to delete. *)
Definition sandbox_created (e : event ServerE) : option NamespacedName :=
  match e with
  | Ev (SKube (CreateSandbox x)) (Ok _) => Some (sandbox_key x)
  | _ => None
  end.

Definition sandbox_deleted (e : event ServerE) : option NamespacedName :=
  match e with
  | Ev (SKube (DeleteSandbox k)) _ => Some k
  | _ => None
  end.

Definition creates (t : list (event ServerE)) : list NamespacedName := omap sandbox_created t.
Definition deletes (t : list (event ServerE)) : list NamespacedName := omap sandbox_deleted t.

(** The ticks of the polling loop in a trace. *)
Definition is_tick (e : event ServerE) : option unit :=
  match e with Ev SWait None => Some tt | _ => None end.

Definition ticks (t : list (event ServerE)) : nat := length (omap is_tick t).

Definition request_key (a : authorizedAccess) (request : createSandboxRequest) : NamespacedName :=
  NN a.(acc_Namespace) (sandboxName request.(rq_SandboxID)).

(** ** Lemmas on traces *)

Lemma creates_app t1 t2 : creates (t1 ++ t2) = creates t1 ++ creates t2.
Proof. apply omap_app. Qed.

Lemma deletes_app t1 t2 : deletes (t1 ++ t2) = deletes t1 ++ deletes t2.
Proof. apply omap_app. Qed.

Lemma ticks_app t1 t2 : ticks (t1 ++ t2) = (ticks t1 + ticks t2)%nat.
Proof. unfold ticks. by rewrite omap_app, length_app. Qed.

#[export] Hint Rewrite creates_app deletes_app ticks_app : go.

(** ** The polling loop *)

(** What the loop returns: it creates and deletes nothing; it completes exactly
    with a 201 for the sandbox it read last; and it is still running only after
    [fuel] ticks. *)
Lemma poll_spec fuel key wn sb t out :
  exec (poll fuel key wn sb) t out →
  creates t = [] ∧ deletes t = [] ∧
  match out with
  | None => ticks t = fuel
  | Some (resp, true, o) =>
      resp = ready_response wn o ∧ is_ready o = true
      ∧ ∃ t', t = t' ++ [got_sandbox key (Ok o)]
  | Some (resp, false, _) => resp.(resp_code) ≠ StatusCreated
  end.
Proof.
  revert t sb. induction fuel as [|fuel IH]; intros t sb H.
  { cbn [poll] in H. exec_step H. done. }
  apply exec_poll_S in H.
  destruct H as [err|o Hr|o msg Hr Hf|o err Hr Hf|o t2 out2 Hr Hf H]; try done.
  - split_and!; [done..|]. by exists [].
  - apply IH in H as (Hc & Hd & Hout). split_and!; [done..|].
    destruct out2 as [[[resp []] o']|]; [|done|].
    + destruct Hout as (-> & Hr' & t' & ->). split_and!; [done..|].
      by exists (got_sandbox key (Ok o) :: waited None :: t').
    + change (ticks _) with (S (ticks t2)). by rewrite Hout.
Qed.

Lemma poll_key fuel key wn sb t resp c o :
  exec (poll fuel key wn sb) t (Some (resp, c, o)) → Forall server_ok t →
  sandbox_key sb = key → sandbox_key o = key.
Proof.
  revert t sb. induction fuel as [|fuel IH]; intros t sb H Hok Hsb.
  { cbn [poll] in H. by exec_step H. }
  apply exec_poll_S in H. remember (Some (resp, c, o)) as out eqn:Hout.
  destruct H as [| | | |o' t' out' Hr Hf H]; inv Hok; simplify_eq; auto.
  inv H3. eapply IH; eauto.
Qed.

(** The loop only reads the sandbox and waits. *)
Definition looks (key : NamespacedName) (e : event ServerE) : Prop :=
  ev_call e = SKube (GetSandbox key) ∨ ev_call e = SWait.

Lemma poll_looks fuel key wn sb t out : exec (poll fuel key wn sb) t out → Forall (looks key) t.
Proof.
  apply (calls_exec (λ c : ServerE, c = SKube (GetSandbox key) ∨ c = SWait)). revert sb. induction fuel as [|fuel IH]; intros sb; cbn [poll]; [done|]. cbn zeta.
  split; [by left|]. intros [o|err]; cbn [bind]; [|done].
  assert (Hwait : calls (λ c : ServerE, c = SKube (GetSandbox key) ∨ c = SWait)
    (let! w := wait in match w with
        | Some err => Ret (Some (httpError err StatusGatewayTimeout, false, o))
        | None => poll fuel key wn o end)).
  { split; [by right|]. intros [err|]; [done|apply IH]. }
  destruct (conditionTrue _ _ && _); [done|]. destruct (conditionByType _ _); [|exact Hwait].
  by destruct (bool_decide _ && _).
Qed.

(** What one read decides: an error of the read is the answer, as are a ready and a
    failed sandbox; the loop waits on any other. *)
Definition decides (wn : string) (r : result go_error PodSandbox) : option (response * bool) :=
  match r with
  | Err err => Some (httpError err StatusInternalServerError, false)
  | Ok o =>
      if is_ready o then Some (ready_response wn o, true)
      else (λ msg, (httpError (ErrorsNew msg) StatusInternalServerError, false)) <$> runner_failed o
  end.

(** Reads on which the loop waited, each with the tick after it. *)
Definition waited_on (key : NamespacedName) (l : list PodSandbox) : list (event ServerE) :=
  concat ((λ o, [got_sandbox key (Ok o); waited None]) <$> l).

Lemma exec_poll_decided fuel key wn sb t out :
  exec (poll fuel key wn sb) t out →
  ∃ l tail, t = waited_on key l ++ tail ∧ Forall (λ o, decides wn (Ok o) = None) l ∧
    match out with
    | None => tail = [] ∧ length l = fuel
    | Some (resp, completed, o) =>
        (length l < fuel)%nat ∧
        ((∃ r : result go_error PodSandbox, tail = [got_sandbox key r] ∧ decides wn r = Some (resp, completed)
           ∧ o = match r with Ok o => o | Err _ => default sb (last l) end)
         ∨ ∃ err, tail = [got_sandbox key (Ok o); waited (Some err)] ∧ decides wn (Ok o) = None
           ∧ resp = httpError err StatusGatewayTimeout ∧ completed = false)
    end.
Proof.
  revert t sb. induction fuel as [|fuel IH]; intros t sb H.
  { cbn [poll] in H. exec_step H. by exists [], []. }
  apply exec_poll_S in H. destruct H as [err|o Hr|o msg Hr Hf|o err Hr Hf|o t2 out2 Hr Hf H].
  - exists [], [got_sandbox key (Err err)]. do 2 (split; [done|]). split; [cbn; lia|]. left. by eexists.
  - exists [], [got_sandbox key (Ok o)]. do 2 (split; [done|]). split; [cbn; lia|]. left. exists (Ok o).
    cbn. by rewrite Hr.
  - exists [], [got_sandbox key (Ok o)]. do 2 (split; [done|]). split; [cbn; lia|]. left. exists (Ok o).
    cbn. by rewrite Hr, Hf.
  - exists [], [got_sandbox key (Ok o); waited (Some err)]. do 2 (split; [done|]). split; [cbn; lia|]. right. exists err.
    cbn. by rewrite Hr, Hf.
  - apply IH in H as (l & tail & -> & Hl & Hout). exists (o :: l), tail. split; [done|]. split.
    + constructor; [|done]. cbn. by rewrite Hr, Hf.
    + destruct out2 as [[[resp c] o']|]; [|by destruct Hout as [-> <-]]. destruct Hout as [Hlt Hout].
      split; [cbn; lia|]. destruct Hout as [(r & -> & Hd & ->)|Hout]; [|by right].
      left. exists r. split_and!; [done..|]. destruct r as [|err]; [done|]. rewrite last_cons. by destruct (last l).
Qed.

(** ** The creation of the objects *)

Section create.
Context `{ControllerUtil} (decode : string → result go_error createSandboxRequest).

(** Which path [create_objects] takes. The secret it goes on with is the one
    the API returned, or its own when one was there already. *)
Inductive create_path (key : NamespacedName) (className : string)
    (request : createSandboxRequest) : list (event ServerE) → response + PodSandbox → Prop :=
| secret_refused err :
    IsAlreadyExists err = false →
    create_path key className request
      [@Ev ServerE (SKube (CreateSecret (userdata_secret key request))) (Err err)]
      (inl (httpError err StatusInternalServerError))
| sandbox_refused made secret err d :
    made = Ok secret ∨ (secret = userdata_secret key request
                        ∧ ∃ e, made = Err e ∧ IsAlreadyExists e = true) →
    create_path key className request
      [@Ev ServerE (SKube (CreateSecret (userdata_secret key request))) made;
       @Ev ServerE (SKube (CreateSandbox (new_sandbox key className
                             secret.(sec_meta).(om_Name) request))) (Err err);
       @Ev ServerE (SKube (DeleteSecret (secret_key secret))) d]
      (inl (httpError err StatusInternalServerError))
| sandbox_made made secret sb t :
    made = Ok secret ∨ (secret = userdata_secret key request
                        ∧ ∃ e, made = Err e ∧ IsAlreadyExists e = true) →
    (t = [] ∨ ∃ owned u, SetControllerReference_secret sb secret = Ok owned
                         ∧ t = [@Ev ServerE (SKube (UpdateSecret owned)) u]) →
    create_path key className request
      ([@Ev ServerE (SKube (CreateSecret (userdata_secret key request))) made;
        @Ev ServerE (SKube (CreateSandbox (new_sandbox key className
                              secret.(sec_meta).(om_Name) request))) (Ok sb)] ++ t)
      (inr sb).

Lemma exec_create_with_secret key className request made secret t out :
  exec (create_with_secret key className request secret) t out →
  made = Ok secret ∨ (secret = userdata_secret key request
                      ∧ ∃ e, made = Err e ∧ IsAlreadyExists e = true) →
  create_path key className request
    (@Ev ServerE (SKube (CreateSecret (userdata_secret key request))) made :: t) out.
Proof.
  unfold create_with_secret. intros Hx Hmade. exec_step Hx. destruct r as [sb|err].
  - destruct (SetControllerReference_secret sb secret) as [owned|] eqn:Ho.
    + exec_step Hx. exec_step Hx. eapply sandbox_made; eauto.
    + exec_step Hx. eapply sandbox_made; eauto.
  - exec_step Hx. exec_step Hx. by eapply sandbox_refused.
Qed.

Lemma exec_create_objects key className request t out :
  exec (create_objects key className request) t out → create_path key className request t out.
Proof.
  unfold create_objects. intros Hx. exec_step Hx. destruct r as [secret|err].
  - eapply exec_create_with_secret; eauto.
  - destruct (IsAlreadyExists err) eqn:He.
    + eapply exec_create_with_secret; eauto.
    + exec_step Hx. by constructor.
Qed.

(** *** The paths of [createSandbox] *)

(** [createSandbox] answers before it touches a sandbox, or creates one and
    polls it, or polls the one that is there. *)
Inductive create_run (fuel : nat) (a : authorizedAccess) (request : createSandboxRequest)
    : list (event ServerE) → option response → Prop :=
| run_refused t resp :
    creates t = [] → deletes t = [] → ticks t = 0%nat → resp.(resp_code) ≠ StatusCreated →
    create_run fuel a request t (Some resp)
| run_polled (createdHere : bool) pre sb t out t' r :
    creates pre = (if createdHere then [request_key a request] else []) → deletes pre = [] →
    ticks pre = 0%nat →
    (createdHere = false → sb.(sb_Spec).(ps_SandboxID) = request.(rq_SandboxID)
        ∧ sb.(sb_Spec).(ps_ClassName) = a.(acc_ClassName)
        ∧ sb.(sb_Spec).(ps_WorkloadRef) = request.(rq_WorkloadRef)) →
    (Forall server_ok pre → sandbox_key sb = request_key a request) →
    exec (poll fuel (request_key a request) request.(rq_WorkloadRef).(wr_Name) sb) t out →
    exec (deferred_delete createdHere out) t' r →
    create_run fuel a request (pre ++ t ++ t') r.

Lemma exec_create_decoded fuel a request t r :
  exec (create_decoded fuel a request) t r → create_run fuel a request t r.
Proof.
  unfold create_decoded. intros Hx. exec_step Hx. fold (request_key a request) in *.
  destruct r0 as [sb|err].
  - destruct (_ || _) eqn:Hid; [exec_step Hx; by constructor|].
    apply exec_bind in Hx as (t1 & t2 & out & -> & Hp & Hd).
    apply (run_polled fuel a request false [got_sandbox (request_key a request) (Ok sb)] sb t1 out);
      [done..| | |done|done].
    + intros _. rewrite !orb_false_iff, !negb_false_iff, !String.eqb_eq, bool_decide_eq_false in Hid.
      destruct Hid as [[? ?] Hw]. split_and!; [done..|]. by apply dec_stable.
    + intros Hok. inv Hok. by apply H2.
  - destruct (negb (IsNotFound err)); [exec_step Hx; by constructor|].
    apply exec_bind in Hx as (t1 & t2 & out & -> & Ho & Hx).
    apply exec_create_objects in Ho. destruct Ho as [err' He|made sec err' d Hm|made sec sb t Hm Ht].
    + exec_step Hx. by constructor.
    + exec_step Hx. by constructor.
    + apply exec_bind in Hx as (t3 & t4 & out & -> & Hp & Hd).
      rewrite app_comm_cons.
      assert (creates t = [] ∧ deletes t = [] ∧ ticks t = 0%nat) as (Hc & Hdl & Htk).
      { destruct Ht as [->|(? & ? & _ & ->)]; done. }
      apply (run_polled fuel a request true _ sb t3 out); [..|done|done].
      * change (request_key a request :: creates t = [request_key a request]). by rewrite Hc.
      * by change (deletes t = []).
      * by change (ticks t = 0%nat).
      * done.
      * cbn [app]. rewrite !Forall_cons. intros (_ & _ & Hsb & _).
        by destruct (Hsb _ eq_refl) as [-> _].
Qed.

Lemma exec_createSandbox fuel a body t r :
  exec (createSandbox decode fuel a body) t r →
  ∃ e t', t = e :: t' ∧ creates [e] = [] ∧ deletes [e] = [] ∧ ticks [e] = 0%nat
    ∧ ((t' = [] ∧ ∃ resp, r = Some resp ∧ resp.(resp_code) ≠ StatusCreated)
       ∨ ∃ request, decode body = Ok request ∧ create_run fuel a (with_defaults request) t' r).
Proof.
  unfold createSandbox, getClass. intros Hx. exec_step Hx.
  eexists _, _. split; [done|]. split_and!; [done..|].
  destruct r0 as [class|err]; cbn [bind] in Hx; [|exec_step Hx; eauto].
  destruct (decode body) as [request|err]; [|exec_step Hx; eauto].
  case_in Hx; [exec_step Hx; eauto|].
  right. exists request. split; [done|]. by apply exec_create_decoded.
Qed.

(** The deferred delete, after a poll that returned. *)
Lemma exec_deferred createdHere resp c o t r :
  exec (deferred_delete createdHere (Some (resp, c, o))) t r →
  r = Some resp ∧ creates t = [] ∧ ticks t = 0%nat
  ∧ if createdHere && negb c
    then ∃ d, t = [@Ev ServerE (SKube (DeleteSandbox (sandbox_key o))) d]
    else t = [].
Proof.
  unfold deferred_delete. destruct (createdHere && negb c); intros Hx.
  - exec_step Hx. exec_step Hx. eauto 10.
  - by exec_step Hx.
Qed.

(** The whole of a creation that polls, with a response. *)
Lemma create_run_Some fuel a request t resp :
  create_run fuel a request t (Some resp) → Forall server_ok t →
  (creates t = [] ∧ deletes t = []
   ∨ creates t = [request_key a request]
     ∧ (resp.(resp_code) = StatusCreated ∧ deletes t = []
        ∨ resp.(resp_code) ≠ StatusCreated ∧ deletes t = [request_key a request]
          ∧ ∃ t' d, t = t' ++ [@Ev ServerE (SKube (DeleteSandbox (request_key a request))) d]))
  ∧ (resp.(resp_code) = StatusCreated →
     ∃ t' o, t = t' ++ [got_sandbox (request_key a request) (Ok o)] ∧ is_ready o = true
             ∧ resp = ready_response request.(rq_WorkloadRef).(wr_Name) o).
Proof.
  intros Hrun Hok. remember (Some resp) as r eqn:Hr.
  destruct Hrun as [t resp' Hc Hd _ Hne|created pre sb t out t' r Hc Hd _ _ Hsb Hp Hdef].
  { injection Hr as ->. split; [by left|done]. }
  subst r. rewrite !Forall_app in Hok. destruct Hok as (Hok1 & Hok2 & Hok3).
  pose proof (poll_spec _ _ _ _ _ _ Hp) as (Hc2 & Hd2 & Hout).
  destruct out as [[[resp' c] o]|]; [|by unfold deferred_delete in Hdef; exec_step Hdef].
  pose proof (poll_key _ _ _ _ _ _ _ _ Hp Hok2 (Hsb Hok1)) as Ho.
  apply exec_deferred in Hdef as ([= <-] & Hc3 & _ & Ht').
  rewrite !creates_app, !deletes_app, Hc, Hd, Hc2, Hd2, Hc3, !app_nil_r. cbn [app].
  destruct c.
  - rewrite andb_false_r in Ht'. subst t'. destruct Hout as (-> & Hrdy & t'' & ->).
    split; [destruct created; cbn; auto|]. intros _. exists (pre ++ t''), o.
    by rewrite app_nil_r, app_assoc.
  - split; [|done]. destruct created; cbn [andb negb] in Ht'; [|subst t'; by left].
    destruct Ht' as [d ->]. rewrite Ho. right. split; [done|]. right. split_and!; [done..|].
    exists (pre ++ t), d. by rewrite app_assoc.
Qed.

(** A creation is still polling only after [fuel] ticks. *)
Lemma create_run_None fuel a request t :
  create_run fuel a request t None → ticks t = fuel.
Proof.
  intros Hrun. remember None as r eqn:Hr.
  destruct Hrun as [|created pre sb t out t' r _ _ Htk _ _ Hp Hdef]; [done|]. subst r.
  apply poll_spec in Hp as (_ & _ & Hout). rewrite !ticks_app, Htk.
  destruct out as [[[resp c] o]|].
  - by apply exec_deferred in Hdef as (? & _).
  - unfold deferred_delete in Hdef. exec_step Hdef. cbn. lia.
Qed.
End create.

(** ** The cluster's contents

    The server against a store that keeps the laws of [ApiServer], with nobody
    else writing between two calls of one request. *)

Section store.
Context {S : Type} `{ApiServerLaws S}.

Definition atomic : rely ServerE S :=
  Rely (λ _ _, True)
    (λ s c, match c return @answer ServerE c → S → Prop with
            | SKube c => λ r s', api_step s c r s'
            | SRandRead n => λ r s', s' = s ∧ ∀ b, r = Ok b → String.length b = n
            | SWait => λ _ s', s' = s
            | SServe => λ _ s', s' = s
            end).

Lemma contents_secrets (s s' : S) : contents s' = contents s → api_secrets s' = api_secrets s.
Proof. unfold contents. congruence. Qed.

Lemma contents_sandboxes (s s' : S) : contents s' = contents s → api_sandboxes s' = api_sandboxes s.
Proof. unfold contents. congruence. Qed.

(** The same store, with the random bytes that were drawn. *)
Definition drawing : rely ServerE (S * list string) :=
  Rely (λ _ _, True)
    (λ g c r g', answers atomic g.1 c r g'.1
       ∧ g'.2 = match Ev c r with
                | Ev (SRandRead _) (Ok b) => g.2 ++ [b]
                | _ => g.2
                end).

(** What [ensureTokenSecret] leaves: an existing secret alone; and on success a secret
    with a token, which is the hexadecimal form of the 32 random bytes that were drawn
    when there was none. *)
Definition token_established (cfg : Config) (g g' : S * list string) (r : result go_error unit) : Prop :=
  let key := NN cfg.(cfg_Namespace) cfg.(cfg_TokenSecretName) in
  (is_Some (api_secrets g.1 !! key) → contents g'.1 = contents g.1 ∧ g'.2 = g.2)
  ∧ (r = Ok tt → ∃ x, api_secrets g'.1 !! key = Some x ∧ secret_data x "token" ≠ ""
       ∧ (api_secrets g.1 !! key = None →
          ∃ b, g'.2 = g.2 ++ [b] ∧ String.length b = 32%nat ∧ x.(sec_Data) = {["token" := hex_encode b]})).

Lemma wp_ensureTokenSecret cfg g : wp drawing (ensureTokenSecret cfg) (token_established cfg g) g.
Proof.
  destruct g as [s d]. unfold ensureTokenSecret, token_established. set (key := NN _ _). cbn [fst snd].
  wp_step. wp_step; [done|]. intros existing [s1 d1] [Hget Hd1]. cbn [fst snd] in Hget, Hd1. subst d1.
  pose proof (step_read _ _ _ _ Hget eq_refl) as Hsame1.
  pose proof (contents_secrets _ _ Hsame1) as Hsec1.
  apply step_get_secret in Hget. cbn [wp]. destruct existing as [x|err].
  - destruct (String.eqb_spec (secret_data x "token") ""); cbn [wp fst snd]; (split; [done|]); [done|].
    intros _. exists x. rewrite Hsec1. split_and!; [done..|congruence].
  - destruct (IsNotFound err) eqn:Hnf; cbn [negb wp fst snd]; [|split; [done|congruence]].
    specialize (Hget eq_refl).
    wp_step. wp_step; [done|]. intros random [s2 d2] [[Hs2 Hlen] Hd2]. cbn [fst snd] in *. subst s2 d2. cbn [wp].
    destruct random as [random|err2]; [|split; [by rewrite Hget; intros []|done]].
    wp_step. wp_step; [done|]. intros made [s3 d3] [Hmade Hd3]. cbn [wp fst snd] in *. subst d3.
    pose proof (step_ok _ _ _ _ Hmade) as Hok.
    apply step_create_secret in Hmade. rewrite Hsec1 in Hmade. destruct made as [o|err3].
    + cbn [wp fst snd]. split; [rewrite Hget; by intros []|]. intros _.
      destruct Hmade as [_ Hc]. destruct (Hok _ eq_refl) as (_ & Hdata & _). cbn in Hdata. exists o.
      assert (Hl : String.length (hex_encode random) = 64%nat)
        by (rewrite hex_encode_length, (Hlen _ eq_refl); done).
      split_and!.
      * unfold contents in Hc. replace (api_secrets s3) with (<[key:=o]> (api_secrets s));
          [apply lookup_insert_eq|by injection Hc].
      * unfold secret_data. rewrite Hdata. change (hex_encode random ≠ ""). intros E. by rewrite E in Hl.
      * intros _. exists random. split_and!; [done|by apply Hlen|done].
    + destruct Hmade as [Hc Hex]. destruct (IsAlreadyExists err3); cbn [wp fst snd].
      * specialize (Hex eq_refl). change (is_Some (api_secrets s !! key)) in Hex.
        rewrite Hget in Hex. by destruct Hex.
      * split; [rewrite Hget; by intros []|done].
Qed.

(** *** The stored objects of a creation *)

Definition userdata_key (key : NamespacedName) : NamespacedName :=
  NN key.(nn_Namespace) (key.(nn_Name) +:+ "-userdata").

(** The sandbox [sb] is stored as the request asked, next to a userdata secret
    with the data [d]. *)
Definition stored (key : NamespacedName) (className : string) (request : createSandboxRequest)
    (d : gmap string string) (s : S) (sb : PodSandbox) : Prop :=
  api_sandboxes s !! key = Some sb
  ∧ sb.(sb_Spec) = mk_PodSandboxSpec request.(rq_WorkloadRef) request.(rq_SandboxID)
                     (userdata_key key).(nn_Name) className
                     request.(rq_VCPUs) request.(rq_MemoryMiB) request.(rq_Arch)
  ∧ ∃ x, api_secrets s !! userdata_key key = Some x ∧ x.(sec_Data) = d.

Lemma wp_create_with_secret `{ControllerUtilLaws} key className request secret x s :
  secret_key secret = userdata_key key →
  api_secrets s !! userdata_key key = Some x → x.(sec_Immutable) = true →
  wp atomic (create_with_secret key className request secret)
    (λ s' r, ∀ sb, r = inr sb → stored key className request x.(sec_Data) s' sb) s.
Proof.
  intros Hsec Hx Hxi. unfold create_with_secret.
  wp_step. wp_step; [done|]. intros made s2 Hmade. cbn [wp].
  pose proof (step_ok _ _ _ _ Hmade) as Hok. apply step_create_sandbox in Hmade.
  destruct made as [sb|err]; [|wp_step; wp_step; [done|]; intros ? ? ?; cbn [wp]; done].
  destruct (Hok _ eq_refl) as [_ Hspec]. destruct Hmade as [_ Hc]. injection Hc as _ Hsb2 Hsec2 _.
  replace (sandbox_key (new_sandbox _ _ _ _)) with key in Hsb2 by by destruct key.
  replace (secret.(sec_meta).(om_Name)) with (userdata_key key).(nn_Name) in Hspec
    by by rewrite <- Hsec.
  assert (Hstored : api_sandboxes s2 !! key = Some sb) by (rewrite Hsb2; apply lookup_insert_eq).
  destruct (SetControllerReference_secret sb secret) as [owned|] eqn:Ho.
  - wp_step. wp_step; [done|]. intros upd s3 Hupd. cbn [wp]. intros ? [= <-].
    apply step_update_secret in Hupd. apply secret_owner_only in Ho as [l ->].
    change (secret_key (mk_Secret _ _ _ _)) with (secret_key secret) in Hupd.
    rewrite Hsec, Hsec2 in Hupd. unfold stored. destruct upd as [o|err].
    + destruct Hupd as (Hc & _ & Hkeep). injection Hc as _ Hsb3 Hsec3 _.
      rewrite Hsb3, Hsec3, lookup_insert_eq. eauto 10.
    + rewrite (contents_sandboxes _ _ Hupd), (contents_secrets _ _ Hupd), Hsec2. eauto.
  - cbn [wp]. intros ? [= <-]. unfold stored. rewrite Hsec2. eauto.
Qed.

(** From a cluster whose userdata secret is [old], if any: the data that ends
    up next to the sandbox is that of [old], and the request's if there is
    none. *)
Lemma wp_create_objects `{ControllerUtilLaws} key className request old s :
  api_secrets s !! userdata_key key = old →
  (∀ x, old = Some x → x.(sec_Immutable) = true) →
  wp atomic (create_objects key className request)
    (λ s' r, ∀ sb, r = inr sb →
      stored key className request
        (from_option sec_Data {[userDataKey := request.(rq_UserData)]} old) s' sb) s.
Proof.
  intros Hold Himm. unfold create_objects.
  wp_step. wp_step; [done|]. intros made s1 Hmade. cbn [wp].
  pose proof (step_ok _ _ _ _ Hmade) as Hok. apply step_create_secret in Hmade.
  change (secret_key (userdata_secret key request)) with (userdata_key key) in *.
  destruct made as [o|err].
  - destruct (Hok _ eq_refl) as (Hk & Hdata & Hi). destruct Hmade as [Hnone Hc].
    injection Hc as _ _ Hsec1 _. rewrite Hold in Hnone. subst old. rewrite Hnone. cbn [from_option].
    change ({[userDataKey := _]}) with (userdata_secret key request).(sec_Data). rewrite <- Hdata.
    apply wp_create_with_secret; [done| |by rewrite Hi].
    rewrite Hsec1. apply lookup_insert_eq.
  - destruct Hmade as [Hc Hex]. destruct (IsAlreadyExists err); [|cbn [wp]; done].
    destruct (Hex eq_refl) as [x Hx]. rewrite Hold in Hx. subst old. rewrite Hx.
    apply wp_create_with_secret; [done| |by apply Himm].
    by rewrite (contents_secrets _ _ Hc).
Qed.
End store.

(** ** Names *)

(** The characters of a DNS label. *)
Definition is_label_char (c : Ascii.ascii) : bool :=
  between 97 122 (byte_val c) || between 48 57 (byte_val c) || (byte_val c =? 45).

Lemma substring_length n s : (n ≤ String.length s)%nat → String.length (String.substring 0 n s) = n.
Proof.
  revert s. induction n as [|n IH]; intros [|c s] Hn; cbn in *; try lia. rewrite IH; lia.
Qed.

Lemma is_hex_label c : is_hex c = true → is_label_char c = true.
Proof.
  unfold is_hex, is_label_char. rewrite !orb_true_iff, !between_spec. lia.
Qed.

Lemma sandboxName_label x : string_forall is_label_char (sandboxName x) = true.
Proof.
  unfold sandboxName. rewrite string_forall_app. apply andb_true_iff. split; [done|].
  eapply string_forall_impl; [apply is_hex_label | auto with go].
Qed.

(** The sandbox was seen absent, or deleted (by this request or by another). *)
Definition gone (key : NamespacedName) (t : list (event ServerE)) : Prop :=
  ∃ c (r : answer c), @Ev ServerE c r ∈ t ∧
    match c, r with
    | SKube (GetSandbox k), Err err => k = key ∧ IsNotFound err = true
    | SKube (DeleteSandbox k), Ok _ => k = key
    | SKube (DeleteSandbox k), Err err => k = key ∧ IsNotFound err = true
    | _, _ => False
    end.

(** A deletion that answers no error: the sandbox is gone, and no other one was
    touched. *)
Lemma exec_deleted a id t resp :
  exec (deleteSandbox a id) t (Some resp) → Forall server_ok t → resp.(resp_code) < StatusBadRequest →
  gone (NN a.(acc_Namespace) id) t ∧ Forall (λ k, k = NN a.(acc_Namespace) id) (deletes t).
Proof.
  unfold deleteSandbox. intros Hx Hok Hcode.
  destruct (_ || _); [exec_step Hx; injection Ha as ->; by vm_compute in Hcode|].
  exec_step Hx. apply Forall_cons in Hok as [Hget _]. destruct r as [sb|err].
  - specialize (Hget _ eq_refl). destruct (negb _); [exec_step Hx; injection Ha as ->; by vm_compute in Hcode|].
    exec_step Hx. rewrite Hget in *.
    assert (t = [] ∧ match r with Ok _ => True | Err err => IsNotFound err = true end) as [-> Hr].
    { destruct r as [|err]; [by exec_step Hx|]. destruct (IsNotFound err); exec_step Hx; [done|].
      injection Ha as ->. by vm_compute in Hcode. }
    split; [|by repeat constructor]. exists (SKube (DeleteSandbox (NN a.(acc_Namespace) id))), r.
    split; [set_solver|]. by destruct r.
  - destruct (IsNotFound err) eqn:He; exec_step Hx; injection Ha as ->; [|by vm_compute in Hcode].
    split; [|constructor]. exists (SKube (GetSandbox (NN a.(acc_Namespace) id))), (Err err).
    split; [set_solver|done].
Qed.

(** ** Properties *)

Section properties.
Context `{ControllerUtil} (decode : string → result go_error createSandboxRequest).

(** A creation answers 201 or an error. *)
Definition created_or_error (r : option response) : Prop :=
  ∀ resp, r = Some resp → resp.(resp_code) = StatusCreated ∨ StatusBadRequest ≤ resp.(resp_code).

Lemma error_code e code : StatusBadRequest ≤ code → created_or_error (Some (httpError e code)).
Proof. intros Hc resp [= <-]. by right. Qed.

#[local] Ltac error_code := apply error_code; vm_compute; discriminate.

Lemma poll_codes fuel key wn sb :
  returns (λ r, ∀ resp c o, r = Some (resp, c, o) → created_or_error (Some resp)) (poll fuel key wn sb).
Proof.
  revert sb. induction fuel as [|fuel IH]; intros sb; cbn [poll bind perform]; [done|].
  intros [o|err]; [|intros ? ? ? [= <- <- <-]; error_code].
  assert (Hwait : returns (λ r, ∀ resp c o, r = Some (resp, c, o) → created_or_error (Some resp))
    (let! w := wait in match w with
        | Some err => Ret (Some (httpError err StatusGatewayTimeout, false, o))
        | None => poll fuel key wn o end)).
  { intros [err|]; [intros ? ? ? [= <- <- <-]; error_code|]. apply IH. }
  destruct (_ && _); [intros ? ? ? [= <- <- <-] resp [= <-]; by left|].
  destruct (conditionByType _ _); [|exact Hwait]. destruct (_ && _); [|exact Hwait].
  intros ? ? ? [= <- <- <-]; error_code.
Qed.

Lemma deferred_codes createdHere r :
  (∀ resp c o, r = Some (resp, c, o) → created_or_error (Some resp)) →
  returns created_or_error (deferred_delete createdHere r).
Proof.
  intros Hr. destruct r as [[[resp c] o]|]; [|done]. cbn. specialize (Hr _ _ _ eq_refl).
  destruct (createdHere && negb c); cbn; auto.
Qed.

Lemma createSandbox_codes fuel a body : returns created_or_error (createSandbox decode fuel a body).
Proof.
  assert (Hpoll : ∀ fuel b key wn sb,
    returns created_or_error (let! out := poll fuel key wn sb in deferred_delete b out)).
  { intros. apply returns_bind. eapply returns_mono; [|apply poll_codes]. intros. by apply deferred_codes. }
  unfold createSandbox, getClass. cbn [bind perform]. intros [class|err]; cbn [bind]; [|error_code].
  destruct (decode body) as [request|err]; [|error_code]. destruct (_ || _); [error_code|].
  unfold create_decoded. cbn [bind perform]. intros [sb|err].
  - destruct (_ || _); [error_code|]. apply Hpoll.
  - destruct (negb _); [error_code|]. apply returns_bind.
    assert (Hs : ∀ s, returns (λ r, match r with inl resp => created_or_error (Some resp) | inr _ => True end)
      (create_with_secret (request_key a (with_defaults request)) a.(acc_ClassName) (with_defaults request) s)).
    { intros s. unfold create_with_secret. cbn [bind perform]. intros [sb|e]; [|intros ?; error_code].
      by destruct (SetControllerReference_secret sb s). }
    apply (returns_mono (λ r, match r with inl resp => created_or_error (Some resp) | inr _ => True end)).
    + intros [resp|sb]; [done|]. intros _. apply Hpoll.
    + unfold create_objects. cbn [bind perform]. intros [s|e]; [apply Hs|].
      destruct (IsAlreadyExists e); [apply Hs|error_code].
Qed.

(** A 201: the last call read the sandbox as ready, and nothing was deleted. *)
Lemma exec_created fuel a body t resp :
  exec (createSandbox decode fuel a body) t (Some resp) → Forall server_ok t →
  resp.(resp_code) = StatusCreated →
  ∃ request t' o, decode body = Ok request
    ∧ t = t' ++ [got_sandbox (request_key a request) (Ok o)]
    ∧ conditionTrue o.(sb_Status).(st_Conditions) ConditionReady = true
    ∧ o.(sb_Status).(st_IPs) ≠ [] ∧ deletes t = []
    ∧ resp.(resp_body) = BodySandbox (mk_sandboxResponse (sandboxName request.(rq_SandboxID))
                           request.(rq_WorkloadRef).(wr_Name) o.(sb_Status).(st_IPs)).
Proof.
  intros (e & t' & -> & _ & He & _ & [[_ (? & [= <-] & Hne)]|(request & Hdec & Hrun)])%exec_createSandbox Hok;
    [done|]. apply Forall_cons in Hok as [_ Hok].
  apply create_run_Some in Hrun as [Hdel Hrun]; [|done]. intros Hcode.
  assert (deletes t' = []) as Hd by (destruct Hdel as [[_ ?]|[_ [[_ ?]|[? _]]]]; done).
  destruct (Hrun Hcode) as (t'' & o & -> & Hready & ->).
  apply Forall_snoc in Hok as [_ Ho]. specialize (Ho _ eq_refl). injection Ho as Hns Hname.
  unfold is_ready in Hready. apply andb_true_iff in Hready as [Htrue Hips].
  rewrite negb_true_iff, bool_decide_eq_false in Hips.
  exists request, (e :: t''), o. split_and!; [done..| |].
  - rewrite (deletes_app [e] _ : deletes (e :: _) = _), He. exact Hd.
  - cbn. by rewrite Hname.
Qed.

(** C4. Roll-back. In every execution of [createSandbox] that answers, either
    no PodSandbox was created and none is deleted (so a retry never deletes the
    sandbox of an earlier request), or exactly the request's sandbox was
    created, and it is deleted again, by the last call, exactly when the answer
    is not 201. *)
Theorem create_rolls_back fuel a body t resp :
  exec (createSandbox decode fuel a body) t (Some resp) → Forall server_ok t →
  (creates t = [] ∧ deletes t = [])
  ∨ ∃ request, decode body = Ok request
      ∧ creates t = [request_key a request]
      ∧ (resp.(resp_code) = StatusCreated ∧ deletes t = []
         ∨ resp.(resp_code) ≠ StatusCreated ∧ deletes t = [request_key a request]
           ∧ ∃ t' d, t = t' ++ [@Ev ServerE (SKube (DeleteSandbox (request_key a request))) d]).
Proof.
  intros (e & t' & -> & He & Hd & _ & [[-> _]|(request & Hdec & Hrun)])%exec_createSandbox Hok.
  { by left. }
  apply Forall_cons in Hok as [_ Hok]. apply create_run_Some in Hrun as [Hrun _]; [|done].
  rewrite (creates_app [e] t' : creates (e :: t') = _), (deletes_app [e] t' : deletes (e :: t') = _), He, Hd.
  destruct Hrun as [Hrun|(Hc & Hrun)]; [by left|]. right. exists request. split_and!; [done..|].
  destruct Hrun as [Hrun|(Hne & Hdl & t'' & d & ->)]; [by left|]. right.
  split_and!; [done..|]. by exists (e :: t''), d.
Qed.

(** C5. A 201 is sent only for a sandbox that the last call of the request
    read as Ready with at least one address; the body carries that sandbox's
    name and addresses and the name of the request's workload. *)
Theorem created_means_ready fuel a body t resp :
  exec (createSandbox decode fuel a body) t (Some resp) → Forall server_ok t →
  resp.(resp_code) = StatusCreated →
  ∃ request t' o, decode body = Ok request
    ∧ t = t' ++ [got_sandbox (request_key a request) (Ok o)]
    ∧ conditionTrue o.(sb_Status).(st_Conditions) ConditionReady = true
    ∧ o.(sb_Status).(st_IPs) ≠ []
    ∧ resp.(resp_body) = BodySandbox (mk_sandboxResponse (sandboxName request.(rq_SandboxID))
                           request.(rq_WorkloadRef).(wr_Name) o.(sb_Status).(st_IPs)).
Proof.
  intros Hx Hok Hcode. destruct (exec_created _ _ _ _ _ Hx Hok Hcode) as (request & t' & o & Hreq).
  exists request, t', o. tauto.
Qed.

(** C7. The answer to a creation is decided by the first decisive read. In every
    execution the polling loop reads the sandbox, waiting one tick after each read of
    a sandbox that is neither ready nor failed, fewer times than its fuel; and the last
    read decides: an error of the read is answered 500, a ready sandbox 201 with its
    addresses, a failed runner 500 with its message, and when the context is done
    after a read that decides nothing, 504. The loop reports success exactly with 201.
    It is cut short only after as many ticks as its fuel. *)
Theorem creation_decided fuel key wn sb t out :
  exec (poll fuel key wn sb) t out →
  ∃ l tail, t = waited_on key l ++ tail ∧ Forall (λ o, decides wn (Ok o) = None) l ∧
    match out with
    | None => tail = [] ∧ length l = fuel
    | Some (resp, completed, o) =>
        (length l < fuel)%nat ∧
        ((∃ r : result go_error PodSandbox, tail = [got_sandbox key r] ∧ decides wn r = Some (resp, completed)
           ∧ o = match r with Ok o => o | Err _ => default sb (last l) end)
         ∨ ∃ err, tail = [got_sandbox key (Ok o); waited (Some err)] ∧ decides wn (Ok o) = None
           ∧ resp = httpError err StatusGatewayTimeout ∧ completed = false)
    end.
Proof. apply exec_poll_decided. Qed.

(** C14. The handler returns: against any surroundings, if fewer than [fuel]
    ticks pass before the request's context is done (or the sandbox settles),
    [createSandbox] has an answer; the polling loop cannot run on. *)
Theorem create_terminates {S} (h : S → ∀ c : ServerE, S * answer c) s fuel a body :
  let p := createSandbox decode fuel a body in
  (ticks (run_trace h s p) < fuel)%nat → ∃ resp, (run h s p).2 = Some resp.
Proof.
  intros p Hticks. pose proof (run_exec h s p) as Hx.
  destruct (run h s p).2 as [resp|]; [by exists resp|].
  apply exec_createSandbox in Hx as
    (e & t' & Ht & _ & _ & He & [[_ (? & [=] & _)]|(request & _ & Hrun)]).
  apply create_run_None in Hrun. rewrite Ht in Hticks.
  rewrite (ticks_app [e] t' : ticks (e :: t') = _), He, Hrun in Hticks. lia.
Qed.

(** C23. A request for a name that is taken: when the stored sandbox differs in
    sandbox ID, class or workload the answer is 409 and nothing is called after
    the read; when it is the same, every further call reads that sandbox or waits, so
    nothing at all is created, changed or deleted. *)
Theorem create_existing fuel a request sb t r :
  exec (create_decoded fuel a request) (got_sandbox (request_key a request) (Ok sb) :: t) r →
  if decide (sb.(sb_Spec).(ps_SandboxID) = request.(rq_SandboxID)
             ∧ sb.(sb_Spec).(ps_ClassName) = a.(acc_ClassName)
             ∧ sb.(sb_Spec).(ps_WorkloadRef) = request.(rq_WorkloadRef))
  then Forall (looks (request_key a request)) t
  else t = [] ∧ r = Some (httpError (ErrorsNew "sandbox identity conflict") StatusConflict).
Proof.
  intros Hx. unfold create_decoded in Hx. apply exec_call_inv in Hx as (ans & t' & Ht & Hx).
  assert (t' = t) as -> by exact (eq_sym (f_equal tail Ht)).
  assert (ans = Ok sb) as -> by (apply (f_equal (λ l, hd_error l ≫= sandbox_read)) in Ht; by injection Ht).
  cbn beta iota in Hx.
  destruct (_ || _) eqn:Hid.
  - rewrite decide_False; [by exec_step Hx|]. intros (E1 & E2 & E3).
    by rewrite E1, E2, E3, !String.eqb_refl, bool_decide_false in Hid by naive_solver.
  - rewrite !orb_false_iff, !negb_false_iff, !String.eqb_eq, bool_decide_eq_false in Hid.
    destruct Hid as [[? ?] Hw%dec_stable]. rewrite decide_True by done.
    apply exec_bind in Hx as (t1 & t2 & out & -> & Hp & Hd).
    apply Forall_app. split; [by eapply poll_looks|].
    destruct out as [[[resp c] o]|].
    + by apply exec_deferred in Hd as (_ & _ & _ & ->).
    + unfold deferred_delete in Hd. by exec_step Hd.
Qed.
End properties.

(** C24. Deletion, case by case. An ID that is empty or has a slash is answered 400
    without a call. Otherwise the sandbox of that name in the access's namespace is
    read first. Absent, it is answered 204; unreadable, 500; of another class, 403; and
    in none of these cases anything else is called. Only when it was read with the
    access's class it is deleted, it and nothing else: 204 if that succeeds or finds
    it gone, 500 otherwise. *)
Theorem delete_exact a id t resp :
  exec (deleteSandbox a id) t (Some resp) → Forall server_ok t →
  let key := NN a.(acc_Namespace) id in
  if String.eqb id "" || contains_char "/"%char id
  then t = [] ∧ resp.(resp_code) = StatusBadRequest
  else ∃ r : result go_error PodSandbox,
    match r with
    | Err err => t = [got_sandbox key r]
        ∧ resp.(resp_code) = if IsNotFound err then StatusNoContent else StatusInternalServerError
    | Ok o =>
        if decide (o.(sb_Spec).(ps_ClassName) = a.(acc_ClassName))
        then ∃ d : result go_error unit, t = [got_sandbox key r; @Ev ServerE (SKube (DeleteSandbox key)) d]
          ∧ resp.(resp_code) = match d with
                               | Ok _ => StatusNoContent
                               | Err err => if IsNotFound err then StatusNoContent else StatusInternalServerError
                               end
        else t = [got_sandbox key r] ∧ resp.(resp_code) = StatusForbidden
    end.
Proof.
  intros Hx Hok. cbn zeta. unfold deleteSandbox in Hx. destruct (_ || _); [exec_step Hx; by injection Ha as ->|].
  exec_step Hx. apply Forall_cons in Hok as [Hget _]. exists r. destruct r as [sb|err].
  - specialize (Hget _ eq_refl).
    destruct (String.eqb_spec sb.(sb_Spec).(ps_ClassName) a.(acc_ClassName)) as [Hc|Hc]; cbn [negb] in Hx.
    + rewrite decide_True by done. exec_step Hx. rewrite Hget. exists r.
      destruct r as [|err]; [|destruct (IsNotFound err)]; exec_step Hx; by injection Ha as ->.
    + rewrite decide_False by done. exec_step Hx. by injection Ha as ->.
  - destruct (IsNotFound err); exec_step Hx; by injection Ha as ->.
Qed.

(** C25. The token secret. Against any store that keeps the API's laws, with nobody
    else writing meanwhile, [ensureTokenSecret] changes nothing and draws no random
    bytes when the secret exists (it never rotates a token); and when it succeeds the
    secret is stored with a non-empty token, and if there was none before, the secret
    holds exactly that token, the hexadecimal form of the 32 bytes that [rand.Read]
    returned in this call. *)
Theorem token_secret_established {S} `{ApiServerLaws S} cfg (g : S * list string) :
  wp drawing (ensureTokenSecret cfg) (token_established cfg g) g.
Proof. apply wp_ensureTokenSecret. Qed.

(** C17. What a creation stores. Against any store that keeps the API's laws,
    with an immutable userdata secret [old] under the sandbox's name or with
    none: a creation that goes through has stored the PodSandbox with the
    request's workload, ID, capacity and architecture and the access's class,
    referring to a userdata secret that exists. Its data is the request's user
    data when no secret was there; a secret left there by an earlier sandbox is
    kept, so its data is used in place of the request's. *)
Theorem creation_stores {S} `{ApiServerLaws S, ControllerUtilLaws} key className request old (s : S) :
  api_secrets s !! userdata_key key = old →
  (∀ x, old = Some x → x.(sec_Immutable) = true) →
  wp atomic (create_objects key className request)
    (λ s' r, ∀ sb, r = inr sb →
      stored key className request
        (from_option sec_Data {[userDataKey := request.(rq_UserData)]} old) s' sb) s.
Proof. apply wp_create_objects. Qed.

(** C26. Names. A sandbox name is 24 characters long, a valid DNS label that
    starts with a letter, and two sandbox IDs share a name exactly when the first
    ten bytes of their SHA-256 digests agree. *)
Theorem sandbox_names x y :
  String.length (sandboxName x) = 24%nat
  ∧ string_forall is_label_char (sandboxName x) = true
  ∧ strip_prefix "psb-" (sandboxName x) ≠ None
  ∧ (sandboxName x = sandboxName y
     ↔ String.substring 0 10 (Sum256 x) = String.substring 0 10 (Sum256 y)).
Proof.
  unfold sandboxName. split_and!.
  - rewrite string_length_app, hex_encode_length, substring_length; [done|].
    rewrite Sum256_length. lia.
  - apply sandboxName_label.
  - by rewrite strip_prefix_app.
  - split; [|by intros ->]. intros E%String.app_inj%hex_encode_inj. done.
Qed.

(** The store over a trace: each call is a step of it. *)
Fixpoint api_run {S} `{ApiServer S} (s : S) (t : list (event ServerE)) (s' : S) : Prop :=
  match t with
  | [] => s' = s
  | Ev (SKube c) r :: t => ∃ s1, api_step s c r s1 ∧ api_run s1 t s'
  | Ev _ _ :: t => api_run s t s'
  end.

(** C27. A creation that comes late deletes another request's user data. Take any
    creation that read the sandbox as absent, and any law-abiding store in which from
    then on the sandbox and its userdata secret are there, because another request for
    the same sandbox stored them meanwhile. The creation cannot succeed: it creates no
    sandbox and answers 500, and the other request's sandbox stays. But unless the
    creation of the secret fails for a reason of its own, it ends by deleting the
    userdata secret, and if that succeeds the sandbox is left without user data. *)
Theorem concurrent_create_loses_userdata {S} `{ApiServerLaws S, ControllerUtil}
    (decode : string → result go_error createSandboxRequest) fuel a body request class err t r (s s' : S) sb :
  decode body = Ok request →
  let key := request_key a request in
  exec (createSandbox decode fuel a body)
    ([@Ev ServerE (SKube (GetClass a.(acc_ClassName))) (Ok class); got_sandbox key (Err err)] ++ t) r →
  request.(rq_WorkloadRef).(wr_Name) ≠ "" → request.(rq_SandboxID) ≠ "" → request.(rq_UserData) ≠ "" →
  IsNotFound err = true →
  api_sandboxes s !! key = Some sb → is_Some (api_secrets s !! userdata_key key) → api_run s t s' →
  (resp_code <$> r) = Some StatusInternalServerError ∧ creates t = [] ∧ api_sandboxes s' !! key = Some sb
  ∧ ((∃ e, t = [@Ev ServerE (SKube (CreateSecret (userdata_secret key (with_defaults request)))) (Err e)]
           ∧ IsAlreadyExists e = false)
     ∨ ∃ t' d, t = t' ++ [@Ev ServerE (SKube (DeleteSecret (userdata_key key))) d]
         ∧ (d = Ok tt → api_secrets s' !! userdata_key key = None)).
Proof.
  intros Hdec key Hx Hw Hid Hu Hnf Hsb Hsec Hrun.
  unfold createSandbox, getClass in Hx. apply exec_call_inv in Hx as (r1 & t1 & E1 & Hx). cbn [app] in E1.
  assert (t1 = got_sandbox key (Err err) :: t) as -> by exact (eq_sym (f_equal tail E1)).
  assert (r1 = Ok class) as -> by (apply (f_equal (λ l, hd_error l ≫= class_read)) in E1; by injection E1). clear E1.
  cbn [bind] in Hx. rewrite Hdec, !(proj2 (String.eqb_neq _ _)) in Hx by done. cbn [orb] in Hx. unfold create_decoded in Hx.
  apply exec_call_inv in Hx as (r1 & t1 & E1 & Hx).
  assert (t1 = t) as -> by exact (eq_sym (f_equal tail E1)).
  assert (r1 = Err err) as -> by (apply (f_equal (λ l, hd_error l ≫= sandbox_read)) in E1; by injection E1). clear E1.
  cbn beta iota in Hx. rewrite Hnf in Hx. cbn [negb] in Hx. change (NN _ (sandboxName _)) with key in Hx.
  apply exec_bind in Hx as (t1 & t2 & out & -> & Ho & Hx). apply exec_create_objects in Ho.
  destruct Ho as [e He|made secret e d Hm|made secret sb' t' Hm Ht].
  - exec_step Hx. destruct Hrun as (s1 & Hstep & ->). apply step_create_secret in Hstep as [Hc _].
    split_and!; [done|done|by rewrite (contents_sandboxes _ _ Hc)|]. left. by exists e.
  - exec_step Hx. destruct Hrun as (s1 & Hst1 & s2 & Hst2 & s3 & Hst3 & Hend).
    assert (Hmade : contents s1 = contents s ∧ secret = userdata_secret key (with_defaults request)).
    { apply step_create_secret in Hst1. destruct Hm as [->|[-> (e' & -> & _)]]; [|by destruct Hst1].
      destruct Hst1 as [Hnone _]. change (secret_key _) with (userdata_key key) in Hnone. rewrite Hnone in Hsec.
      by destruct Hsec. }
    destruct Hmade as [Hc1 ->]. apply step_create_sandbox in Hst2. apply step_delete_secret in Hst3.
    change (secret_key _) with (userdata_key key) in *.
    split_and!; [done|by destruct Hm as [->|[_ (e' & -> & _)]]| |].
    + rewrite Hend. destruct d as [u|e']; [injection Hst3 as _ -> _ _|rewrite (contents_sandboxes _ _ Hst3)];
        by rewrite (contents_sandboxes _ _ Hst2), (contents_sandboxes _ _ Hc1).
    + right. eexists [_; _], d. split; [done|]. intros ->. injection Hst3 as _ _ Hgone _. rewrite Hend, Hgone. apply lookup_delete_eq.
  - exfalso. destruct Hrun as (s1 & Hst1 & s2 & Hst2 & _). apply step_create_sandbox in Hst2 as [Hnone _].
    change (sandbox_key (new_sandbox key _ _ _)) with (NN key.(nn_Namespace) key.(nn_Name)) in Hnone.
    assert (Hc1 : api_sandboxes s1 = api_sandboxes s).
    { apply step_create_secret in Hst1. destruct made as [o|e']; [by destruct Hst1 as [_ [= _ -> _ _]]|].
      by destruct Hst1 as [Hc1%contents_sandboxes _]. }
    rewrite Hc1 in Hnone. change (NN _ _) with key in Hnone. congruence.
Qed.

(** ** Witnesses *)

Definition failing_world : world := mk_world mem_fixture [report failed_condition []].

Lemma create_rolls_back_witness :
  let p := createSandbox decode_fixture 5 access_fixture "{}" in
  let t := run_trace world_handle failing_world p in
  let resp := mk_response 500 (BodyError (ErrorsNew "out of memory")) in
  (run world_handle failing_world p).2 = Some resp
  ∧ ((creates t = [] ∧ deletes t = [])
     ∨ ∃ request, decode_fixture "{}" = Ok request
        ∧ creates t = [request_key access_fixture request]
        ∧ (resp.(resp_code) = StatusCreated ∧ deletes t = []
           ∨ resp.(resp_code) ≠ StatusCreated ∧ deletes t = [request_key access_fixture request]
             ∧ ∃ t' d, t = t' ++ [@Ev ServerE (SKube (DeleteSandbox (request_key access_fixture request))) d])).
Proof.
  intros p t resp.
  assert (Hr : (run world_handle failing_world p).2 = Some resp) by (vm_compute; reflexivity).
  split; [exact Hr|].
  apply (create_rolls_back decode_fixture 5 access_fixture "{}" t resp); [|apply run_trace_ok].
  rewrite <- Hr. apply run_exec.
Defined.

Definition ready_world : world := mk_world mem_fixture [(λ m, m); report ready_condition ["10.90.0.8"]].

Lemma created_means_ready_witness :
  let p := createSandbox decode_fixture 5 access_fixture "{}" in
  let t := run_trace world_handle ready_world p in
  let resp := mk_response 201 (BodySandbox (mk_sandboxResponse (sandboxName "sandbox-id")
                "api-7d9c" ["10.90.0.8"])) in
  (run world_handle ready_world p).2 = Some resp
  ∧ ∃ request t' o, decode_fixture "{}" = Ok request
      ∧ t = t' ++ [got_sandbox (request_key access_fixture request) (Ok o)]
      ∧ conditionTrue o.(sb_Status).(st_Conditions) ConditionReady = true
      ∧ o.(sb_Status).(st_IPs) ≠ []
      ∧ resp.(resp_body) = BodySandbox (mk_sandboxResponse (sandboxName request.(rq_SandboxID))
                             request.(rq_WorkloadRef).(wr_Name) o.(sb_Status).(st_IPs)).
Proof.
  intros p t resp.
  assert (Hr : (run world_handle ready_world p).2 = Some resp) by (vm_compute; reflexivity).
  split; [exact Hr|].
  apply (created_means_ready decode_fixture 5 access_fixture "{}" t resp);
    [rewrite <- Hr; apply run_exec | apply run_trace_ok | reflexivity].
Defined.

Lemma create_terminates_witness :
  let p := createSandbox decode_fixture 5 access_fixture "{}" in
  ticks (run_trace world_handle ready_world p) = 2%nat
  ∧ ∃ resp, (run world_handle ready_world p).2 = Some resp.
Proof.
  split; [vm_compute; reflexivity|].
  apply (create_terminates decode_fixture world_handle ready_world 5 access_fixture "{}").
  vm_compute. lia.
Defined.

(** A sandbox of another class under the name the request needs. *)
Definition other_sandbox : PodSandbox :=
  mk_PodSandbox (meta (sandboxName "sandbox-id") "cluster-a-runtime")
    (mk_PodSandboxSpec (mk_WorkloadReference "apps" "api-7d9c" "uid-1") "sandbox-id" "u" "cluster-b" 2 512 "")
    empty_status.

(** The sandbox an earlier request with the same identity left behind. *)
Definition same_sandbox : PodSandbox :=
  new_sandbox (request_key access_fixture request_fixture) "cluster-a" "u" request_fixture.

Definition retry_world : world :=
  mk_world (Mem.set_sandboxes mem_fixture {[request_key access_fixture request_fixture := same_sandbox]}) [].

Lemma create_existing_witness :
  let t := tail (run_trace world_handle retry_world (create_decoded 5 access_fixture request_fixture)) in
  length t = 2%nat ∧ Forall (looks (request_key access_fixture request_fixture)) t.
Proof.
  intros t. split; [vm_compute; reflexivity|].
  pose proof (run_exec world_handle retry_world (create_decoded 5 access_fixture request_fixture)) as Hx.
  assert (Ht : run_trace world_handle retry_world (create_decoded 5 access_fixture request_fixture)
               = got_sandbox (request_key access_fixture request_fixture) (Ok same_sandbox) :: t)
    by (vm_compute; reflexivity).
  rewrite Ht in Hx. apply (create_existing 5 access_fixture request_fixture same_sandbox t _) in Hx.
  rewrite decide_True in Hx by (split_and!; reflexivity). exact Hx.
Defined.

(** A sandbox of another class is not deleted. *)
Definition foreign_sandbox : PodSandbox :=
  mk_PodSandbox (meta "psb-1" "cluster-a-runtime") other_sandbox.(sb_Spec) empty_status.

Lemma delete_exact_witness :
  let t := [got_sandbox (NN "cluster-a-runtime" "psb-1") (Ok foreign_sandbox)] in
  ∃ o, t = [got_sandbox (NN "cluster-a-runtime" "psb-1") (Ok o)] ∧ o.(sb_Spec).(ps_ClassName) ≠ "cluster-a".
Proof.
  intros t.
  assert (Hx : exec (deleteSandbox access_fixture "psb-1") t
                 (Some (httpError (ErrorsNew "forbidden") StatusForbidden))).
  { vm_compute. eexists. split; reflexivity. }
  assert (Hok : Forall server_ok t).
  { repeat constructor. intros o [= <-]. reflexivity. }
  destruct (delete_exact access_fixture "psb-1" t _ Hx Hok) as ([o|err] & Hd).
  - exists o. destruct (decide (o.(sb_Spec).(ps_ClassName) = access_fixture.(acc_ClassName))) as [|Hc];
      [by destruct Hd as (d & E & _)|]. split; [exact (proj1 Hd)|exact Hc].
  - destruct Hd as [E%(f_equal (λ l, hd_error l ≫= sandbox_read)) _]. discriminate E.
Defined.

Lemma token_secret_established_witness :
  wp (@drawing Mem.mem _) (ensureTokenSecret (mk_Config "" "provider-system" "" "pod-sandbox-api" "default"))
    (token_established (mk_Config "" "provider-system" "" "pod-sandbox-api" "default") (mem_fixture, []))
    (mem_fixture, []).
Proof.
  exact (token_secret_established (mk_Config "" "provider-system" "" "pod-sandbox-api" "default") (mem_fixture, [])).
Defined.

(** A userdata secret left by an earlier sandbox of the same ID. *)
Definition leftover_secret : Secret :=
  mk_Secret (meta (sandboxName "sandbox-id" +:+ "-userdata") "cluster-a-runtime") true
    {["userdata" := "old userdata"]} "".

Definition leftover_mem : Mem.mem :=
  Mem.set_secrets mem_fixture
    (<[NN "cluster-a-runtime" (sandboxName "sandbox-id" +:+ "-userdata") := leftover_secret]>
       mem_fixture.(Mem.secrets)).

Lemma creation_stores_witness :
  let key := request_key access_fixture request_fixture in
  is_Some (leftover_mem.(Mem.secrets) !! userdata_key key)
  ∧ wp (@atomic Mem.mem _) (create_objects key "cluster-a" request_fixture)
      (λ s' r, ∀ sb, r = inr sb →
        stored key "cluster-a" request_fixture {["userdata" := "old userdata"]} s' sb) leftover_mem.
Proof.
  intros key.
  assert (Hold : leftover_mem.(Mem.secrets) !! userdata_key key = Some leftover_secret)
    by (vm_compute; reflexivity).
  split; [by rewrite Hold|].
  apply (creation_stores key "cluster-a" request_fixture (Some leftover_secret) leftover_mem);
    [exact Hold|]. by intros x [= <-].
Defined.

(** A run against a world without ticks is a run of its store. *)
Lemma world_api_run {A} (p : prog ServerE A) m :
  api_run m (run_trace world_handle (mk_world m []) p) (run world_handle (mk_world m []) p).1.(w_mem).
Proof.
  revert m. induction p as [a|c k IH]; intros m; [done|]. destruct c as [c|n| |]; cbn.
  - destruct (Mem.handle m c) as [m' r] eqn:E. cbn. exists m'. split; [exact E|apply IH].
  - apply IH.
  - apply IH.
  - apply IH.
Qed.

(** The second request reads, the first one runs to its answer, 201, and then the
    second one goes on. *)
Definition after_first : world := (run world_handle ready_world (createSandbox decode_fixture 5 access_fixture "{}")).1.

Definition late_key : NamespacedName := request_key access_fixture request_fixture.

Definition late_calls : list (event ServerE) :=
  run_trace world_handle (mk_world after_first.(w_mem) []) (create_objects late_key "cluster-a" request_fixture).

Definition after_late : Mem.mem :=
  (run world_handle (mk_world after_first.(w_mem) []) (create_objects late_key "cluster-a" request_fixture)).1.(w_mem).

Definition secret_deletion (e : event ServerE) : option (result go_error unit) :=
  match e with Ev (SKube (DeleteSecret _)) r => Some r | _ => None end.

Lemma concurrent_create_loses_userdata_witness :
  ∃ sb, after_first.(w_mem).(Mem.sandboxes) !! late_key = Some sb ∧ is_ready sb = true
    ∧ after_late.(Mem.sandboxes) !! late_key = Some sb ∧ after_late.(Mem.secrets) !! userdata_key late_key = None.
Proof.
  assert (Hsb : ∃ sb, after_first.(w_mem).(Mem.sandboxes) !! late_key = Some sb ∧ is_ready sb = true)
    by (vm_compute; eexists; split; reflexivity).
  destruct Hsb as (sb & Hsb & Hready). exists sb. split; [exact Hsb|]. split; [exact Hready|].
  assert (Hx : exec (createSandbox decode_fixture 5 access_fixture "{}")
    ([@Ev ServerE (SKube (GetClass "cluster-a")) (Ok class_fixture); got_sandbox late_key (Err Mem.notFound)] ++ late_calls)
    (Some (httpError Mem.alreadyExists StatusInternalServerError)))
    by (vm_compute; repeat (eexists; split; [reflexivity|]); reflexivity).
  assert (Hsec : is_Some (api_secrets after_first.(w_mem) !! userdata_key late_key)) by (vm_compute; eexists; reflexivity).
  assert (Hrun : api_run after_first.(w_mem) late_calls after_late)
    by exact (world_api_run (create_objects late_key "cluster-a" request_fixture) after_first.(w_mem)).
  destruct (concurrent_create_loses_userdata decode_fixture 5 access_fixture "{}" request_fixture class_fixture Mem.notFound
    late_calls _ after_first.(w_mem) after_late sb eq_refl Hx) as (_ & _ & Hkept & Hlost);
    [discriminate|discriminate|discriminate|reflexivity|exact Hsb|exact Hsec|exact Hrun|].
  split; [exact Hkept|].
  assert (Hlast : last late_calls ≫= secret_deletion = Some (Ok tt)) by (vm_compute; reflexivity).
  destruct Hlost as [(e & E & _)|(t' & d & E & Hlost)]; rewrite E in Hlast; [discriminate Hlast|].
  rewrite last_snoc in Hlast. injection Hlast as Hd. exact (Hlost Hd).
Defined.

(** The loop of a request whose sandbox becomes ready at the second tick. *)
Lemma creation_decided_witness :
  let key := NN "cluster-a-runtime" "psb-1" in
  let ready := mk_PodSandbox (meta "psb-1" "cluster-a-runtime") other_sandbox.(sb_Spec)
                 (mk_PodSandboxStatus 1 None "" ["10.90.0.8"] [ready_condition]) in
  ∃ l tail, [got_sandbox key (Ok foreign_sandbox); waited None; got_sandbox key (Ok ready)] = waited_on key l ++ tail
    ∧ Forall (λ o, decides "api" (Ok o) = None) l ∧ (length l < 5)%nat.
Proof.
  intros key ready.
  assert (Hx : exec (poll 5 key "api" foreign_sandbox)
    [got_sandbox key (Ok foreign_sandbox); waited None; got_sandbox key (Ok ready)]
    (Some (ready_response "api" ready, true, ready)))
    by (vm_compute; repeat (eexists; split; [reflexivity|]); reflexivity).
  destruct (creation_decided 5 key "api" foreign_sandbox _ _ Hx) as (l & tail & Ht & Hl & Hlt & _).
  exists l, tail. split; [exact Ht|]. split; [exact Hl|exact Hlt].
Defined.
