(* ===== verification/Controller.v ===== *)
(** * The PodSandbox controller: internal/controller/podsandbox_controller.go

    [Reconcile] is a program over the Kubernetes calls; [desiredRunner] builds
    the runner Pod of a sandbox. The condition helper of apimachinery
    ([meta.SetStatusCondition]) is another project's code: it is the class
    [StatusConditions], with its documented behaviour as laws. *)

From S2P Require Import Prelude GoFmt GoStrings Prog Api Kube.

Local Open Scope Z_scope.

(** ** [meta.SetStatusCondition] *)

(** The condition of a type: the first of that type, as
    [meta.FindStatusCondition] finds it. *)
Fixpoint find_condition (l : list Condition) (type : string) : option Condition :=
  match l with
  | [] => None
  | c :: l => if String.eqb c.(c_Type) type then Some c else find_condition l type
  end.

(** Two conditions that differ at most in their transition time. *)
Definition same_condition (c d : Condition) : Prop :=
  c.(c_Type) = d.(c_Type) ∧ c.(c_Status) = d.(c_Status)
  ∧ c.(c_ObservedGeneration) = d.(c_ObservedGeneration)
  ∧ c.(c_Reason) = d.(c_Reason) ∧ c.(c_Message) = d.(c_Message).

(** [metav1.Time{}]. *)
Definition zero_time : Z := 0.

(** [SetStatusCondition now l c], the time being read from the clock. *)
Class StatusConditions : Type := {
  SetStatusCondition : Z → list Condition → Condition → list Condition;
}.

Class StatusConditionsLaws `{StatusConditions} : Prop := {
  set_condition_found : ∀ now l c, ∃ d,
    find_condition (SetStatusCondition now l c) c.(c_Type) = Some d ∧ same_condition d c;
  set_condition_other : ∀ now l c type, type ≠ c.(c_Type) →
    find_condition (SetStatusCondition now l c) type = find_condition l type;
  set_condition_unchanged : ∀ now l c d,
    find_condition l c.(c_Type) = Some d → same_condition d c → SetStatusCondition now l c = l;
}.

(** ** Constants *)

Definition runnerContainerName : string := "runner".
Definition runnerStateDirArg : string := "--state-dir=/run/pod-sandbox".
Definition defaultRuntimeAssetsDir : string := "/opt/kata".
Definition defaultNetworkMTU : Z := 1500.
Definition defaultOverheadMiB : Z := 256.
Definition volumeImage : string := "image".
Definition volumeConfig : string := "config".
Definition volumeState : string := "state".
Definition volumeRuntimeAssets : string := "runtime-assets".
Definition volumeKVM : string := "kvm".
Definition volumeTUN : string := "tun".

Definition templateGeneration : string := "sandbox.caa.mnicloud.jp/template-generation".
Definition sandboxLabel : string := "sandbox.caa.mnicloud.jp/sandbox".

(** ** [desiredRunner] *)

(** [copyMap]: a fresh map with the same entries. *)
Definition copyMap (source : gmap string string) : gmap string string :=
  foldr (λ kv m, <[kv.1 := kv.2]> m) ∅ (map_to_list source).

Definition network_mtu (class : PodSandboxClass) : Z :=
  if class.(cl_Spec).(pc_NetworkMTU) =? 0 then defaultNetworkMTU
  else class.(cl_Spec).(pc_NetworkMTU).

Definition runtime_assets_dir (class : PodSandboxClass) : string :=
  if String.eqb class.(cl_Spec).(pc_RuntimeAssetsDir) "" then defaultRuntimeAssetsDir
  else class.(cl_Spec).(pc_RuntimeAssetsDir).

(** The memory reserved for the runner, in [int64] arithmetic. *)
Definition overhead_mib (sandbox : PodSandbox) (class : PodSandboxClass) : Z :=
  let overhead :=
    if class.(cl_Spec).(pc_MemoryOverheadMiB) =? 0 then defaultOverheadMiB
    else class.(cl_Spec).(pc_MemoryOverheadMiB) in
  add64 sandbox.(sb_Spec).(ps_MemoryMiB) overhead.

Definition runner_resources (sandbox : PodSandbox) (class : PodSandboxClass) : gmap string Quantity :=
  {["cpu" := NewQuantity sandbox.(sb_Spec).(ps_VCPUs);
    "memory" := MustParse (fmt_d (overhead_mib sandbox class) +:+ "Mi")]}.

Definition runner_labels (sandbox : PodSandbox) (class : PodSandboxClass) : gmap string string :=
  <[sandboxLabel := sandbox.(sb_meta).(om_Name)]>
    (<["app.kubernetes.io/name" := "pod-sandbox-runner"]> (copyMap class.(cl_Spec).(pc_Labels))).

Definition template_generation (sandbox : PodSandbox) (class : PodSandboxClass) : string :=
  fmt_d sandbox.(sb_meta).(om_Generation) +:+ "/" +:+ fmt_d class.(cl_meta).(om_Generation).

Definition runner_annotations (sandbox : PodSandbox) (class : PodSandboxClass) : gmap string string :=
  let ref := sandbox.(sb_Spec).(ps_WorkloadRef) in
  let annotations := copyMap class.(cl_Spec).(pc_Annotations) in
  let annotations := <["sandbox.caa.mnicloud.jp/class" := class.(cl_meta).(om_Name)]> annotations in
  let annotations := <[templateGeneration := template_generation sandbox class]> annotations in
  let annotations := <["sandbox.caa.mnicloud.jp/workload-name" := ref.(wr_Name)]> annotations in
  let annotations :=
    if String.eqb ref.(wr_Namespace) "" then annotations
    else <["sandbox.caa.mnicloud.jp/workload-namespace" := ref.(wr_Namespace)]> annotations in
  if String.eqb ref.(wr_UID) "" then annotations
  else <["sandbox.caa.mnicloud.jp/workload-uid" := ref.(wr_UID)]> annotations.

Definition runner_args (sandbox : PodSandbox) (class : PodSandboxClass) : list string :=
  ["run";
   "--cpus=" +:+ fmt_d sandbox.(sb_Spec).(ps_VCPUs);
   "--memory-mib=" +:+ fmt_d sandbox.(sb_Spec).(ps_MemoryMiB);
   "--network-mtu=" +:+ fmt_d (network_mtu class);
   "--image-dir=/var/lib/podvm/image";
   "--config-dir=/var/lib/podvm/config";
   runnerStateDirArg;
   "--runtime-assets-dir=/opt/podvm-runtime";
   "--kernel=/var/lib/podvm/image/vmlinux";
   "--rootfs=/var/lib/podvm/image/rootfs.img"].

Definition podvm_image_container (class : PodSandboxClass) : Container :=
  mk_Container "podvm-image" class.(cl_Spec).(pc_PodVMImage) "Always" [] ∅ ∅ None
    [mk_VolumeMount volumeImage "/output" false] None.

Definition runner_container (sandbox : PodSandbox) (class : PodSandboxClass) : Container :=
  mk_Container runnerContainerName class.(cl_Spec).(pc_RunnerImage) "Always"
    (runner_args sandbox class)
    (runner_resources sandbox class) (runner_resources sandbox class)
    (Some (mk_SecurityContext true true 0))
    [mk_VolumeMount volumeImage "/var/lib/podvm/image" false;
     mk_VolumeMount volumeConfig "/var/lib/podvm/config" true;
     mk_VolumeMount volumeState "/run/pod-sandbox" false;
     mk_VolumeMount volumeRuntimeAssets "/opt/podvm-runtime" true;
     mk_VolumeMount volumeKVM "/dev/kvm" false;
     mk_VolumeMount volumeTUN "/dev/net/tun" false]
    (Some (mk_Probe ["/runner"; "ready"; runnerStateDirArg] 2 2 1)).

Definition runner_volumes (sandbox : PodSandbox) (class : PodSandboxClass) : list Volume :=
  [mk_Volume volumeImage EmptyDir;
   mk_Volume volumeConfig (SecretVolume sandbox.(sb_Spec).(ps_UserDataSecretRef));
   mk_Volume volumeState EmptyDir;
   mk_Volume volumeRuntimeAssets (HostPath (runtime_assets_dir class) "Directory");
   mk_Volume volumeKVM (HostPath "/dev/kvm" "CharDevice");
   mk_Volume volumeTUN (HostPath "/dev/net/tun" "CharDevice")].

Definition desiredRunner (sandbox : PodSandbox) (class : PodSandboxClass) : Pod :=
  mk_Pod
    (mk_ObjectMeta sandbox.(sb_meta).(om_Name) sandbox.(sb_meta).(om_Namespace) "" 0 None
       (runner_labels sandbox class) (runner_annotations sandbox class) [])
    (mk_PodSpec "" (copyMap class.(cl_Spec).(pc_NodeSelector)) class.(cl_Spec).(pc_Tolerations)
       [podvm_image_container class] [runner_container sandbox class]
       (runner_volumes sandbox class) "Never" (Some 30))
    empty_pod_status.

(** ** Observations of the runner Pod *)

Fixpoint pod_condition_true (l : list PodCondition) : bool :=
  match l with
  | [] => false
  | c :: l => if String.eqb c.(pcd_Type) "Ready" then bool_decide (c.(pcd_Status) = ConditionTrue)
              else pod_condition_true l
  end.

Definition podReady (pod : Pod) : bool := pod_condition_true pod.(pod_Status).(pst_Conditions).

Fixpoint find_termination (l : list ContainerStatus) : option ContainerStateTerminated :=
  match l with
  | [] => None
  | c :: l => if String.eqb c.(cs_Name) runnerContainerName then c.(cs_Terminated)
              else find_termination l
  end.

Definition runnerTermination (pod : Pod) : option ContainerStateTerminated :=
  find_termination pod.(pod_Status).(pst_ContainerStatuses).

Definition stopped_phase (pod : Pod) : bool :=
  match pod.(pod_Status).(pst_Phase) with PodFailed | PodSucceeded => true | _ => false end.

Definition annotation (m : ObjectMeta) (k : string) : string := default "" (m.(om_Annotations) !! k).

(** The message of a runner that stopped. *)
Definition stop_message (runner : Pod) : string :=
  match runnerTermination runner with
  | Some t => if String.eqb t.(tm_Message) ""
              then "The Pod Sandbox runner stopped before the PodVM became ready"
              else t.(tm_Message)
  | None => "The Pod Sandbox runner stopped before the PodVM became ready"
  end.

Definition boolCondition (value : bool) : ConditionStatus :=
  if value then ConditionTrue else ConditionFalse.

(** ** Reconciliation *)

Definition KubeE : effects := Effects kube_call kube_answer.

Notation api c := (@perform KubeE c).

(** [(ctrl.Result{RequeueAfter: n seconds}, err)]. *)
Definition reconcile_result : Type := Z * option go_error.

(** [client.IgnoreNotFound]. *)
Definition IgnoreNotFound (e : go_error) : option go_error :=
  if IsNotFound e then None else Some e.

Section reconcile.
Context `{ControllerUtil, StatusConditions} (now : Z).

(** The sandbox with a new Ready condition, observed at its generation. *)
Definition with_ready (sandbox : PodSandbox) (status : ConditionStatus) (reason message : string)
    (st : PodSandboxStatus) : PodSandbox :=
  mk_PodSandbox sandbox.(sb_meta) sandbox.(sb_Spec)
    (mk_PodSandboxStatus sandbox.(sb_meta).(om_Generation)
       st.(st_RunnerRef) st.(st_NodeName) st.(st_IPs)
       (SetStatusCondition now st.(st_Conditions)
          (mk_Condition ConditionReady status sandbox.(sb_meta).(om_Generation) zero_time reason message))).

(** The [Error()] method, whose text becomes a condition's message. *)
Context (error_string : go_error → string).

(** [progressing], [fail] and [stopped]: a status patch that is not ready, and
    then a requeue, the error, or nothing. *)
Definition patch_then (sandbox modified : PodSandbox) (k : reconcile_result)
    : prog KubeE reconcile_result :=
  let! r := api (PatchSandboxStatus sandbox modified) in
  match r with
  | Err err => Ret (0, IgnoreNotFound err)
  | Ok _ => Ret k
  end.

Definition progressing (sandbox : PodSandbox) (reason message : string) : prog KubeE reconcile_result :=
  patch_then sandbox (with_ready sandbox ConditionFalse reason message sandbox.(sb_Status)) (2, None).

Definition fail (sandbox : PodSandbox) (reason : string) (reconcileErr : go_error)
    : prog KubeE reconcile_result :=
  patch_then sandbox
    (with_ready sandbox ConditionFalse reason (error_string reconcileErr) sandbox.(sb_Status))
    (0, Some reconcileErr).

Definition stopped (sandbox : PodSandbox) (reason message : string) : prog KubeE reconcile_result :=
  patch_then sandbox (with_ready sandbox ConditionFalse reason message sandbox.(sb_Status)) (0, None).

(** Lines 100 to 116: the status that mirrors a live runner. *)
Definition runner_ready (runner : Pod) : bool :=
  podReady runner && negb (String.eqb runner.(pod_Status).(pst_PodIP) "").

Definition observed (sandbox : PodSandbox) (runner : Pod) : PodSandbox :=
  let ready := runner_ready runner in
  with_ready sandbox (boolCondition ready)
    (if ready then "PodVMReady" else "PodVMStarting")
    (if ready then "The PodVM is ready" else "Waiting for the PodVM runtime")
    (mk_PodSandboxStatus 0 (Some runner.(pod_meta).(om_Name)) runner.(pod_Spec).(pod_NodeName)
       (if String.eqb runner.(pod_Status).(pst_PodIP) "" then [] else [runner.(pod_Status).(pst_PodIP)])
       sandbox.(sb_Status).(st_Conditions)).

(** What is done with the runner once it was read. *)
Definition with_runner (sandbox : PodSandbox) (desired runner : Pod) : prog KubeE reconcile_result :=
  if negb (String.eqb (annotation runner.(pod_meta) templateGeneration)
                      (annotation desired.(pod_meta) templateGeneration))
  then
    let! r := api (DeletePod (pod_key runner)) in
    match r with
    | Err err =>
        if IsNotFound err
        then progressing sandbox "UpdatingRunner" "The Pod Sandbox runner is being updated"
        else fail sandbox "RunnerDeleteFailed" err
    | Ok _ => progressing sandbox "UpdatingRunner" "The Pod Sandbox runner is being updated"
    end
  else if stopped_phase runner
  then stopped sandbox "RunnerFailed" (stop_message runner)
  else
    patch_then sandbox (observed sandbox runner)
      ((if runner_ready runner then 0 else 2), None).

(** The runner is read back; [desired] is compared with it. *)
Definition read_runner (key : NamespacedName) (sandbox : PodSandbox) (desired : Pod)
    : prog KubeE reconcile_result :=
  let! r := api (GetPod key) in
  match r with
  | Err err =>
      if IsNotFound err
      then progressing sandbox "WaitingForRunner" "The Pod Sandbox runner is being scheduled"
      else Ret (0, Some err)
  | Ok runner => with_runner sandbox desired runner
  end.

(** From the creation of the runner on; [Create] fills in [desired]. *)
Definition with_desired (key : NamespacedName) (sandbox : PodSandbox) (desired : Pod)
    : prog KubeE reconcile_result :=
  let! r := api (CreatePod desired) in
  match r with
  | Err err =>
      if IsAlreadyExists err then read_runner key sandbox desired
      else fail sandbox "RunnerCreateFailed" err
  | Ok desired => read_runner key sandbox desired
  end.

(** With the class at hand: the userdata secret, and the desired runner. *)
Definition with_class (key : NamespacedName) (sandbox : PodSandbox) (class : PodSandboxClass)
    : prog KubeE reconcile_result :=
  let! r := api (GetSecret (NN sandbox.(sb_meta).(om_Namespace)
                               sandbox.(sb_Spec).(ps_UserDataSecretRef))) in
  match r with
  | Err err => fail sandbox "UserDataUnavailable" err
  | Ok secret =>
      match secret.(sec_Data) !! "userdata" with
      | None => fail sandbox "UserDataUnavailable"
                  (Errorf "secret %s has no userdata key" [ArgS secret.(sec_meta).(om_Name)])
      | Some _ =>
          match SetControllerReference_pod sandbox (desiredRunner sandbox class) with
          | Err err => Ret (0, Some err)
          | Ok desired => with_desired key sandbox desired
          end
      end
  end.

Definition Reconcile (key : NamespacedName) : prog KubeE reconcile_result :=
  let! r := api (GetSandbox key) in
  match r with
  | Err err => Ret (0, IgnoreNotFound err)
  | Ok sandbox =>
      match sandbox.(sb_meta).(om_DeletionTimestamp) with
      | Some _ => Ret (0, None)
      | None =>
          let! r := api (GetClass sandbox.(sb_Spec).(ps_ClassName)) in
          match r with
          | Err err => fail sandbox "ClassUnavailable" err
          | Ok class => with_class key sandbox class
          end
      end
  end.
End reconcile.

(** [sandboxesForClass]: the requests a change of a class enqueues. *)
Definition sandboxesForClass (name : string) : prog KubeE (list NamespacedName) :=
  let! r := api ListSandboxes in
  match r with
  | Err _ => Ret []
  | Ok items => Ret (sandbox_key <$> filter (λ s, s.(sb_Spec).(ps_ClassName) = name) items)
  end.

(** ** Lemmas *)

Lemma copyMap_id m : copyMap m = m.
Proof.
  unfold copyMap. rewrite <- (list_to_map_to_list m) at 2.
  generalize (map_to_list m). intros l. induction l as [|[k v] l IH]; cbn; [done|]. by rewrite IH.
Qed.
