(* ===== verification/ControllerSafety.v ===== *)
(** * What a reconciliation does

    Every execution of [Reconcile], whatever the cluster answers: which calls it
    makes, which status it writes and on what evidence, and what that status
    means to the API server that polls it. *)

From Stdlib Require Import Ascii.
From S2P Require Import Prelude GoFmt GoStrings Prog Api Kube Server ServerWorld Controller.

Local Open Scope Z_scope.

(** ** What the statements are about *)

Definition reconcile_ok (e : event KubeE) : Prop :=
  match e with Ev c r => kube_ok c r end.

(** The status patches of a trace: the sandbox read and the one written. *)
Definition status_write (e : event KubeE) : option (PodSandbox * PodSandbox) :=
  match e with Ev (PatchSandboxStatus base modified) _ => Some (base, modified) | _ => None end.

Definition status_writes (t : list (event KubeE)) : list (PodSandbox * PodSandbox) :=
  omap status_write t.

(** A call a reconciliation of [key] may make: it reads, or it creates the Pod of
    that very key, owned by the sandbox, or deletes it, or patches the status of
    that sandbox. *)
Definition own_call (key : NamespacedName) (e : event KubeE) : Prop :=
  match e with
  | Ev (GetClass _) _ => True
  | Ev (CreatePod p) _ =>
      pod_key p = key ∧ ∃ sb, sandbox_key sb = key ∧ owned_by sb p.(pod_meta)
  | Ev (DeletePod k) _ => k = key
  | Ev (GetSandbox k) _ => k = key
  | Ev (GetPod k) _ => k = key
  | Ev (GetSecret k) _ => k.(nn_Namespace) = key.(nn_Namespace)
  | Ev (PatchSandboxStatus base modified) _ =>
      sandbox_key base = key ∧ sandbox_key modified = key
      ∧ modified.(sb_Spec) = base.(sb_Spec) ∧ modified.(sb_meta) = base.(sb_meta)
  | _ => False
  end.

(** [meta.SetStatusCondition] as apimachinery documents it: a new condition is
    appended, an old one is overwritten in place, and the transition time moves
    when the status does. It shows that the laws can hold. *)
Module Conditions.
Definition stamped (now : Z) (c : Condition) : Condition :=
  mk_Condition c.(c_Type) c.(c_Status) c.(c_ObservedGeneration)
    (if c.(c_LastTransitionTime) =? zero_time then now else c.(c_LastTransitionTime))
    c.(c_Reason) c.(c_Message).

Definition overwrite (now : Z) (old c : Condition) : Condition :=
  mk_Condition old.(c_Type) c.(c_Status) c.(c_ObservedGeneration)
    (if bool_decide (old.(c_Status) = c.(c_Status)) then old.(c_LastTransitionTime)
     else (stamped now c).(c_LastTransitionTime))
    c.(c_Reason) c.(c_Message).

Fixpoint set_condition (now : Z) (l : list Condition) (c : Condition) : list Condition :=
  match l with
  | [] => [stamped now c]
  | d :: l => if String.eqb d.(c_Type) c.(c_Type) then overwrite now d c :: l
              else d :: set_condition now l c
  end.

#[global] Instance status_conditions : StatusConditions := {| SetStatusCondition := set_condition |}.

#[global] Instance status_conditions_laws : StatusConditionsLaws.
Proof.
  split; cbn.
  - intros now l c. induction l as [|d l IH]; cbn [set_condition find_condition].
    + cbn [stamped c_Type]. rewrite String.eqb_refl. eexists. split; [done|]. by repeat split.
    + destruct (String.eqb_spec d.(c_Type) c.(c_Type)) as [E|E]; cbn [find_condition overwrite c_Type].
      * rewrite (proj2 (String.eqb_eq _ _) E). eexists. split; [done|]. by repeat split.
      * by rewrite (proj2 (String.eqb_neq _ _) E).
  - intros now l c type Hne. induction l as [|d l IH]; cbn [set_condition find_condition].
    + cbn [stamped c_Type]. by rewrite (proj2 (String.eqb_neq _ _) (not_eq_sym Hne)).
    + destruct (String.eqb_spec d.(c_Type) c.(c_Type)) as [E|E]; cbn [find_condition overwrite c_Type].
      * by rewrite E, (proj2 (String.eqb_neq _ _) (not_eq_sym Hne)).
      * by rewrite IH.
  - intros now l c d. induction l as [|e l IH]; cbn [set_condition find_condition]; [done|].
    destruct (String.eqb_spec e.(c_Type) c.(c_Type)) as [E|E]; [|by intros; rewrite IH].
    intros [= ->] (Ht & Hs & Hg & Hr & Hm). f_equal. destruct d, c; cbn in *; subst.
    unfold overwrite. cbn. by rewrite bool_decide_eq_true_2.
Qed.
End Conditions.

Notation saw_sandbox k r := (@Ev KubeE (GetSandbox k) r).
Notation saw_class n r := (@Ev KubeE (GetClass n) r).
Notation saw_pod k r := (@Ev KubeE (GetPod k) r).

(** The answer of an event, to compare events by. *)
Inductive seen_answer : Type :=
| SeenClass (r : result go_error PodSandboxClass)
| SeenSandbox (r : result go_error PodSandbox)
| SeenSecret (r : result go_error Secret)
| SeenPod (r : result go_error Pod)
| SeenCreate (p : Pod) (r : result go_error Pod)
| SeenDelete
| SeenOther.

Definition seen (e : event KubeE) : seen_answer :=
  match e with
  | Ev (GetClass _) r => SeenClass r
  | Ev (GetSandbox _) r => SeenSandbox r
  | Ev (GetSecret _) r => SeenSecret r
  | Ev (GetPod _) r => SeenPod r
  | Ev (CreatePod p) r => SeenCreate p r
  | Ev (DeletePod _) _ => SeenDelete
  | _ => SeenOther
  end.

Ltac same_answer E := apply (f_equal seen) in E; cbn [seen] in E; simplify_eq.

Section safety.
Context `{ControllerUtilLaws, StatusConditionsLaws} (now : Z) (error_string : go_error → string).

(** The evidence behind a status write: a runner that stopped, a runner that
    lives and has the generation that is wanted, or something that is neither
    (and then the sandbox is not ready, for a reason other than a failure). *)
Inductive justified (key : NamespacedName) (t : list (event KubeE)) (sb : PodSandbox)
    : PodSandbox → Prop :=
| write_waiting reason message :
    reason ≠ "RunnerFailed" →
    justified key t sb (with_ready now sb ConditionFalse reason message sb.(sb_Status))
| write_failed class runner :
    saw_class sb.(sb_Spec).(ps_ClassName) (Ok class) ∈ t → saw_pod key (Ok runner) ∈ t →
    annotation runner.(pod_meta) templateGeneration = template_generation sb class →
    stopped_phase runner = true →
    justified key t sb
      (with_ready now sb ConditionFalse "RunnerFailed" (stop_message runner) sb.(sb_Status))
| write_observed class runner :
    saw_class sb.(sb_Spec).(ps_ClassName) (Ok class) ∈ t → saw_pod key (Ok runner) ∈ t →
    annotation runner.(pod_meta) templateGeneration = template_generation sb class →
    stopped_phase runner = false →
    justified key t sb (observed now sb runner).

(** ** Lemmas *)

Lemma exec_patch_then sb m k t r :
  exec (patch_then sb m k) t r →
  ∃ a, t = [@Ev KubeE (PatchSandboxStatus sb m) a]
       ∧ r = match a with Ok _ => k | Err e => (0, IgnoreNotFound e) end.
Proof.
  unfold patch_then. intros Hx. exec_step Hx. exists r0. by destruct r0; exec_step Hx.
Qed.

Lemma runner_annotations_generation sb class :
  runner_annotations sb class !! templateGeneration = Some (template_generation sb class).
Proof. unfold runner_annotations. repeat case_match; by simplify_map_eq. Qed.

Lemma desired_generation sb class desired :
  SetControllerReference_pod sb (desiredRunner sb class) = Ok desired →
  desired.(pod_meta).(om_Annotations) !! templateGeneration = Some (template_generation sb class)
  ∧ pod_key desired = sandbox_key sb ∧ owned_by sb desired.(pod_meta).
Proof.
  intros Hset. pose proof (pod_owner_set _ _ _ Hset). apply pod_owner_only in Hset as [l ->].
  split_and!; [apply runner_annotations_generation|done|done].
Qed.

(** ** What a written status says to the API server *)

Lemma conditionByType_find l type : conditionByType l type = find_condition l type.
Proof. induction l as [|c l IH]; cbn; [done|]. by rewrite IH. Qed.

(** The Ready condition of a status that was just written. *)
Lemma with_ready_condition sb status reason message st :
  ∃ d, conditionByType (with_ready now sb status reason message st).(sb_Status).(st_Conditions)
         ConditionReady = Some d
       ∧ d.(c_Status) = status ∧ d.(c_Reason) = reason ∧ d.(c_Message) = message
       ∧ d.(c_ObservedGeneration) = sb.(sb_meta).(om_Generation).
Proof.
  destruct (set_condition_found now st.(st_Conditions)
    (mk_Condition ConditionReady status sb.(sb_meta).(om_Generation) zero_time reason message))
    as (d & Hd & _ & Hs & Hg & Hr & Hm).
  exists d. rewrite conditionByType_find. by split_and!.
Qed.

Lemma with_ready_reading sb status reason message st :
  let new := with_ready now sb status reason message st in
  is_ready new = bool_decide (status = ConditionTrue) && negb (bool_decide (st.(st_IPs) = []))
  ∧ runner_failed new = if bool_decide (status = ConditionFalse) && String.eqb reason "RunnerFailed"
                        then Some message else None.
Proof.
  intros new. subst new.
  destruct (with_ready_condition sb status reason message st) as (d & Hd & <- & <- & <- & _).
  unfold is_ready, runner_failed, conditionTrue. by rewrite Hd.
Qed.

(** A runner that is up and reachable, and one that ended. *)
Definition runner_up (runner : Pod) : Prop :=
  podReady runner = true ∧ runner.(pod_Status).(pst_PodIP) ≠ "" ∧ stopped_phase runner = false.

(** The class and the runner of the generation wanted, as they were read. *)
Definition current_runner (key : NamespacedName) (t : list (event KubeE)) (sb : PodSandbox)
    (runner : Pod) : Prop :=
  saw_pod key (Ok runner) ∈ t ∧
  ∃ class, saw_class sb.(sb_Spec).(ps_ClassName) (Ok class) ∈ t
           ∧ annotation runner.(pod_meta) templateGeneration = template_generation sb class.

Lemma runner_ready_spec runner :
  runner_ready runner = true ↔ podReady runner = true ∧ runner.(pod_Status).(pst_PodIP) ≠ "".
Proof. unfold runner_ready. rewrite andb_true_iff, negb_true_iff, String.eqb_neq. done. Qed.

Lemma observed_reading sb runner :
  is_ready (observed now sb runner) = runner_ready runner
  ∧ runner_failed (observed now sb runner) = None.
Proof.
  unfold observed. destruct (with_ready_reading sb (boolCondition (runner_ready runner))
    (if runner_ready runner then "PodVMReady" else "PodVMStarting")
    (if runner_ready runner then "The PodVM is ready" else "Waiting for the PodVM runtime")
    (mk_PodSandboxStatus 0 (Some runner.(pod_meta).(om_Name)) runner.(pod_Spec).(pod_NodeName)
       (if String.eqb runner.(pod_Status).(pst_PodIP) "" then [] else [runner.(pod_Status).(pst_PodIP)])
       sb.(sb_Status).(st_Conditions))) as [-> ->].
  destruct (runner_ready runner) eqn:E; cbn; [|done].
  apply runner_ready_spec in E as [_ ->%String.eqb_neq]. done.
Qed.

Lemma waiting_reading sb reason message st :
  is_ready (with_ready now sb ConditionFalse reason message st) = false
  ∧ runner_failed (with_ready now sb ConditionFalse reason message st)
    = if String.eqb reason "RunnerFailed" then Some message else None.
Proof. by destruct (with_ready_reading sb ConditionFalse reason message st). Qed.

(** A result that asks for no other reconciliation comes with a status that
    the server acts on; one that requeues, with one it waits on. *)
Definition settled (r : reconcile_result) (new : PodSandbox) : Prop :=
  match r with
  | (_, Some _) => True
  | (0, None) => is_ready new = true ∨ is_Some (runner_failed new)
  | (after, None) => after = 2 ∧ is_ready new = false ∧ runner_failed new = None
  end.

(** The one write of the part of a reconciliation that has read a sandbox:
    [t] are the answers before it, [t'] those from there on. *)
Definition writes_once (key : NamespacedName) (t t' : list (event KubeE)) (sb : PodSandbox)
    (r : reconcile_result) : Prop :=
  Forall (own_call key) t'
  ∧ (status_writes t' = [] ∧ r.2 ≠ None
     ∨ ∃ new a, status_writes t' = [(sb, new)] ∧ @Ev KubeE (PatchSandboxStatus sb new) a ∈ t'
         ∧ justified key (t ++ t') sb new
         ∧ match a with Ok _ => settled r new | Err e => r = (0, IgnoreNotFound e) end).

Lemma patch_writes_once key t sb m k t' r :
  exec (patch_then sb m k) t' r → sandbox_key sb = key →
  m.(sb_meta) = sb.(sb_meta) → m.(sb_Spec) = sb.(sb_Spec) → settled k m →
  (∀ t', justified key (t ++ t') sb m) → writes_once key t t' sb r.
Proof.
  intros (a & -> & ->)%exec_patch_then Hk Hm Hs Hset Hj. split.
  - repeat constructor; try done. unfold sandbox_key in *. by rewrite Hm.
  - right. exists m, a. split_and!; [done|by left|done|by destruct a].
Qed.

Lemma waiting_writes_once key t sb reason message k t' r :
  exec (patch_then sb (with_ready now sb ConditionFalse reason message sb.(sb_Status)) k) t' r →
  sandbox_key sb = key → reason ≠ "RunnerFailed" → (k.1 = 2 ∨ k.2 ≠ None) →
  writes_once key t t' sb r.
Proof.
  intros Hx Hk Hr Hkr.
  eapply patch_writes_once; [exact Hx|done|done|done| |intros; by constructor].
  destruct (waiting_reading sb reason message sb.(sb_Status)) as [Hy Hf].
  rewrite (proj2 (String.eqb_neq _ _) Hr) in Hf.
  destruct k as [after [e|]]; [by destruct after|]. by destruct Hkr as [[= ->]|].
Qed.

Lemma writes_once_cons key t e t' sb r :
  own_call key e → status_write e = None → writes_once key (t ++ [e]) t' sb r →
  writes_once key t (e :: t') sb r.
Proof.
  intros He Hw [Hown Hws]. split; [by constructor|]. unfold status_writes in *. cbn. rewrite Hw.
  destruct Hws as [?|(new & a & ? & ? & Hj & ?)]; [by left|]. right. exists new, a.
  split_and!; [done|by right|by rewrite <- app_assoc in Hj|done].
Qed.

Lemma aborts_writes_once key t sb e : writes_once key t [] sb (0, Some e).
Proof. split; [done|]. by left. Qed.

Lemma with_runner_writes key t sb class desired runner t' r :
  exec (with_runner now error_string sb desired runner) t' r →
  sandbox_key sb = key → pod_key runner = key →
  annotation desired.(pod_meta) templateGeneration = template_generation sb class →
  saw_class sb.(sb_Spec).(ps_ClassName) (Ok class) ∈ t → saw_pod key (Ok runner) ∈ t →
  writes_once key t t' sb r.
Proof.
  intros Hx Hsb Hpod Hgen Hclass Hrunner. unfold with_runner in Hx. rewrite Hgen in Hx.
  destruct (String.eqb_spec (annotation runner.(pod_meta) templateGeneration)
              (template_generation sb class)) as [Heq|]; cbn [negb] in Hx.
  - destruct (stopped_phase runner) eqn:Hph;
      (eapply patch_writes_once; [exact Hx|done|done|done| |]).
    + right. destruct (waiting_reading sb "RunnerFailed" (stop_message runner) sb.(sb_Status)) as [_ ->].
      done.
    + intros. eapply write_failed; set_solver.
    + destruct (observed_reading sb runner) as [Hy Hf].
      destruct (runner_ready runner); [by left|done].
    + intros. eapply write_observed; set_solver.
  - exec_step Hx. apply writes_once_cons; [done..|].
    destruct r0 as [|err]; [|case_in Hx]; eapply waiting_writes_once;
      (exact Hx || done || (by left) || (by right)).
Qed.

Lemma read_runner_writes key t sb class desired t' r :
  exec (read_runner now error_string key sb desired) t' r → Forall reconcile_ok t' →
  sandbox_key sb = key →
  annotation desired.(pod_meta) templateGeneration = template_generation sb class →
  saw_class sb.(sb_Spec).(ps_ClassName) (Ok class) ∈ t →
  writes_once key t t' sb r.
Proof.
  intros Hx Hok Hsb Hgen Hclass. unfold read_runner in Hx. exec_step Hx.
  apply Forall_cons in Hok as [Hpod Hok]. apply writes_once_cons; [done..|].
  destruct r0 as [runner|err].
  - eapply with_runner_writes; [exact Hx|done|by apply Hpod|exact Hgen|set_solver|set_solver].
  - case_in Hx; [eapply waiting_writes_once; [exact Hx|done|done|by left]|]. exec_step Hx. apply aborts_writes_once.
Qed.

Lemma with_desired_writes key t sb class desired t' r :
  exec (with_desired now error_string key sb desired) t' r → Forall reconcile_ok t' →
  sandbox_key sb = key → pod_key desired = key → owned_by sb desired.(pod_meta) →
  desired.(pod_meta).(om_Annotations) !! templateGeneration = Some (template_generation sb class) →
  saw_class sb.(sb_Spec).(ps_ClassName) (Ok class) ∈ t →
  writes_once key t t' sb r.
Proof.
  intros Hx Hok Hsb Hdes Hown Hgen Hclass. unfold with_desired in Hx. exec_step Hx.
  apply Forall_cons in Hok as [Hmade Hok]. apply writes_once_cons; [split; [done|by exists sb]|done|].
  assert (Hclass' : saw_class sb.(sb_Spec).(ps_ClassName) (Ok class)
            ∈ t ++ [@Ev KubeE (CreatePod desired) r0]) by (apply elem_of_app; by left).
  destruct r0 as [made|err]; [|case_in Hx; [|eapply waiting_writes_once; [exact Hx|done|done|by right]]];
    (eapply read_runner_writes; [exact Hx|done|done| |exact Hclass']); unfold annotation.
  - by rewrite (proj2 (Hmade _ eq_refl) _ _ Hgen).
  - by rewrite Hgen.
Qed.

Lemma with_class_writes key t sb class t' r :
  exec (with_class now error_string key sb class) t' r → Forall reconcile_ok t' →
  sandbox_key sb = key →
  saw_class sb.(sb_Spec).(ps_ClassName) (Ok class) ∈ t →
  writes_once key t t' sb r.
Proof.
  intros Hx Hok <- Hclass. unfold with_class in Hx. exec_step Hx.
  apply Forall_cons in Hok as [_ Hok]. apply writes_once_cons; [done..|].
  destruct r0 as [secret|err]; [|eapply waiting_writes_once; [exact Hx|done|done|by right]].
  case_in Hx; [|eapply waiting_writes_once; [exact Hx|done|done|by right]].
  case_in Hx as Hset; [|exec_step Hx; apply aborts_writes_once].
  apply desired_generation in Hset as (Hgen & Hkey & Howner).
  eapply with_desired_writes; [exact Hx|done..| ]. apply elem_of_app. by left.
Qed.

Lemma justified_reading key t sb new :
  justified key t sb new →
  (is_ready new = true → ∃ runner, current_runner key t sb runner ∧ runner_up runner
     ∧ new.(sb_Status).(st_IPs) = [runner.(pod_Status).(pst_PodIP)]
     ∧ new.(sb_Status).(st_RunnerRef) = Some runner.(pod_meta).(om_Name)
     ∧ new.(sb_Status).(st_NodeName) = runner.(pod_Spec).(pod_NodeName))
  ∧ (∀ message, runner_failed new = Some message →
       ∃ runner, current_runner key t sb runner ∧ stopped_phase runner = true
                 ∧ message = stop_message runner).
Proof.
  intros [reason message Hne|class runner Hc Hp Hg Hs|class runner Hc Hp Hg Hs].
  - destruct (waiting_reading sb reason message sb.(sb_Status)) as [-> ->].
    by rewrite (proj2 (String.eqb_neq _ _) Hne).
  - destruct (waiting_reading sb "RunnerFailed" (stop_message runner) sb.(sb_Status)) as [-> ->].
    split; [done|]. intros message [= <-]. exists runner. split_and!; [split; [done|by exists class]|done|done].
  - destruct (observed_reading sb runner) as [-> ->]. split; [|done].
    intros [Hr Hip]%runner_ready_spec. exists runner. unfold observed. cbn.
    rewrite (proj2 (String.eqb_neq _ _) Hip).
    split_and!; [split; [done|by exists class]|done..].
Qed.

(** What ends a reconciliation before it looks at anything but the sandbox. *)
Definition nothing_to_do (key : NamespacedName) (t : list (event KubeE)) (r : reconcile_result) : Prop :=
  (∃ e, t = [saw_sandbox key (Err e)] ∧ r = (0, IgnoreNotFound e))
  ∨ ∃ sb, t = [saw_sandbox key (Ok sb)] ∧ sb.(sb_meta).(om_DeletionTimestamp) ≠ None ∧ r = (0, None).

(** A reconciliation has nothing to do, or it has read a sandbox that is not
    being deleted and writes its status at most once. *)
Lemma reconcile_writes key t r :
  exec (Reconcile now error_string key) t r → Forall reconcile_ok t →
  nothing_to_do key t r
  ∨ ∃ sb t', t = saw_sandbox key (Ok sb) :: t' ∧ sandbox_key sb = key
      ∧ sb.(sb_meta).(om_DeletionTimestamp) = None
      ∧ writes_once key [saw_sandbox key (Ok sb)] t' sb r.
Proof.
  intros Hx Hok. unfold Reconcile in Hx. exec_step Hx.
  apply Forall_cons in Hok as [Hsb Hok].
  destruct r0 as [sb|err]; [|exec_step Hx; left; left; by eexists].
  specialize (Hsb sb eq_refl).
  case_in Hx as Hdel; [exec_step Hx; left; right; exists sb; by rewrite Hdel|].
  exec_step Hx. apply Forall_cons in Hok as [_ Hok].
  right. eexists _, _. split_and!; [done..|]. apply writes_once_cons; [done..|].
  destruct r0 as [class|err]; [|eapply waiting_writes_once; [exact Hx|done|done|by right]].
  eapply with_class_writes; [exact Hx|done|done|set_solver].
Qed.

Lemma reconcile_own_calls key t r :
  exec (Reconcile now error_string key) t r → Forall reconcile_ok t → Forall (own_call key) t.
Proof.
  intros Hx Hok.
  destruct (reconcile_writes _ _ _ Hx Hok) as [[(e & -> & _)|(sb & -> & _)]|(sb & t' & -> & _ & _ & Hown & _)];
    [by repeat constructor..|by constructor].
Qed.

(** The reads up to the runner. *)
Definition up_to_runner key (sb : PodSandbox) (class : PodSandboxClass) ksec (secret : Secret) p c
    (runner : Pod) : list (event KubeE) :=
  [saw_sandbox key (Ok sb); saw_class sb.(sb_Spec).(ps_ClassName) (Ok class);
   @Ev KubeE (GetSecret ksec) (Ok secret); @Ev KubeE (CreatePod p) c; saw_pod key (Ok runner)].

Lemma reconcile_at_runner key sb class ksec secret p c runner t r :
  exec (Reconcile now error_string key) (up_to_runner key sb class ksec secret p c runner ++ t) r →
  Forall reconcile_ok (up_to_runner key sb class ksec secret p c runner) →
  ∃ desired, exec (with_runner now error_string sb desired runner) t r
             ∧ annotation desired.(pod_meta) templateGeneration = template_generation sb class.
Proof.
  intros Hx Hok. unfold up_to_runner in *. cbn [app] in Hx.
  apply Forall_cons in Hok as [_ [_ [_ [Hmade _]%Forall_cons]%Forall_cons]%Forall_cons].
  destruct Hx as (r0 & E & Hx). same_answer E. cbn [bind perform] in Hx.
  case_in Hx; [by apply exec_ret_inv in Hx as [? _]|].
  destruct Hx as (r0 & E' & Hx). same_answer E'. cbn [bind perform] in Hx.
  destruct Hx as (r0 & E' & Hx). same_answer E'. cbn [bind perform] in Hx.
  case_in Hx; [|by destruct Hx as (r0 & E'' & Hx); same_answer E''].
  case_in Hx as Hset; [|by apply exec_ret_inv in Hx as [? _]].
  apply desired_generation in Hset as (Hgen & _ & _).
  destruct Hx as (r0 & E' & Hx). same_answer E'. cbn [bind perform] in Hx.
  destruct r0 as [made|err].
  - destruct Hx as (r0 & E' & Hx). same_answer E'. exists made. split; [exact Hx|].
    unfold annotation. by rewrite (proj2 (Hmade _ eq_refl) _ _ Hgen).
  - case_in Hx; destruct Hx as (r0 & E'' & Hx); same_answer E''. eexists. split; [exact Hx|].
    unfold annotation. by rewrite Hgen.
Qed.

Lemma annotation_desired sb class :
  annotation (desiredRunner sb class).(pod_meta) templateGeneration = template_generation sb class.
Proof. unfold annotation, desiredRunner. cbn. by rewrite runner_annotations_generation. Qed.

(** The generation string determines both generations. *)
Lemma template_generation_inj sb class sb' class' :
  in_int64 sb.(sb_meta).(om_Generation) → in_int64 class.(cl_meta).(om_Generation) →
  in_int64 sb'.(sb_meta).(om_Generation) → in_int64 class'.(cl_meta).(om_Generation) →
  template_generation sb class = template_generation sb' class' →
  sb.(sb_meta).(om_Generation) = sb'.(sb_meta).(om_Generation)
  ∧ class.(cl_meta).(om_Generation) = class'.(cl_meta).(om_Generation).
Proof.
  intros ???? E. unfold template_generation in E.
  apply (split_at_sep "/"%char) in E as [E1 E2];
    [|eapply string_forall_not_contains; [|apply fmt_d_chars]; done..].
  split; by apply fmt_d_inj.
Qed.

(** A status write with the Ready condition it already holds changes nothing. *)
Lemma with_ready_again now' sb status reason message st :
  (with_ready now' (with_ready now sb status reason message st) status reason message
     (with_ready now sb status reason message st).(sb_Status)).(sb_Status)
  = (with_ready now sb status reason message st).(sb_Status).
Proof.
  unfold with_ready. cbn. f_equal.
  destruct (set_condition_found now st.(st_Conditions)
    (mk_Condition ConditionReady status sb.(sb_meta).(om_Generation) zero_time reason message))
    as (d & Hd & Hsame).
  by eapply set_condition_unchanged; [exact Hd|].
Qed.

Lemma observed_again now' sb runner :
  (observed now' (observed now sb runner) runner).(sb_Status) = (observed now sb runner).(sb_Status).
Proof.
  unfold observed, with_ready. cbn. f_equal.
  destruct (set_condition_found now sb.(sb_Status).(st_Conditions)
    (mk_Condition ConditionReady (boolCondition (runner_ready runner)) sb.(sb_meta).(om_Generation) zero_time
      (if runner_ready runner then "PodVMReady" else "PodVMStarting")
      (if runner_ready runner then "The PodVM is ready" else "Waiting for the PodVM runtime")))
    as (d & Hd & Hsame).
  by eapply set_condition_unchanged; [exact Hd|].
Qed.

Lemma exec_current_runner sb desired runner t r :
  exec (with_runner now error_string sb desired runner) t r →
  annotation runner.(pod_meta) templateGeneration = annotation desired.(pod_meta) templateGeneration →
  ∃ a, t = [@Ev KubeE (PatchSandboxStatus sb
              (if stopped_phase runner
               then with_ready now sb ConditionFalse "RunnerFailed" (stop_message runner) sb.(sb_Status)
               else observed now sb runner)) a].
Proof.
  intros Hx E. unfold with_runner in Hx. rewrite E, String.eqb_refl in Hx. cbn [negb] in Hx.
  destruct (stopped_phase runner); apply exec_patch_then in Hx as (a & -> & _); by exists a.
Qed.

Lemma exec_stale_runner sb desired runner t r :
  exec (with_runner now error_string sb desired runner) t r →
  annotation runner.(pod_meta) templateGeneration ≠ annotation desired.(pod_meta) templateGeneration →
  ∃ d t', t = @Ev KubeE (DeletePod (pod_key runner)) d :: t'.
Proof.
  intros Hx E%String.eqb_neq. unfold with_runner in Hx. rewrite E in Hx. cbn [negb] in Hx.
  exec_step Hx. eauto.
Qed.

(** ** Properties *)

(** C6. Every status a reconciliation writes is evidence. Whatever the
    cluster answers, a status it writes is that of the sandbox it read, and what
    the API server reads in it is so: a sandbox it would report as created has a
    runner Pod of the current generation that was seen ready, not ended and with
    an address, and that Pod's address, name and node are the ones in the
    status; a sandbox it would report as failed has a runner of the current
    generation that was seen ended, with that message. *)
Theorem written_status_is_evidence key t r sb new :
  exec (Reconcile now error_string key) t r → Forall reconcile_ok t →
  (sb, new) ∈ status_writes t →
  saw_sandbox key (Ok sb) ∈ t
  ∧ (is_ready new = true → ∃ runner, current_runner key t sb runner ∧ runner_up runner
       ∧ new.(sb_Status).(st_IPs) = [runner.(pod_Status).(pst_PodIP)]
       ∧ new.(sb_Status).(st_RunnerRef) = Some runner.(pod_meta).(om_Name)
       ∧ new.(sb_Status).(st_NodeName) = runner.(pod_Spec).(pod_NodeName))
  ∧ (∀ message, runner_failed new = Some message →
       ∃ runner, current_runner key t sb runner ∧ stopped_phase runner = true
                 ∧ message = stop_message runner).
Proof.
  intros Hx Hok Hin.
  destruct (reconcile_writes _ _ _ Hx Hok) as [[(e & -> & _)|(sb' & -> & _)]|(sb' & t' & -> & Hk & Hdel & Hw)];
    [by apply elem_of_nil in Hin..|].
  destruct Hw as [_ [[Hn _]|(new' & a & Hws & _ & Hj & _)]];
    unfold status_writes in Hin; cbn [omap list_omap status_write] in Hin; fold (status_writes t') in Hin.
  { rewrite Hn in Hin. by apply elem_of_nil in Hin. }
  rewrite Hws in Hin. apply list_elem_of_singleton in Hin as [= -> ->].
  split; [by left|]. by apply justified_reading.
Qed.

(** C28. A reconciliation keeps to its own objects: it only reads, creates the
    Pod of its own name (owned by the sandbox, so that it is collected with it),
    deletes that Pod and patches that sandbox's status, at most once and never
    its spec. A sandbox that is being deleted is left alone. *)
Theorem reconcile_confined key t r :
  exec (Reconcile now error_string key) t r → Forall reconcile_ok t →
  Forall (own_call key) t ∧ (length (status_writes t) ≤ 1)%nat
  ∧ ∀ sb t', t = saw_sandbox key (Ok sb) :: t' → sb.(sb_meta).(om_DeletionTimestamp) ≠ None →
      t' = [] ∧ r = (0, None).
Proof.
  intros Hx Hok. split; [by eapply reconcile_own_calls|].
  destruct (reconcile_writes _ _ _ Hx Hok)
    as [[(e & -> & _)|(sb & -> & _ & ->)]|(sb & t' & -> & Hk & Hdel & _ & Hws)].
  - split; [cbn; lia|]. intros sb t' E _. apply (f_equal (fmap seen)) in E. by simplify_eq/=.
  - split; [cbn; lia|]. intros sb' t' E _.
    apply (f_equal (fmap seen)) in E. cbn in E. simplify_eq. by destruct t'.
  - split.
    + change (length (status_writes t') ≤ 1)%nat.
      destruct Hws as [[-> _]|(new & a & -> & _)]; cbn; lia.
    + intros sb' t'' E Hne. apply (f_equal (fmap seen)) in E. by simplify_eq/=.
Qed.

(** C29. A reconciliation rests only when there is nothing left to do. One that
    returns no error and asks for no requeue has found the sandbox gone or going,
    or has written a status on which a waiting creation request ends (or found
    it gone when it wrote). One that asks for a requeue does so after two
    seconds, and has written a status on which the request keeps waiting. *)
Theorem reconcile_rests key t after :
  exec (Reconcile now error_string key) t (after, None) → Forall reconcile_ok t →
  (after = 0 ∨ after = 2)
  ∧ ((∃ e, t = [saw_sandbox key (Err e)] ∧ IsNotFound e = true)
     ∨ (∃ sb, t = [saw_sandbox key (Ok sb)] ∧ sb.(sb_meta).(om_DeletionTimestamp) ≠ None)
     ∨ ∃ sb new a, @Ev KubeE (PatchSandboxStatus sb new) a ∈ t ∧
         match a with
         | Err e => after = 0 ∧ IsNotFound e = true
         | Ok _ => if after =? 0 then is_ready new = true ∨ is_Some (runner_failed new)
                   else is_ready new = false ∧ runner_failed new = None
         end).
Proof.
  intros Hx Hok.
  destruct (reconcile_writes _ _ _ Hx Hok)
    as [[(e & -> & Hr)|(sb & -> & Hdel & [= ->])]|(sb & t' & -> & Hk & Hdel & _ & Hws)].
  - unfold IgnoreNotFound in Hr. destruct (IsNotFound e) eqn:He; simplify_eq.
    split; [by left|]. left. by exists e.
  - split; [by left|]. right. left. by exists sb.
  - destruct Hws as [[_ ?]|(new & a & _ & Hin & _ & Hset)]; [done|].
    destruct a as [o|e].
    + assert (after = 0 ∨ after = 2) as Ha.
      { destruct after; [by left| |]; right; apply Hset. }
      split; [done|]. right. right. exists sb, new, (Ok o). split; [by right|].
      destruct Ha as [-> | ->]; [done|]. apply Hset.
    + unfold IgnoreNotFound in Hset. destruct (IsNotFound e) eqn:He; simplify_eq.
      split; [by left|]. right. right. exists sb, new, (Err e). split; [by right|done].
Qed.

(** C30. The status reports the runner. Once a reconciliation has read the
    sandbox, its class, its userdata and a runner of the current generation, it
    makes exactly one more call: it writes a status, observed at the sandbox's
    generation, that is ready exactly when the runner is up and reachable, and
    failed exactly when the runner ended, with the runner's message. *)
Theorem reconcile_reports_runner key sb class ksec secret p c runner t r :
  exec (Reconcile now error_string key) (up_to_runner key sb class ksec secret p c runner ++ t) r →
  Forall reconcile_ok (up_to_runner key sb class ksec secret p c runner) →
  annotation runner.(pod_meta) templateGeneration = template_generation sb class →
  ∃ new a, t = [@Ev KubeE (PatchSandboxStatus sb new) a]
    ∧ new.(sb_Status).(st_ObservedGeneration) = sb.(sb_meta).(om_Generation)
    ∧ (is_ready new = true ↔ runner_up runner)
    ∧ runner_failed new = (if stopped_phase runner then Some (stop_message runner) else None).
Proof.
  intros Hx Hok Hgen. apply reconcile_at_runner in Hx as (desired & Hx & Hdes); [|done].
  rewrite <- Hdes in Hgen. apply exec_current_runner in Hx as [a ->]; [|done].
  eexists _, a. split; [done|]. unfold runner_up. destruct (stopped_phase runner).
  - destruct (waiting_reading sb "RunnerFailed" (stop_message runner) sb.(sb_Status)) as [-> ->].
    naive_solver.
  - destruct (observed_reading sb runner) as [-> ->]. rewrite runner_ready_spec. naive_solver.
Qed.

(** The runner is replaced exactly when its template is stale. A runner Pod
    created for the generations of [sb0] and [class0] is deleted by a later
    reconciliation exactly when one of the two generations has changed. *)
Theorem runner_replaced_iff_stale key sb class ksec secret p c runner t r sb0 class0 :
  exec (Reconcile now error_string key) (up_to_runner key sb class ksec secret p c runner ++ t) r →
  Forall reconcile_ok (up_to_runner key sb class ksec secret p c runner) →
  annotation runner.(pod_meta) templateGeneration
    = annotation (desiredRunner sb0 class0).(pod_meta) templateGeneration →
  in_int64 sb.(sb_meta).(om_Generation) → in_int64 class.(cl_meta).(om_Generation) →
  in_int64 sb0.(sb_meta).(om_Generation) → in_int64 class0.(cl_meta).(om_Generation) →
  (∃ d, @Ev KubeE (DeletePod key) d ∈ t)
  ↔ (sb0.(sb_meta).(om_Generation) ≠ sb.(sb_meta).(om_Generation)
     ∨ class0.(cl_meta).(om_Generation) ≠ class.(cl_meta).(om_Generation)).
Proof.
  intros Hx Hok Hann Hs Hc Hs0 Hc0.
  assert (pod_key runner = key) as <- by
    (unfold up_to_runner in Hok; rewrite !Forall_cons in Hok; by apply Hok).
  apply reconcile_at_runner in Hx as (desired & Hx & Hdes); [|done].
  rewrite annotation_desired in Hann.
  destruct (decide (template_generation sb0 class0 = template_generation sb class)) as [E|E].
  - destruct (exec_current_runner _ _ _ _ _ Hx) as [a ->]; [congruence|].
    apply template_generation_inj in E as [-> ->]; [|done..]. split; [|naive_solver].
    intros (d & Hin%list_elem_of_singleton). apply (f_equal seen) in Hin. done.
  - destruct (exec_stale_runner _ _ _ _ _ Hx) as (d & t' & ->); [congruence|].
    split; [|intros _; exists d; by left].
    intros _. destruct (decide (sb0.(sb_meta).(om_Generation) = sb.(sb_meta).(om_Generation))); [|by left].
    right. intros E'. apply E. unfold template_generation. congruence.
Qed.

(** Status writes converge. Reconciling a sandbox and a runner again, with
    the status the first time wrote and whatever the clock says, writes that
    very status: a reconciliation does not trigger itself for ever. *)
Theorem status_converges now' sb new desired runner t r t' r' :
  annotation runner.(pod_meta) templateGeneration = annotation desired.(pod_meta) templateGeneration →
  exec (with_runner now error_string sb desired runner) t r →
  status_writes t = [(sb, new)] →
  exec (with_runner now' error_string new desired runner) t' r' →
  ∃ new', status_writes t' = [(new, new')] ∧ new'.(sb_Status) = new.(sb_Status).
Proof.
  intros Hgen [a ->]%exec_current_runner [= <-] Hx; [|done].
  unfold with_runner in Hx. rewrite Hgen, String.eqb_refl in Hx. cbn [negb] in Hx.
  destruct (stopped_phase runner); apply exec_patch_then in Hx as (a' & -> & _); eexists;
    (split; [done|]).
  - apply with_ready_again.
  - apply observed_again.
Qed.
End safety.

(** ** Witnesses *)

Lemma kube_run_ok {A} (p : prog KubeE A) m : Forall reconcile_ok (run_trace (E:=KubeE) Mem.handle m p).
Proof.
  revert m. induction p as [a|c k IH]; intros m; [constructor|].
  pose proof (Mem.handle_ok m c) as Hok.
  cbn [run_trace]. destruct (Mem.handle m c) as [m' r]. constructor; [done|]. apply IH.
Qed.

(** A sandbox, its userdata and its runner, whose status is [status]. *)
Definition sandbox_fixture : PodSandbox :=
  mk_PodSandbox (mk_ObjectMeta "psb-1" "cluster-a-runtime" "uid-psb-1" 1 None ∅ ∅ [])
    (mk_PodSandboxSpec (mk_WorkloadReference "apps" "api-7d9c" "uid-1") "sandbox-id" "psb-1-userdata"
       "cluster-a" 2 512 "amd64") empty_status.

Definition psb : NamespacedName := NN "cluster-a-runtime" "psb-1".

Definition userdata_fixture : Secret :=
  mk_Secret (meta "psb-1-userdata" "cluster-a-runtime") true {["userdata" := "user data"]} "".

Definition runner_fixture (status : PodStatus) : Pod :=
  mk_Pod (desiredRunner sandbox_fixture class_fixture).(pod_meta)
    (desiredRunner sandbox_fixture class_fixture).(pod_Spec) status.

Definition running : PodStatus :=
  mk_PodStatus PodRunning "10.90.0.8" [mk_PodCondition "Ready" ConditionTrue] [].

Definition cluster (sb : PodSandbox) (pods : gmap NamespacedName Pod) : Mem.mem :=
  Mem.mk_mem {["cluster-a" := class_fixture]} {[psb := sb]}
    {[NN "cluster-a-runtime" "psb-1-userdata" := userdata_fixture]} pods.

Definition ready_cluster : Mem.mem := cluster sandbox_fixture {[psb := runner_fixture running]}.

Definition text (e : go_error) : string := "error".

Notation runs m := (run_trace (E:=KubeE) Mem.handle m (Reconcile 7 text psb)).
Notation ends m := (run (E:=KubeE) Mem.handle m (Reconcile 7 text psb)).2.

Lemma runs_exec m : exec (Reconcile 7 text psb) (runs m) (ends m).
Proof. apply run_exec. Qed.

Lemma written_status_is_evidence_witness :
  let t := runs ready_cluster in
  let new := observed 7 sandbox_fixture (runner_fixture running) in
  status_writes t = [(sandbox_fixture, new)] ∧ is_ready new = true
  ∧ ∃ runner, current_runner psb t sandbox_fixture runner ∧ runner_up runner.
Proof.
  intros t new.
  assert (Hw : status_writes t = [(sandbox_fixture, new)]) by (vm_compute; reflexivity).
  assert (Hr : is_ready new = true) by (vm_compute; reflexivity).
  split; [exact Hw|]. split; [exact Hr|].
  destruct (written_status_is_evidence 7 text psb t (ends ready_cluster) sandbox_fixture new
              (runs_exec ready_cluster) (kube_run_ok (Reconcile 7 text psb) ready_cluster)) as (_ & Hev & _).
  { rewrite Hw. by left. }
  destruct (Hev Hr) as (runner & Hc & Hup & _). exists runner. split; [exact Hc|exact Hup].
Defined.

Lemma reconcile_confined_witness :
  let t := runs ready_cluster in
  length t = 6%nat ∧ Forall (own_call psb) t.
Proof.
  intros t. split; [vm_compute; reflexivity|].
  apply (reconcile_confined 7 text psb t (ends ready_cluster)
           (runs_exec ready_cluster) (kube_run_ok (Reconcile 7 text psb) ready_cluster)).
Defined.

(** A cluster in which the runner was not created yet. *)
Lemma reconcile_rests_witness :
  let m := cluster sandbox_fixture ∅ in
  let t := runs m in
  ends m = (2, None)
  ∧ ∃ sb new a, @Ev KubeE (PatchSandboxStatus sb new) a ∈ t
      ∧ match a with Err _ => False | Ok _ => is_ready new = false ∧ runner_failed new = None end.
Proof.
  intros m t.
  assert (Hr : ends m = (2, None))
    by (vm_compute; reflexivity).
  split; [exact Hr|].
  pose proof (runs_exec m) as Hx. rewrite Hr in Hx.
  assert (Hl : length t = 6%nat) by (vm_compute; reflexivity).
  destruct (reconcile_rests 7 text psb t 2 Hx (kube_run_ok (Reconcile 7 text psb) m))
    as [_ [(e & E & _)|[(sb & E & _)|(sb & new & a & Hin & Ha)]]]; [by rewrite E in Hl..|].
  exists sb, new, a. split; [exact Hin|]. destruct a; [exact Ha|]. by destruct Ha.
Defined.

Definition desired_fixture : Pod :=
  mk_Pod (with_owners (desiredRunner sandbox_fixture class_fixture).(pod_meta)
            [Mem.owner_ref sandbox_fixture])
    (desiredRunner sandbox_fixture class_fixture).(pod_Spec) empty_pod_status.

(** The reads of a reconciliation in a cluster whose runner is [runner]. *)
Definition reads (sb : PodSandbox) (runner : Pod) : list (event KubeE) :=
  up_to_runner psb sb class_fixture (NN "cluster-a-runtime" "psb-1-userdata") userdata_fixture
    desired_fixture (Err Mem.alreadyExists) runner.

Lemma runs_reads (runner : Pod) t :
  runs (cluster sandbox_fixture {[psb := runner]}) = reads sandbox_fixture runner ++ t →
  exec (Reconcile 7 text psb) (reads sandbox_fixture runner ++ t)
    (ends (cluster sandbox_fixture {[psb := runner]}))
  ∧ Forall reconcile_ok (reads sandbox_fixture runner).
Proof.
  intros Ht. rewrite <- Ht. split; [apply runs_exec|].
  pose proof (kube_run_ok (Reconcile 7 text psb) (cluster sandbox_fixture {[psb := runner]})) as Hok.
  rewrite Ht in Hok. by apply Forall_app in Hok as [? _].
Qed.

(** The runner ended, and its container left a message. *)
Definition failed : PodStatus :=
  mk_PodStatus PodFailed "10.90.0.8" [mk_PodCondition "Ready" ConditionTrue]
    [mk_ContainerStatus "runner" (Some (mk_Terminated 1 "out of memory"))].

Lemma reconcile_reports_runner_witness :
  let t := drop 5 (runs (cluster sandbox_fixture {[psb := runner_fixture failed]})) in
  ∃ new a, t = [@Ev KubeE (PatchSandboxStatus sandbox_fixture new) a]
    ∧ runner_failed new = Some "out of memory".
Proof.
  intros t.
  assert (Ht : runs (cluster sandbox_fixture {[psb := runner_fixture failed]})
               = reads sandbox_fixture (runner_fixture failed) ++ t) by (vm_compute; reflexivity).
  destruct (runs_reads _ _ Ht) as [Hx Hok].
  destruct (reconcile_reports_runner 7 text psb sandbox_fixture class_fixture _ _ _ _
              (runner_fixture failed) t _ Hx Hok) as (new & a & Hn & _ & _ & Hf);
    [vm_compute; reflexivity|].
  exists new, a. split; [exact Hn|]. rewrite Hf. vm_compute. reflexivity.
Defined.

(** A runner of an earlier generation of the class. *)
Definition old_class : PodSandboxClass :=
  mk_PodSandboxClass (mk_ObjectMeta "cluster-a" "" "uid-class" 2 None ∅ ∅ []) class_fixture.(cl_Spec).

Definition old_runner : Pod :=
  mk_Pod (desiredRunner sandbox_fixture old_class).(pod_meta)
    (desiredRunner sandbox_fixture old_class).(pod_Spec) running.

Lemma runner_replaced_iff_stale_witness :
  let t := drop 5 (runs (cluster sandbox_fixture {[psb := old_runner]})) in
  ∃ d, @Ev KubeE (DeletePod psb) d ∈ t.
Proof.
  intros t.
  assert (Ht : runs (cluster sandbox_fixture {[psb := old_runner]})
               = reads sandbox_fixture old_runner ++ t) by (vm_compute; reflexivity).
  destruct (runs_reads _ _ Ht) as [Hx Hok].
  assert (Hann : annotation old_runner.(pod_meta) templateGeneration
                 = annotation (desiredRunner sandbox_fixture old_class).(pod_meta) templateGeneration)
    by (vm_compute; reflexivity).
  assert (H1 : in_int64 1) by (split; vm_compute; discriminate).
  assert (H2 : in_int64 2) by (split; vm_compute; discriminate).
  assert (H3 : in_int64 3) by (split; vm_compute; discriminate).
  refine (proj2 (runner_replaced_iff_stale 7 text psb sandbox_fixture class_fixture _ _ _ _ old_runner t _
           sandbox_fixture old_class Hx Hok Hann H1 H3 H1 H2) _).
  right. vm_compute. discriminate.
Defined.

Lemma status_converges_witness :
  let new := observed 7 sandbox_fixture (runner_fixture running) in
  let again := with_runner 9 text new desired_fixture (runner_fixture running) in
  ∃ new', status_writes (run_trace (E:=KubeE) Mem.handle ready_cluster again) = [(new, new')]
    ∧ new'.(sb_Status) = new.(sb_Status).
Proof.
  intros new again.
  apply (status_converges 7 text 9 sandbox_fixture new desired_fixture (runner_fixture running)
    (run_trace (E:=KubeE) Mem.handle ready_cluster
       (with_runner 7 text sandbox_fixture desired_fixture (runner_fixture running)))
    (run (E:=KubeE) Mem.handle ready_cluster
       (with_runner 7 text sandbox_fixture desired_fixture (runner_fixture running))).2
    (run_trace (E:=KubeE) Mem.handle ready_cluster again)
    (run (E:=KubeE) Mem.handle ready_cluster again).2);
    [vm_compute; reflexivity|apply run_exec|vm_compute; reflexivity|apply run_exec].
Defined.
