(* ===== verification/Runner.v ===== *)
(** * The runner: cmd/runner/main.go

    The program of the runner Pod: it prepares the disks and the network of a
    PodVM, starts the proxies, and runs Cloud Hypervisor. Files, processes,
    sockets and signals are calls of a [prog]. *)

From Stdlib Require Import Ascii.
From S2P Require Import Prelude GoFmt GoStrings Flags GoNet Prog.

Local Open Scope Z_scope.

(** ** Constants *)

Definition defaultStateDir : string := "/run/pod-sandbox".
Definition primaryLink : string := "eth0".
Definition bridgeName : string := "podvm-br0".
Definition tapName : string := "podvm-tap0".
Definition managementCIDR : string := "192.0.2.0/30".
Definition hostAddress : string := "192.0.2.1/30".
Definition guestAddress : string := "192.0.2.2/30".
Definition guestIP : string := "192.0.2.2".
Definition forwarderPort : string := "15150".
Definition proxyPort : string := "3128".
Definition vxlanPort : string := "4789".
Definition directKernelParams : string :=
  "reboot=k panic=1 systemd.unit=podvm.target quiet " +:+
  "root=/dev/vda1 rootflags=data=ordered,errors=remount-ro rw rootfstype=ext4 " +:+
  "no_timer_check noreplace-smp console=ttyS0 systemd.log_target=console " +:+
  "cgroup_no_v1=all systemd.unified_cgroup_hierarchy=1".

(** ** Options *)

Record options : Type := mk_options {
  cpus : Z;
  memoryMiB : Z;
  networkMTU : Z;
  imageDir : string;
  configDir : string;
  stateDir : string;
  runtimeAssetsDir : string;
  firmware : string;
  kernelPath : string;
  initramfsPath : string;
  rootfsPath : string;
  kernelParams : string;
}.

Record networkState : Type := mk_networkState {
  Address : string; Gateway : string; DNS : list string; MAC : string
}.

(** The flags of [run], in the order they are declared, and their defaults. *)
Definition run_flags : list (flag options) :=
  [IntVar "cpus" (λ v o, mk_options v o.(memoryMiB) o.(networkMTU) o.(imageDir) o.(configDir)
     o.(stateDir) o.(runtimeAssetsDir) o.(firmware) o.(kernelPath) o.(initramfsPath) o.(rootfsPath) o.(kernelParams));
   IntVar "memory-mib" (λ v o, mk_options o.(cpus) v o.(networkMTU) o.(imageDir) o.(configDir)
     o.(stateDir) o.(runtimeAssetsDir) o.(firmware) o.(kernelPath) o.(initramfsPath) o.(rootfsPath) o.(kernelParams));
   IntVar "network-mtu" (λ v o, mk_options o.(cpus) o.(memoryMiB) v o.(imageDir) o.(configDir)
     o.(stateDir) o.(runtimeAssetsDir) o.(firmware) o.(kernelPath) o.(initramfsPath) o.(rootfsPath) o.(kernelParams));
   StringVar "image-dir" (λ v o, mk_options o.(cpus) o.(memoryMiB) o.(networkMTU) v o.(configDir)
     o.(stateDir) o.(runtimeAssetsDir) o.(firmware) o.(kernelPath) o.(initramfsPath) o.(rootfsPath) o.(kernelParams));
   StringVar "config-dir" (λ v o, mk_options o.(cpus) o.(memoryMiB) o.(networkMTU) o.(imageDir) v
     o.(stateDir) o.(runtimeAssetsDir) o.(firmware) o.(kernelPath) o.(initramfsPath) o.(rootfsPath) o.(kernelParams));
   StringVar "state-dir" (λ v o, mk_options o.(cpus) o.(memoryMiB) o.(networkMTU) o.(imageDir) o.(configDir)
     v o.(runtimeAssetsDir) o.(firmware) o.(kernelPath) o.(initramfsPath) o.(rootfsPath) o.(kernelParams));
   StringVar "runtime-assets-dir" (λ v o, mk_options o.(cpus) o.(memoryMiB) o.(networkMTU) o.(imageDir) o.(configDir)
     o.(stateDir) v o.(firmware) o.(kernelPath) o.(initramfsPath) o.(rootfsPath) o.(kernelParams));
   StringVar "firmware" (λ v o, mk_options o.(cpus) o.(memoryMiB) o.(networkMTU) o.(imageDir) o.(configDir)
     o.(stateDir) o.(runtimeAssetsDir) v o.(kernelPath) o.(initramfsPath) o.(rootfsPath) o.(kernelParams));
   StringVar "kernel" (λ v o, mk_options o.(cpus) o.(memoryMiB) o.(networkMTU) o.(imageDir) o.(configDir)
     o.(stateDir) o.(runtimeAssetsDir) o.(firmware) v o.(initramfsPath) o.(rootfsPath) o.(kernelParams));
   StringVar "initramfs" (λ v o, mk_options o.(cpus) o.(memoryMiB) o.(networkMTU) o.(imageDir) o.(configDir)
     o.(stateDir) o.(runtimeAssetsDir) o.(firmware) o.(kernelPath) v o.(rootfsPath) o.(kernelParams));
   StringVar "rootfs" (λ v o, mk_options o.(cpus) o.(memoryMiB) o.(networkMTU) o.(imageDir) o.(configDir)
     o.(stateDir) o.(runtimeAssetsDir) o.(firmware) o.(kernelPath) o.(initramfsPath) v o.(kernelParams));
   StringVar "kernel-params" (λ v o, mk_options o.(cpus) o.(memoryMiB) o.(networkMTU) o.(imageDir) o.(configDir)
     o.(stateDir) o.(runtimeAssetsDir) o.(firmware) o.(kernelPath) o.(initramfsPath) o.(rootfsPath) v)].

Definition default_options : options :=
  mk_options 1 512 1400 "" "" defaultStateDir "/opt/podvm-runtime"
    "/usr/share/cloud-hypervisor/CLOUDHV.fd" "" "" "" "".

(** The options, or the status the process exits with. *)
Definition parseRunOptions (args : list string) : result Z options :=
  let? (o, _) := Parse run_flags args default_options in Ok o.

(** [parseStateDir] and [parseReadyOptions]: a flag set with the one flag
    [state-dir]. *)
Definition parseStateDir (args : list string) : result Z string :=
  let? (dir, _) := Parse [StringVar "state-dir" (λ v _, v)] args defaultStateDir in Ok dir.

(** ** Calls *)

Inductive runner_call : Type :=
| MkdirAll (path : string)
| ReadFile (path : string)
| WriteFile (path content : string)
| RandRead (n : nat)
| ExecRun (name : string) (args : list string)
| Listen (address : string)
| CloseListener
| CloseProxy
| RemoveFile (path : string)
| StartProcess (name : string) (args : list string)
| SignalOrExit
| ExitOrTimeout (seconds : Z)
| KillProcess
| UnixRequest (socket method url : string)
| DialTCP (target : string) (seconds : Z)
| CloseConn.

(** [option go_error] is an error or [nil]; a failed command also gives what it
    wrote to standard error; an HTTP answer is its status code and status line. *)
Definition runner_answer (c : runner_call) : Type :=
  match c with
  | ReadFile _ | RandRead _ => result go_error string
  | ExecRun _ _ => option (go_error * string)
  | CloseListener | CloseProxy | RemoveFile _ => unit
  | SignalOrExit => string + option go_error
  | ExitOrTimeout _ => option (option go_error)
  | UnixRequest _ _ _ => result go_error (Z * string)
  | MkdirAll _ | WriteFile _ _ | Listen _ | StartProcess _ _ | KillProcess | DialTCP _ _ | CloseConn =>
      option go_error
  end.

Definition RunnerE : effects := Effects runner_call runner_answer.
Notation os c := (@perform RunnerE c).

(** [if err := e; err != nil { return wrap(err) }]. *)
Notation "'try!' e 'else' f 'in' k" :=
  (bind e (λ r, match r with Some err => Ret (f err) | None => k end))
  (at level 200, e at level 100, f at level 100, k at level 200) : prog_scope.

(** ** Commands and requests *)

Definition runCommand (name : string) (args : list string) : prog RunnerE (option go_error) :=
  let! r := os (ExecRun name args) in
  Ret (match r with
       | None => None
       | Some (err, stderr) => Some (Errorf "%w: %s" [ArgErr err; ArgS (TrimSpace stderr)])
       end).

Definition apiRequest (socket method path : string) : prog RunnerE (result go_error (Z * string)) :=
  os (UnixRequest socket method ("http://localhost" +:+ path)).

Definition returned (status : string) : go_error := Errorf "cloud-hypervisor returned %s" [ArgS status].

Definition vmInfo (socket : string) : prog RunnerE (option go_error) :=
  let! r := apiRequest socket "GET" "/api/v1/vm.info" in
  match r with
  | Err err => Ret (Some err)
  | Ok (code, status) => Ret (if code =? 200 then None else Some (returned status))
  end.

Definition shutdown (socket : string) : prog RunnerE (option go_error) :=
  let! r := apiRequest socket "PUT" "/api/v1/vm.shutdown" in
  match r with
  | Err err => Ret (Some err)
  | Ok (code, status) =>
      Ret (if (code <? 200) || (300 <=? code) then Some (returned status) else None)
  end.

Definition agentReady (target : string) : prog RunnerE (option go_error) :=
  try! os (DialTCP target 1) else Some in
  os CloseConn.

Definition readyCheck (socket agentTarget : string) : prog RunnerE (option go_error) :=
  try! vmInfo socket else Some in
  agentReady agentTarget.

(** ** The command line of Cloud Hypervisor *)

Definition cloudHypervisorArgs (opts : options) (socket rootDisk seedDisk guestMAC : string) : list string :=
  let args := ["--api-socket"; socket;
               "--cpus"; "boot=" +:+ fmt_d opts.(cpus);
               "--memory"; "size=" +:+ fmt_d opts.(memoryMiB) +:+ "M"] in
  let args :=
    if String.eqb opts.(kernelPath) "" then
      args ++ ["--firmware"; opts.(firmware);
               "--disk";
               "path=" +:+ rootDisk +:+ ",image_type=qcow2,backing_files=on";
               "path=" +:+ seedDisk +:+ ",readonly=on,image_type=raw"]
    else
      let args := args ++ ["--kernel"; opts.(kernelPath)] in
      let args := if String.eqb opts.(initramfsPath) "" then args
                  else args ++ ["--initramfs"; opts.(initramfsPath)] in
      let params := TrimSpace opts.(kernelParams) in
      let params := if String.eqb params "" then directKernelParams else params in
      let args := args ++ ["--cmdline"; params] in
      let args := args ++ ["--disk"] in
      let args := if String.eqb opts.(rootfsPath) "" then args
                  else args ++ ["path=" +:+ opts.(rootfsPath) +:+ ",image_type=raw"] in
      args ++ ["path=" +:+ seedDisk +:+ ",readonly=on,image_type=raw"] in
  args ++ ["--net"; "tap=" +:+ tapName +:+ ",mac=" +:+ guestMAC;
           "--serial"; "tty";
           "--console"; "off"].

(** ** The network of the guest *)

(** [line] splits a file into lines: the byte 10. *)
Definition newline : ascii := byte_chr 10.
Definition nl : string := String newline "".

(** The addresses of the [nameserver] lines of a resolv.conf. *)
Definition nameserver_of (line : string) : list string :=
  match Fields line with
  | [key; address] =>
      if String.eqb key "nameserver" && ParseIP_ok address then [address] else []
  | _ => []
  end.

Definition parse_nameservers (content : string) : list string :=
  concat (map nameserver_of (Split content newline)).

Definition nameservers : prog RunnerE (list string) :=
  let! r := os (ReadFile "/etc/resolv.conf") in
  Ret (match r with Ok content => parse_nameservers content | Err _ => [] end).

(** [%q] of a string of ASCII bytes; the only one that is quoted is a MAC, made
    of hexadecimal digits and colons. *)
Definition quote_byte (c : ascii) : string :=
  let b := byte_val c in
  if (b =? 34) || (b =? 92) then String "\" (String c "")
  else if between 32 126 b then String c ""
  else if b =? 7 then "\a" else if b =? 8 then "\b" else if b =? 12 then "\f"
  else if b =? 10 then "\n" else if b =? 13 then "\r" else if b =? 9 then "\t"
  else if b =? 11 then "\v"
  else "\x" +:+ hex_encode (String c "").

Fixpoint quote_bytes (s : string) : string :=
  match s with
  | EmptyString => EmptyString
  | String c s => quote_byte c +:+ quote_bytes s
  end.

Definition dquote : string := String (byte_chr 34) "".
Definition Quote (s : string) : string := dquote +:+ quote_bytes s +:+ dquote.

Definition renderNetworkConfig (network : networkState) (mtu : Z) : string :=
  let dns :=
    match network.(DNS) with
    | [] => ""
    | _ => "    nameservers:" +:+ nl +:+ "      addresses: [" +:+ Join network.(DNS) ", " +:+ "]" +:+ nl
    end in
  "version: 2" +:+ nl +:+
  "ethernets:" +:+ nl +:+
  "  primary:" +:+ nl +:+
  "    match:" +:+ nl +:+
  "      macaddress: " +:+ Quote network.(MAC) +:+ nl +:+
  "    set-name: eth0" +:+ nl +:+
  "    addresses: [" +:+ network.(Address) +:+ "]" +:+ nl +:+
  "    routes:" +:+ nl +:+
  "      - to: 0.0.0.0/0" +:+ nl +:+
  "        via: " +:+ network.(Gateway) +:+ nl +:+
  dns +:+ "    mtu: " +:+ fmt_d mtu +:+ nl.

(** [mac[0] = (mac[0] | 2) & 0xfe] of six random bytes. *)
Definition local_unicast (mac : string) : string :=
  match mac with
  | EmptyString => EmptyString
  | String c rest => String (byte_chr (Z.land (Z.lor (byte_val c) 2) 254)) rest
  end.

Definition randomMAC : prog RunnerE (result go_error string) :=
  let! r := os (RandRead 6) in
  Ret (let? mac := r in Ok (HardwareAddr_String (local_unicast mac))).

(** ** Disks *)

Definition meta_data (guestMAC : string) : string :=
  "instance-id: pod-sandbox-" +:+ remove_char colon guestMAC +:+ nl +:+ "local-hostname: peerpod" +:+ nl.

Definition wrapped (format : string) (err : go_error) : option go_error := Some (Errorf format [ArgErr err]).

(** The NoCloud seed, from the directory to the image. *)
Definition seed_image (opts : options) (seedDir : string) : prog RunnerE (option go_error) :=
  let seedDisk := filepath_Join [opts.(stateDir); "cidata.img"] in
  if negb (String.eqb opts.(kernelPath) "") then
    try! runCommand "mke2fs" ["-q"; "-t"; "ext4"; "-L"; "cidata"; "-d"; seedDir; seedDisk; "4M"]
      else wrapped "create direct-kernel config disk: %w" in
    Ret None
  else
    try! runCommand "genisoimage" ["-quiet"; "-output"; seedDisk; "-volid"; "cidata"; "-joliet"; "-rock"; seedDir]
      else wrapped "create NoCloud seed: %w" in
    Ret None.

Definition seed_files (opts : options) (network : networkState) (guestMAC : string)
    : prog RunnerE (option go_error) :=
  let seedDir := filepath_Join [opts.(stateDir); "cidata"] in
  try! os (MkdirAll seedDir) else Some in
  let! r := os (ReadFile (filepath_Join [opts.(configDir); "userdata"])) in
  match r with
  | Err err => Ret (Some err)
  | Ok userData =>
      try! os (WriteFile (filepath_Join [seedDir; "user-data"]) userData) else Some in
      try! os (WriteFile (filepath_Join [seedDir; "meta-data"]) (meta_data guestMAC)) else Some in
      try! os (WriteFile (filepath_Join [seedDir; "network-config"])
                 (renderNetworkConfig network opts.(networkMTU))) else Some in
      seed_image opts seedDir
  end.

Definition prepareDisks (opts : options) (network : networkState) (guestMAC : string)
    : prog RunnerE (option go_error) :=
  let rootDisk := filepath_Join [opts.(stateDir); "root.qcow2"] in
  let image := filepath_Join [opts.(imageDir); "disk.qcow2"] in
  if String.eqb opts.(kernelPath) "" then
    try! runCommand "qemu-img" ["create"; "-f"; "qcow2"; "-F"; "qcow2"; "-b"; image; rootDisk]
      else wrapped "create root overlay: %w" in
    seed_files opts network guestMAC
  else seed_files opts network guestMAC.

(** ** The network of the Pod *)

Definition network_commands (linkName bridge tap : string) (mtu : Z) : list (list string) :=
  [["ip"; "link"; "add"; bridge; "type"; "bridge"];
   ["ip"; "tuntap"; "add"; "dev"; tap; "mode"; "tap"];
   ["ip"; "link"; "set"; "dev"; bridge; "mtu"; fmt_d mtu];
   ["ip"; "link"; "set"; "dev"; tap; "mtu"; fmt_d mtu];
   ["ip"; "link"; "set"; "dev"; tap; "master"; bridge];
   ["ip"; "address"; "add"; hostAddress; "dev"; bridge];
   ["ip"; "link"; "set"; "dev"; tap; "up"];
   ["ip"; "link"; "set"; "dev"; bridge; "up"];
   ["sysctl"; "-w"; "net.ipv4.ip_forward=1"];
   ["iptables"; "-t"; "nat"; "-A"; "POSTROUTING"; "-s"; managementCIDR; "-o"; linkName; "-j"; "MASQUERADE"];
   ["iptables"; "-t"; "nat"; "-A"; "PREROUTING"; "-i"; linkName; "-p"; "udp";
    "--dport"; vxlanPort; "-j"; "DNAT"; "--to-destination"; JoinHostPort guestIP vxlanPort];
   ["iptables"; "-A"; "FORWARD"; "-i"; linkName; "-o"; bridge; "-p"; "udp";
    "-d"; guestIP; "--dport"; vxlanPort; "-j"; "ACCEPT"];
   ["iptables"; "-A"; "FORWARD"; "-i"; bridge; "-o"; linkName; "-j"; "ACCEPT"];
   ["iptables"; "-A"; "FORWARD"; "-i"; linkName; "-o"; bridge; "-m"; "conntrack";
    "--ctstate"; "ESTABLISHED,RELATED"; "-j"; "ACCEPT"]].

(** The commands in order, up to the first that fails. *)
Fixpoint run_commands (commands : list (list string)) : prog RunnerE (option go_error) :=
  match commands with
  | [] => Ret None
  | args :: commands =>
      try! runCommand (hd "" args) (tl args)
        else (λ err, Some (Errorf "configure PodVM network (%s): %w" [ArgS (Join args " "); ArgErr err])) in
      run_commands commands
  end.

Definition prepareNetwork (linkName bridge tap : string) (mtu : Z) : prog RunnerE (option go_error) :=
  run_commands (network_commands linkName bridge tap mtu).

(** ** The proxies' listeners; their connections are served elsewhere *)

Definition startAgentProxy (port target : string) : prog RunnerE (option go_error) :=
  try! os (Listen (JoinHostPort "" port)) else wrapped "listen for agent proxy: %w" in
  Ret None.

Definition startHTTPProxy (address : string) : prog RunnerE (option go_error) :=
  try! os (Listen address) else wrapped "listen for HTTP proxy: %w" in
  Ret None.

(** ** [run] *)

Definition api_socket (opts : options) : string := filepath_Join [opts.(stateDir); "cloud-hypervisor.sock"].

(** The process runs: a signal shuts the VM down, and kills the process when it
    has not ended after ten seconds. *)
Definition supervise (socket : string) : prog RunnerE (option go_error) :=
  let! event := os SignalOrExit in
  match event with
  | inr err => Ret err
  | inl _ =>
      shutdown socket ;;;
      let! ended := os (ExitOrTimeout 10) in
      match ended with
      | Some err => Ret err
      | None => os KillProcess
      end
  end.

Definition start_hypervisor (opts : options) (guestMAC : string) : prog RunnerE (option go_error) :=
  let socket := api_socket opts in
  os (RemoveFile socket) ;;;
  let cloudHypervisor := filepath_Join [opts.(runtimeAssetsDir); "bin"; "cloud-hypervisor"] in
  let rootDisk := filepath_Join [opts.(stateDir); "root.qcow2"] in
  let seedDisk := filepath_Join [opts.(stateDir); "cidata.img"] in
  try! os (StartProcess cloudHypervisor (cloudHypervisorArgs opts socket rootDisk seedDisk guestMAC))
    else Some in
  supervise socket.

(** A call deferred to the return of [body]. *)
Definition deferred {A} (body : prog RunnerE A) (close : prog RunnerE unit) : prog RunnerE A :=
  let! r := body in
  close ;;; Ret r.

Definition with_proxies (opts : options) (network : networkState) (guestMAC : string)
    : prog RunnerE (option go_error) :=
  try! startAgentProxy forwarderPort (JoinHostPort guestIP forwarderPort) else Some in
  deferred
    (try! startHTTPProxy (JoinHostPort network.(Gateway) proxyPort) else Some in
     deferred (start_hypervisor opts guestMAC) (os CloseProxy))
    (os CloseListener).

Definition run_checked (opts : options) : prog RunnerE (option go_error) :=
  try! os (MkdirAll opts.(stateDir)) else Some in
  let! r := randomMAC in
  match r with
  | Err err => Ret (Some err)
  | Ok guestMAC =>
      let! dns := nameservers in
      let network := mk_networkState guestAddress (before "/" hostAddress) dns guestMAC in
      try! prepareDisks opts network guestMAC else Some in
      try! prepareNetwork primaryLink bridgeName tapName opts.(networkMTU) else Some in
      with_proxies opts network guestMAC
  end.

Definition run_runner (opts : options) : prog RunnerE (option go_error) :=
  if (opts.(cpus) <? 1) || (opts.(memoryMiB) <? 128) then
    Ret (Some (Errorf "invalid capacity: cpus=%d memoryMiB=%d" [ArgD opts.(cpus); ArgD opts.(memoryMiB)]))
  else if String.eqb opts.(imageDir) "" || String.eqb opts.(configDir) "" then
    Ret (Some (ErrorsNew "--image-dir and --config-dir are required"))
  else run_checked opts.

(** [main], by the arguments after the program's name: the exit status. *)
Definition exit_status (e : option go_error) : Z := match e with None => 0 | Some _ => 1 end.

Definition main_runner (args : list string) : prog RunnerE Z :=
  match args with
  | "run" :: rest =>
      match parseRunOptions rest with
      | Err status => Ret status
      | Ok opts => let! e := run_runner opts in Ret (exit_status e)
      end
  | "ready" :: rest =>
      match parseStateDir rest with
      | Err status => Ret status
      | Ok dir =>
          let! e := readyCheck (filepath_Join [dir; "cloud-hypervisor.sock"])
                      (JoinHostPort guestIP forwarderPort) in
          Ret (exit_status e)
      end
  | "stop" :: rest =>
      match parseStateDir rest with
      | Err status => Ret status
      | Ok dir =>
          let! e := shutdown (filepath_Join [dir; "cloud-hypervisor.sock"]) in
          Ret (exit_status e)
      end
  | _ => Ret 1
  end.
