(* ===== verification/RunnerContract.v ===== *)
(** * The contract between the controller and the runner

    The controller starts the runner with the arguments of [desiredRunner] and
    probes it with a second command; the runner parses both. *)

From Stdlib Require Import Ascii.
From S2P Require Import Prelude GoFmt GoStrings Flags GoNet Prog Api Kube Server ServerWorld Controller ControllerSafety Runner.

Local Open Scope Z_scope.

(** The options of the runner of a sandbox. *)
Definition runner_options (sandbox : PodSandbox) (class : PodSandboxClass) : options :=
  mk_options sandbox.(sb_Spec).(ps_VCPUs) sandbox.(sb_Spec).(ps_MemoryMiB) (network_mtu class)
    "/var/lib/podvm/image" "/var/lib/podvm/config" "/run/pod-sandbox" "/opt/podvm-runtime"
    "/usr/share/cloud-hypervisor/CLOUDHV.fd" "/var/lib/podvm/image/vmlinux" ""
    "/var/lib/podvm/image/rootfs.img" "".

(** The integers of both objects are [int64]s (the MTU is an [int32]). *)
Definition machine_sized (sandbox : PodSandbox) (class : PodSandboxClass) : Prop :=
  in_int64 sandbox.(sb_Spec).(ps_VCPUs) ∧ in_int64 sandbox.(sb_Spec).(ps_MemoryMiB)
  ∧ in_int32 class.(cl_Spec).(pc_NetworkMTU) ∧ in_int64 class.(cl_Spec).(pc_MemoryOverheadMiB).

Lemma in_int32_64 z : in_int32 z → in_int64 z.
Proof. unfold in_int32, in_int64, min_int64, max_int64. lia. Qed.

Lemma network_mtu_sized class : in_int32 class.(cl_Spec).(pc_NetworkMTU) → in_int64 (network_mtu class).
Proof.
  intros H%in_int32_64. unfold network_mtu. case_match; [|done].
  unfold in_int64, min_int64, max_int64, defaultNetworkMTU. lia.
Qed.

(** An [IntVar] takes what [%d] printed. *)
Lemma IntVar_fmt_d {O} name (set : Z → O → O) z o :
  in_int64 z → fl_set (IntVar name set) (fmt_d z) o = Some (set z o).
Proof. intros Hz. cbn. by rewrite parse_fmt_d. Qed.

Lemma parse_runner_args sandbox class :
  machine_sized sandbox class →
  parseRunOptions (tl (runner_args sandbox class)) = Ok (runner_options sandbox class).
Proof.
  intros (Hc & Hm & Hn%network_mtu_sized & _). unfold parseRunOptions, runner_args. cbn [tl].
  change ("--cpus=" +:+ ?x) with ("--" +:+ "cpus" +:+ String "=" x).
  change ("--memory-mib=" +:+ ?x) with ("--" +:+ "memory-mib" +:+ String "=" x).
  change ("--network-mtu=" +:+ ?x) with ("--" +:+ "network-mtu" +:+ String "=" x).
  do 3 (erewrite Parse_long; [|reflexivity|reflexivity|by apply IntVar_fmt_d]).
  reflexivity.
Qed.

(** ** The Pod of the runner *)

(** The runner's container, and the ones before it. *)
Definition pod_containers (p : Pod) : list Container :=
  p.(pod_Spec).(pod_InitContainers) ++ p.(pod_Spec).(pod_Containers).

(** Every volume mount of a Pod names one of its volumes, and volume names and
    the mount paths of a container are not repeated: what admission checks. *)
Definition mounts_resolved (p : Pod) : Prop :=
  NoDup (vol_Name <$> p.(pod_Spec).(pod_Volumes))
  ∧ Forall (λ c, NoDup (vm_MountPath <$> c.(ct_VolumeMounts))
                 ∧ Forall (λ m, m.(vm_Name) ∈ (vol_Name <$> p.(pod_Spec).(pod_Volumes))) c.(ct_VolumeMounts))
      (pod_containers p).

Lemma desired_mounts_resolved sandbox class : mounts_resolved (desiredRunner sandbox class).
Proof.
  split; [cbn; by apply (bool_decide_unpack _)|].
  repeat constructor; try (by apply (bool_decide_unpack _)); set_solver.
Qed.

(** The labels and annotations of the Pod: those the controller owns, whatever the
    class says, and the class's. The workload's namespace and UID are owned only when
    the sandbox names them. *)
Definition expected_label (sandbox : PodSandbox) (class : PodSandboxClass) (k : string) : option string :=
  if decide (k = sandboxLabel) then Some sandbox.(sb_meta).(om_Name)
  else if decide (k = "app.kubernetes.io/name") then Some "pod-sandbox-runner"
  else class.(cl_Spec).(pc_Labels) !! k.

Definition expected_annotation (sandbox : PodSandbox) (class : PodSandboxClass) (k : string) : option string :=
  let ref := sandbox.(sb_Spec).(ps_WorkloadRef) in
  if decide (k = "sandbox.caa.mnicloud.jp/class") then Some class.(cl_meta).(om_Name)
  else if decide (k = templateGeneration) then Some (template_generation sandbox class)
  else if decide (k = "sandbox.caa.mnicloud.jp/workload-name") then Some ref.(wr_Name)
  else if decide (k = "sandbox.caa.mnicloud.jp/workload-namespace" ∧ ref.(wr_Namespace) ≠ "") then Some ref.(wr_Namespace)
  else if decide (k = "sandbox.caa.mnicloud.jp/workload-uid" ∧ ref.(wr_UID) ≠ "") then Some ref.(wr_UID)
  else class.(cl_Spec).(pc_Annotations) !! k.

Lemma runner_labels_exact sandbox class k : runner_labels sandbox class !! k = expected_label sandbox class k.
Proof. unfold runner_labels, expected_label. rewrite copyMap_id. repeat case_decide; subst; by simplify_map_eq. Qed.

Lemma runner_annotations_exact sandbox class k :
  runner_annotations sandbox class !! k = expected_annotation sandbox class k.
Proof.
  unfold runner_annotations, expected_annotation. rewrite copyMap_id.
  destruct (String.eqb_spec (sandbox.(sb_Spec).(ps_WorkloadRef).(wr_Namespace)) ""),
    (String.eqb_spec (sandbox.(sb_Spec).(ps_WorkloadRef).(wr_UID)) "");
    repeat case_decide; destruct_and?; subst; rewrite ?lookup_insert; repeat case_decide; try done; naive_solver.
Qed.

(** The overhead that is reserved for the runner: an overhead of zero in the class is
    taken for an unset one. *)
Definition effective_overhead (class : PodSandboxClass) : Z :=
  if class.(cl_Spec).(pc_MemoryOverheadMiB) =? 0 then 256 else class.(cl_Spec).(pc_MemoryOverheadMiB).

(** ** Properties *)

(** C13. The runner accepts what the controller gives it. For a sandbox that
    passed admission, with machine-sized numbers, the runner started with the
    arguments of its Pod parses them back to the sandbox's capacity, the class's
    MTU and the mounted paths, passes its own capacity and path checks, and so
    goes on to boot; and the readiness probe of the Pod checks the very socket
    that runner serves, and the guest's agent. *)
Theorem runner_accepts_controller_args sandbox class container :
  machine_sized sandbox class → spec_valid sandbox.(sb_Spec) = true →
  (desiredRunner sandbox class).(pod_Spec).(pod_Containers) = [container] →
  let opts := runner_options sandbox class in
  main_runner container.(ct_Args) = (let! e := run_checked opts in Ret (exit_status e))
  ∧ (main_runner ∘ tl ∘ pr_Command <$> container.(ct_ReadinessProbe))
    = Some (let! e := readyCheck (api_socket opts) "192.0.2.2:15150" in Ret (exit_status e)).
Proof.
  intros Hsize [Hcpu Hmem]%spec_valid_capacity [= <-] opts. split; [|reflexivity].
  unfold main_runner, runner_container. cbn [ct_Args].
  change (runner_args sandbox class) with ("run" :: tl (runner_args sandbox class)). cbv iota.
  rewrite parse_runner_args by done. unfold run_runner. cbn [cpus memoryMiB runner_options].
  rewrite (proj2 (Z.ltb_ge _ _) Hcpu), (proj2 (Z.ltb_ge _ _) Hmem). reflexivity.
Qed.

(** C31. The runner's Pod is that of its sandbox, whatever the class says. Under every
    key its labels and annotations are the ones the controller owns, with the sandbox's
    name, the class's name, both generations and the workload's name, namespace and UID
    (these two only when the sandbox names them), and the class's under every other
    key; every volume mount resolves to a volume of the Pod; and requests equal limits,
    the sandbox's CPUs and, as long as the sum fits in 64 bits, its memory plus the
    class's overhead, for which a zero counts as 256. *)
Theorem runner_pod_shape sandbox class container :
  in_int64 (sandbox.(sb_Spec).(ps_MemoryMiB) + effective_overhead class) →
  (desiredRunner sandbox class).(pod_Spec).(pod_Containers) = [container] →
  let pod := desiredRunner sandbox class in
  pod_key pod = sandbox_key sandbox
  ∧ (∀ k, pod.(pod_meta).(om_Labels) !! k = expected_label sandbox class k)
  ∧ (∀ k, pod.(pod_meta).(om_Annotations) !! k = expected_annotation sandbox class k)
  ∧ mounts_resolved pod
  ∧ container.(ct_Requests) = container.(ct_Limits)
  ∧ container.(ct_Limits) !! "cpu" = Some (NewQuantity sandbox.(sb_Spec).(ps_VCPUs))
  ∧ container.(ct_Limits) !! "memory"
    = Some (MustParse (fmt_d (sandbox.(sb_Spec).(ps_MemoryMiB) + effective_overhead class) +:+ "Mi")).
Proof.
  intros Hfit [= <-] pod. split_and!.
  - done.
  - apply runner_labels_exact.
  - apply runner_annotations_exact.
  - apply desired_mounts_resolved.
  - done.
  - done.
  - cbn. unfold runner_resources, overhead_mib, effective_overhead in *.
    by rewrite add64_exact by exact Hfit.
Qed.

(** ** Witnesses *)

Lemma runner_accepts_controller_args_witness :
  let opts := runner_options sandbox_fixture class_fixture in
  main_runner (runner_container sandbox_fixture class_fixture).(ct_Args)
  = (let! e := run_checked opts in Ret (exit_status e)).
Proof.
  intros opts.
  assert (Hs : machine_sized sandbox_fixture class_fixture)
    by (repeat split; vm_compute; discriminate).
  assert (Hv : spec_valid sandbox_fixture.(sb_Spec) = true) by (vm_compute; reflexivity).
  exact (proj1 (runner_accepts_controller_args sandbox_fixture class_fixture
                  (runner_container sandbox_fixture class_fixture) Hs Hv eq_refl)).
Defined.

Lemma runner_pod_shape_witness :
  (runner_container sandbox_fixture class_fixture).(ct_Limits) !! "memory" = Some (MustParse "768Mi")
  ∧ (desiredRunner sandbox_fixture class_fixture).(pod_meta).(om_Annotations) !! "sandbox.caa.mnicloud.jp/class" = Some "cluster-a".
Proof.
  assert (Hf : in_int64 (sandbox_fixture.(sb_Spec).(ps_MemoryMiB) + effective_overhead class_fixture))
    by (split; vm_compute; discriminate).
  destruct (runner_pod_shape sandbox_fixture class_fixture
              (runner_container sandbox_fixture class_fixture) Hf eq_refl)
    as (_ & _ & Ha & _ & _ & _ & Hm).
  split; [rewrite Hm; vm_compute; reflexivity|]. rewrite Ha. vm_compute. reflexivity.
Defined.
