(* ===== verification/RunnerSafety.v ===== *)
(** * What the runner does: the order of its deeds, and its inputs and outputs *)

From Stdlib Require Import Ascii.
From S2P Require Import Prelude GoFmt GoStrings Flags GoNet Prog Runner.

Local Open Scope Z_scope.

(** ** Deeds

    The calls of a trace that changed something or brought something in, when
    they succeeded; starting the hypervisor counts in any case. *)
Inductive deed : Type :=
| DidMkdir (path : string)
| DidRand (bytes : string)
| DidRead (path content : string)
| DidWrite (path content : string)
| DidRun (command : list string)
| DidListen (address : string)
| DidStart (name : string) (args : list string).

Definition deed_of (e : event RunnerE) : option deed :=
  match e with
  | Ev (MkdirAll p) None => Some (DidMkdir p)
  | Ev (RandRead _) (Ok b) => Some (DidRand b)
  | Ev (ReadFile p) (Ok c) => Some (DidRead p c)
  | Ev (WriteFile p c) None => Some (DidWrite p c)
  | Ev (ExecRun n a) None => Some (DidRun (n :: a))
  | Ev (Listen a) None => Some (DidListen a)
  | Ev (StartProcess n a) _ => Some (DidStart n a)
  | _ => None
  end.

Definition deeds (t : list (event RunnerE)) : list deed := omap deed_of t.

(** [follows p P]: every execution of [p] does the deeds of one of the plans [P]
    in order, up to a first failure, and all of them if it returns no error. *)
Definition follows (p : prog RunnerE (option go_error)) (P : list deed → Prop) : Prop :=
  ∀ t r, exec p t r → ∃ plan, P plan ∧ deeds t `prefix_of` plan ∧ (r = None → deeds t = plan).

Lemma deeds_app t t' : deeds (t ++ t') = deeds t ++ deeds t'.
Proof. apply omap_app. Qed.

Lemma follows_weaken p (P P' : list deed → Prop) : (∀ l, P l → P' l) → follows p P → follows p P'.
Proof. intros HP Hp t r Hx. destruct (Hp t r Hx) as (plan & HPl & ?). exists plan. auto. Qed.

Lemma follows_none : follows (Ret None) (λ l, l = []).
Proof. intros t r [-> ->]%exec_ret_inv. by exists []. Qed.

(** One deed, the call of which answers an error or [nil]. *)
Lemma follows_one (d : deed) (p : prog RunnerE (option go_error)) :
  (∀ t r, exec p t r → ∃ e, t = [e] ∧ deed_of e = match r with None => Some d | Some _ => None end) →
  follows p (λ l, l = [d]).
Proof.
  intros Hp t r Hx. destruct (Hp t r Hx) as (e & -> & He). exists [d]. split; [done|].
  unfold deeds. cbn. rewrite He. destruct r; [|done]. split; [apply prefix_nil|done].
Qed.

(** [if err := p; err != nil { return f(err) }; k]. *)
Lemma follows_try p k (f : go_error → option go_error) P P' :
  (∀ e, f e ≠ None) → follows p P → follows k P' → (∃ l, P' l) →
  follows (try! p else f in k) (λ l, ∃ l1 l2, l = l1 ++ l2 ∧ P l1 ∧ P' l2).
Proof.
  intros Hf Hp Hk [l' HP'] t r Hx. apply exec_bind in Hx as (t1 & t2 & a & -> & Hx1 & Hx2).
  destruct (Hp _ _ Hx1) as (l1 & Hl1 & Hpre & Hall). rewrite deeds_app. destruct a as [err|].
  - apply exec_ret_inv in Hx2 as [-> ->]. exists (l1 ++ l'). split; [by exists l1, l'|].
    cbn. rewrite app_nil_r. split; [by apply prefix_app_r|]. by intros ?%Hf.
  - destruct (Hk _ _ Hx2) as (l2 & Hl2 & Hpre2 & Hall2). exists (l1 ++ l2).
    split; [by exists l1, l2|]. rewrite (Hall eq_refl). split; [by apply prefix_app|].
    intros ->. by rewrite Hall2.
Qed.

(** The same for plans that are single lists. *)
Lemma follows_seq p k (f : go_error → option go_error) l1 P :
  (∀ e, f e ≠ None) → follows p (λ l, l = l1) → follows k P → (∃ l, P l) →
  follows (try! p else f in k) (λ l, ∃ l2, l = l1 ++ l2 ∧ P l2).
Proof.
  intros. eapply follows_weaken; [|by apply (follows_try p k f (λ l, l = l1) P)].
  intros l (? & l2 & -> & -> & ?). eauto.
Qed.

Ltac one_deed :=
  apply follows_one; let Hx := fresh "Hx" in intros ?t ?r Hx; exec_step Hx; exec_step Hx;
  eexists; split; [reflexivity|]; cbn; by repeat case_match.

Lemma follows_mkdir p : follows (os (MkdirAll p)) (λ l, l = [DidMkdir p]).
Proof. one_deed. Qed.
Lemma follows_write p c : follows (os (WriteFile p c)) (λ l, l = [DidWrite p c]).
Proof. one_deed. Qed.
Lemma follows_listen a : follows (os (Listen a)) (λ l, l = [DidListen a]).
Proof. one_deed. Qed.
Lemma follows_run n a : follows (runCommand n a) (λ l, l = [DidRun (n :: a)]).
Proof. unfold runCommand. one_deed. Qed.

(** Reading a file into the rest. *)
Lemma follows_read path (k : string → prog RunnerE (option go_error)) P :
  (∀ c, follows (k c) (P c)) → (∃ l, P "" l) →
  follows (let! r := os (ReadFile path) in
           match r with Err err => Ret (Some err) | Ok c => k c end)
    (λ l, ∃ c l', l = DidRead path c :: l' ∧ P c l').
Proof.
  intros Hk [l0 Hl0] t r Hx. exec_step Hx. destruct r0 as [c|err].
  - destruct (Hk c _ _ Hx) as (l & Hl & Hpre & Hall). exists (DidRead path c :: l).
    split; [by exists c, l|]. cbn. split; [by apply prefix_cons|]. intros ->. unfold deeds in *.
    by rewrite Hall.
  - exec_step Hx. exists (DidRead path "" :: l0). split; [by exists "", l0|].
    split; [apply prefix_nil|done].
Qed.

(** Some plan exists. *)
Ltac inhabit := by repeat first [exists ""%string | eexists].

(** ** The plan of a boot *)

Definition seedDir (opts : options) : string := filepath_Join [opts.(stateDir); "cidata"].
Definition seedDisk (opts : options) : string := filepath_Join [opts.(stateDir); "cidata.img"].
Definition rootDisk (opts : options) : string := filepath_Join [opts.(stateDir); "root.qcow2"].

(** The command that packs the seed. *)
Definition seed_command (opts : options) : list string :=
  if String.eqb opts.(kernelPath) ""
  then ["genisoimage"; "-quiet"; "-output"; seedDisk opts; "-volid"; "cidata"; "-joliet"; "-rock"; seedDir opts]
  else ["mke2fs"; "-q"; "-t"; "ext4"; "-L"; "cidata"; "-d"; seedDir opts; seedDisk opts; "4M"].

Definition disk_plan (opts : options) (network : networkState) (guestMAC userData : string) : list deed :=
  (if String.eqb opts.(kernelPath) ""
   then [DidRun ["qemu-img"; "create"; "-f"; "qcow2"; "-F"; "qcow2"; "-b";
                 filepath_Join [opts.(imageDir); "disk.qcow2"]; rootDisk opts]]
   else [])
  ++ [DidMkdir (seedDir opts);
      DidRead (filepath_Join [opts.(configDir); "userdata"]) userData;
      DidWrite (filepath_Join [seedDir opts; "user-data"]) userData;
      DidWrite (filepath_Join [seedDir opts; "meta-data"]) (meta_data guestMAC);
      DidWrite (filepath_Join [seedDir opts; "network-config"])
        (renderNetworkConfig network opts.(networkMTU));
      DidRun (seed_command opts)].

Lemma wrapped_error format e : wrapped format e ≠ None.
Proof. done. Qed.

Lemma seed_image_follows opts :
  follows (seed_image opts (seedDir opts)) (λ l, l = [DidRun (seed_command opts)]).
Proof.
  unfold seed_image, seed_command. destruct (String.eqb _ _); cbn [negb];
    (eapply follows_weaken;
      [|eapply follows_seq; [intros e; apply wrapped_error|apply follows_run|apply follows_none|by eexists]]);
    by intros l (? & -> & ->).
Qed.

Lemma seed_files_follows opts network mac :
  follows (seed_files opts network mac)
    (λ l, ∃ userData, l = drop (if String.eqb opts.(kernelPath) "" then 1 else 0)
                            (disk_plan opts network mac userData)).
Proof.
  unfold seed_files. fold (seedDir opts).
  eapply follows_weaken; cycle 1.
  { repeat first
      [ eapply follows_seq; [done|first [apply follows_mkdir|apply follows_write]| |]
      | eapply follows_read; [intros userData|]
      | apply seed_image_follows ]; inhabit. }
  intros l (l1 & -> & c & l2 & -> & l3 & -> & l4 & -> & l5 & -> & ->). exists c.
  unfold disk_plan. by destruct (String.eqb _ _).
Qed.

Lemma prepareDisks_follows opts network mac :
  follows (prepareDisks opts network mac) (λ l, ∃ userData, l = disk_plan opts network mac userData).
Proof.
  unfold prepareDisks. pose proof (seed_files_follows opts network mac) as Hseed.
  destruct (String.eqb opts.(kernelPath) "") eqn:Hk.
  - eapply follows_weaken; cycle 1.
    { eapply follows_seq; [intros e; apply wrapped_error|apply follows_run|exact Hseed|inhabit]. }
    intros l (l' & -> & c & ->). exists c. unfold disk_plan. by rewrite Hk.
  - eapply follows_weaken; [|exact Hseed]. by intros l (c & ->); exists c.
Qed.

Lemma run_commands_follows commands :
  Forall (λ c, c ≠ []) commands → follows (run_commands commands) (λ l, l = DidRun <$> commands).
Proof.
  induction 1 as [|c commands Hc _ IH]; cbn [run_commands]; [apply follows_none|].
  eapply follows_weaken; cycle 1.
  { eapply follows_seq; [done|apply follows_run|exact IH|by eexists]. }
  intros l (l' & -> & ->). by destruct c.
Qed.

(** Programs without deeds. *)
Definition idle {A} (p : prog RunnerE A) : Prop := ∀ t r, exec p t r → deeds t = [].

Lemma idle_ret {A} (a : A) : idle (Ret a).
Proof. by intros t r [-> _]%exec_ret_inv. Qed.

Lemma idle_perform (c : RunnerE) : (∀ r, deed_of (Ev c r) = None) → idle (perform c).
Proof. intros Hc t r Hx. exec_step Hx. exec_step Hx. unfold deeds.
  cbn [omap list_omap]. by rewrite Hc. Qed.

Ltac idle_call :=
  lazymatch goal with |- idle (perform ?c) => exact (idle_perform c (λ _, eq_refl)) end.

Lemma idle_bind {A B} (p : prog RunnerE A) (k : A → prog RunnerE B) :
  idle p → (∀ a, idle (k a)) → idle (bind p k).
Proof.
  intros Hp Hk t r (t1 & t2 & a & -> & H1 & H2)%exec_bind. rewrite deeds_app.
  by rewrite (Hp _ _ H1), (Hk _ _ _ H2).
Qed.

Lemma idle_follows p : idle p → follows p (λ l, l = []).
Proof. intros Hp t r Hx. exists []. by rewrite (Hp _ _ Hx). Qed.

Lemma supervise_idle socket : idle (supervise socket).
Proof.
  unfold supervise, shutdown, apiRequest.
  repeat first [ apply idle_ret | idle_call | apply idle_bind; [|intros ?] | case_match ].
Qed.

(** A deferred call without deeds changes neither the plan nor the result. *)
Lemma follows_deferred body (close : prog RunnerE unit) P :
  follows body P → idle close → follows (deferred body close) P.
Proof.
  intros Hb Hc t r Hx. unfold deferred in Hx.
  apply exec_bind in Hx as (t1 & t2 & a & -> & H1 & H2).
  apply exec_bind in H2 as (t3 & t4 & u & -> & H3 & [-> ->]%exec_ret_inv).
  destruct (Hb _ _ H1) as (plan & HP & Hplan). exists plan. split; [done|].
  rewrite !deeds_app, (Hc _ _ H3), !app_nil_r. exact Hplan.
Qed.

Definition hypervisor (opts : options) : string :=
  filepath_Join [opts.(runtimeAssetsDir); "bin"; "cloud-hypervisor"].

Definition start_deed (opts : options) (guestMAC : string) : deed :=
  DidStart (hypervisor opts)
    (cloudHypervisorArgs opts (api_socket opts) (rootDisk opts) (seedDisk opts) guestMAC).

Lemma start_hypervisor_follows opts mac :
  follows (start_hypervisor opts mac) (λ l, l = [start_deed opts mac]).
Proof.
  intros t r Hx. unfold start_hypervisor in Hx. exec_step Hx. exec_step Hx.
  exists [start_deed opts mac]. split; [done|].
  match goal with |- context [_ :: _ :: ?t'] => assert (deeds t' = []) as Ht' end.
  { destruct r1; [by exec_step Hx|]. by eapply supervise_idle. }
  unfold deeds in *. cbn. rewrite Ht'. done.
Qed.

Definition proxy_plan (opts : options) (network : networkState) (guestMAC : string) : list deed :=
  [DidListen ":15150"; DidListen (JoinHostPort network.(Gateway) "3128"); start_deed opts guestMAC].

Lemma with_proxies_follows opts network mac :
  follows (with_proxies opts network mac) (λ l, l = proxy_plan opts network mac).
Proof.
  unfold with_proxies, startAgentProxy, startHTTPProxy.
  eapply follows_weaken; cycle 1.
  { eapply follows_seq; [done| | |].
    - eapply follows_weaken; cycle 1.
      { eapply follows_seq; [done|apply follows_listen|apply follows_none|inhabit]. }
      by intros l (l' & -> & ->).
    - apply follows_deferred; [|idle_call].
      eapply follows_seq; [done| | |].
      + eapply follows_weaken; cycle 1.
        { eapply follows_seq; [done|apply follows_listen|apply follows_none|inhabit]. }
        by intros l (l' & -> & ->).
      + apply follows_deferred; [apply start_hypervisor_follows|idle_call].
      + inhabit.
    - inhabit. }
  by intros l (l1 & -> & l2 & -> & ->).
Qed.

(** ** The whole plan

    It depends on what is read: the random bytes of the MAC, the resolv.conf (if
    it could be read) and the user data. *)

Definition guest_mac (bytes : string) : string := HardwareAddr_String (local_unicast bytes).

Definition resolv_deed (resolv : option string) : list deed :=
  match resolv with Some c => [DidRead "/etc/resolv.conf" c] | None => [] end.

Definition guest_network (bytes : string) (resolv : option string) : networkState :=
  mk_networkState "192.0.2.2/30" "192.0.2.1" (from_option parse_nameservers [] resolv) (guest_mac bytes).

Definition boot_plan (opts : options) (bytes : string) (resolv : option string) (userData : string)
    : list deed :=
  let network := guest_network bytes resolv in
  [DidMkdir opts.(stateDir); DidRand bytes] ++ resolv_deed resolv
  ++ disk_plan opts network (guest_mac bytes) userData
  ++ (DidRun <$> network_commands "eth0" "podvm-br0" "podvm-tap0" opts.(networkMTU))
  ++ proxy_plan opts network (guest_mac bytes).

Lemma follows_mac (k : string → prog RunnerE (option go_error)) P :
  (∀ mac, follows (k mac) (P mac)) → (∃ l, P (guest_mac "") l) →
  follows (let! r := randomMAC in
           match r with Err err => Ret (Some err) | Ok mac => k mac end)
    (λ l, ∃ bytes l', l = DidRand bytes :: l' ∧ P (guest_mac bytes) l').
Proof.
  intros Hk [l0 Hl0] t r Hx. unfold randomMAC in Hx. exec_step Hx. destruct r0 as [bytes|err].
  - destruct (Hk _ _ _ Hx) as (l & Hl & Hpre & Hall). exists (DidRand bytes :: l).
    split; [by exists bytes, l|]. cbn. split; [by apply prefix_cons|]. intros ->. unfold deeds in *.
    by rewrite Hall.
  - exec_step Hx. exists (DidRand "" :: l0). split; [by exists "", l0|].
    split; [apply prefix_nil|done].
Qed.

Lemma follows_nameservers (k : list string → prog RunnerE (option go_error)) P :
  (∀ dns, follows (k dns) (P dns)) →
  follows (let! dns := nameservers in k dns)
    (λ l, ∃ resolv l', l = resolv_deed resolv ++ l' ∧ P (from_option parse_nameservers [] resolv) l').
Proof.
  intros Hk t r Hx. unfold nameservers in Hx. exec_step Hx. destruct r0 as [c|err];
    destruct (Hk _ _ _ Hx) as (l & Hl & Hpre & Hall).
  - exists (DidRead "/etc/resolv.conf" c :: l). split; [by exists (Some c), l|]. cbn.
    split; [by apply prefix_cons|]. intros ->. unfold deeds in *. by rewrite Hall.
  - exists l. split; [by exists None, l|]. done.
Qed.

Lemma network_commands_nonempty link bridge tap mtu :
  Forall (λ c, c ≠ []) (network_commands link bridge tap mtu).
Proof. by repeat constructor. Qed.

Lemma run_checked_follows opts :
  follows (run_checked opts) (λ l, ∃ bytes resolv userData, l = boot_plan opts bytes resolv userData).
Proof.
  unfold run_checked. eapply follows_weaken; cycle 1.
  { eapply follows_seq; [done|apply follows_mkdir| |].
    - eapply follows_mac; [intros mac; eapply follows_nameservers; intros dns|].
      + eapply follows_try; [done|apply prepareDisks_follows| |].
        * eapply follows_seq; [done|apply run_commands_follows, network_commands_nonempty
                              |apply with_proxies_follows|by eexists].
        * by repeat eexists.
      + exists (resolv_deed None ++ (disk_plan opts (guest_network "" None) (guest_mac "") ""
          ++ ((DidRun <$> network_commands "eth0" "podvm-br0" "podvm-tap0" opts.(networkMTU))
              ++ proxy_plan opts (guest_network "" None) (guest_mac "")))).
        by repeat eexists.
    - exists (DidRand "" :: resolv_deed None ++ (disk_plan opts (guest_network "" None) (guest_mac "") ""
          ++ ((DidRun <$> network_commands "eth0" "podvm-br0" "podvm-tap0" opts.(networkMTU))
              ++ proxy_plan opts (guest_network "" None) (guest_mac "")))).
      by repeat eexists. }
  intros l (l1 & -> & bytes & l2 & -> & resolv & l3 & -> & l4 & l5 & -> & (userData & ->) & l6 & -> & ->).
  exists bytes, resolv, userData. reflexivity.
Qed.

(** ** Lemmas on plans, addresses and traces *)

Lemma prefix_snoc {A} (l init : list A) x : l `prefix_of` init ++ [x] → l `prefix_of` init ∨ l = init ++ [x].
Proof.
  intros [k Hk]. destruct k as [|y k _] using rev_ind.
  - right. by rewrite app_nil_r in Hk.
  - left. rewrite app_assoc in Hk. apply app_inj_tail in Hk as [-> _]. by exists k.
Qed.

Definition is_start (d : deed) : bool := match d with DidStart _ _ => true | _ => false end.

(** The start comes last in a plan, and once. *)
Lemma boot_plan_start opts bytes resolv userData :
  ∃ init, boot_plan opts bytes resolv userData = init ++ [start_deed opts (guest_mac bytes)]
          ∧ Forall (λ d, is_start d = false) init.
Proof.
  exists (take (length (boot_plan opts bytes resolv userData) - 1) (boot_plan opts bytes resolv userData)).
  unfold boot_plan, disk_plan. destruct resolv, (String.eqb _ _); cbn; by repeat constructor.
Qed.

(** Six bytes as [xx:xx:xx:xx:xx:xx]. *)
Definition is_mac_char (c : ascii) : bool := is_hex c || bool_decide (c = colon).

Lemma HardwareAddr_chars b : string_forall is_mac_char (HardwareAddr_String b) = true.
Proof.
  assert (Hx : ∀ s, string_forall is_mac_char (hex_encode s) = true).
  { intros s. eapply string_forall_impl; [|apply hex_encode_chars]. intros c Hc.
    unfold is_mac_char. by rewrite Hc. }
  induction b as [|c [|d b] IH]; [done|apply Hx|].
  change (string_forall is_mac_char (hex_encode (String c "") +:+ String colon
            (HardwareAddr_String (String d b))) = true).
  rewrite string_forall_app, Hx. cbn [string_forall]. by rewrite IH.
Qed.

(** Dropping the colons gives the bytes in hexadecimal. *)
Lemma remove_colons b : remove_char colon (HardwareAddr_String b) = hex_encode b.
Proof.
  assert (Hh : ∀ s, remove_char colon (hex_encode s) = hex_encode s).
  { intros s. apply remove_char_not_in. eapply string_forall_not_contains; [|apply hex_encode_chars]. done. }
  induction b as [|c [|d b] IH]; [done|apply Hh|].
  change (remove_char colon (hex_encode (String c "") +:+ String colon
            (HardwareAddr_String (String d b))) = hex_encode (String c (String d b))).
  rewrite remove_char_app, Hh. cbn [remove_char]. rewrite decide_True by done. by rewrite IH.
Qed.

Lemma HardwareAddr_length b :
  String.length (HardwareAddr_String b) = (3 * String.length b - 1)%nat.
Proof.
  induction b as [|c [|d b] IH]; [done|done|].
  change (String.length (hex_encode (String c "") +:+ String colon (HardwareAddr_String (String d b)))
          = (3 * String.length (String c (String d b)) - 1)%nat).
  rewrite string_length_app. cbn [String.length] in *. rewrite IH, hex_encode_length. cbn. lia.
Qed.

(** The first octet: bit 0 (group address) clear, bit 1 (local) set, the other
    bits as drawn. *)
Lemma local_unicast_bits b i :
  0 ≤ b < 256 → 0 ≤ i → Z.testbit (Z.land (Z.lor b 2) 254) i =
    if i =? 0 then false else if i =? 1 then true else Z.testbit b i.
Proof.
  intros Hb Hi. rewrite Z.land_spec, Z.lor_spec.
  destruct (Z_lt_le_dec i 8).
  - assert (i = 0 ∨ i = 1 ∨ i = 2 ∨ i = 3 ∨ i = 4 ∨ i = 5 ∨ i = 6 ∨ i = 7) as Hc by lia.
    destruct_or! Hc; subst i; cbn -[Z.testbit];
      rewrite ?(Z.bits_0), ?orb_false_r; cbn; by rewrite ?andb_true_r, ?orb_true_r, ?andb_false_r, ?orb_false_r.
  - rewrite (Z.bits_above_log2 254), andb_false_r by (cbn; lia).
    destruct (Z.eqb_spec i 0); [lia|]. destruct (Z.eqb_spec i 1); [lia|].
    symmetry. destruct (decide (b = 0)) as [->|]; [apply Z.bits_0|].
    apply Z.bits_above_log2; [lia|]. apply Z.log2_lt_pow2; [lia|].
    apply Z.lt_le_trans with (2 ^ 8); [lia|]. apply Z.pow_le_mono_r; lia.
Qed.

Lemma local_unicast_bound b : 0 ≤ Z.land (Z.lor b 2) 254 < 256.
Proof.
  change 254 with (Z.land 254 (Z.ones 8)). rewrite Z.land_assoc, Z.land_ones by lia.
  apply Z.mod_pos_bound. lia.
Qed.

Lemma is_mac_char_plain c : is_mac_char c = true → quote_byte c = String c "".
Proof.
  unfold is_mac_char, is_hex, quote_byte. intros H.
  assert (Hb : between 48 57 (byte_val c) = true ∨ between 97 102 (byte_val c) = true ∨ byte_val c = 58).
  { destruct (decide (c = colon)) as [->|Hne]; [auto|]. rewrite (bool_decide_eq_false_2 _ Hne) in H.
    rewrite orb_false_r in H. apply orb_true_iff in H. tauto. }
  rewrite !between_spec in Hb.
  destruct (Z.eqb_spec (byte_val c) 34), (Z.eqb_spec (byte_val c) 92); try lia. cbn.
  by rewrite (proj2 (between_spec 32 126 (byte_val c))) by lia.
Qed.

Lemma quote_mac s : string_forall is_mac_char s = true → Quote s = dquote +:+ s +:+ dquote.
Proof.
  intros H. unfold Quote. do 2 f_equal. induction s as [|c s IH]; [done|]. cbn [string_forall] in H.
  apply andb_true_iff in H as [Hc Hs]. cbn [quote_bytes]. rewrite is_mac_char_plain by done.
  by rewrite IH.
Qed.

Lemma meta_data_inj b b' : meta_data (guest_mac b) = meta_data (guest_mac b') → guest_mac b = guest_mac b'.
Proof.
  unfold meta_data, guest_mac. rewrite !remove_colons. intros E%String.app_inj.
  apply (split_at_sep newline) in E as [E _];
    [|eapply string_forall_not_contains; [|apply hex_encode_chars]; done..].
  f_equal. by apply hex_encode_inj.
Qed.

Lemma nameserver_of_spec line address :
  address ∈ nameserver_of line ↔ Fields line = ["nameserver"; address] ∧ ParseIP_ok address = true.
Proof.
  unfold nameserver_of. destruct (Fields line) as [|key [|a [|]]]; try set_solver.
  destruct (String.eqb_spec key "nameserver") as [->|Hk]; [|set_solver].
  destruct (ParseIP_ok a) eqn:E; cbn.
  - rewrite list_elem_of_singleton. split; [by intros ->|]. by intros [[= ->] _].
  - split; [by intros ?%elem_of_nil|]. intros [[= ->] ?]. congruence.
Qed.

(** Listeners that were opened, and the closing calls. *)
Inductive socket_event : Type := Opened (address : string) | ClosedProxy | ClosedListener.

Definition socket_event_of (e : event RunnerE) : option socket_event :=
  match e with
  | Ev (Listen a) None => Some (Opened a)
  | Ev CloseProxy _ => Some ClosedProxy
  | Ev CloseListener _ => Some ClosedListener
  | _ => None
  end.

Definition socket_events (t : list (event RunnerE)) : list socket_event := omap socket_event_of t.

Lemma socket_events_app t t' : socket_events (t ++ t') = socket_events t ++ socket_events t'.
Proof. apply omap_app. Qed.

Lemma start_hypervisor_sockets opts mac t r :
  exec (start_hypervisor opts mac) t r → socket_events t = [].
Proof.
  intros Hx. unfold start_hypervisor, supervise, shutdown, apiRequest in Hx.
  repeat (exec_step Hx || case_in Hx); done.
Qed.

(** ** Properties *)

(** C12. The runner boots in order. It refuses bad capacity or missing
    directories before it touches anything. Otherwise whatever the operating
    system answers, it carries out one plan, stopping at the first failure: state
    directory, MAC, DNS, overlay (in firmware mode), the seed with the user data
    it read, the network, both listeners, the hypervisor. The hypervisor is
    started only after everything before it succeeded, with the disks and the
    MAC of that plan; a run without error has carried out all of it. *)
Theorem boots_in_order opts t r :
  exec (run_runner opts) t r →
  (1 ≤ opts.(cpus) ∧ 128 ≤ opts.(memoryMiB) ∧ opts.(imageDir) ≠ "" ∧ opts.(configDir) ≠ "" ∨ t = [] ∧ r ≠ None)
  ∧ ∃ bytes resolv userData, let plan := boot_plan opts bytes resolv userData in
      deeds t `prefix_of` plan
      ∧ (r = None → deeds t = plan)
      ∧ (∀ name args, DidStart name args ∈ deeds t → deeds t = plan).
Proof.
  intros Hx. unfold run_runner in Hx.
  assert (Hno : t = [] → r ≠ None → ∃ bytes resolv userData, let plan := boot_plan opts bytes resolv userData in
      deeds t `prefix_of` plan ∧ (r = None → deeds t = plan)
      ∧ (∀ name args, DidStart name args ∈ deeds t → deeds t = plan)).
  { intros -> Hr. exists "", None, "". split; [apply prefix_nil|]. split; [done|]. by intros ? ? ?%elem_of_nil. }
  destruct ((_ <? _) || _) eqn:Hcap; [exec_step Hx; split; [by right|by apply Hno]|].
  destruct (String.eqb _ _ || _) eqn:Hdirs; [exec_step Hx; split; [by right|by apply Hno]|].
  apply orb_false_iff in Hcap as [?%Z.ltb_ge ?%Z.ltb_ge].
  apply orb_false_iff in Hdirs as [?%String.eqb_neq ?%String.eqb_neq].
  split; [left; auto|].
  destruct (run_checked_follows opts t r Hx) as (plan & (bytes & resolv & userData & ->) & Hpre & Hall).
  exists bytes, resolv, userData. split_and!; [done..|]. intros name args Hin.
  destruct (boot_plan_start opts bytes resolv userData) as (init & Hplan & Hinit).
  rewrite Hplan in *. apply prefix_snoc in Hpre as [Hpre|]; [|done].
  exfalso. eapply Forall_forall in Hinit; [|by eapply elem_of_prefix]. done.
Qed.

(** C32. Listeners are closed. Every listener the runner opened is closed when it
    returns, on every path, the HTTP proxy before the agent proxy, and nothing
    is closed that was not opened. *)
Theorem listeners_closed opts network mac t r :
  exec (with_proxies opts network mac) t r →
  let agent := ":15150" in let proxy := JoinHostPort network.(Gateway) "3128" in
  socket_events t = []
  ∨ socket_events t = [Opened agent; ClosedListener]
  ∨ socket_events t = [Opened agent; Opened proxy; ClosedProxy; ClosedListener].
Proof.
  intros Hx agent proxy. unfold with_proxies, startAgentProxy, startHTTPProxy, deferred, wrapped in Hx.
  exec_step Hx. destruct r0 as [err|]; [exec_step Hx; by left|]. right.
  exec_step Hx. destruct r0 as [err|]; [exec_step Hx; exec_step Hx; by left|]. right. cbn [bind] in Hx.
  apply exec_bind in Hx as (t1 & t2 & a & -> & Hx & Hy).
  apply exec_bind in Hx as (t3 & t4 & b & -> & Hx & Hz).
  exec_step Hy. exec_step Hy. exec_step Hz. exec_step Hz. apply start_hypervisor_sockets in Hx.
  unfold socket_events in *. cbn [app omap list_omap socket_event_of]. rewrite !omap_app, Hx. reflexivity.
Qed.

(** C33. Stopping. When the hypervisor exits by itself, the runner returns its
    error. On a signal it first asks the VM to shut down through the API socket,
    then waits; it returns the process's error, or kills the process only after
    ten seconds without an exit. *)
Theorem stops_gracefully socket t r :
  exec (supervise socket) t r →
  t = [@Ev RunnerE SignalOrExit (inr r)]
  ∨ ∃ sig a t', t = @Ev RunnerE SignalOrExit (inl sig)
                    :: @Ev RunnerE (UnixRequest socket "PUT" "http://localhost/api/v1/vm.shutdown") a :: t'
      ∧ (t' = [@Ev RunnerE (ExitOrTimeout 10) (Some r)]
         ∨ t' = [@Ev RunnerE (ExitOrTimeout 10) None; @Ev RunnerE KillProcess r]).
Proof.
  intros Hx. unfold supervise, shutdown, apiRequest in Hx. exec_step Hx.
  destruct r0 as [sig|err]; [|exec_step Hx; by left]. right. exec_step Hx. exists sig, r0.
  eexists. split; [reflexivity|]. destruct r0 as [[code status]|err]; exec_step Hx;
    (destruct r0 as [err'|]; [exec_step Hx; by left|]); right; exec_step Hx; by exec_step Hx.
Qed.

(** The readiness probe is exact: it succeeds exactly when Cloud Hypervisor
    answers [vm.info] with 200 and then the agent's port in the guest accepts a
    connection, and it asks nothing else. *)
Theorem ready_probe_exact socket target t :
  exec (readyCheck socket target) t None
  ↔ ∃ status, t = [@Ev RunnerE (UnixRequest socket "GET" "http://localhost/api/v1/vm.info") (Ok (200, status));
                   @Ev RunnerE (DialTCP target 1) None; @Ev RunnerE CloseConn None].
Proof.
  unfold readyCheck, vmInfo, agentReady, apiRequest. split.
  - intros Hx. exec_step Hx. destruct r as [[code status]|err]; [|by exec_step Hx].
    cbn [bind] in Hx. destruct (Z.eqb_spec code 200) as [->|]; [|by exec_step Hx].
    exec_step Hx. destruct r; [by exec_step Hx|]. exec_step Hx. exec_step Hx. by exists status.
  - intros [status ->]. cbn. eexists. split; [done|]. cbn. eexists. split; [done|]. cbn. by eexists.
Qed.

(** The guest's identity. The MAC of six random bytes is a well-formed
    address, local and not a group address, in which the remaining bits are the
    random ones; it is quoted verbatim in the network configuration; and two
    guests with different MACs get different instance IDs. *)
Theorem guest_identity c rest b :
  String.length rest = 5%nat →
  let mac := guest_mac (String c rest) in
  String.length mac = 17%nat ∧ string_forall is_mac_char mac = true
  ∧ (∃ o, local_unicast (String c rest) = String o rest
       ∧ Z.testbit (byte_val o) 0 = false ∧ Z.testbit (byte_val o) 1 = true
       ∧ ∀ i, 2 ≤ i → Z.testbit (byte_val o) i = Z.testbit (byte_val c) i)
  ∧ Quote mac = dquote +:+ mac +:+ dquote
  ∧ (meta_data mac = meta_data (guest_mac b) → mac = guest_mac b).
Proof.
  intros Hlen mac. pose proof (HardwareAddr_chars (local_unicast (String c rest))) as Hchars.
  split_and!; [|done| |by apply quote_mac|apply meta_data_inj].
  - unfold mac, guest_mac. rewrite HardwareAddr_length. cbn. by rewrite Hlen.
  - eexists. split; [reflexivity|]. pose proof (byte_val_bound c) as Hc.
    assert (Hb : 0 ≤ Z.land (Z.lor (byte_val c) 2) 254 < 256) by (apply local_unicast_bound).
    rewrite byte_val_chr by done.
    split_and!; [by rewrite local_unicast_bits..|]. intros i Hi. rewrite local_unicast_bits by lia.
    destruct (Z.eqb_spec i 0), (Z.eqb_spec i 1); by try lia.
Qed.

(** Name servers. Those of the guest are exactly the valid addresses of the
    well-formed [nameserver] lines of the Pod's resolv.conf, and none holds a
    byte that could end its entry of the rendered YAML list. *)
Theorem nameservers_exact content address :
  (address ∈ parse_nameservers content
   ↔ ∃ line, line ∈ Split content newline ∧ Fields line = ["nameserver"; address]
             ∧ ParseIP_ok address = true)
  ∧ (address ∈ parse_nameservers content →
     Forall (λ c, contains_char c address = false) [newline; ","%char; "]"%char; "["%char; " "%char; "#"%char]).
Proof.
  assert (Hiff : address ∈ parse_nameservers content ↔ ∃ line, line ∈ Split content newline
    ∧ Fields line = ["nameserver"; address] ∧ ParseIP_ok address = true).
  { unfold parse_nameservers. rewrite list_elem_of_In, in_concat. setoid_rewrite in_map_iff.
    split.
    - intros (l & (line & <- & Hl) & Hin). exists line. split; [by apply list_elem_of_In|].
      by apply nameserver_of_spec, list_elem_of_In.
    - intros (line & Hl%list_elem_of_In & Hf). exists (nameserver_of line).
      split; [eauto|]. by apply list_elem_of_In, nameserver_of_spec. }
  split; [done|]. intros (line & _ & _ & Hip)%Hiff. apply ParseIP_chars in Hip.
  repeat constructor; (eapply string_forall_not_contains; [|exact Hip]; done).
Qed.

(** ** Witnesses *)

(** An operating system in which [refused] fails and all else succeeds, and whose
    first event is [stop]. *)
Definition handle_os (refused : list string) (stop : string + option go_error)
    (s : unit) (c : RunnerE) : unit * answer c :=
  (s, match c return runner_answer c with
      | ReadFile p => if String.eqb p "/etc/resolv.conf" then Ok ("nameserver 10.96.0.10" +:+ nl) else Ok "#cloud-config"
      | RandRead n => Ok "abcdef"
      | ExecRun n a => if bool_decide (n ∈ refused) then Some (ErrorsNew "exit status 1", "denied") else None
      | CloseListener | CloseProxy | RemoveFile _ => tt
      | SignalOrExit => stop
      | ExitOrTimeout _ => None
      | UnixRequest _ _ _ => Ok (200, "200 OK")
      | MkdirAll _ | WriteFile _ _ | Listen _ | StartProcess _ _ | KillProcess | DialTCP _ _ | CloseConn => None
      end).

Definition options_fixture : options :=
  mk_options 2 512 1400 "/image" "/config" "/state" "/opt/podvm-runtime" "fw" "/image/vmlinux" "" "/image/rootfs" "".

(** The network cannot be set up: the hypervisor is not started. *)
Lemma boots_in_order_witness :
  let t := run_trace (handle_os ["iptables"] (inr None)) tt (run_runner options_fixture) in
  length (deeds t) = 18%nat
  ∧ ∃ bytes resolv userData, deeds t `prefix_of` boot_plan options_fixture bytes resolv userData.
Proof.
  intros t. split; [vm_compute; reflexivity|].
  pose proof (run_exec (handle_os ["iptables"] (inr None)) tt (run_runner options_fixture)) as Hx.
  destruct (boots_in_order options_fixture t _ Hx) as (_ & bytes & resolv & userData & Hpre & _).
  exists bytes, resolv, userData. exact Hpre.
Defined.

Definition network_fixture : networkState := guest_network "abcdef" None.

Lemma listeners_closed_witness :
  let t := run_trace (handle_os [] (inr None)) tt (with_proxies options_fixture network_fixture "m") in
  length (socket_events t) = 4%nat
  ∧ (socket_events t = []
     ∨ socket_events t = [Opened ":15150"; ClosedListener]
     ∨ socket_events t = [Opened ":15150"; Opened (JoinHostPort "192.0.2.1" "3128"); ClosedProxy; ClosedListener]).
Proof.
  intros t. split; [vm_compute; reflexivity|].
  pose proof (run_exec (handle_os [] (inr None)) tt (with_proxies options_fixture network_fixture "m")) as Hx.
  exact (listeners_closed options_fixture network_fixture "m" t _ Hx).
Defined.

Lemma stops_gracefully_witness :
  let t := run_trace (handle_os [] (inl "terminated")) tt (supervise "/state/cloud-hypervisor.sock") in
  length t = 4%nat
  ∧ ∃ sig a t', t = @Ev RunnerE SignalOrExit (inl sig)
      :: @Ev RunnerE (UnixRequest "/state/cloud-hypervisor.sock" "PUT" "http://localhost/api/v1/vm.shutdown") a :: t'.
Proof.
  intros t. assert (Hl : length t = 4%nat) by (vm_compute; reflexivity). split; [exact Hl|].
  pose proof (run_exec (handle_os [] (inl "terminated")) tt (supervise "/state/cloud-hypervisor.sock")) as Hx.
  destruct (stops_gracefully "/state/cloud-hypervisor.sock" t _ Hx) as [E|(sig & a & t' & E & _)].
  - rewrite E in Hl. discriminate Hl.
  - exists sig, a, t'. exact E.
Defined.

Lemma guest_identity_witness :
  guest_mac "abcdef" = "62:62:63:64:65:66"
  ∧ (meta_data (guest_mac "abcdef") = meta_data (guest_mac "abcdeg") → guest_mac "abcdef" = guest_mac "abcdeg").
Proof.
  split; [vm_compute; reflexivity|].
  apply (guest_identity "a"%char "bcdef" "abcdeg"). reflexivity.
Defined.
