(* ===== verification/Node.v ===== *)
(** * The peer-pod node: cmd/peer-pod-node/main.go

    The supervisor of containerd, kubelet and Cloud API Adaptor on a workload
    node. Environment, files, processes, mounts and timers are calls of a
    [prog]. A loop that only a timer ends takes the number of its iterations as
    fuel, and returns [None] when it is used up. *)

From Stdlib Require Import Ascii.
From S2P Require Import Prelude GoFmt GoStrings GoNet Sha256 Prog.

Local Open Scope Z_scope.

Definition defaultNodeStateDir : string := "/var/lib/peer-pod-node".
Definition defaultContainerdSock : string := "/run/containerd/containerd.sock".
Definition hypervisorSock : string := "/run/peerpod/hypervisor.sock".

(** ** Processes *)

(** [process]: [p_id] stands for the [*exec.Cmd]; a process that was started has
    a [Process] and a [done] channel. *)
Record process : Type := mk_process { p_name : string; p_id : nat; p_started : bool }.

Definition command (name : string) (id : nat) : process := mk_process name id false.
Definition started (p : process) : process := mk_process p.(p_name) p.(p_id) true.

(** ** Calls *)

(** How a [select] with a context, a timer and a ticker ends. *)
Inductive timer_event : Type := CtxDone | DeadlinePassed | Ticked.

(** [ctx.Err()] of a context ended by a signal. *)
Definition context_canceled : go_error := ContextErr "context canceled".

Inductive entry : Type := Entry (name : string) (is_dir : bool).

Inductive node_call : Type :=
| Getenv (name : string)
| Hostname
| Stat (path : string)
| MakeDir (path : string)
| RemovePath (path : string)
| Symlink (target link : string)
| WritePath (path content : string)
| ReadAll (path : string)
| StartCmd (id : nat) (executable : string) (args environment : list string)
| PollDone (id : nat)
| AwaitDone (id : nat)
| DoneOrDeadline (id : nat)
| SelectTimers
| Sigterm (id : nat)
| HasExited (id : nat)
| Kill (id : nat)
| ReadDir (path : string)
| Unmount (path : string) (flags : Z)
| ServeHealth (address : string)
| ShutdownHealth
| ExitOrCtx (processes : list process).

(** [Stat] tells whether the path is a socket; [PollDone] is [None] while the
    process runs, then its exit; [ExitOrCtx] is the process that exited, or
    [None] when the context is done. *)
Definition node_answer (c : node_call) : Type :=
  match c with
  | Getenv _ => string
  | Hostname | ReadAll _ => result go_error string
  | Stat _ => result go_error bool
  | MakeDir _ | RemovePath _ | Symlink _ _ | WritePath _ _ | StartCmd _ _ _ _ | Unmount _ _ => option go_error
  | PollDone _ => option (option go_error)
  | DoneOrDeadline _ | HasExited _ => bool
  | SelectTimers => timer_event
  | AwaitDone _ | Sigterm _ | Kill _ | ServeHealth _ | ShutdownHealth => unit
  | ReadDir _ => result go_error (list entry)
  | ExitOrCtx _ => option (string * option go_error)
  end.

Definition NodeE : effects := Effects node_call node_answer.
Notation sys c := (@perform NodeE c).

(** [err] or [nil] as the [err] field of a [processExitError]. *)
Definition of_nil (err : option go_error) : go_error := default NilError err.

(** ** Environment *)

Definition env (name fallback : string) : prog NodeE string :=
  let! value := sys (Getenv name) in
  let value := TrimSpace value in
  Ret (if String.eqb value "" then fallback else value).

Definition hostname : prog NodeE string :=
  let! r := sys Hostname in
  Ret (match r with
       | Ok value => if String.eqb value "" then "peer-pod-node" else value
       | Err _ => "peer-pod-node"
       end).

(** ** Files *)

Definition EINVAL : Z := 22.
Definition ENOENT : Z := 2.

(** [syscall.MNT_DETACH]: the mount point goes at once, the mount when it is no longer
    used. *)
Definition MNT_DETACH : Z := 2.

(** [errors.Is(err, os.ErrNotExist)], which ENOENT also is. *)
Definition is_not_exist (e : go_error) : bool :=
  match e with ErrNotExist _ => true | Errno n => n =? ENOENT | _ => false end.

Definition ensureUnixSyslogSocket : prog NodeE (option go_error) :=
  let link := "/dev/log" in
  let target := "/run/systemd/journal/dev-log" in
  let! info := sys (Stat target) in
  match info with
  | Err err => Ret (Some (Errorf "syslog socket: %w" [ArgErr err]))
  | Ok false => Ret (Some (Errorf "syslog socket: %s is not a Unix socket" [ArgS target]))
  | Ok true =>
      let relink :=
        let! r := sys (Symlink target link) in
        match r with
        | Some err => Ret (Some (Errorf "create syslog socket link: %w" [ArgErr err]))
        | None => Ret None
        end in
      let! r := sys (RemovePath link) in
      match r with
      | Some err =>
          if negb (is_not_exist err)
          then Ret (Some (Errorf "remove stale syslog socket: %w" [ArgErr err]))
          else relink
      | None => relink
      end
  end.

(** [os.Open] and [io.Copy] into the hash: the file's content. *)
Definition fileSHA256 (path : string) : prog NodeE (result go_error string) :=
  let! r := sys (ReadAll path) in
  Ret (let? content := r in Ok (hex_encode (Sum256 content))).

Definition nl : string := String (byte_chr 10) "".

Definition kubelet_yaml (clientCA domain dns : string) : string :=
  "apiVersion: kubelet.config.k8s.io/v1beta1" +:+ nl +:+
  "kind: KubeletConfiguration" +:+ nl +:+
  "authentication:" +:+ nl +:+
  "  anonymous:" +:+ nl +:+
  "    enabled: false" +:+ nl +:+
  "  webhook:" +:+ nl +:+
  "    enabled: true" +:+ nl +:+
  "  x509:" +:+ nl +:+
  "    clientCAFile: " +:+ clientCA +:+ nl +:+
  "authorization:" +:+ nl +:+
  "  mode: Webhook" +:+ nl +:+
  "cgroupDriver: cgroupfs" +:+ nl +:+
  "clusterDomain: " +:+ domain +:+ nl +:+
  "clusterDNS:" +:+ nl +:+
  "  - " +:+ dns +:+ nl +:+
  "failSwapOn: false" +:+ nl +:+
  "registerNode: true" +:+ nl +:+
  "rotateCertificates: true" +:+ nl +:+
  "serverTLSBootstrap: true" +:+ nl +:+
  "staticPodPath: /etc/peer-pod-node/manifests" +:+ nl.

Definition generated_config (stateDir : string) : prog NodeE (result go_error string) :=
  let! value := sys (Getenv "PEER_POD_NODE_CLUSTER_DNS") in
  let dns := TrimSpace value in
  if negb (ParseIP_ok dns)
  then Ret (Err (ErrorsNew "PEER_POD_NODE_CLUSTER_DNS must contain a valid cluster DNS IP address"))
  else
    let! domain := env "PEER_POD_NODE_CLUSTER_DOMAIN" "cluster.local" in
    let! clientCA := env "PEER_POD_NODE_CLIENT_CA_FILE" "/etc/peer-pod-node/cluster-ca.crt" in
    let! r := sys (Stat clientCA) in
    match r with
    | Err err => Ret (Err (Errorf "kubelet client CA: %w" [ArgErr err]))
    | Ok _ =>
        let path := filepath_Join [stateDir; "kubelet.yaml"] in
        let! w := sys (WritePath path (kubelet_yaml clientCA domain dns)) in
        match w with
        | Some err => Ret (Err err)
        | None => Ret (Ok path)
        end
    end.

Definition prepareKubeletConfig (stateDir : string) : prog NodeE (result go_error string) :=
  let! value := sys (Getenv "PEER_POD_NODE_KUBELET_CONFIG") in
  let configured := TrimSpace value in
  if negb (String.eqb configured "") then
    let! r := sys (Stat configured) in
    match r with
    | Err err => Ret (Err (Errorf "kubelet config: %w" [ArgErr err]))
    | Ok _ => Ret (Ok configured)
    end
  else generated_config stateDir.

(** ** Starting, waiting, stopping *)

Definition start (p : process) (executable : string) (args environment : list string)
    : prog NodeE (option go_error) :=
  let! r := sys (StartCmd p.(p_id) executable args environment) in
  match r with
  | Some err => Ret (Some (Errorf "start %s: %w" [ArgS p.(p_name); ArgErr err]))
  | None => Ret None
  end.

(** The inner loop of [waitForPath]: the first of the processes that has exited. *)
Fixpoint first_exited (processes : list process) : prog NodeE (option go_error) :=
  match processes with
  | [] => Ret None
  | managed :: rest =>
      let! done := sys (PollDone managed.(p_id)) in
      match done with
      | Some err => Ret (Some (ProcessExit managed.(p_name) (of_nil err)))
      | None => first_exited rest
      end
  end.

Fixpoint waitForPath (fuel : nat) (path : string) (processes : list process)
    : prog NodeE (option (option go_error)) :=
  match fuel with
  | O => Ret None
  | S fuel =>
      let! r := sys (Stat path) in
      match r with
      | Ok _ => Ret (Some None)
      | Err _ =>
          let! exited := first_exited processes in
          match exited with
          | Some err => Ret (Some (Some err))
          | None =>
              let! event := sys SelectTimers in
              match event with
              | CtxDone => Ret (Some (Some context_canceled))
              | DeadlinePassed => Ret (Some (Some (Errorf "timed out waiting for %s" [ArgS path])))
              | Ticked => waitForPath fuel path processes
              end
          end
      end
  end.

(** [errors.As(err, &exited)] and then [exited.name]. *)
Definition exited_name (err : go_error) : option string :=
  match err with ProcessExit name _ => Some name | _ => None end.

Definition caa_environment (environ : list string) (nodeName pluginPath pluginHash : string) : list string :=
  environ ++ ["ENABLE_CLOUD_PROVIDER_EXTERNAL_PLUGIN=true";
              "CLOUD_PROVIDER_EXTERNAL_PLUGIN_PATH=" +:+ pluginPath;
              "CLOUD_PROVIDER_EXTERNAL_PLUGIN_HASH=" +:+ pluginHash;
              "CRI_RUNTIME_ENDPOINT=" +:+ defaultContainerdSock;
              "NODE_NAME=" +:+ nodeName].

(** An attempt that did not come up is stopped, unless it exited by itself. *)
Definition stop_attempt (caa : process) (err : go_error) : prog NodeE unit :=
  if bool_decide (exited_name err = Some caa.(p_name)) then Ret tt
  else sys (Sigterm caa.(p_id)) ;;; sys (AwaitDone caa.(p_id)).

(** [startCAA]; [attempts] bounds the attempts, [fuel] the ticks of each wait,
    [id] names the next process. *)
Fixpoint startCAA (attempts fuel id : nat) (environ : list string)
    (nodeName pluginPath pluginHash : string) (kubelet : process)
    : prog NodeE (option (result go_error process)) :=
  match attempts with
  | O => Ret None
  | S attempts =>
      let caa := command "cloud-api-adaptor" id in
      let! r := start caa "/usr/local/bin/cloud-api-adaptor" ["kubernetes"]
                  (caa_environment environ nodeName pluginPath pluginHash) in
      match r with
      | Some err => Ret (Some (Err err))
      | None =>
          let caa := started caa in
          let! w := waitForPath fuel hypervisorSock [caa; kubelet] in
          match w with
          | None => Ret None
          | Some None => Ret (Some (Ok caa))
          | Some (Some err) =>
              if bool_decide (exited_name err = Some kubelet.(p_name)) then Ret (Some (Err err))
              else
                stop_attempt caa err ;;;
                let! event := sys SelectTimers in
                match event with
                | CtxDone => Ret (Some (Err context_canceled))
                | DeadlinePassed =>
                    Ret (Some (Err (ErrorsNew "timed out starting cloud-api-adaptor after PeerPodNode registration")))
                | Ticked => startCAA attempts fuel (S id) environ nodeName pluginPath pluginHash kubelet
                end
          end
      end
  end.

(** [terminate]: every process is asked to end, last started first; then they are
    awaited in that order, and killed if the deadline passes. *)
Fixpoint signal_all (processes : list process) : prog NodeE unit :=
  match processes with
  | [] => Ret tt
  | managed :: rest =>
      if managed.(p_started) then sys (Sigterm managed.(p_id)) ;;; signal_all rest
      else signal_all rest
  end.

Fixpoint kill_all (processes : list process) : prog NodeE unit :=
  match processes with
  | [] => Ret tt
  | managed :: rest =>
      if managed.(p_started) then
        let! exited := sys (HasExited managed.(p_id)) in
        if exited then kill_all rest
        else sys (Kill managed.(p_id)) ;;; kill_all rest
      else kill_all rest
  end.

Fixpoint await_all (all processes : list process) : prog NodeE unit :=
  match processes with
  | [] => Ret tt
  | managed :: rest =>
      if managed.(p_started) then
        let! done := sys (DoneOrDeadline managed.(p_id)) in
        if done then await_all all rest else kill_all all
      else await_all all rest
  end.

Definition terminate (processes : list process) : prog NodeE unit :=
  signal_all (reverse processes) ;;; await_all processes (reverse processes).

(** ** Network namespaces *)

(** An error of [Unmount] after which the entry is still removed. *)
Definition not_mounted (err : go_error) : bool :=
  match err with Errno n => (n =? EINVAL) || (n =? ENOENT) | _ => false end.

Fixpoint clean_entries (directory : string) (entries : list entry) : prog NodeE (list go_error) :=
  match entries with
  | [] => Ret []
  | Entry name true :: rest => clean_entries directory rest
  | Entry name false :: rest =>
      let path := filepath_Join [directory; name] in
      let remove :=
        let! r := sys (RemovePath path) in
        let! errors := clean_entries directory rest in
        Ret (match r with
             | Some err => if is_not_exist err then errors
                           else Errorf "remove %s: %w" [ArgS path; ArgErr err] :: errors
             | None => errors
             end) in
      let! u := sys (Unmount path MNT_DETACH) in
      match u with
      | Some err =>
          if not_mounted err then remove
          else
            let! errors := clean_entries directory rest in
            Ret (Errorf "unmount %s: %w" [ArgS path; ArgErr err] :: errors)
      | None => remove
      end
  end.

(** [errors.Join(cleanupErrors...)] is the list; the empty list is [nil]. *)
Definition cleanupNetworkNamespaces (directory : string) : prog NodeE (list go_error) :=
  let! entries := sys (ReadDir directory) in
  match entries with
  | Err err => Ret (if is_not_exist err then [] else [err])
  | Ok entries => clean_entries directory entries
  end.

(** ** Health *)

Definition readyz (containerdSocket : string) : prog NodeE Z :=
  let! a := sys (Stat containerdSocket) in
  match a with
  | Err _ => Ret 503
  | Ok _ =>
      let! b := sys (Stat hypervisorSock) in
      Ret (match b with Err _ => 503 | Ok _ => 200 end)
  end.

(** The handler by the path of a request, whatever its method. *)
Definition healthHandler (containerdSocket path : string) : prog NodeE Z :=
  if String.eqb path "/healthz" then Ret 200
  else if String.eqb path "/readyz" then readyz containerdSocket
  else Ret 404.

(** ** [run] *)

(** The deferred function that ends a run: it sees the processes as of then. *)
Definition clean_up (processes : list process) : prog NodeE unit :=
  terminate processes ;;;
  let! _ := cleanupNetworkNamespaces "/run/netns" in
  Ret tt.

Definition after {A} (r : A) (deferred : prog NodeE unit) : prog NodeE A := deferred ;;; Ret r.

Definition kubelet_args (bootstrap stateDir kubeletConfig nodeName labels taints : string) : list string :=
  ["--bootstrap-kubeconfig=" +:+ bootstrap;
   "--kubeconfig=" +:+ filepath_Join [stateDir; "kubeconfig"];
   "--cert-dir=" +:+ filepath_Join [stateDir; "pki"];
   "--config=" +:+ kubeletConfig;
   "--container-runtime-endpoint=unix://" +:+ defaultContainerdSock;
   "--hostname-override=" +:+ nodeName;
   "--node-labels=kata.peerpods.io/node=true," +:+ labels;
   "--register-with-taints=" +:+ taints;
   "--root-dir=" +:+ filepath_Join [stateDir; "kubelet"]].

Definition containerd : process := command "containerd" 0.
Definition kubelet : process := command "kubelet" 1.

Section run.
Context (environ : list string) (attempts fuel : nat).

(** Lines 119 to 152: everything runs. *)
Definition run_healthy (caa : process) : prog NodeE (option (option go_error)) :=
  let processes := [started containerd; started kubelet; caa] in
  let! address := env "PEER_POD_NODE_HEALTH_ADDRESS" ":8081" in
  sys (ServeHealth address) ;;;
  let! ended := sys (ExitOrCtx processes) in
  let r :=
    match ended with
    | None => None
    | Some (name, Some err) => Some (ProcessExit name err)
    | Some (name, None) => Some (ProcessExit name (ErrorsNew "process exited without an error"))
    end in
  sys ShutdownHealth ;;; after (Some r) (clean_up processes).

(** Lines 110 to 119: Cloud API Adaptor, with containerd and kubelet running. *)
Definition run_caa (nodeName : string) : prog NodeE (option (option go_error)) :=
  let running := [started containerd; started kubelet] in
  let pluginPath := "/cloud-providers/kubernetes.so" in
  let! h := fileSHA256 pluginPath in
  match h with
  | Err err => after (Some (Some (Errorf "hash CAA provider plugin: %w" [ArgErr err]))) (clean_up running)
  | Ok pluginHash =>
      let! r := startCAA attempts fuel 2 environ nodeName pluginPath pluginHash (started kubelet) in
      match r with
      | None => Ret None
      | Some (Err err) => after (Some (Some err)) (clean_up running)
      | Some (Ok caa) => run_healthy caa
      end
  end.

(** Lines 78 to 108: containerd, and then kubelet. *)
Definition run_processes (bootstrap nodeName stateDir kubeletConfig : string)
    : prog NodeE (option (option go_error)) :=
  let! r := start containerd "/usr/local/bin/containerd" ["--config"; "/etc/containerd/config.toml"] environ in
  match r with
  | Some err => Ret (Some (Some err))
  | None =>
      let! w := waitForPath fuel defaultContainerdSock [started containerd] in
      match w with
      | None => Ret None
      | Some (Some err) => after (Some (Some err)) (clean_up [started containerd])
      | Some None =>
          let! labels := env "PEER_POD_NODE_LABELS" "node.kubernetes.io/worker=" in
          let! taints := env "PEER_POD_NODE_TAINTS" "kata.peerpods.io/node=true:NoSchedule" in
          let! r := start kubelet "/usr/local/bin/kubelet"
                      (kubelet_args bootstrap stateDir kubeletConfig nodeName labels taints) environ in
          match r with
          | Some err => after (Some (Some err)) (clean_up [started containerd; kubelet])
          | None => run_caa nodeName
          end
      end
  end.

Fixpoint make_dirs (directories : list string) : prog NodeE (option go_error) :=
  match directories with
  | [] => Ret None
  | d :: rest =>
      let! r := sys (MakeDir d) in
      match r with Some err => Ret (Some err) | None => make_dirs rest end
  end.

Definition run_prepared (bootstrap nodeName stateDir : string) : prog NodeE (option (option go_error)) :=
  let! r := ensureUnixSyslogSocket in
  match r with
  | Some err => Ret (Some (Some err))
  | None =>
      let! c := prepareKubeletConfig stateDir in
      match c with
      | Err err => Ret (Some (Some err))
      | Ok kubeletConfig => run_processes bootstrap nodeName stateDir kubeletConfig
      end
  end.

Definition run_node : prog NodeE (option (option go_error)) :=
  let! bootstrap := env "PEER_POD_NODE_BOOTSTRAP_KUBECONFIG" "/etc/peer-pod-node/bootstrap-kubeconfig" in
  let! r := sys (Stat bootstrap) in
  match r with
  | Err err => Ret (Some (Some (Errorf "bootstrap kubeconfig: %w" [ArgErr err])))
  | Ok _ =>
      let! fallback := hostname in
      let! nodeName := env "PEER_POD_NODE_NAME" fallback in
      let! stateDir := env "PEER_POD_NODE_STATE_DIR" defaultNodeStateDir in
      let! d := make_dirs [stateDir; "/run/containerd"; "/run/peerpod"; "/run/netns";
                           "/var/lib/containerd"; "/var/lib/kubelet"] in
      match d with
      | Some err => Ret (Some (Some err))
      | None => run_prepared bootstrap nodeName stateDir
      end
  end.

(** The status the process exits with. *)
Definition main_node : prog NodeE (option Z) :=
  let! r := run_node in
  Ret (match r with None => None | Some None => Some 0 | Some (Some _) => Some 1 end).
End run.
