(* ===== verification/NodeSafety.v ===== *)
(** * What the peer-pod node does with its processes

    A ghost state follows the processes that were started and not seen to end.
    The properties hold in every execution, whatever the processes, the timers
    and the files do. *)

From Stdlib Require Import Ascii.
From S2P Require Import Prelude GoFmt GoStrings GoNet Sha256 Prog Node.

Local Open Scope Z_scope.

(** ** The ghost state *)

Record lives : Type := mk_lives { live : gset nat; termed : gset nat }.

Definition nobody : lives := mk_lives ∅ ∅.

Definition ended (id : nat) (g : lives) : lives := mk_lives (g.(live) ∖ {[id]}) g.(termed).

Definition follow (g : lives) (e : event NodeE) : lives :=
  match e with
  | Ev (StartCmd id _ _ _) None => mk_lives ({[id]} ∪ g.(live)) g.(termed)
  | Ev (PollDone id) (Some _) => ended id g
  | Ev (AwaitDone id) _ => ended id g
  | Ev (DoneOrDeadline id) true => ended id g
  | Ev (HasExited id) true => ended id g
  | Ev (Kill id) _ => ended id g
  | Ev (Sigterm id) _ => mk_lives g.(live) ({[id]} ∪ g.(termed))
  | _ => g
  end.

(** containerd is process 0, kubelet process 1, the attempts of CAA the others.
    An attempt is started only when no other one lives; a process is killed only
    after it was asked to end. *)
Definition allowed_call (g : lives) (c : NodeE) : Prop :=
  match c with
  | StartCmd id _ _ _ => id ∉ g.(live) ∧ ((2 ≤ id)%nat → g.(live) ⊆ {[0%nat; 1%nat]})
  | Kill id => id ∈ g.(termed)
  | _ => True
  end.

Notation node := (tracked allowed_call follow).

(** Programs that neither start nor end a process. *)
Definition quiet {A} (p : prog NodeE A) : Prop :=
  ∀ g (Q : lives → A → Prop), (∀ a, Q g a) → wp node p Q g.

Lemma quiet_ret {A} (a : A) : quiet (Ret a).
Proof. intros g Q HQ. apply HQ. Qed.

Lemma quiet_bind {A B} (p : prog NodeE A) (k : A → prog NodeE B) :
  quiet p → (∀ a, quiet (k a)) → quiet (bind p k).
Proof. intros Hp Hk g Q HQ. apply wp_bind, Hp. intros a. by apply Hk. Qed.

Lemma quiet_perform (c : NodeE) :
  (∀ g, allowed_call g c) → (∀ g r, follow g (Ev c r) = g) → quiet (perform c).
Proof. intros Hc Hf g Q HQ. split; [apply Hc|]. intros r g' ->. cbn [wp]. rewrite Hf. apply HQ. Qed.

Ltac quiet_call :=
  lazymatch goal with
  | |- quiet (perform ?c) => exact (quiet_perform c (λ _, I) (λ _ _, eq_refl))
  end.

Ltac quiet_tac :=
  repeat first [ apply quiet_ret | quiet_call | apply quiet_bind; [|intros ?] | case_match ].

Lemma env_quiet name fallback : quiet (env name fallback).
Proof. unfold env. quiet_tac. Qed.
Lemma hostname_quiet : quiet hostname.
Proof. unfold hostname. quiet_tac. Qed.
Lemma syslog_quiet : quiet ensureUnixSyslogSocket.
Proof. unfold ensureUnixSyslogSocket. quiet_tac. Qed.
Lemma hash_quiet path : quiet (fileSHA256 path).
Proof. unfold fileSHA256. quiet_tac. Qed.
Lemma config_quiet dir : quiet (prepareKubeletConfig dir).
Proof. unfold prepareKubeletConfig, generated_config, env. quiet_tac. Qed.
Lemma make_dirs_quiet l : quiet (make_dirs l).
Proof. induction l as [|d l IH]; cbn [make_dirs]; quiet_tac. exact IH. Qed.
Lemma clean_entries_quiet dir l : quiet (clean_entries dir l).
Proof.
  induction l as [|[name []] l IH]; cbn [clean_entries]; [apply quiet_ret|exact IH|].
  repeat first [ apply quiet_ret | quiet_call | exact IH | apply quiet_bind; [|intros ?] | case_match ].
Qed.
Lemma cleanup_quiet dir : quiet (cleanupNetworkNamespaces dir).
Proof.
  unfold cleanupNetworkNamespaces. apply quiet_bind; [quiet_call|].
  intros [l|e]; [apply clean_entries_quiet|apply quiet_ret].
Qed.

(** ** Waiting *)

(** How a wait leaves the processes: untouched, unless it reports that one of
    them exited. *)
Definition wait_post (ps : list process) (g g' : lives) (r : option go_error) : Prop :=
  match r with
  | None => g' = g
  | Some e => exited_name e = None ∧ g' = g
              ∨ ∃ p, p ∈ ps ∧ exited_name e = Some p.(p_name) ∧ g' = ended p.(p_id) g
  end.

Lemma first_exited_wp ps g :
  wp node (first_exited ps) (λ g' r, wait_post ps g g' r ∧ ∀ e, r = Some e → exited_name e ≠ None) g.
Proof.
  induction ps as [|p ps IH]; cbn [first_exited bind perform]; [by split|].
  split; [done|]. intros [err|] g' ->.
  - split; [|by intros e [= <-]]. right. exists p. split; [by left|done].
  - eapply wp_mono; [|exact IH]. intros g' r [Hr Hn]. split; [|done].
    destruct r as [e|]; [|done]. destruct Hr as [?|(q & Hq & ?)]; [by left|].
    right. exists q. split; [by right|done].
Qed.

Lemma waitForPath_wp fuel path ps g :
  wp node (waitForPath fuel path ps) (λ g' r, ∀ e, r = Some e → wait_post ps g g' e) g.
Proof.
  induction fuel as [|fuel IH]; cbn [waitForPath bind perform]; [done|].
  split; [done|]. intros [s|err] g' ->; [by intros e [= <-]|].
  apply wp_bind. eapply wp_mono; [|apply first_exited_wp].
  intros g' [e|] [Hpost _]; [by intros e' [= <-]|].
  cbn in Hpost. subst g'. split; [done|].
  intros [] g' ->; [intros e [= <-]; by left|intros e [= <-]; by left|exact IH].
Qed.

(** ** Cloud API Adaptor *)

Definition base_ids : gset nat := {[0%nat; 1%nat]}.

(** What [startCAA] leaves behind: the attempt that came up, or no attempt at
    all, except after an exit of kubelet. *)
Definition caa_post (g' : lives) (r : result go_error process) : Prop :=
  match r with
  | Ok caa => ∃ id, (2 ≤ id)%nat ∧ caa = started (command "cloud-api-adaptor" id)
                    ∧ g'.(live) ⊆ {[id]} ∪ base_ids
  | Err e => g'.(live) ⊆ base_ids
             ∨ exited_name e = Some "kubelet" ∧ ∃ id, (2 ≤ id)%nat ∧ g'.(live) ⊆ {[id]} ∪ base_ids
  end.

Lemma stop_attempt_wp caa err g (Q : lives → unit → Prop) :
  (exited_name err = Some caa.(p_name) → Q g tt) →
  (exited_name err ≠ Some caa.(p_name) →
     Q (ended caa.(p_id) (mk_lives g.(live) ({[caa.(p_id)]} ∪ g.(termed)))) tt) →
  wp node (stop_attempt caa err) Q g.
Proof.
  intros H1 H2. unfold stop_attempt. case_bool_decide; [by apply H1|].
  cbn [bind perform]. split; [done|]. intros r g' ->. split; [done|]. intros r' g' ->.
  cbn [wp]. destruct (r' : unit). by apply H2.
Qed.

Lemma startCAA_wp attempts fuel id environ nodeName path hash g :
  (2 ≤ id)%nat → g.(live) ⊆ base_ids →
  wp node (startCAA attempts fuel id environ nodeName path hash (started kubelet))
    (λ g' r, ∀ x, r = Some x → caa_post g' x) g.
Proof.
  revert id g. induction attempts as [|attempts IH]; intros id g Hid Hg; cbn [startCAA]; [done|].
  unfold start at 1. cbn [bind perform]. split; [split; [set_solver by lia|done]|].
  intros [err|] g' ->; cbn [bind]; [intros x [= <-]; by left|].
  apply wp_bind. eapply wp_mono; [|apply waitForPath_wp].
  intros g' [[err|]|] Hw; [| |done]; specialize (Hw _ eq_refl).
  2: { cbn in Hw. subst g'. intros x [= <-]. exists id. split_and!; [done|done|]. cbn. set_solver. }
  case_bool_decide as Hk.
  { intros x [= <-]. right. split; [exact Hk|]. exists id. split; [done|].
    destruct Hw as [[_ ->]|(p & _ & _ & ->)]; cbn; set_solver. }
  assert (Hstop : ∀ g2 : lives, g2.(live) ⊆ base_ids → wp node
    (let! event := sys SelectTimers in
     match event with
     | CtxDone => Ret (Some (Err context_canceled))
     | DeadlinePassed =>
         Ret (Some (Err (ErrorsNew "timed out starting cloud-api-adaptor after PeerPodNode registration")))
     | Ticked => startCAA attempts fuel (S id) environ nodeName path hash (started kubelet)
     end) (λ g' r, ∀ x, r = Some x → caa_post g' x) g2).
  { intros g2 Hg2. cbn [bind perform]. split; [done|].
    intros [] g3 ->; [intros x [= <-]; by left|intros x [= <-]; by left|]. apply IH; [lia|done]. }
  apply wp_bind, stop_attempt_wp; intros He; apply Hstop;
    destruct Hw as [[Hn ->]|(p & Hp & Hpn & ->)]; cbn in *.
  - congruence.
  - apply elem_of_cons in Hp as [->|Hp%list_elem_of_singleton]; subst; cbn in *; [set_solver|done].
  - set_solver.
  - apply elem_of_cons in Hp as [->|Hp%list_elem_of_singleton]; subst; cbn in *; done.
Qed.

(** ** Termination of the processes *)

(** The processes of a list that were started. *)
Fixpoint started_ids (ps : list process) : gset nat :=
  match ps with
  | [] => ∅
  | p :: ps => if p.(p_started) then {[p.(p_id)]} ∪ started_ids ps else started_ids ps
  end.

Lemma started_ids_app ps qs : started_ids (ps ++ qs) = started_ids ps ∪ started_ids qs.
Proof. induction ps as [|p ps IH]; cbn; [set_solver|]. case_match; rewrite IH; set_solver. Qed.

Lemma started_ids_reverse ps : started_ids (reverse ps) = started_ids ps.
Proof.
  induction ps as [|p ps IH]; [done|]. rewrite reverse_cons, started_ids_app, IH. cbn.
  case_match; set_solver.
Qed.

Lemma signal_all_wp ps g (Q : lives → unit → Prop) :
  Q (mk_lives g.(live) (started_ids ps ∪ g.(termed))) tt → wp node (signal_all ps) Q g.
Proof.
  revert g. induction ps as [|p ps IH]; intros g HQ; cbn [signal_all started_ids] in *.
  - cbn [wp]. by rewrite (left_id_L ∅ (∪)) in HQ; destruct g.
  - destruct (p_started p); [|by apply IH]. cbn [bind perform]. split; [done|].
    intros r g' ->. apply IH. cbn. by rewrite (assoc_L (∪)), (comm_L (∪) (started_ids ps)).
Qed.

Lemma kill_all_wp ps g :
  started_ids ps ⊆ g.(termed) →
  wp node (kill_all ps) (λ g' _, g'.(live) ⊆ g.(live) ∖ started_ids ps) g.
Proof.
  revert g. induction ps as [|p ps IH]; intros g Hg; cbn [kill_all started_ids] in *; [cbn; set_solver|].
  destruct (p_started p); [|by apply IH]. cbn [bind perform]. split; [done|]. intros exited g' ->.
  assert (Hnext : wp node (kill_all ps)
            (λ g' _, g'.(live) ⊆ g.(live) ∖ ({[p.(p_id)]} ∪ started_ids ps)) (ended p.(p_id) g)).
  { eapply wp_mono; [|apply IH; cbn; set_solver]. intros g' u Hg'. cbn in *. set_solver. }
  destruct (exited : bool); [exact Hnext|]. cbn [bind]. split; [cbn; set_solver|].
  intros r g' ->. exact Hnext.
Qed.

Lemma await_all_wp all ps g :
  started_ids all ⊆ g.(termed) → started_ids ps ⊆ started_ids all →
  wp node (await_all all ps) (λ g' _, g'.(live) ⊆ g.(live) ∖ started_ids ps) g.
Proof.
  revert g. induction ps as [|p ps IH]; intros g Hg Hps; cbn [await_all started_ids] in *; [cbn; set_solver|].
  destruct (p_started p); [|by apply IH]. cbn [bind perform]. split; [done|]. intros done g' ->.
  destruct (done : bool).
  - eapply wp_mono; [|apply IH; cbn; set_solver]. intros g' u Hg'. cbn in *. set_solver.
  - eapply wp_mono; [|by apply kill_all_wp]. intros g' u Hg'. cbn in *. set_solver.
Qed.

Lemma clean_up_wp ps g (Q : lives → unit → Prop) :
  (∀ g', g'.(live) ⊆ g.(live) ∖ started_ids ps → Q g' tt) → wp node (clean_up ps) Q g.
Proof.
  intros HQ. unfold clean_up, terminate. apply wp_bind, wp_bind, signal_all_wp.
  eapply wp_mono; [|apply await_all_wp; cbn; by rewrite ?started_ids_reverse; set_solver].
  intros g' u Hg'. cbn in Hg'. rewrite started_ids_reverse in Hg'.
  apply wp_bind, cleanup_quiet. intros _. by apply HQ.
Qed.

Lemma after_wp {A} (r : A) ps g (Q : lives → A → Prop) :
  (∀ g', g'.(live) ⊆ g.(live) ∖ started_ids ps → Q g' r) → wp node (after r (clean_up ps)) Q g.
Proof. intros HQ. apply wp_bind, clean_up_wp. intros g' Hg'. by apply HQ. Qed.

(** ** A run *)

(** What a run leaves behind when it returns. *)
Definition run_post (g' : lives) (r : option (option go_error)) : Prop :=
  ∀ x, r = Some x →
    g'.(live) = ∅
    ∨ ∃ e id, x = Some e ∧ exited_name e = Some "kubelet" ∧ (2 ≤ id)%nat ∧ g'.(live) ⊆ {[id]}.

Lemma run_healthy_wp id g :
  g.(live) ⊆ {[id]} ∪ base_ids →
  wp node (run_healthy (started (command "cloud-api-adaptor" id))) run_post g.
Proof.
  intros Hg. unfold run_healthy. apply wp_bind, env_quiet. intros address.
  cbn [bind perform]. split; [done|]. intros r g' ->. split; [done|]. intros r' g' ->.
  split; [done|]. intros r'' g' ->. apply after_wp. cbn. intros g' Hg' x [= <-]. left.
  unfold base_ids in Hg. set_solver.
Qed.

Lemma run_caa_wp environ attempts fuel nodeName g :
  g.(live) ⊆ base_ids → wp node (run_caa environ attempts fuel nodeName) run_post g.
Proof.
  intros Hg. unfold run_caa. apply wp_bind, hash_quiet. intros [hash|err].
  - apply wp_bind. eapply wp_mono; [|apply startCAA_wp; [lia|done]].
    intros g' [[caa|err]|] Hpost; [| |done]; specialize (Hpost _ eq_refl); cbn in Hpost.
    + destruct Hpost as (id & _ & -> & Hl). by apply run_healthy_wp.
    + apply after_wp. intros g2 Hg2 x [= <-]. cbn in Hg2. unfold base_ids in *.
      destruct Hpost as [Hl|(He & id & Hid & Hl)]; [left; set_solver|].
      right. exists err, id. split_and!; [done..|]. set_solver.
  - apply after_wp. intros g2 Hg2 x [= <-]. cbn in Hg2. unfold base_ids in *. left. set_solver.
Qed.

Lemma run_processes_wp environ attempts fuel bootstrap nodeName stateDir config g :
  g.(live) = ∅ → wp node (run_processes environ attempts fuel bootstrap nodeName stateDir config) run_post g.
Proof.
  intros Hg. unfold run_processes, start. cbn [bind perform p_id containerd command].
  split; [split; [set_solver|lia]|]. intros [err|] g1 ->; cbn [bind]; [intros x [= <-]; by left|].
  apply wp_bind. eapply wp_mono; [|apply waitForPath_wp].
  intros g2 [[err|]|] Hw; [| |done]; specialize (Hw _ eq_refl).
  - apply after_wp. intros g3 Hg3 x [= <-]. left. cbn in Hg3.
    destruct Hw as [[_ ->]|(p & _ & _ & ->)]; cbn in *; set_solver.
  - cbn in Hw. subst g2. apply wp_bind, env_quiet. intros labels. apply wp_bind, env_quiet. intros taints.
    cbn [bind perform p_id kubelet command]. split; [split; [cbn; set_solver by lia|lia]|].
    intros [err|] g2 ->; cbn [bind].
    + apply after_wp. intros g3 Hg3 x [= <-]. left. cbn in *. set_solver.
    + apply run_caa_wp. unfold base_ids. cbn. set_solver.
Qed.

Lemma run_node_wp environ attempts fuel : wp node (run_node environ attempts fuel) run_post nobody.
Proof.
  unfold run_node. apply wp_bind, env_quiet. intros bootstrap. cbn [bind perform].
  split; [done|]. intros [s|err] g ->; [|intros x [= <-]; by left].
  apply wp_bind, hostname_quiet. intros fallback. apply wp_bind, env_quiet. intros nodeName.
  apply wp_bind, env_quiet. intros stateDir. apply wp_bind, make_dirs_quiet.
  intros [err|]; [intros x [= <-]; by left|]. unfold run_prepared.
  apply wp_bind, syslog_quiet. intros [err|]; [intros x [= <-]; by left|].
  apply wp_bind, config_quiet. intros [config|err]; [|intros x [= <-]; by left].
  by apply run_processes_wp.
Qed.

(** ** The turns of a wait *)

(** The polls of processes that are all running. *)
Definition still_running (ps : list process) : list (event NodeE) := (λ p, @Ev NodeE (PollDone p.(p_id)) None) <$> ps.

(** One turn of a wait that goes on: the look-up failed, every process was polled and
    runs, and the ticker ticked. *)
Definition turn (path : string) (ps : list process) (err : go_error) : list (event NodeE) :=
  @Ev NodeE (Stat path) (Err err) :: still_running ps ++ [@Ev NodeE SelectTimers Ticked].

(** The last turn: the path is there; a process, polled after those before it, has
    exited; or, when all are running, the time is up. *)
Inductive wait_end (path : string) (ps : list process) : list (event NodeE) → option go_error → Prop :=
| end_found s : wait_end path ps [@Ev NodeE (Stat path) (Ok s)] None
| end_exited err before p after x :
    ps = before ++ p :: after →
    wait_end path ps (@Ev NodeE (Stat path) (Err err) :: still_running before ++ [@Ev NodeE (PollDone p.(p_id)) (Some x)])
      (Some (ProcessExit p.(p_name) (of_nil x)))
| end_canceled err :
    wait_end path ps (@Ev NodeE (Stat path) (Err err) :: still_running ps ++ [@Ev NodeE SelectTimers CtxDone])
      (Some context_canceled)
| end_timeout err :
    wait_end path ps (@Ev NodeE (Stat path) (Err err) :: still_running ps ++ [@Ev NodeE SelectTimers DeadlinePassed])
      (Some (Errorf "timed out waiting for %s" [ArgS path])).

Lemma exec_first_exited ps t r :
  exec (first_exited ps) t r →
  match r with
  | None => t = still_running ps
  | Some e => ∃ before p after x, ps = before ++ p :: after ∧ e = ProcessExit p.(p_name) (of_nil x)
      ∧ t = still_running before ++ [@Ev NodeE (PollDone p.(p_id)) (Some x)]
  end.
Proof.
  revert t. induction ps as [|p ps IH]; intros t Hx; cbn [first_exited] in Hx; [by exec_step Hx|].
  exec_step Hx. destruct r0 as [x|].
  - exec_step Hx. by exists [], p, ps, x.
  - apply IH in Hx. destruct r as [e|]; [|by subst].
    destruct Hx as (before & q & after & x & -> & -> & ->). by exists (p :: before), q, after, x.
Qed.

Lemma exec_waitForPath fuel path ps t r :
  exec (waitForPath fuel path ps) t r →
  ∃ errs tail, t = (errs ≫= turn path ps) ++ tail ∧
    match r with
    | None => tail = [] ∧ length errs = fuel
    | Some x => (length errs < fuel)%nat ∧ wait_end path ps tail x
    end.
Proof.
  revert t. induction fuel as [|fuel IH]; intros t Hx; cbn [waitForPath] in Hx; [exec_step Hx; by exists [], []|].
  exec_step Hx. destruct r0 as [s|err].
  { exec_step Hx. eexists [], _. split; [done|]. split; [cbn; lia|constructor]. }
  apply exec_bind in Hx as (t1 & t2 & x & -> & H1%exec_first_exited & H2). destruct x as [e|].
  { destruct H1 as (before & p & after & x & Hps & -> & ->). exec_step H2. rewrite app_nil_r.
    eexists [], _. split; [done|]. split; [cbn; lia|by econstructor]. }
  subst t1. exec_step H2. destruct r0.
  - exec_step H2. eexists [], _. split; [done|]. split; [cbn; lia|constructor].
  - exec_step H2. eexists [], _. split; [done|]. split; [cbn; lia|constructor].
  - apply IH in H2 as (errs & tail & -> & Hr). exists (err :: errs), tail. split.
    + cbn. by rewrite <- !app_assoc.
    + destruct r as [x|]; cbn [length]; [split; [lia|apply Hr]|destruct Hr as [-> ->]; done].
Qed.

(** ** Cleaning up *)

(** The path of a lazy unmount. *)
Definition unmount_path (e : event NodeE) : option string :=
  match e with Ev (Unmount p flags) _ => if flags =? MNT_DETACH then Some p else None | _ => None end.

(** The paths of the entries that are not directories. *)
Fixpoint entry_paths (directory : string) (l : list entry) : list string :=
  match l with
  | [] => []
  | Entry _ true :: l => entry_paths directory l
  | Entry name false :: l => filepath_Join [directory; name] :: entry_paths directory l
  end.

(** An entry that is gone after a successful removal, or was gone before it. *)
Definition removed (t : list (event NodeE)) (path : string) : Prop :=
  ∃ r, @Ev NodeE (RemovePath path) r ∈ t ∧ (∀ e, r = Some e → is_not_exist e = true).

(** An unmount after which the entry may be removed. *)
Definition detached (t : list (event NodeE)) (path : string) : Prop :=
  ∃ r, @Ev NodeE (Unmount path MNT_DETACH) r ∈ t ∧ (∀ e, r = Some e → not_mounted e = true).

Lemma removed_weaken t t' path : removed t path → t ⊆ t' → removed t' path.
Proof. intros (r & Hin & Hr) Hsub. exists r. auto. Qed.

Lemma detached_weaken t t' path : detached t path → t ⊆ t' → detached t' path.
Proof. intros (r & Hin & Hr) Hsub. exists r. auto. Qed.

Record cleaned (directory : string) (l : list entry) (t : list (event NodeE)) (errs : list go_error) : Prop := {
  cleaned_all : omap unmount_path t = entry_paths directory l;
  cleaned_removed : errs = [] → Forall (removed t) (entry_paths directory l);
  cleaned_detached : ∀ path r, @Ev NodeE (RemovePath path) r ∈ t → detached t path;
}.

Definition remove_path (e : event NodeE) : option string :=
  match e with Ev (RemovePath p) _ => Some p | _ => None end.

Lemma remove_event_inj path path' r r' :
  @Ev NodeE (RemovePath path) r = @Ev NodeE (RemovePath path') r' → path = path'.
Proof. intros E. apply (f_equal remove_path) in E. by injection E. Qed.

(** The step of an entry that was detached and then removed, or not. *)
Lemma cleaned_remove directory name l u r t errs errs' :
  (∀ e, u = Some e → not_mounted e = true) →
  cleaned directory l t errs →
  (errs' = [] → errs = [] ∧ ∀ e, r = Some e → is_not_exist e = true) →
  cleaned directory (Entry name false :: l)
    (@Ev NodeE (Unmount (filepath_Join [directory; name]) MNT_DETACH) u
     :: @Ev NodeE (RemovePath (filepath_Join [directory; name])) r :: t) errs'.
Proof.
  intros Hu [Hall Hrem Hdet] Herrs. split.
  - cbn [omap list_omap unmount_path entry_paths]. f_equal. exact Hall.
  - intros [Hn Hr]%Herrs. cbn [entry_paths]. constructor.
    + exists r. split; [set_solver|done].
    + eapply Forall_impl; [by apply Hrem|]. intros p Hp. eapply removed_weaken; [done|set_solver].
  - intros path r' [E|[E|Hin]%elem_of_cons]%elem_of_cons.
    + by apply (f_equal remove_path) in E.
    + apply remove_event_inj in E as ->. exists u. split; [by left|done].
    + eapply detached_weaken; [by eapply Hdet|set_solver].
Qed.

Lemma exec_clean_entries directory l t errs :
  exec (clean_entries directory l) t errs → cleaned directory l t errs.
Proof.
  revert t errs. induction l as [|[name []] l IH]; intros t errs Hx; cbn [clean_entries] in Hx.
  - exec_step Hx. split; [done|by constructor|by intros ? ? ?%elem_of_nil].
  - apply IH in Hx as [Hall Hrem Hdet]. by split.
  - exec_step Hx.
    assert (Hremove : (∀ e, r = Some e → not_mounted e = true) →
      exec (let! r := sys (RemovePath (filepath_Join [directory; name])) in
            let! errors := clean_entries directory l in
            Ret (match r with
                 | Some err => if is_not_exist err then errors
                     else Errorf "remove %s: %w" [ArgS (filepath_Join [directory; name]); ArgErr err] :: errors
                 | None => errors
                 end)) t0 errs →
      cleaned directory (Entry name false :: l)
        (@Ev NodeE (Unmount (filepath_Join [directory; name]) MNT_DETACH) r :: t0) errs).
    { clear Hx. intros Hu Hx. exec_step Hx.
      apply exec_bind in Hx as (t1 & t2 & es & -> & H1%IH & [-> ->]%exec_ret_inv).
      rewrite app_nil_r. apply (cleaned_remove _ _ _ _ _ _ es); [done|done|].
      destruct r0 as [err|]; [|by intros ->]. case_match eqn:Hg; [|done].
      intros ->. split; [done|]. by intros e [= <-]. }
    destruct r as [err|]; [|by apply Hremove].
    destruct (not_mounted err) eqn:Hn; [apply Hremove; [by intros e [= <-]|exact Hx]|].
    apply exec_bind in Hx as (t1 & t2 & es & -> & H1%IH & [-> ->]%exec_ret_inv).
    rewrite app_nil_r. destruct H1 as [Hall Hrem Hdet]. split; [|done|].
    + cbn [omap list_omap unmount_path entry_paths]. f_equal. exact Hall.
    + intros path r' [E|Hin]%elem_of_cons; [by apply (f_equal remove_path) in E|].
      eapply detached_weaken; [by eapply Hdet|set_solver].
Qed.

(** ** Starts and writes of a trace *)

Definition newline : ascii := byte_chr 10.

Definition written (e : event NodeE) : option (string * string) :=
  match e with Ev (WritePath p c) _ => Some (p, c) | _ => None end.

Definition start_env (e : event NodeE) : option (list string) :=
  match e with Ev (StartCmd _ _ _ environment) _ => Some environment | _ => None end.

(** Programs that start no process. *)
Definition startless {A} (p : prog NodeE A) : Prop := ∀ t r, exec p t r → Forall (λ e, start_env e = None) t.

Lemma startless_ret {A} (a : A) : startless (Ret a).
Proof. by intros t r [-> _]%exec_ret_inv. Qed.

Lemma startless_perform (c : NodeE) : (∀ r, start_env (Ev c r) = None) → startless (perform c).
Proof. intros Hc t r Hx. exec_step Hx. exec_step Hx. by constructor. Qed.

Lemma startless_bind {A B} (p : prog NodeE A) (k : A → prog NodeE B) :
  startless p → (∀ a, startless (k a)) → startless (bind p k).
Proof.
  intros Hp Hk t r (t1 & t2 & a & -> & H1 & H2)%exec_bind. apply Forall_app.
  split; [by eapply Hp|by eapply Hk].
Qed.

Ltac startless_tac :=
  repeat first
    [ apply startless_ret
    | lazymatch goal with |- startless (perform ?c) => exact (startless_perform c (λ _, eq_refl)) end
    | assumption
    | apply startless_bind; [|intros ?]
    | case_match ].

Lemma terminate_no_start ps : startless (terminate ps).
Proof.
  assert (Hs : ∀ l, startless (signal_all l)) by (induction l; cbn [signal_all]; startless_tac).
  assert (Hk : ∀ l, startless (kill_all l)) by (induction l; cbn [kill_all]; startless_tac).
  assert (Ha : ∀ all l, startless (await_all all l)).
  { intros all. pose proof (Hk all). induction l; cbn [await_all]; startless_tac. }
  unfold terminate. apply startless_bind; [apply Hs|intros ?; apply Ha].
Qed.

Lemma cleanup_no_start dir : startless (cleanupNetworkNamespaces dir).
Proof.
  assert (Hc : ∀ l, startless (clean_entries dir l)).
  { induction l as [|[name []] l IH]; cbn [clean_entries]; startless_tac. }
  unfold cleanupNetworkNamespaces. apply startless_bind; [startless_tac|].
  intros [l|e]; [apply Hc|startless_tac].
Qed.

Lemma after_no_start {A} (x : A) ps : startless (after x (clean_up ps)).
Proof.
  unfold after, clean_up. apply startless_bind; [|intros ?; apply startless_ret].
  apply startless_bind; [apply terminate_no_start|intros ?].
  apply startless_bind; [apply cleanup_no_start|intros ?; apply startless_ret].
Qed.

Lemma run_healthy_no_start caa : startless (run_healthy caa).
Proof.
  unfold run_healthy, env. pose proof @after_no_start.
  repeat first [apply after_no_start | apply startless_ret
    | lazymatch goal with |- startless (perform ?c) => exact (startless_perform c (λ _, eq_refl)) end
    | apply startless_bind; [|intros ?] ].
Qed.

Lemma wait_no_start fuel path ps : startless (waitForPath fuel path ps).
Proof.
  assert (Hf : ∀ l, startless (first_exited l)) by (induction l; cbn [first_exited]; startless_tac).
  pose proof (Hf ps). induction fuel; cbn [waitForPath]; startless_tac.
Qed.

Lemma no_start {A} (p : prog NodeE A) : startless p →
  ∀ t r id executable args environment a, exec p t r →
    @Ev NodeE (StartCmd id executable args environment) a ∈ t → False.
Proof.
  intros Hp t r id exe args environment a Hx Hin. apply Hp in Hx.
  eapply Forall_forall in Hx; [|exact Hin]. done.
Qed.

(** The environment of every attempt. *)
Lemma startCAA_env attempts fuel id environ nodeName path hash k t r :
  exec (startCAA attempts fuel id environ nodeName path hash k) t r →
  ∀ id' executable args environment a, @Ev NodeE (StartCmd id' executable args environment) a ∈ t →
    environment = caa_environment environ nodeName path hash.
Proof.
  revert id t. induction attempts as [|attempts IH]; intros id t Hx id' exe args environment a Hin;
    cbn [startCAA] in Hx; [exec_step Hx; by apply elem_of_nil in Hin|].
  unfold start at 1 in Hx. exec_step Hx.
  apply elem_of_cons in Hin as [E|Hin]; [apply (f_equal start_env) in E; by simplify_eq/=|].
  destruct r0 as [err|]; [exec_step Hx; by apply elem_of_nil in Hin|]. cbn [bind] in Hx.
  apply exec_bind in Hx as (t1 & t2 & w & -> & H1 & H2).
  apply elem_of_app in Hin as [Hin|Hin]; [exfalso; eapply (no_start (waitForPath _ _ _)); [apply wait_no_start|exact H1|exact Hin]|].
  destruct w as [[err|]|]; [|exec_step H2; by apply elem_of_nil in Hin..].
  case_bool_decide; [exec_step H2; by apply elem_of_nil in Hin|].
  apply exec_bind in H2 as (t3 & t4 & u & -> & H3 & H4).
  apply elem_of_app in Hin as [Hin|Hin].
  { exfalso. eapply (no_start (stop_attempt _ err)); [|exact H3|exact Hin].
    unfold stop_attempt. startless_tac. }
  exec_step H4. apply elem_of_cons in Hin as [E|Hin]; [by apply (f_equal start_env) in E|].
  case_match; [exec_step H4; by apply elem_of_nil in Hin..|]. by eapply IH.
Qed.

(** The answer to a directory listing, to compare events by. *)
Definition read_entries (e : event NodeE) : option (result go_error (list entry)) :=
  match e with Ev (ReadDir _) r => Some r | _ => None end.

(** ** Properties *)

(** C11. The node's processes. In every execution an attempt of Cloud API Adaptor
    is started only when no earlier attempt is alive, and a process is killed only
    after it was sent SIGTERM. A run that returns leaves no process behind that
    it had not seen end or killed, except that after an exit of kubelet while
    Cloud API Adaptor was coming up one attempt may be left. *)
Theorem node_processes environ attempts fuel t x :
  exec (run_node environ attempts fuel) t (Some x) →
  (∀ t1 e t2, t = t1 ++ e :: t2 → allowed_call (foldl follow nobody t1) (ev_call e))
  ∧ ((foldl follow nobody t).(live) = ∅
     ∨ ∃ e id, x = Some e ∧ exited_name e = Some "kubelet" ∧ (2 ≤ id)%nat
               ∧ (foldl follow nobody t).(live) ⊆ {[id]}).
Proof.
  intros Hx. destruct (wp_tracked_exec _ _ _ _ _ _ _ (run_node_wp environ attempts fuel) Hx) as [Hpost Hal].
  split; [exact Hal|]. by apply Hpost.
Qed.

(** C34. Waits are exact and end. A wait for a path goes on only after a look-up that
    failed, a poll of every one of its processes, in order, that found each of them
    running, and a tick. It ends in the first turn of another kind: without an error
    when the look-up finds the path; with the exit of the first process that has exited,
    whose name and exit status the error carries; or, when all are running, with the
    end of the context or of the deadline. It is still waiting only after as many ticks
    as its fuel. *)
Theorem waits_exact fuel path ps t r :
  exec (waitForPath fuel path ps) t r →
  ∃ errs tail, t = (errs ≫= turn path ps) ++ tail ∧
    match r with
    | None => tail = [] ∧ length errs = fuel
    | Some x => (length errs < fuel)%nat ∧ wait_end path ps tail x
    end.
Proof. apply exec_waitForPath. Qed.

(** C35. Network namespaces. Every entry that is not a directory is unmounted, in
    order, whatever happens to the others; an entry is removed only after it was
    detached or found not mounted; and when no error is reported, every entry is
    gone. *)
Theorem namespaces_cleaned directory entries t errs :
  exec (cleanupNetworkNamespaces directory) (@Ev NodeE (ReadDir directory) (Ok entries) :: t) errs →
  omap unmount_path t = entry_paths directory entries
  ∧ (errs = [] → Forall (removed t) (entry_paths directory entries))
  ∧ ∀ path r, @Ev NodeE (RemovePath path) r ∈ t → detached t path.
Proof.
  intros (r & E & Hx). apply (f_equal read_entries) in E. cbn in E. simplify_eq.
  apply exec_clean_entries in Hx as [Hall Hrem Hdet]. auto.
Qed.

(** The kubelet configuration. A configured file is used as it is, if it
    exists, and nothing is written. Otherwise one file is written, under the state
    directory, with the client CA that was found and a cluster DNS that is a valid
    IP address, none of whose bytes can end its YAML entry; and that file's path
    is the result. *)
Theorem kubelet_config_exact stateDir t path :
  exec (prepareKubeletConfig stateDir) t (Ok path) →
  (path ≠ "" ∧ omap written t = [] ∧ ∃ s, @Ev NodeE (Stat path) (Ok s) ∈ t)
  ∨ ∃ clientCA domain dns s,
      path = filepath_Join [stateDir; "kubelet.yaml"]
      ∧ omap written t = [(path, kubelet_yaml clientCA domain dns)]
      ∧ @Ev NodeE (Stat clientCA) (Ok s) ∈ t
      ∧ ParseIP_ok dns = true
      ∧ Forall (λ c, contains_char c dns = false) [newline; " "%char; "#"%char; "{"%char; "["%char].
Proof.
  intros Hx. unfold prepareKubeletConfig in Hx. exec_step Hx.
  destruct (String.eqb_spec (TrimSpace r) "") as [|Hne]; cbn [negb] in Hx.
  - unfold generated_config, env in Hx. right. exec_step Hx.
    destruct (ParseIP_ok (TrimSpace r0)) eqn:Hip; cbn [negb] in Hx; [|by exec_step Hx].
    exec_step Hx. exec_step Hx. exec_step Hx.
    match type of Hx with exec (match ?a with _ => _ end) _ _ => destruct a as [s|err] end;
      [|by exec_step Hx].
    exec_step Hx.
    match type of Hx with exec (match ?a with _ => _ end) _ _ => destruct a end; [by exec_step Hx|].
    apply exec_ret_inv in Hx as [-> [= ->]]. eexists _, _, (TrimSpace r0), s.
    split_and!; [done|reflexivity|by repeat (first [left|right])|done|].
    apply ParseIP_chars in Hip. repeat constructor; (eapply string_forall_not_contains; [|exact Hip]; done).
  - exec_step Hx. destruct r0 as [s|err]; [|by exec_step Hx].
    apply exec_ret_inv in Hx as [-> [= ->]]. left. split_and!; [done|done|]. exists s. set_solver.
Qed.

(** C36. The plug-in is pinned. Every start of Cloud API Adaptor passes, in its
    environment, the SHA-256 of the plug-in's content as it was read before. *)
Theorem plugin_pinned environ attempts fuel nodeName t r id executable args environment a :
  exec (run_caa environ attempts fuel nodeName) t r →
  @Ev NodeE (StartCmd id executable args environment) a ∈ t →
  ∃ content,
    @Ev NodeE (ReadAll "/cloud-providers/kubernetes.so") (Ok content) ∈ t
    ∧ environment = environ ++
        ["ENABLE_CLOUD_PROVIDER_EXTERNAL_PLUGIN=true";
         "CLOUD_PROVIDER_EXTERNAL_PLUGIN_PATH=/cloud-providers/kubernetes.so";
         "CLOUD_PROVIDER_EXTERNAL_PLUGIN_HASH=" +:+ hex_encode (Sum256 content);
         "CRI_RUNTIME_ENDPOINT=/run/containerd/containerd.sock";
         "NODE_NAME=" +:+ nodeName].
Proof.
  intros Hx Hin. unfold run_caa, fileSHA256 in Hx. exec_step Hx. destruct r0 as [content|err].
  - exists content. split; [by left|]. apply elem_of_cons in Hin as [E|Hin]; [by apply (f_equal start_env) in E|].
    cbn [bind] in Hx. apply exec_bind in Hx as (t1 & t2 & s & -> & H1 & H2).
    apply elem_of_app in Hin as [Hin|Hin].
    + by apply (startCAA_env _ _ _ _ _ _ _ _ _ _ H1) in Hin.
    + exfalso. destruct s as [[caa|err]|].
      * eapply no_start; [apply run_healthy_no_start|exact H2|exact Hin].
      * eapply no_start; [apply after_no_start|exact H2|exact Hin].
      * by apply exec_ret_inv in H2 as [-> _]; apply elem_of_nil in Hin.
  - exfalso. cbn [bind] in Hx. apply elem_of_cons in Hin as [E|Hin]; [by apply (f_equal start_env) in E|].
    eapply no_start; [apply after_no_start|exact Hx|exact Hin].
Qed.

(** Readiness of the node is exact: 200 exactly when both sockets are there. *)
Theorem readyz_exact socket t :
  exec (readyz socket) t 200
  ↔ ∃ a b, t = [@Ev NodeE (Stat socket) (Ok a); @Ev NodeE (Stat hypervisorSock) (Ok b)].
Proof.
  unfold readyz. split.
  - intros Hx. exec_step Hx. destruct r as [a|]; [|by exec_step Hx]. exec_step Hx.
    destruct r as [b|]; [|by exec_step Hx]. exec_step Hx. by exists a, b.
  - intros (a & b & ->). cbn. eexists. split; [done|]. cbn. by eexists.
Qed.

(** *** The exit status *)

(** A run returns without an error only if the context was done while every process
    was running. *)
Definition asked_to_stop (t : list (event NodeE)) : Prop :=
  ∃ caa, @Ev NodeE (ExitOrCtx [started containerd; started kubelet; caa]) None ∈ t.

Lemma exec_after {A} (r : A) d t a : exec (after r d) t a → a = r.
Proof. unfold after. intros (t1 & t2 & u & -> & _ & Hx)%exec_bind. by exec_step Hx. Qed.

Lemma run_healthy_exit caa t : exec (run_healthy caa) t (Some None) → asked_to_stop t.
Proof.
  unfold run_healthy. intros (t1 & t2 & address & -> & _ & Hx)%exec_bind. exec_step Hx. exec_step Hx.
  destruct r0 as [[name [err|]]|].
  - exec_step Hx. by apply exec_after in Hx.
  - exec_step Hx. by apply exec_after in Hx.
  - exists caa. set_solver.
Qed.

Lemma asked_app t1 t2 : asked_to_stop t2 → asked_to_stop (t1 ++ t2).
Proof. intros [caa Hin]. exists caa. apply elem_of_app. by right. Qed.

Local Ltac exit_step Hx :=
  let t1 := fresh "t" in let t2 := fresh "t" in let x := fresh "x" in
  apply exec_bind in Hx as (t1 & t2 & x & -> & _ & Hx); apply asked_app; revert Hx.

Lemma run_node_exit environ attempts fuel t :
  exec (run_node environ attempts fuel) t (Some None) → asked_to_stop t.
Proof.
  unfold run_node, run_prepared, run_processes, run_caa. intros Hx.
  repeat (exit_step Hx; intros Hx; repeat case_match; try (by apply exec_after in Hx); try (by exec_step Hx);
          try (by eapply run_healthy_exit)).
Qed.

(** The command exits with 0 only when it was asked to stop; an exit of one of its
    processes is a failure. *)
Lemma main_node_status environ attempts fuel t :
  exec (main_node environ attempts fuel) t (Some 0) → asked_to_stop t.
Proof.
  unfold main_node. intros (t1 & t2 & r & -> & Hr & Hx)%exec_bind. exec_step Hx. rewrite app_nil_r.
  destruct r as [[e|]|]; [done| |done]. by eapply run_node_exit.
Qed.

(** ** A concrete node *)

(** Paths that are missing, processes that have exited; the timers follow a
    script, the state, and then the deadline passes. *)
Definition handle_node (missing : list string) (exited : list nat) (script : list timer_event) (c : NodeE)
    : list timer_event * answer c :=
  match c return list timer_event * node_answer c with
  | Getenv name => (script, if String.eqb name "PEER_POD_NODE_CLUSTER_DNS" then " 10.96.0.10" else "")
  | Hostname => (script, Ok "node-1")
  | ReadAll _ => (script, Ok "provider")
  | Stat p => (script, if bool_decide (p ∈ missing) then Err (ErrNotExist p) else Ok true)
  | PollDone id => (script, if bool_decide (id ∈ exited) then Some None else None)
  | DoneOrDeadline _ => (script, true)
  | HasExited _ => (script, false)
  | SelectTimers => match script with [] => ([], DeadlinePassed) | e :: script => (script, e) end
  | ReadDir _ => (script, Ok [Entry "cni-1" false; Entry "d" true; Entry "cni-2" false])
  | Unmount p _ => (script, if String.eqb p "/run/netns/cni-2" then Some (Errno 16) else None)
  | MakeDir _ | RemovePath _ | Symlink _ _ | WritePath _ _ | StartCmd _ _ _ _ => (script, None)
  | AwaitDone _ | Sigterm _ | Kill _ | ServeHealth _ | ShutdownHealth => (script, tt)
  | ExitOrCtx _ => (script, None)
  end.

Definition asked_to_end (e : event NodeE) : option nat :=
  match e with Ev (Sigterm id) _ => Some id | _ => None end.

(** A process can be left behind. Kubelet exits while Cloud API Adaptor is
    coming up: the run returns that error and sends SIGTERM to kubelet and
    containerd, but never to the Cloud API Adaptor it had started. *)
Theorem caa_left_behind :
  let h := handle_node [hypervisorSock] [1%nat] in
  let t := run_trace h [] (run_node [] 5 5) in
  (run h [] (run_node [] 5 5)).2 = Some (Some (ProcessExit "kubelet" NilError))
  ∧ (foldl follow nobody t).(live) = {[2%nat]}
  ∧ omap asked_to_end t = [1%nat; 0%nat].
Proof. vm_compute. split_and!; reflexivity. Qed.

(** ** Witnesses *)

Lemma node_processes_witness :
  let h := handle_node [] [] in
  let t := run_trace h [] (run_node [] 5 5) in
  (run h [] (run_node [] 5 5)).2 = Some None ∧ (foldl follow nobody t).(live) = ∅.
Proof.
  intros h t.
  assert (Hr : (run h [] (run_node [] 5 5)).2 = Some None) by (vm_compute; reflexivity).
  split; [exact Hr|].
  pose proof (run_exec h [] (run_node [] 5 5)) as Hx. rewrite Hr in Hx.
  destruct (node_processes [] 5 5 t None Hx) as [_ [Hl|(e & id & He & _)]]; [exact Hl|discriminate He].
Defined.

(** The process has exited. *)
Lemma waits_exact_witness :
  let h := handle_node ["/sock"] [0%nat] in
  let p := waitForPath 5 "/sock" [started containerd] in
  let t := run_trace h [] p in
  ∃ errs tail, t = (errs ≫= turn "/sock" [started containerd]) ++ tail
    ∧ wait_end "/sock" [started containerd] tail (Some (ProcessExit "containerd" NilError)).
Proof.
  intros h p t.
  assert (Hr : (run h [] p).2 = Some (Some (ProcessExit "containerd" NilError))) by (vm_compute; reflexivity).
  pose proof (run_exec h [] p) as Hx. rewrite Hr in Hx.
  destruct (waits_exact 5 "/sock" [started containerd] t _ Hx) as (errs & tail & Ht & _ & Hend).
  exists errs, tail. split; [exact Ht|exact Hend].
Defined.

Lemma namespaces_cleaned_witness :
  let t := tail (run_trace (handle_node [] []) [] (cleanupNetworkNamespaces "/run/netns")) in
  omap unmount_path t = ["/run/netns/cni-1"; "/run/netns/cni-2"].
Proof.
  intros t.
  assert (Ht : run_trace (handle_node [] []) [] (cleanupNetworkNamespaces "/run/netns")
    = @Ev NodeE (ReadDir "/run/netns") (Ok [Entry "cni-1" false; Entry "d" true; Entry "cni-2" false]) :: t)
    by (vm_compute; reflexivity).
  pose proof (run_exec (handle_node [] []) [] (cleanupNetworkNamespaces "/run/netns")) as Hx.
  rewrite Ht in Hx.
  rewrite (proj1 (namespaces_cleaned "/run/netns" _ t _ Hx)). vm_compute. reflexivity.
Defined.

Lemma kubelet_config_exact_witness :
  let t := run_trace (handle_node [] []) [] (prepareKubeletConfig "/state") in
  length (omap written t) = 1%nat
  ∧ ∃ clientCA domain dns, omap written t = [("/state/kubelet.yaml", kubelet_yaml clientCA domain dns)].
Proof.
  intros t. assert (Hl : length (omap written t) = 1%nat) by (vm_compute; reflexivity). split; [exact Hl|].
  assert (Hr : (run (handle_node [] []) [] (prepareKubeletConfig "/state")).2 = Ok "/state/kubelet.yaml")
    by (vm_compute; reflexivity).
  pose proof (run_exec (handle_node [] []) [] (prepareKubeletConfig "/state")) as Hx. rewrite Hr in Hx.
  destruct (kubelet_config_exact "/state" t _ Hx)
    as [(_ & Hn & _)|(clientCA & domain & dns & s & _ & Hw & _)].
  - rewrite Hn in Hl. discriminate Hl.
  - exists clientCA, domain, dns. exact Hw.
Defined.

Lemma plugin_pinned_witness :
  let h := handle_node [] [] in
  let t := run_trace h [] (run_caa ["HOME=/"] 5 5 "node-1") in
  ∃ content, @Ev NodeE (ReadAll "/cloud-providers/kubernetes.so") (Ok content) ∈ t.
Proof.
  intros h t. pose proof (run_exec h [] (run_caa ["HOME=/"] 5 5 "node-1")) as Hx.
  assert (Hin : ∃ environment, @Ev NodeE (StartCmd 2 "/usr/local/bin/cloud-api-adaptor" ["kubernetes"] environment) None ∈ t).
  { assert (Ht : nth_error t 1 = Some (@Ev NodeE (StartCmd 2 "/usr/local/bin/cloud-api-adaptor" ["kubernetes"]
       (caa_environment ["HOME=/"] "node-1" "/cloud-providers/kubernetes.so" (hex_encode (Sum256 "provider")))) None))
      by (vm_compute; reflexivity).
    eexists. apply list_elem_of_In. exact (nth_error_In _ _ Ht). }
  destruct Hin as [environment Hin].
  destruct (plugin_pinned ["HOME=/"] 5 5 "node-1" t _ 2 _ _ _ _ Hx Hin) as (content & Hc & _).
  exists content. exact Hc.
Defined.
