(* ===== verification/Json.v ===== *)
(** * JSON, as [encoding/json] reads and writes it

    Strings are byte strings; the encoder escapes as [Marshal] does (HTML
    characters and U+2028, U+2029 included) and replaces invalid UTF-8 by
    U+FFFD, as the decoder also does. The decoder is the package's scanner, one
    step per byte, with a stack of the containers that are open. A number is kept
    as its literal. The text of error messages is not modelled. *)

From Stdlib Require Import Ascii.
From S2P Require Import Prelude GoFmt GoStrings.

Local Open Scope Z_scope.

(** ** UTF-8 *)

Definition continuation (c : ascii) : bool := between 128 191 (byte_val c).

(** The valid encodings of two, three and four bytes. *)
Definition utf8_2 (a b : ascii) : bool := between 194 223 (byte_val a) && continuation b.

Definition utf8_3 (a b c : ascii) : bool :=
  let x := byte_val a in let y := byte_val b in
  ((x =? 224) && between 160 191 y || between 225 236 x && between 128 191 y
   || (x =? 237) && between 128 159 y || between 238 239 x && between 128 191 y) && continuation c.

Definition utf8_4 (a b c d : ascii) : bool :=
  let x := byte_val a in let y := byte_val b in
  ((x =? 240) && between 144 191 y || between 241 243 x && between 128 191 y
   || (x =? 244) && between 128 143 y) && continuation c && continuation d.

Definition is_ascii (c : ascii) : bool := byte_val c <? 128.

(** A string cut into runes: the bytes of an encoding, or [Invalid] for a byte
    that starts none. *)
Inductive rune : Type :=
| R1 (a : ascii) | R2 (a b : ascii) | R3 (a b c : ascii) | R4 (a b c d : ascii)
| Invalid.

Fixpoint runes (s : string) : list rune :=
  match s with
  | EmptyString => []
  | String a s1 =>
      if is_ascii a then R1 a :: runes s1
      else
        match s1 with
        | EmptyString => [Invalid]
        | String b s2 =>
            if utf8_2 a b then R2 a b :: runes s2
            else
              match s2 with
              | EmptyString => Invalid :: runes s1
              | String c s3 =>
                  if utf8_3 a b c then R3 a b c :: runes s3
                  else
                    match s3 with
                    | EmptyString => Invalid :: runes s1
                    | String d s4 =>
                        if utf8_4 a b c d then R4 a b c d :: runes s4 else Invalid :: runes s1
                    end
              end
        end
  end.

(** U+FFFD. *)
Definition replacement : string :=
  String (byte_chr 239) (String (byte_chr 191) (String (byte_chr 189) "")).

Definition rune_bytes (r : rune) : string :=
  match r with
  | R1 a => String a ""
  | R2 a b => String a (String b "")
  | R3 a b c => String a (String b (String c ""))
  | R4 a b c d => String a (String b (String c (String d "")))
  | Invalid => replacement
  end.

(** The string with every invalid byte replaced. *)
Definition concat_bytes (l : list rune) : string := foldr (λ r s, rune_bytes r +:+ s) "" l.
Definition to_valid (s : string) : string := concat_bytes (runes s).
Definition valid_utf8 (s : string) : bool := forallb (λ r, match r with Invalid => false | _ => true end) (runes s).

(** [utf8.AppendRune] of a code point that is not a surrogate. *)
Definition encode_rune (u : Z) : string :=
  if u <? 128 then String (byte_chr u) ""
  else if u <? 2048 then String (byte_chr (192 + u / 64)) (String (byte_chr (128 + u mod 64)) "")
  else if u <? 65536 then
    String (byte_chr (224 + u / 4096))
      (String (byte_chr (128 + u / 64 mod 64)) (String (byte_chr (128 + u mod 64)) ""))
  else
    String (byte_chr (240 + u / 262144))
      (String (byte_chr (128 + u / 4096 mod 64))
         (String (byte_chr (128 + u / 64 mod 64)) (String (byte_chr (128 + u mod 64)) ""))).

(** ** Encoding a string *)

Definition backslash : ascii := "\"%char.
Definition quote : ascii := byte_chr 34.

Definition u_escape (hi lo : Z) : string := "\u" +:+ hex_encode (String (byte_chr hi) (String (byte_chr lo) "")).

Definition quote_ascii (c : ascii) : string :=
  let b := byte_val c in
  if (b =? 34) || (b =? 92) then String backslash (String c "")
  else if b =? 8 then "\b" else if b =? 12 then "\f" else if b =? 10 then "\n"
  else if b =? 13 then "\r" else if b =? 9 then "\t"
  else if (b <? 32) || (b =? 60) || (b =? 62) || (b =? 38) then u_escape 0 b
  else String c "".

Definition quote_rune (r : rune) : string :=
  match r with
  | R1 a => quote_ascii a
  | R3 a b c =>
      if (byte_val a =? 226) && (byte_val b =? 128) && ((byte_val c =? 168) || (byte_val c =? 169))
      then u_escape 32 (byte_val c - 128)
      else rune_bytes r
  | Invalid => "\ufffd"
  | _ => rune_bytes r
  end.

Definition quote_body (s : string) : string := foldr (λ r s, quote_rune r +:+ s) "" (runes s).
Definition Quote_json (s : string) : string := String quote (quote_body s +:+ String quote "").

(** ** Decoding a string literal

    [unquote] of what stands between the quotes; the scanner has checked the
    escapes. *)

Definition hexdigit_val (c : ascii) : Z :=
  let b := byte_val c in
  if between 48 57 b then b - 48 else if between 97 102 b then b - 87 else (b - 55) mod 16.

Definition hex4 (a b c d : ascii) : Z :=
  ((hexdigit_val a * 16 + hexdigit_val b) * 16 + hexdigit_val c) * 16 + hexdigit_val d.

(** The scanner admits no other escapes than these and the two that stand for
    themselves, a slash or a quote; all of them are ASCII. *)
Definition unescape (e : ascii) : ascii :=
  let b := byte_val e in
  if b =? 98 then byte_chr 8 else if b =? 102 then byte_chr 12 else if b =? 110 then byte_chr 10
  else if b =? 114 then byte_chr 13 else if b =? 116 then byte_chr 9
  else if b <? 128 then e else byte_chr 63.

Definition surrogate (u : Z) : bool := between 55296 57343 u.

(** [utf16.DecodeRune] of two halves that fit. *)
Definition pairs_up (u v : Z) : bool := between 55296 56319 u && between 56320 57343 v.
Definition pair_rune (u v : Z) : Z := (u - 55296) * 1024 + (v - 56320) + 65536.

Fixpoint unquote (s : string) : string :=
  match s with
  | EmptyString => EmptyString
  | String a s1 =>
      if decide (a = backslash) then
        match s1 with
        | EmptyString => EmptyString
        | String e s2 =>
            if decide (e = "u"%char) then
              match s2 with
              | String h1 (String h2 (String h3 (String h4 s6))) =>
                  let u := hex4 h1 h2 h3 h4 in
                  if surrogate u then
                    match s6 with
                    | String x (String y (String g1 (String g2 (String g3 (String g4 s12))))) =>
                        let v := hex4 g1 g2 g3 g4 in
                        if decide (x = backslash ∧ y = "u"%char) then
                          if pairs_up u v then encode_rune (pair_rune u v) +:+ unquote s12
                          else replacement +:+ unquote s6
                        else replacement +:+ unquote s6
                    | _ => replacement +:+ unquote s6
                    end
                  else encode_rune u +:+ unquote s6
              | _ => EmptyString
              end
            else String (unescape e) (unquote s2)
        end
      else if is_ascii a then String a (unquote s1)
      else
        match s1 with
        | EmptyString => replacement
        | String b s2 =>
            if utf8_2 a b then String a (String b (unquote s2))
            else
              match s2 with
              | EmptyString => replacement +:+ unquote s1
              | String c s3 =>
                  if utf8_3 a b c then String a (String b (String c (unquote s3)))
                  else
                    match s3 with
                    | EmptyString => replacement +:+ unquote s1
                    | String d s4 =>
                        if utf8_4 a b c d then String a (String b (String c (String d (unquote s4))))
                        else replacement +:+ unquote s1
                    end
              end
        end
  end.

(** ** Values *)

Set Warnings "-register-all".

Inductive json : Type :=
| JNull
| JBool (b : bool)
| JNum (literal : string)
| JStr (s : string)
| JArr (l : list json)
| JObj (members : list (string * json)).

(** ** The scanner *)

(** Where a number stands: after the minus, the zero, the integer digits, the dot,
    the fraction, the [e], its sign, the exponent. *)
Inductive num_state : Type := NNeg | N0 | N1 | NDot | NDot0 | NE | NESign | NE0.

(** What the next byte belongs to; literals in progress are kept reversed. *)
Inductive mode : Type :=
| BeginValue
| BeginValueOrEmpty
| BeginString
| BeginStringOrEmpty
| EndValue
| InString (raw : string)
| InEsc (raw : string)
| InU (n : nat) (raw : string)
| InNum (n : num_state) (raw : string)
| InWord (rest : string) (v : json).

(** The containers that are open, innermost first. *)
Inductive frame : Type :=
| FArr (elements : list json)
| FKey (members : list (string * json))
| FColon (members : list (string * json)) (key : string)
| FValue (members : list (string * json)) (key : string)
| FNext (members : list (string * json)).

(** The outcome of a byte: go on, a complete value (with whether the byte belongs
    to it), or a syntax error. *)
Inductive step_result : Type :=
| More (m : mode) (st : list frame)
| Complete (v : json) (consumed : bool)
| SyntaxError.

Definition is_space (c : ascii) : bool :=
  let b := byte_val c in (b =? 32) || (b =? 9) || (b =? 13) || (b =? 10).

Definition is_digit (c : ascii) : bool := between 48 57 (byte_val c).
Definition is_hexd (c : ascii) : bool :=
  let b := byte_val c in between 48 57 b || between 97 102 b || between 65 70 b.

(** A value is complete. *)
Definition deliver (v : json) (consumed : bool) (st : list frame) : step_result :=
  match st with
  | [] => Complete v consumed
  | FArr l :: st => More EndValue (FArr (v :: l) :: st)
  | FKey ms :: st =>
      match v with JStr k => More EndValue (FColon ms k :: st) | _ => SyntaxError end
  | FValue ms k :: st => More EndValue (FNext ((k, v) :: ms) :: st)
  | _ => SyntaxError
  end.

Definition maxNestingDepth : nat := 100 * 100.

Definition push (m : mode) (f : frame) (st : list frame) : step_result :=
  if decide (length st < maxNestingDepth)%nat then More m (f :: st) else SyntaxError.

Definition begin_value (c : ascii) (st : list frame) : step_result :=
  let b := byte_val c in
  if is_space c then More BeginValue st
  else if b =? 123 then push BeginStringOrEmpty (FKey []) st
  else if b =? 91 then push BeginValueOrEmpty (FArr []) st
  else if b =? 34 then More (InString "") st
  else if b =? 45 then More (InNum NNeg (String c "")) st
  else if b =? 48 then More (InNum N0 (String c "")) st
  else if between 49 57 b then More (InNum N1 (String c "")) st
  else if b =? 116 then More (InWord "rue" (JBool true)) st
  else if b =? 102 then More (InWord "alse" (JBool false)) st
  else if b =? 110 then More (InWord "ull" JNull) st
  else SyntaxError.

(** [stateEndValue], with a container open. *)
Definition end_value (c : ascii) (st : list frame) : step_result :=
  let b := byte_val c in
  if is_space c then More EndValue st
  else
    match st with
    | FArr l :: st' =>
        if b =? 44 then More BeginValue st
        else if b =? 93 then deliver (JArr (reverse l)) true st'
        else SyntaxError
    | FColon ms k :: st' => if b =? 58 then More BeginValue (FValue ms k :: st') else SyntaxError
    | FNext ms :: st' =>
        if b =? 44 then More BeginString (FKey ms :: st')
        else if b =? 125 then deliver (JObj (reverse ms)) true st'
        else SyntaxError
    | _ => SyntaxError
    end.

(** The byte after a complete number. *)
Definition end_number (raw : string) (c : ascii) (st : list frame) : step_result :=
  match deliver (JNum (string_rev raw)) false st with
  | More EndValue st => end_value c st
  | r => r
  end.

Definition in_number (n : num_state) (raw : string) (c : ascii) (st : list frame) : step_result :=
  let go n := More (InNum n (String c raw)) st in
  let is_e := (byte_val c =? 101) || (byte_val c =? 69) in
  let is_dot := byte_val c =? 46 in
  match n with
  | NNeg => if byte_val c =? 48 then go N0 else if is_digit c then go N1 else SyntaxError
  | N0 => if is_dot then go NDot else if is_e then go NE else end_number raw c st
  | N1 => if is_digit c then go N1 else if is_dot then go NDot else if is_e then go NE
          else end_number raw c st
  | NDot => if is_digit c then go NDot0 else SyntaxError
  | NDot0 => if is_digit c then go NDot0 else if is_e then go NE else end_number raw c st
  | NE => if (byte_val c =? 43) || (byte_val c =? 45) then go NESign
          else if is_digit c then go NE0 else SyntaxError
  | NESign => if is_digit c then go NE0 else SyntaxError
  | NE0 => if is_digit c then go NE0 else end_number raw c st
  end.

Definition is_escape (c : ascii) : bool :=
  let b := byte_val c in
  (b =? 98) || (b =? 102) || (b =? 110) || (b =? 114) || (b =? 116) || (b =? 92) || (b =? 47) || (b =? 34).

Definition step (m : mode) (st : list frame) (c : ascii) : step_result :=
  match m with
  | BeginValue => begin_value c st
  | BeginValueOrEmpty =>
      if is_space c then More BeginValueOrEmpty st
      else if byte_val c =? 93 then
        match st with FArr l :: st => deliver (JArr (reverse l)) true st | _ => SyntaxError end
      else begin_value c st
  | BeginString =>
      if is_space c then More BeginString st
      else if byte_val c =? 34 then More (InString "") st else SyntaxError
  | BeginStringOrEmpty =>
      if is_space c then More BeginStringOrEmpty st
      else if byte_val c =? 125 then
        match st with FKey ms :: st => deliver (JObj (reverse ms)) true st | _ => SyntaxError end
      else if byte_val c =? 34 then More (InString "") st else SyntaxError
  | EndValue => end_value c st
  | InString raw =>
      if byte_val c =? 34 then deliver (JStr (unquote (string_rev raw))) true st
      else if byte_val c =? 92 then More (InEsc (String c raw)) st
      else if byte_val c <? 32 then SyntaxError
      else More (InString (String c raw)) st
  | InEsc raw =>
      if byte_val c =? 117 then More (InU 4 (String c raw)) st
      else if is_escape c then More (InString (String c raw)) st else SyntaxError
  | InU n raw =>
      if is_hexd c then
        More (match n with S (S n) => InU (S n) (String c raw) | _ => InString (String c raw) end) st
      else SyntaxError
  | InNum n raw => in_number n raw c st
  | InWord rest v =>
      match rest with
      | String d EmptyString => if decide (c = d) then deliver v true st else SyntaxError
      | String d rest => if decide (c = d) then More (InWord rest v) st else SyntaxError
      | EmptyString => SyntaxError
      end
  end.

(** The first value of a string, and what follows it. At the end of the input a
    number at the top is complete. *)
Fixpoint scan (m : mode) (st : list frame) (s : string) : option (json * string) :=
  match s with
  | EmptyString =>
      match m, st with
      | InNum (N0 | N1 | NDot0 | NE0) raw, [] => Some (JNum (string_rev raw), "")
      | _, _ => None
      end
  | String c s' =>
      match step m st c with
      | More m st => scan m st s'
      | Complete v true => Some (v, s')
      | Complete v false => Some (v, s)
      | SyntaxError => None
      end
  end.

(** [json.NewDecoder(r).Decode]: the first value; [json.Unmarshal]: the only one. *)
Definition decode_value (s : string) : option json := fst <$> scan BeginValue [] s.

Definition unmarshal_value (s : string) : option json :=
  match scan BeginValue [] s with
  | Some (v, rest) => if string_forall is_space rest then Some v else None
  | None => None
  end.

(** ** The encoder

    A value with white space as a layout says: [nl d] at the start of a line of
    depth [d], [sp] after a colon. *)
Section print.
Context (nl : nat → string) (sp : string).

Fixpoint print_with (d : nat) (v : json) : string :=
  match v with
  | JNull => "null"
  | JBool true => "true"
  | JBool false => "false"
  | JNum lit => lit
  | JStr s => Quote_json s
  | JArr [] => "[]"
  | JArr l =>
      "[" +:+ nl (S d) +:+ Join (map (print_with (S d)) l) ("," +:+ nl (S d)) +:+ nl d +:+ "]"
  | JObj [] => "{}"
  | JObj ms =>
      "{" +:+ nl (S d)
      +:+ Join (map (λ kv, let '(k, v) := kv in Quote_json k +:+ ":" +:+ sp +:+ print_with (S d) v) ms)
            ("," +:+ nl (S d))
      +:+ nl d +:+ "}"
  end.
End print.

(** [json.Marshal] writes no white space. *)
Definition print (v : json) : string := print_with (λ _, "") "" 0 v.

(** [json.MarshalIndent(v, prefix, indent)] with no prefix and four spaces: a new
    line for each element, indented by its depth. *)
Fixpoint spaces (depth : nat) : string := match depth with O => "" | S depth => "    " +:+ spaces depth end.
Definition newline (depth : nat) : string := String (byte_chr 10) (spaces depth).
Definition print_indent (v : json) : string := print_with newline " " 0 v.

(** ** Lemmas on runes *)

(** The runes [runes] gives: each of the right length for its first byte. *)
Definition wf_rune (r : rune) : Prop :=
  match r with
  | R1 a => is_ascii a = true
  | R2 a b => utf8_2 a b = true
  | R3 a b c => utf8_3 a b c = true
  | R4 a b c d => utf8_4 a b c d = true
  | Invalid => True
  end.

Lemma runes_wf s : Forall wf_rune (runes s).
Proof.
  induction s as [s IH] using string_len_ind. destruct s as [|a s1]; [done|]. cbn [runes].
  destruct (is_ascii a) eqn:Ha; [constructor; [done|apply IH; cbn; lia]|].
  destruct s1 as [|b s2]; [by repeat constructor|].
  destruct (utf8_2 a b) eqn:H2; [constructor; [done|apply IH; cbn; lia]|].
  destruct s2 as [|c s3]; [constructor; [done|apply IH; cbn; lia]|].
  destruct (utf8_3 a b c) eqn:H3; [constructor; [done|apply IH; cbn; lia]|].
  destruct s3 as [|d s4]; [constructor; [done|apply IH; cbn; lia]|].
  destruct (utf8_4 a b c d) eqn:H4; constructor; try done; apply IH; cbn; lia.
Qed.

(** A valid string is the concatenation of its runes. *)
Lemma to_valid_id s : valid_utf8 s = true → to_valid s = s.
Proof.
  unfold to_valid, valid_utf8. induction s as [s IH] using string_len_ind.
  destruct s as [|a s1]; [done|]. cbn [runes].
  destruct (is_ascii a) eqn:Ha; [cbn; intros H; rewrite string_app_cons; f_equal; apply IH; [cbn; lia|done]|].
  destruct s1 as [|b s2]; [done|].
  destruct (utf8_2 a b) eqn:H2; [cbn; intros H; rewrite !string_app_cons; do 2 f_equal; apply IH; [cbn; lia|done]|].
  destruct s2 as [|c s3]; [done|].
  destruct (utf8_3 a b c) eqn:H3; [cbn; intros H; rewrite !string_app_cons; do 3 f_equal; apply IH; [cbn; lia|done]|].
  destruct s3 as [|d s4]; [done|].
  destruct (utf8_4 a b c d) eqn:H4; [|done].
  cbn; intros H; rewrite !string_app_cons; do 4 f_equal; apply IH; [cbn; lia|done].
Qed.

(** The first bytes of the encodings. *)
Lemma utf8_2_lead a b : utf8_2 a b = true → 194 ≤ byte_val a ≤ 223 ∧ 128 ≤ byte_val b ≤ 191.
Proof. unfold utf8_2, continuation. rewrite andb_true_iff, !between_spec. done. Qed.

Lemma utf8_3_lead a b c : utf8_3 a b c = true →
  224 ≤ byte_val a ≤ 239 ∧ 128 ≤ byte_val b ≤ 191 ∧ 128 ≤ byte_val c ≤ 191.
Proof.
  unfold utf8_3, continuation.
  rewrite !andb_true_iff, !orb_true_iff, !andb_true_iff, !Z.eqb_eq, !between_spec. lia.
Qed.

Lemma utf8_4_lead a b c d : utf8_4 a b c d = true →
  240 ≤ byte_val a ≤ 244 ∧ 128 ≤ byte_val b ≤ 191 ∧ 128 ≤ byte_val c ≤ 191 ∧ 128 ≤ byte_val d ≤ 191.
Proof.
  unfold utf8_4, continuation.
  rewrite !andb_true_iff, !orb_true_iff, !andb_true_iff, !Z.eqb_eq, !between_spec. lia.
Qed.

Lemma not_ascii a : 128 ≤ byte_val a → is_ascii a = false ∧ a ≠ backslash.
Proof.
  intros H. split; [by apply Z.ltb_ge|]. intros ->. by vm_compute in H.
Qed.

Lemma utf8_2_no a b : 224 ≤ byte_val a → utf8_2 a b = false.
Proof.
  intros H. destruct (utf8_2 a b) eqn:E; [|done]. apply utf8_2_lead in E. lia.
Qed.

Lemma utf8_3_no a b c : 240 ≤ byte_val a → utf8_3 a b c = false.
Proof.
  intros H. destruct (utf8_3 a b c) eqn:E; [|done]. apply utf8_3_lead in E. lia.
Qed.

(** ** A quoted string unquotes to its runes *)

Lemma unquote_ascii a tail :
  is_ascii a = true → unquote (quote_ascii a +:+ tail) = String a (unquote tail).
Proof. destruct a as [[] [] [] [] [] [] [] []]; try discriminate; reflexivity. Qed.

Lemma unquote_rune r tail :
  wf_rune r → unquote (quote_rune r +:+ tail) = rune_bytes r +:+ unquote tail.
Proof.
  destruct r as [a|a b|a b c|a b c d|]; intros Hwf; cbn [wf_rune quote_rune rune_bytes] in *.
  - by apply unquote_ascii.
  - destruct (utf8_2_lead a b Hwf) as [Ha _]. destruct (not_ascii a) as [Hn Hb]; [lia|].
    rewrite !string_app_cons, !string_app_nil_l. cbn [unquote]. by rewrite decide_False, Hn, Hwf.
  - destruct (utf8_3_lead a b c Hwf) as [Ha _]. destruct (not_ascii a) as [Hn Hb]; [lia|].
    destruct (_ && _) eqn:Hsep.
    + rewrite !andb_true_iff, orb_true_iff, !Z.eqb_eq in Hsep. destruct Hsep as [[H1 H2] H3].
      rewrite <- (byte_chr_val a), <- (byte_chr_val b), H1, H2.
      destruct H3 as [H3|H3]; rewrite H3, <- (byte_chr_val c), H3; reflexivity.
    + rewrite !string_app_cons, !string_app_nil_l. cbn [unquote].
      rewrite decide_False by done. rewrite Hn, utf8_2_no by lia. by rewrite Hwf.
  - destruct (utf8_4_lead a b c d Hwf) as [Ha _]. destruct (not_ascii a) as [Hn Hb]; [lia|].
    rewrite !string_app_cons, !string_app_nil_l. cbn [unquote].
    rewrite decide_False by done. rewrite Hn, utf8_2_no, utf8_3_no by lia. by rewrite Hwf.
  - reflexivity.
Qed.

Lemma unquote_quote s : unquote (quote_body s) = to_valid s.
Proof.
  unfold quote_body, to_valid. induction (runes_wf s) as [|r rs Hr _ IH]; [done|].
  cbn [foldr concat_bytes]. rewrite unquote_rune by done. by rewrite IH.
Qed.

(** ** Scanning what was printed *)

(** Bytes above ASCII do not leave a string. *)
Lemma scan_high c raw st s :
  128 ≤ byte_val c → scan (InString raw) st (String c s) = scan (InString (String c raw)) st s.
Proof.
  intros H. cbn [scan step].
  rewrite !(proj2 (Z.eqb_neq _ _)) by lia. by rewrite (proj2 (Z.ltb_ge _ _)) by lia.
Qed.

Lemma scan_ascii a raw st s :
  is_ascii a = true →
  scan (InString raw) st (quote_ascii a +:+ s) = scan (InString (String.rev_app (quote_ascii a) raw)) st s.
Proof. destruct a as [[] [] [] [] [] [] [] []]; try discriminate; reflexivity. Qed.

Lemma scan_rune r raw st s :
  wf_rune r →
  scan (InString raw) st (quote_rune r +:+ s) = scan (InString (String.rev_app (quote_rune r) raw)) st s.
Proof.
  destruct r as [a|a b|a b c|a b c d|]; intros Hwf; cbn [wf_rune quote_rune rune_bytes] in *.
  - by apply scan_ascii.
  - apply utf8_2_lead in Hwf as [Ha Hb]. rewrite !string_app_cons, !string_app_nil_l.
    by rewrite !scan_high by lia.
  - apply utf8_3_lead in Hwf as (Ha & Hb & Hc). destruct (_ && _) eqn:Hsep.
    + rewrite !andb_true_iff, orb_true_iff, !Z.eqb_eq in Hsep. destruct Hsep as [_ [-> | ->]]; reflexivity.
    + rewrite !string_app_cons, !string_app_nil_l. by rewrite !scan_high by lia.
  - apply utf8_4_lead in Hwf as (Ha & Hb & Hc & Hd). rewrite !string_app_cons, !string_app_nil_l.
    by rewrite !scan_high by lia.
  - reflexivity.
Qed.

Lemma scan_runes rs raw st s :
  Forall wf_rune rs →
  scan (InString raw) st (foldr (λ r s, quote_rune r +:+ s) "" rs +:+ s)
  = scan (InString (String.rev_app (foldr (λ r s, quote_rune r +:+ s) "" rs) raw)) st s.
Proof.
  intros H. revert raw. induction H as [|r rs Hr _ IH]; intros raw; [done|]. cbn [foldr].
  rewrite string_app_assoc, scan_rune by done. by rewrite IH, rev_app_app.
Qed.

(** What follows a complete value. *)
Definition after_value (r : step_result) (s : string) : option (json * string) :=
  match r with
  | More m st => scan m st s
  | Complete v _ => Some (v, s)
  | SyntaxError => None
  end.

(** The continuation of [scan] after a value whose last byte was read. *)
Lemma scan_delivered v st (s s' : string) :
  match deliver v true st with
  | More m st => scan m st s
  | Complete v true => Some (v, s)
  | Complete v false => Some (v, s')
  | SyntaxError => None
  end = after_value (deliver v true st) s.
Proof.
  destruct (deliver v true st) eqn:E; try done.
  unfold deliver in E. destruct st as [|[] ?]; simplify_eq; try done. by destruct v.
Qed.

Lemma scan_closing raw st s :
  scan (InString raw) st (String quote s) = after_value (deliver (JStr (unquote (string_rev raw))) true st) s.
Proof.
  cbn [scan step]. change (byte_val quote =? 34) with true. cbv iota. apply scan_delivered.
Qed.

Lemma scan_string_body s st tail :
  scan (InString "") st (quote_body s +:+ String quote tail)
  = after_value (deliver (JStr (to_valid s)) true st) tail.
Proof.
  unfold quote_body. rewrite scan_runes by apply runes_wf. fold (quote_body s).
  by rewrite scan_closing, string_rev_involutive, unquote_quote.
Qed.

(** A quoted string, as a value and as a key. *)
Lemma scan_quoted m s st tail :
  (m = BeginValue ∨ m = BeginValueOrEmpty ∨ m = BeginString ∨ m = BeginStringOrEmpty) →
  scan m st (Quote_json s +:+ tail) = after_value (deliver (JStr (to_valid s)) true st) tail.
Proof.
  intros Hm. unfold Quote_json. rewrite string_app_cons, string_app_assoc.
  rewrite string_app_cons, string_app_nil_l.
  transitivity (scan (InString "") st (quote_body s +:+ String quote tail)); [|apply scan_string_body].
  destruct_or! Hm; subst m; reflexivity.
Qed.

(** ** Numbers *)

Definition digits (s : string) : Prop := string_forall is_digit s = true.

(** The literals of the grammar that the encoder writes: an integer without leading
    zeros, a fraction, a signed exponent. *)
Definition int_part (s : string) : Prop :=
  s = "0" ∨ ∃ c r, s = String c r ∧ between 49 57 (byte_val c) = true ∧ digits r.
Definition frac_part (s : string) : Prop := s = "" ∨ ∃ r, s = String "." r ∧ r ≠ "" ∧ digits r.
Definition exp_part (s : string) : Prop :=
  s = "" ∨ ∃ sign r, s = String "e" (String sign r) ∧ (sign = "+"%char ∨ sign = "-"%char) ∧ r ≠ "" ∧ digits r.

Definition number (lit : string) : Prop :=
  ∃ sign i f e, lit = sign +:+ i +:+ f +:+ e ∧ (sign = "" ∨ sign = "-") ∧ int_part i ∧ frac_part f ∧ exp_part e.

(** A byte that ends a number. *)
Definition terminator (c : ascii) : bool :=
  let b := byte_val c in (b =? 44) || (b =? 93) || (b =? 125) || (b =? 10) || (b =? 32).

Lemma terminator_end c : terminator c = true →
  is_digit c = false ∧ (byte_val c =? 46) = false ∧ (byte_val c =? 101) || (byte_val c =? 69) = false.
Proof.
  unfold terminator, is_digit. rewrite !orb_true_iff, !Z.eqb_eq, between_false. intros H.
  split_and!; [lia|apply Z.eqb_neq; lia|]. apply orb_false_iff. split; apply Z.eqb_neq; lia.
Qed.

Lemma scan_number_end n raw st c s :
  (n = N0 ∨ n = N1 ∨ n = NDot0 ∨ n = NE0) → terminator c = true →
  scan (InNum n raw) st (String c s) = after_value (deliver (JNum (string_rev raw)) true st) (String c s).
Proof.
  intros Hn Hc. destruct (terminator_end c Hc) as (Hd & Hdot & He).
  assert (Hstep : step (InNum n raw) st c = end_number raw c st).
  { destruct_or! Hn; subst n; cbn [step in_number]; by rewrite ?Hd, ?Hdot, ?He. }
  cbn [scan]. rewrite Hstep. unfold end_number.
  destruct st as [|[l|ms|ms k|ms k|ms] st]; cbn [deliver]; try reflexivity.
Qed.

Lemma scan_digits n ds raw st s :
  (n = N1 ∨ n = NDot0 ∨ n = NE0) → digits ds →
  scan (InNum n raw) st (ds +:+ s) = scan (InNum n (String.rev_app ds raw)) st s.
Proof.
  intros Hn. unfold digits. revert raw. induction ds as [|c ds IH]; intros raw H; [done|].
  cbn [string_forall] in H. apply andb_true_iff in H as [Hc Hd].
  rewrite string_app_cons. cbn [scan step].
  transitivity (scan (InNum n (String c raw)) st (ds +:+ s)); [|by apply IH].
  destruct_or! Hn; subst n; cbn [in_number]; by rewrite Hc.
Qed.

Lemma string_rev_app a raw : string_rev (String.rev_app a raw) = string_rev raw +:+ a.
Proof. unfold string_rev, String.rev. by rewrite rev_app_rev_app, string_app_nil_r, rev_app_append. Qed.

Lemma string_rev_cons c raw : string_rev (String c raw) = string_rev raw +:+ String c "".
Proof. unfold string_rev, String.rev. cbn. by rewrite rev_app_append. Qed.

(** A run of digits that ends the literal. *)
Lemma scan_last_digits n m d r raw st c s :
  (m = NDot0 ∨ m = NE0) → (∀ raw c, is_digit c = true → step (InNum n raw) st c = More (InNum m (String c raw)) st) →
  digits (String d r) →
  scan (InNum n raw) st (String d r +:+ String c s)
  = scan (InNum m (String.rev_app (String d r) raw)) st (String c s).
Proof.
  intros Hm Hstep Hd. unfold digits in Hd. cbn [string_forall] in Hd. apply andb_true_iff in Hd as [Hd Hr].
  rewrite string_app_cons. cbn [scan]. rewrite Hstep by done. rewrite scan_digits by (by auto). done.
Qed.

Lemma scan_exp n raw e st c s :
  (n = N0 ∨ n = N1 ∨ n = NDot0) → exp_part e → terminator c = true →
  scan (InNum n raw) st (e +:+ String c s)
  = after_value (deliver (JNum (string_rev raw +:+ e)) true st) (String c s).
Proof.
  intros Hn He Hc. destruct He as [-> | (sign & r & -> & Hsign & Hr & Hd)].
  - rewrite string_app_nil_r, string_app_nil_l. apply scan_number_end; tauto.
  - destruct r as [|d r]; [done|]. rewrite !string_app_cons.
    transitivity (scan (InNum NESign (String sign (String "e" raw))) st (String d r +:+ String c s)).
    { rewrite string_app_cons. destruct_or! Hn; destruct Hsign as [-> | ->]; subst n; reflexivity. }
    rewrite (scan_last_digits NESign NE0); [|by right| |done].
    2: { intros raw' c' Hd'. cbn [step in_number]. by rewrite Hd'. }
    rewrite scan_number_end by tauto.
    by rewrite string_rev_app, !string_rev_cons, !string_app_assoc, !string_app_cons.
Qed.

Lemma scan_frac n raw f e st c s :
  (n = N0 ∨ n = N1) → frac_part f → exp_part e → terminator c = true →
  scan (InNum n raw) st (f +:+ e +:+ String c s)
  = after_value (deliver (JNum (string_rev raw +:+ f +:+ e)) true st) (String c s).
Proof.
  intros Hn Hf He Hc. destruct Hf as [-> | (r & -> & Hr & Hd)].
  - rewrite !string_app_nil_l. apply scan_exp; tauto.
  - destruct r as [|d r]; [done|].
    transitivity (scan (InNum NDot (String "." raw)) st (String d r +:+ (e +:+ String c s))).
    { rewrite !string_app_cons. destruct Hn as [-> | ->]; reflexivity. }
    unfold digits in Hd. cbn [string_forall] in Hd. apply andb_true_iff in Hd as [Hd Hr'].
    rewrite string_app_cons. cbn [scan step in_number]. rewrite Hd. rewrite scan_digits by tauto.
    rewrite scan_exp by tauto.
    by rewrite string_rev_app, !string_rev_cons, !string_app_assoc, !string_app_cons.
Qed.

Lemma scan_number lit st c s :
  number lit → terminator c = true →
  scan BeginValue st (lit +:+ String c s) = after_value (deliver (JNum lit) true st) (String c s).
Proof.
  intros (sign & i & f & e & -> & Hsign & Hi & Hf & He) Hc. rewrite !string_app_assoc.
  destruct Hi as [-> | (d & r & -> & Hd & Hr)].
  - transitivity (scan (InNum N0 (String "0" (string_rev sign))) st (f +:+ e +:+ String c s)).
    { destruct Hsign as [-> | ->]; reflexivity. }
    rewrite scan_frac by tauto. rewrite string_rev_cons. destruct Hsign as [-> | ->]; reflexivity.
  - transitivity (scan (InNum N1 (String d (string_rev sign))) st (r +:+ f +:+ e +:+ String c s)).
    { apply between_spec in Hd. assert (is_digit d = true) as Hdig by (apply between_spec; lia).
      destruct Hsign as [-> | ->]; rewrite ?string_app_nil_l, ?string_app_cons, ?string_app_nil_l.
      - cbn [scan step]. unfold begin_value, is_space. rewrite !(proj2 (Z.eqb_neq _ _)) by lia. cbn [orb].
        by rewrite (proj2 (between_spec 49 57 _)) by lia.
      - change (scan (InNum NNeg "-") st (String d (r +:+ f +:+ e +:+ String c s))
            = scan (InNum N1 (String d "-")) st (r +:+ f +:+ e +:+ String c s)).
        cbn [scan step in_number]. rewrite Hdig. by rewrite (proj2 (Z.eqb_neq _ _)) by lia. }
    rewrite scan_digits by tauto. rewrite scan_frac by tauto. rewrite string_rev_app, string_rev_cons.
    rewrite !string_app_assoc, !string_app_cons. destruct Hsign as [-> | ->]; reflexivity.
Qed.

Lemma fmt_u_int n : 0 ≤ n → int_part (fmt_u n).
Proof.
  intros Hn. destruct (decide (n = 0)) as [->|Hn0]; [by left|]. right.
  assert (0 < n) as Hpos by lia. pose proof (fmt_u_digits n Hn) as Hdig.
  destruct (fmt_digits_head _ n "" (conj Hpos (fmt_u_fuel n Hn))) as (d & rest & Hs & Hd).
  change (fmt_u n = String (digit_chr d) rest) in Hs. rewrite Hs in *. exists (digit_chr d), rest.
  cbn [string_forall] in Hdig. apply andb_true_iff in Hdig as [_ Hrest].
  split_and!; [done| |done]. rewrite byte_val_digit by lia. apply between_spec. lia.
Qed.

(** What [%d] prints. *)
Lemma fmt_d_number z : number (fmt_d z).
Proof.
  unfold fmt_d. destruct (Z.ltb_spec z 0).
  - exists "-", (fmt_u (- z)), "", "". rewrite !string_app_nil_r.
    split_and!; [done|tauto|apply fmt_u_int; lia|by left|by left].
  - exists "", (fmt_u z), "", "". rewrite !string_app_nil_r.
    split_and!; [done|tauto|by apply fmt_u_int|by left|by left].
Qed.

(** ** Values of bounded depth with integer numbers scan back *)

Fixpoint clean (v : json) : json :=
  match v with
  | JStr s => JStr (to_valid s)
  | JArr l => JArr (map clean l)
  | JObj ms => JObj (map (λ kv, let '(k, v) := kv in (to_valid k, clean v)) ms)
  | v => v
  end.

Inductive wf_json : nat → json → Prop :=
| wf_null d : wf_json d JNull
| wf_bool d b : wf_json d (JBool b)
| wf_num d lit : number lit → wf_json d (JNum lit)
| wf_str d s : wf_json d (JStr s)
| wf_arr d l : Forall (wf_json d) l → wf_json (S d) (JArr l)
| wf_obj d ms : Forall (λ kv : string * json, wf_json d kv.2) ms → wf_json (S d) (JObj ms).

Lemma number_head lit :
  number lit → ∃ c s, lit = String c s ∧ is_space c = false ∧ (byte_val c =? 93) = false.
Proof.
  intros (sign & i & f & e & -> & Hsign & Hi & _).
  destruct Hsign as [-> | ->]; [|by eexists _, _; rewrite string_app_cons].
  rewrite string_app_nil_l. destruct Hi as [-> | (c & r & -> & Hc & _)]; rewrite string_app_cons.
  - by eexists _, _.
  - exists c, (r +:+ f +:+ e). split; [done|]. apply between_spec in Hc. unfold is_space.
    rewrite !(proj2 (Z.eqb_neq _ _)) by lia. done.
Qed.

(** The white space of a layout: new lines and spaces. *)
Definition blank (s : string) : Prop := string_forall (λ c, (byte_val c =? 10) || (byte_val c =? 32)) s = true.

Lemma blank_cons c s : blank (String c s) → (byte_val c = 10 ∨ byte_val c = 32) ∧ blank s.
Proof.
  unfold blank. cbn [string_forall]. rewrite andb_true_iff, orb_true_iff, !Z.eqb_eq. done.
Qed.

(** White space is skipped before a value, a key and a separator. *)
Lemma scan_blank m st ws s :
  (m = BeginValue ∨ m = BeginValueOrEmpty ∨ m = BeginString ∨ m = BeginStringOrEmpty ∨ m = EndValue) →
  blank ws → scan m st (ws +:+ s) = scan m st s.
Proof.
  intros Hm. induction ws as [|c ws IH]; [done|]. intros [Hc Hws]%blank_cons.
  assert (is_space c = true) as Hsp.
  { unfold is_space. destruct Hc as [-> | ->]; done. }
  rewrite string_app_cons. cbn [scan].
  assert (step m st c = More m st) as ->; [|by apply IH].
  destruct_or! Hm; subst m; cbn [step]; unfold begin_value, end_value; by rewrite Hsp.
Qed.

(** A value followed by white space and a terminator is followed by a
    terminator. *)
Lemma blank_terminator ws c s :
  blank ws → terminator c = true → ∃ c' s', ws +:+ String c s = String c' s' ∧ terminator c' = true.
Proof.
  destruct ws as [|w ws]; [by eauto|]. intros [Hw _]%blank_cons _. rewrite string_app_cons.
  eexists _, _. split; [done|]. unfold terminator. destruct Hw as [-> | ->]; done.
Qed.

Section layout.
Context (nl : nat → string) (sp : string) (Hnl : ∀ d, blank (nl d)) (Hsp : blank sp).

Section containers.
Context (d : nat).
Context (IH : ∀ k v, wf_json d v → ∀ st c s, terminator c = true → (length st + d ≤ maxNestingDepth)%nat →
  scan BeginValue st (print_with nl sp k v +:+ String c s)
  = after_value (deliver (clean v) true st) (String c s)).

Lemma scan_value k v st ws c s :
  wf_json d v → blank ws → terminator c = true → (length st + d ≤ maxNestingDepth)%nat →
  scan BeginValue st (print_with nl sp k v +:+ ws +:+ String c s)
  = after_value (deliver (clean v) true st) (ws +:+ String c s).
Proof.
  intros Hv Hws Hc Hd. destruct (blank_terminator ws c s Hws Hc) as (c' & s' & -> & Hc'). by apply IH.
Qed.

Lemma scan_elements k v l acc st ws s :
  wf_json d v → Forall (wf_json d) l → blank ws → (S (length st) + d ≤ maxNestingDepth)%nat →
  scan BeginValue (FArr acc :: st)
    (Join (map (print_with nl sp k) (v :: l)) ("," +:+ nl k) +:+ ws +:+ String "]" s)
  = after_value (deliver (JArr (reverse acc ++ map clean (v :: l))) true st) s.
Proof.
  intros Hv Hl Hws Hd. revert v acc Hv. induction l as [|w l IHl]; intros v acc Hv.
  - cbn [map Join]. rewrite scan_value by done. cbn [deliver after_value]. rewrite scan_blank by tauto.
    cbn [scan step].
    change (end_value "]" (FArr (clean v :: acc) :: st))
      with (deliver (JArr (reverse (clean v :: acc))) true st).
    by rewrite reverse_cons, scan_delivered.
  - inversion_clear Hl as [|? ? Hw Hl'].
    change (Join (map (print_with nl sp k) (v :: w :: l)) ("," +:+ nl k))
      with (print_with nl sp k v +:+ ("," +:+ nl k) +:+ Join (map (print_with nl sp k) (w :: l)) ("," +:+ nl k)).
    rewrite !string_app_assoc. rewrite (string_app_cons "," ""), string_app_nil_l.
    rewrite IH by done. cbn [deliver after_value].
    change (scan EndValue (FArr (clean v :: acc) :: st) (String "," ?x))
      with (scan BeginValue (FArr (clean v :: acc) :: st) x).
    rewrite scan_blank by (by tauto || apply Hnl). rewrite IHl by done.
    do 3 f_equal. rewrite reverse_cons, <- app_assoc. done.
Qed.

Definition print_member (k : nat) (kv : string * json) : string :=
  let '(x, v) := kv in Quote_json x +:+ ":" +:+ sp +:+ print_with nl sp k v.

Lemma scan_member m k x v ms st ws c s :
  (m = BeginString ∨ m = BeginStringOrEmpty) → wf_json d v → blank ws → terminator c = true →
  (S (length st) + d ≤ maxNestingDepth)%nat →
  scan m (FKey ms :: st) (print_member k (x, v) +:+ ws +:+ String c s)
  = scan EndValue (FNext ((to_valid x, clean v) :: ms) :: st) (ws +:+ String c s).
Proof.
  intros Hm Hv Hws Hc Hd. unfold print_member. rewrite !string_app_assoc, scan_quoted by tauto.
  cbn [deliver after_value]. rewrite (string_app_cons ":" ""), string_app_nil_l.
  change (scan EndValue (FColon ms (to_valid x) :: st) (String ":" ?x'))
    with (scan BeginValue (FValue ms (to_valid x) :: st) x').
  rewrite scan_blank by (by tauto). by rewrite scan_value.
Qed.

Lemma scan_members m k kv l ms st ws s :
  (m = BeginString ∨ m = BeginStringOrEmpty) → blank ws →
  wf_json d kv.2 → Forall (λ kv : string * json, wf_json d kv.2) l → (S (length st) + d ≤ maxNestingDepth)%nat →
  scan m (FKey ms :: st) (Join (map (print_member k) (kv :: l)) ("," +:+ nl k) +:+ ws +:+ String "}" s)
  = after_value (deliver (JObj (reverse ms ++ map (λ kv, let '(k, v) := kv in (to_valid k, clean v)) (kv :: l)))
                   true st) s.
Proof.
  intros Hm Hws. revert m kv ms Hm. induction l as [|kw l IHl]; intros m [x v] ms Hm Hv Hl Hd.
  - cbn [map Join]. rewrite scan_member by done. rewrite scan_blank by tauto. cbn [scan step].
    change (end_value "}" (FNext ((to_valid x, clean v) :: ms) :: st))
      with (deliver (JObj (reverse ((to_valid x, clean v) :: ms))) true st).
    by rewrite reverse_cons, scan_delivered.
  - inversion_clear Hl as [|? ? Hw Hl'].
    change (Join (map (print_member k) ((x, v) :: kw :: l)) ("," +:+ nl k))
      with (print_member k (x, v) +:+ ("," +:+ nl k) +:+ Join (map (print_member k) (kw :: l)) ("," +:+ nl k)).
    rewrite !string_app_assoc. rewrite (string_app_cons "," ""), string_app_nil_l.
    rewrite <- (string_app_nil_l (String "," _)), scan_member by done. rewrite string_app_nil_l.
    change (scan EndValue (FNext ((to_valid x, clean v) :: ms) :: st) (String "," ?x'))
      with (scan BeginString (FKey ((to_valid x, clean v) :: ms) :: st) x').
    rewrite scan_blank by (by tauto || apply Hnl).
    rewrite IHl by (by left || done). do 3 f_equal. rewrite reverse_cons, <- app_assoc. done.
Qed.

(** The byte after the bracket that opens a non-empty array is no closing one. *)
Lemma print_head k v : wf_json d v →
  ∃ c s, print_with nl sp k v = String c s ∧ is_space c = false ∧ (byte_val c =? 93) = false.
Proof.
  destruct 1 as [d|d []|d lit Hlit|d s|d [] ?|d [] ?]; try (eexists _, _; split_and!; reflexivity).
  by apply number_head.
Qed.

Lemma scan_or_empty k v st s :
  wf_json d v →
  scan BeginValueOrEmpty st (print_with nl sp k v +:+ s) = scan BeginValue st (print_with nl sp k v +:+ s).
Proof.
  intros (c & r & -> & Hspc & Hb)%(print_head k). rewrite string_app_cons. cbn [scan step].
  by rewrite Hspc, Hb.
Qed.

Lemma scan_array k l st s :
  Forall (wf_json d) l → (length st + S d ≤ maxNestingDepth)%nat →
  scan BeginValue st (print_with nl sp k (JArr l) +:+ s) = after_value (deliver (clean (JArr l)) true st) s.
Proof.
  intros Hl Hd.
  assert (Hpush : ∀ x, scan BeginValue st (String "[" x) = scan BeginValueOrEmpty (FArr [] :: st) x).
  { intros x. cbn [scan step]. change (begin_value "[" st) with (push BeginValueOrEmpty (FArr []) st).
    unfold push. by rewrite decide_True by lia. }
  destruct Hl as [|w l Hw Hl].
  - change (print_with nl sp k (JArr []) +:+ s) with (String "[" (String "]" s)). rewrite Hpush.
    exact (scan_delivered (JArr []) st s (String "]" s)).
  - change (print_with nl sp k (JArr (w :: l))) with
      ("[" +:+ nl (S k) +:+ Join (map (print_with nl sp (S k)) (w :: l)) ("," +:+ nl (S k)) +:+ nl k +:+ "]").
    rewrite !string_app_assoc, (string_app_cons "[" ""), string_app_nil_l, Hpush.
    rewrite scan_blank by (by tauto || apply Hnl). rewrite (string_app_cons "]" ""), string_app_nil_l.
    transitivity (scan BeginValue (FArr [] :: st)
      (Join (map (print_with nl sp (S k)) (w :: l)) ("," +:+ nl (S k)) +:+ nl k +:+ String "]" s)).
    + destruct l as [|w' l]; [by eapply scan_or_empty|].
      change (Join (map (print_with nl sp (S k)) (w :: w' :: l)) ("," +:+ nl (S k)))
        with (print_with nl sp (S k) w +:+ ("," +:+ nl (S k))
              +:+ Join (map (print_with nl sp (S k)) (w' :: l)) ("," +:+ nl (S k))).
      rewrite !string_app_assoc. by eapply scan_or_empty.
    + rewrite scan_elements by (done || lia || apply Hnl). done.
Qed.

Lemma scan_object k ms st s :
  Forall (λ kv : string * json, wf_json d kv.2) ms → (length st + S d ≤ maxNestingDepth)%nat →
  scan BeginValue st (print_with nl sp k (JObj ms) +:+ s) = after_value (deliver (clean (JObj ms)) true st) s.
Proof.
  intros Hms Hd.
  assert (Hpush : ∀ x, scan BeginValue st (String "{" x) = scan BeginStringOrEmpty (FKey [] :: st) x).
  { intros x. cbn [scan step]. change (begin_value "{" st) with (push BeginStringOrEmpty (FKey []) st).
    unfold push. by rewrite decide_True by lia. }
  destruct Hms as [|kv l Hkv Hl].
  - change (print_with nl sp k (JObj []) +:+ s) with (String "{" (String "}" s)). rewrite Hpush.
    exact (scan_delivered (JObj []) st s (String "}" s)).
  - change (print_with nl sp k (JObj (kv :: l))) with
      ("{" +:+ nl (S k) +:+ Join (map (print_member (S k)) (kv :: l)) ("," +:+ nl (S k)) +:+ nl k +:+ "}").
    rewrite !string_app_assoc, (string_app_cons "{" ""), string_app_nil_l, Hpush.
    rewrite scan_blank by (by tauto || apply Hnl). rewrite (string_app_cons "}" ""), string_app_nil_l.
    rewrite scan_members by (done || lia || (by right) || apply Hnl). done.
Qed.
End containers.

Lemma scan_print d k v st c s :
  wf_json d v → terminator c = true → (length st + d ≤ maxNestingDepth)%nat →
  scan BeginValue st (print_with nl sp k v +:+ String c s)
  = after_value (deliver (clean v) true st) (String c s).
Proof.
  revert k v st c s. induction d as [d IHd] using lt_wf_ind. intros k v st c s Hv Hc Hd.
  destruct Hv as [d|d b|d lit Hlit|d x|d l Hl|d ms Hms].
  - exact (scan_delivered JNull st (String c s) (String "l" (String c s))).
  - destruct b; exact (scan_delivered _ st (String c s) (String "e" (String c s))).
  - by apply scan_number.
  - apply scan_quoted. by left.
  - apply (scan_array d); [intros; apply (IHd d); auto with lia|done|lia].
  - apply (scan_object d); [intros; apply (IHd d); auto with lia|done|lia].
Qed.

(** An object of any layout scans to itself, whatever follows it, with invalid
    UTF-8 replaced. *)
Lemma scan_printed d k ms s :
  Forall (λ kv : string * json, wf_json d kv.2) ms → (S d ≤ maxNestingDepth)%nat →
  scan BeginValue [] (print_with nl sp k (JObj ms) +:+ s) = Some (clean (JObj ms), s).
Proof.
  intros Hms Hd. rewrite (scan_object d); [done| |done|done]. intros. by apply (scan_print d).
Qed.
End layout.

(** ** Round trips *)

(** An object that [Marshal] wrote decodes to itself, whatever follows it. *)
Lemma decode_object d ms s :
  Forall (λ kv : string * json, wf_json d kv.2) ms → (S d ≤ maxNestingDepth)%nat →
  decode_value (print (JObj ms) +:+ s) = Some (clean (JObj ms)).
Proof. intros Hms Hd. unfold decode_value, print. by rewrite (scan_printed (λ _, "") "" (λ _, eq_refl) eq_refl d). Qed.

Lemma spaces_blank d : blank (spaces d).
Proof. induction d as [|d IH]; [done|]. unfold blank in *. cbn [spaces]. rewrite string_forall_app, IH. done. Qed.

(** An object that [MarshalIndent] wrote is unmarshalled to itself. *)
Lemma unmarshal_indented d ms :
  Forall (λ kv : string * json, wf_json d kv.2) ms → (S d ≤ maxNestingDepth)%nat →
  unmarshal_value (print_indent (JObj ms)) = Some (clean (JObj ms)).
Proof.
  intros Hms Hd. unfold unmarshal_value, print_indent.
  rewrite <- (string_app_nil_r (print_with _ _ _ _)).
  by rewrite (scan_printed newline " " spaces_blank eq_refl d).
Qed.

(** More input does not change a complete value, other than a number. *)
Lemma scan_more m st s t v rest :
  scan m st s = Some (v, rest) → (∀ lit, v ≠ JNum lit) → scan m st (s +:+ t) = Some (v, rest +:+ t).
Proof.
  intros H Hv. revert m st H. induction s as [|c s IH]; intros m st; cbn [scan].
  - destruct m as [| | | | |raw|raw|n raw|n raw|w v']; try done. destruct st; [|by destruct n].
    destruct n; try done; intros [= <- _]; by destruct (Hv (string_rev raw)).
  - rewrite string_app_cons. cbn [scan]. destruct (step m st c) as [m' st'|v' []|]; try done.
    + apply IH.
    + by intros [= <- <-].
    + intros [= <- <-]. by rewrite string_app_cons.
Qed.
