(* ===== verification/Wire.v ===== *)
(** * The HTTP protocol between the plug-in and the API server

    The bodies both sides exchange, as [encoding/json] encodes and decodes their
    structs: the request of client.go that createSandbox of
    internal/server/server.go decodes, and the responses that server.go writes
    and client.go decodes. *)

From Stdlib Require Import Ascii.
From S2P Require Import Prelude GoFmt GoStrings Sha256 Prog Api Kube Server Json.

Local Open Scope Z_scope.

(** ** Decoding into a struct *)

(** The case folding of field names: ASCII letters, and the two other code points
    that fold to one (U+017F and U+212A). *)
Fixpoint fold_name (s : string) : string :=
  match s with
  | EmptyString => EmptyString
  | String a s1 =>
      let upper := if between 97 122 (byte_val a) then byte_chr (byte_val a - 32) else a in
      match s1 with
      | String b s2 =>
          if (byte_val a =? 197) && (byte_val b =? 191) then String "S" (fold_name s2)
          else
            match s2 with
            | String c s3 =>
                if (byte_val a =? 226) && (byte_val b =? 132) && (byte_val c =? 170)
                then String "K" (fold_name s3) else String upper (fold_name s1)
            | EmptyString => String upper (fold_name s1)
            end
      | EmptyString => String upper (fold_name s1)
      end
  end.

(** A field of a struct [O]: its name and how a value is decoded into it; [None]
    is a type error. *)
Definition field (O : Type) : Type := string * (json → O → option O).

Fixpoint find_field {O} (test : string → bool) (fields : list (field O)) : option (field O) :=
  match fields with
  | [] => None
  | f :: fields => if test f.1 then Some f else find_field test fields
  end.

(** The field of a key: by its exact name, or else by its folded name. *)
Definition field_of {O} (fields : list (field O)) (key : string) : option (field O) :=
  match find_field (String.eqb key) fields with
  | Some f => Some f
  | None => find_field (λ name, String.eqb (fold_name key) (fold_name name)) fields
  end.

(** The members in order; unknown ones are ignored, and a type error makes the
    whole call fail in the end. *)
Fixpoint decode_members {O} (fields : list (field O)) (members : list (string * json)) (o : O) : option O :=
  match members with
  | [] => Some o
  | (key, v) :: members =>
      match field_of fields key with
      | None => decode_members fields members o
      | Some f => match f.2 v o with Some o => decode_members fields members o | None => None end
      end
  end.

Definition decode_struct {O} (fields : list (field O)) (v : json) (o : O) : option O :=
  match v with
  | JObj members => decode_members fields members o
  | JNull => Some o
  | _ => None
  end.

(** String and integer fields; [null] leaves a field as it is. *)
Definition string_field {O} (name : string) (set : string → O → O) : field O :=
  (name, λ v o, match v with JStr s => Some (set s o) | JNull => Some o | _ => None end).

Definition int_field {O} (name : string) (set : Z → O → O) : field O :=
  (name, λ v o, match v with
                | JNum lit => match ParseInt10 lit with Ok z => Some (set z o) | Err _ => None end
                | JNull => Some o
                | _ => None
                end).

(** ** The request *)

Definition workload_fields : list (field WorkloadReference) :=
  [string_field "namespace" (λ s o, mk_WorkloadReference s o.(wr_Name) o.(wr_UID));
   string_field "name" (λ s o, mk_WorkloadReference o.(wr_Namespace) s o.(wr_UID));
   string_field "uid" (λ s o, mk_WorkloadReference o.(wr_Namespace) o.(wr_Name) s)].

Definition request_fields : list (field createSandboxRequest) :=
  [("workloadRef", λ v o,
      (λ w, mk_createSandboxRequest w o.(rq_SandboxID) o.(rq_UserData) o.(rq_VCPUs) o.(rq_MemoryMiB) o.(rq_Arch))
      <$> decode_struct workload_fields v o.(rq_WorkloadRef));
   string_field "sandboxID" (λ s o,
      mk_createSandboxRequest o.(rq_WorkloadRef) s o.(rq_UserData) o.(rq_VCPUs) o.(rq_MemoryMiB) o.(rq_Arch));
   string_field "userData" (λ s o,
      mk_createSandboxRequest o.(rq_WorkloadRef) o.(rq_SandboxID) s o.(rq_VCPUs) o.(rq_MemoryMiB) o.(rq_Arch));
   int_field "vcpus" (λ z o,
      mk_createSandboxRequest o.(rq_WorkloadRef) o.(rq_SandboxID) o.(rq_UserData) z o.(rq_MemoryMiB) o.(rq_Arch));
   int_field "memoryMiB" (λ z o,
      mk_createSandboxRequest o.(rq_WorkloadRef) o.(rq_SandboxID) o.(rq_UserData) o.(rq_VCPUs) z o.(rq_Arch));
   string_field "arch" (λ s o,
      mk_createSandboxRequest o.(rq_WorkloadRef) o.(rq_SandboxID) o.(rq_UserData) o.(rq_VCPUs) o.(rq_MemoryMiB) s)].

Definition empty_request : createSandboxRequest :=
  mk_createSandboxRequest (mk_WorkloadReference "" "" "") "" "" 0 0 "".

(** [http.MaxBytesReader]: the decoder sees at most [n] bytes. *)
Fixpoint max_bytes (n : Z) (s : string) : string :=
  match s with
  | EmptyString => EmptyString
  | String c s => if n <=? 0 then EmptyString else String c (max_bytes (n - 1) s)
  end.

(** [json.NewDecoder(http.MaxBytesReader(w, r.Body, 1<<20)).Decode(&request)]. *)
Definition decode_request (body : string) : result go_error createSandboxRequest :=
  match decode_value (max_bytes (2 ^ 20) body) with
  | None => Err (ErrorsNew "invalid JSON")
  | Some v =>
      match decode_struct request_fields v empty_request with
      | Some request => Ok request
      | None => Err (ErrorsNew "cannot unmarshal JSON value")
      end
  end.

(** A member that [omitempty] leaves out, and one it does not. *)
Definition omit_string (name s : string) : list (string * json) :=
  if String.eqb s "" then [] else [(name, JStr s)].
Definition omit_int (name : string) (z : Z) : list (string * json) :=
  if z =? 0 then [] else [(name, JNum (fmt_d z))].

Definition workload_members (w : WorkloadReference) : list (string * json) :=
  omit_string "namespace" w.(wr_Namespace) ++ [("name", JStr w.(wr_Name))] ++ omit_string "uid" w.(wr_UID).

Definition request_members (r : createSandboxRequest) : list (string * json) :=
  [("workloadRef", JObj (workload_members r.(rq_WorkloadRef)));
   ("sandboxID", JStr r.(rq_SandboxID));
   ("userData", JStr r.(rq_UserData))]
  ++ omit_int "vcpus" r.(rq_VCPUs) ++ omit_int "memoryMiB" r.(rq_MemoryMiB) ++ omit_string "arch" r.(rq_Arch).

(** [json.Marshal(request)] of the client. *)
Definition marshal_request (r : createSandboxRequest) : string := print (JObj (request_members r)).

(** ** The responses *)

(** [writeJSON] of the server: [Encode] ends the body with a newline. A slice that
    is not empty is an array, a [nil] slice is [null]. *)
Definition strings_json (l : list string) : json :=
  match l with [] => JNull | _ => JArr (map JStr l) end.

Definition encode_json (v : json) : string := print v +:+ String (byte_chr 10) "".

Definition encode_sandbox (s : sandboxResponse) : string :=
  encode_json (JObj [("id", JStr s.(rs_ID)); ("name", JStr s.(rs_Name)); ("ips", strings_json s.(rs_IPs))]).

Definition encode_config (networkMTU : Z) : string :=
  encode_json (JObj [("networkMTU", JNum (fmt_d networkMTU))]).

(** A fresh [[]string]: a [null] element is the empty string. *)
Fixpoint decode_strings (l : list json) : option (list string) :=
  match l with
  | [] => Some []
  | JStr s :: l => (λ r, s :: r) <$> decode_strings l
  | JNull :: l => (λ r, "" :: r) <$> decode_strings l
  | _ => None
  end.

Definition sandbox_fields : list (field sandboxResponse) :=
  [string_field "id" (λ s o, mk_sandboxResponse s o.(rs_Name) o.(rs_IPs));
   string_field "name" (λ s o, mk_sandboxResponse o.(rs_ID) s o.(rs_IPs));
   ("ips", λ v o, match v with
                  | JArr l => (λ ips, mk_sandboxResponse o.(rs_ID) o.(rs_Name) ips) <$> decode_strings l
                  | JNull => Some (mk_sandboxResponse o.(rs_ID) o.(rs_Name) [])
                  | _ => None
                  end)].

(** [json.NewDecoder(resp.Body).Decode(result)] of the client. *)
Definition decode_into {O} (fields : list (field O)) (zero : O) (body : string) : option O :=
  match decode_value body with Some v => decode_struct fields v zero | None => None end.

Definition decode_sandbox (body : string) : option sandboxResponse :=
  decode_into sandbox_fields (mk_sandboxResponse "" "" []) body.

Definition decode_config (body : string) : option Z :=
  decode_into [int_field "networkMTU" (λ z _, z)] 0 body.

(** ** Lemmas *)

Lemma max_bytes_all n s : Z.of_nat (String.length s) ≤ n → max_bytes n s = s.
Proof.
  revert n. induction s as [|c s IH]; intros n H; [done|]. cbn [max_bytes String.length] in *.
  destruct (Z.leb_spec n 0); [lia|]. by rewrite IH by lia.
Qed.

Lemma shallow : (2 ≤ maxNestingDepth)%nat.
Proof. apply Nat.leb_le. vm_compute. reflexivity. Qed.

(** The strings and numbers of a request that a Go client can send unchanged. *)
Definition sendable (r : createSandboxRequest) : Prop :=
  Forall (λ s, valid_utf8 s = true)
    [r.(rq_WorkloadRef).(wr_Namespace); r.(rq_WorkloadRef).(wr_Name); r.(rq_WorkloadRef).(wr_UID);
     r.(rq_SandboxID); r.(rq_UserData); r.(rq_Arch)]
  ∧ in_int64 r.(rq_VCPUs) ∧ in_int64 r.(rq_MemoryMiB).

Lemma omit_string_wf d name s : Forall (λ kv : string * json, wf_json d kv.2) (omit_string name s).
Proof. unfold omit_string. case_match; repeat constructor. Qed.

Lemma omit_int_wf d name z : Forall (λ kv : string * json, wf_json d kv.2) (omit_int name z).
Proof. unfold omit_int. case_match; [constructor|]. constructor; [apply wf_num, fmt_d_number|constructor]. Qed.

Lemma request_members_wf r : Forall (λ kv : string * json, wf_json 1 kv.2) (request_members r).
Proof.
  unfold request_members, workload_members.
  repeat first [apply Forall_app; split | apply omit_string_wf | apply omit_int_wf | constructor].
Qed.

(** Decoding a member of a known field. *)
Lemma decode_omit_string {O} (fields : list (field O)) name set s members o :
  field_of fields name = Some (string_field name set) → (s = "" → set s o = o) →
  decode_members fields (omit_string name s ++ members) o = decode_members fields members (set s o).
Proof.
  intros Hf Hs. unfold omit_string. destruct (String.eqb_spec s "") as [->|]; [by rewrite Hs|].
  cbn [app decode_members]. by rewrite Hf.
Qed.

Lemma decode_omit_int {O} (fields : list (field O)) name set z members o :
  field_of fields name = Some (int_field name set) → in_int64 z → (z = 0 → set z o = o) →
  decode_members fields (omit_int name z ++ members) o = decode_members fields members (set z o).
Proof.
  intros Hf Hz Hs. unfold omit_int. destruct (Z.eqb_spec z 0) as [->|]; [by rewrite Hs|].
  cbn [app decode_members]. rewrite Hf. cbn. by rewrite parse10_fmt_d.
Qed.

Lemma decode_workload w :
  decode_struct workload_fields (JObj (workload_members w)) (mk_WorkloadReference "" "" "") = Some w.
Proof.
  cbn [decode_struct]. unfold workload_members.
  erewrite decode_omit_string; [|reflexivity|by intros ->]. cbn -[omit_string].
  rewrite <- (app_nil_r (omit_string "uid" _)).
  erewrite decode_omit_string; [|reflexivity|by intros ->]. by destruct w.
Qed.

Lemma decode_member {O} (fields : list (field O)) k v f members o o' :
  field_of fields k = Some f → f.2 v o = Some o' →
  decode_members fields ((k, v) :: members) o = decode_members fields members o'.
Proof. intros Hf Hv. cbn [decode_members]. by rewrite Hf, Hv. Qed.

Lemma decode_request_members r :
  in_int64 r.(rq_VCPUs) → in_int64 r.(rq_MemoryMiB) →
  decode_struct request_fields (JObj (request_members r)) empty_request = Some r.
Proof.
  intros Hv Hm. unfold decode_struct, request_members. cbn [app].
  erewrite decode_member; [|reflexivity|cbn [snd]; by rewrite decode_workload].
  erewrite decode_member; [|reflexivity|reflexivity].
  erewrite decode_member; [|reflexivity|reflexivity].
  erewrite decode_omit_int; [|reflexivity|done|by intros ->].
  erewrite decode_omit_int; [|reflexivity|done|by intros ->].
  rewrite <- (app_nil_r (omit_string "arch" _)).
  erewrite decode_omit_string; [|reflexivity|by intros ->]. by destruct r.
Qed.

(** Strings that are valid are sent as they are. *)
Lemma clean_omit_string name s :
  valid_utf8 name = true → valid_utf8 s = true →
  map (λ kv, let '(k, v) := kv in (to_valid k, clean v)) (omit_string name s) = omit_string name s.
Proof.
  intros Hn Hs. unfold omit_string. case_match; [done|]. cbn. by rewrite !to_valid_id.
Qed.

Lemma clean_omit_int name z :
  valid_utf8 name = true →
  map (λ kv, let '(k, v) := kv in (to_valid k, clean v)) (omit_int name z) = omit_int name z.
Proof. intros Hn. unfold omit_int. case_match; [done|]. cbn. by rewrite to_valid_id. Qed.

Lemma clean_request r :
  sendable r → clean (JObj (request_members r)) = JObj (request_members r).
Proof.
  intros [Hs _]. rewrite !Forall_cons in Hs. destruct Hs as (H1 & H2 & H3 & H4 & H5 & H6 & _).
  unfold request_members, workload_members. cbn [clean]. rewrite !map_app. cbn [map clean].
  rewrite !map_app. cbn [map clean].
  rewrite !clean_omit_string, !clean_omit_int by done. rewrite !(to_valid_id _) by done. reflexivity.
Qed.

Lemma sandbox_members_wf s :
  Forall (λ kv : string * json, wf_json 1 kv.2)
    [("id", JStr s.(rs_ID)); ("name", JStr s.(rs_Name)); ("ips", strings_json s.(rs_IPs))].
Proof.
  repeat constructor. cbn. unfold strings_json. destruct (rs_IPs s) as [|ip l]; [constructor|].
  constructor. apply Forall_forall. intros v Hv. apply list_elem_of_In, in_map_iff in Hv as (x & <- & _).
  constructor.
Qed.

(** The client decodes a sandbox to what the server encoded, with invalid UTF-8
    replaced. *)
Definition clean_response (s : sandboxResponse) : sandboxResponse :=
  mk_sandboxResponse (to_valid s.(rs_ID)) (to_valid s.(rs_Name)) (map to_valid s.(rs_IPs)).

Lemma decode_strings_clean l : decode_strings (map clean (map JStr l)) = Some (map to_valid l).
Proof. induction l as [|x l IH]; [done|]. cbn. by rewrite IH. Qed.

Lemma decode_encoded_sandbox s : decode_sandbox (encode_sandbox s) = Some (clean_response s).
Proof.
  unfold decode_sandbox, decode_into, encode_sandbox, encode_json.
  rewrite (decode_object 1) by (apply sandbox_members_wf || apply shallow).
  cbn [clean map]. rewrite !(to_valid_id _) by done.
  unfold decode_struct. do 2 (erewrite decode_member; [|reflexivity|reflexivity]).
  destruct s as [id name [|ip l]]; [reflexivity|].
  erewrite decode_member; [|reflexivity|].
  2: { unfold strings_json, rs_IPs. cbn [snd clean]. rewrite decode_strings_clean. reflexivity. }
  reflexivity.
Qed.

Lemma clean_response_id s :
  Forall (λ x, valid_utf8 x = true) (s.(rs_ID) :: s.(rs_Name) :: s.(rs_IPs)) → clean_response s = s.
Proof.
  rewrite !Forall_cons. intros (H1 & H2 & H3). destruct s as [id name ips]. unfold clean_response.
  cbn [rs_ID rs_Name rs_IPs] in *.
  rewrite !to_valid_id by done. f_equal. induction H3 as [|x l Hx _ IH]; [done|]. cbn [map]. by rewrite to_valid_id, IH.
Qed.

Lemma decode_struct_int name z :
  to_valid name = name → in_int64 z →
  decode_struct [int_field name (λ z _, z)] (JObj [(to_valid name, JNum (fmt_d z))]) 0 = Some z.
Proof.
  intros -> Hz. unfold decode_struct, decode_members, field_of. cbn [find_field int_field fst].
  rewrite String.eqb_refl. cbn -[ParseInt10 fmt_d]. by rewrite parse10_fmt_d.
Qed.

(** A body that is cut off, where it is decoded at all, is decoded to what was
    sent. *)
Lemma max_bytes_prefix n s : ∃ t, s = max_bytes n s +:+ t.
Proof.
  revert n. induction s as [|c s IH]; intros n; [by exists ""|]. cbn [max_bytes]. destruct (n <=? 0).
  - by exists (String c s).
  - destruct (IH (n - 1)) as [t Ht]. exists t. rewrite string_app_cons. by rewrite <- Ht.
Qed.

Lemma decode_sent r r' : sendable r → decode_request (marshal_request r) = Ok r' → r' = r.
Proof.
  intros Hr. unfold decode_request, decode_value.
  destruct (scan BeginValue [] _) as [[v rest]|] eqn:E; [|done]. cbn.
  destruct (decode_struct request_fields v empty_request) as [r''|] eqn:Hd; [|done]. intros [= <-].
  assert (Hv : ∀ lit, v ≠ JNum lit) by (intros lit ->; done).
  destruct (max_bytes_prefix (2 ^ 20) (marshal_request r)) as [t Ht].
  apply (scan_more _ _ _ t) in E; [|done]. rewrite <- Ht in E.
  pose proof (decode_object 1 (request_members r) "" (request_members_wf r) shallow) as Hdec.
  rewrite string_app_nil_r, clean_request in Hdec by done. unfold decode_value in Hdec.
  unfold marshal_request in E. rewrite E in Hdec. injection Hdec as ->.
  rewrite decode_request_members in Hd by apply Hr. by injection Hd.
Qed.

(** ** Properties *)

(** C20. Requests arrive. A request of a Go client, whose strings are valid UTF-8
    and whose body is at most 1 MiB, is decoded by the server to that very
    request. *)
Theorem request_round_trip r :
  sendable r → Z.of_nat (String.length (marshal_request r)) ≤ 2 ^ 20 →
  decode_request (marshal_request r) = Ok r.
Proof.
  intros Hr Hlen. unfold decode_request. rewrite max_bytes_all by done.
  unfold marshal_request. rewrite <- (string_app_nil_r (print _)).
  rewrite (decode_object 1) by (apply request_members_wf || apply shallow).
  rewrite clean_request by done. rewrite decode_request_members by apply Hr. done.
Qed.

(** C37. Responses arrive. The sandbox and the configuration the server writes are
    decoded by the client to themselves, when their strings are valid UTF-8 and
    the MTU is a machine integer. *)
Theorem response_round_trip s mtu :
  Forall (λ x, valid_utf8 x = true) (s.(rs_ID) :: s.(rs_Name) :: s.(rs_IPs)) → in_int64 mtu →
  decode_sandbox (encode_sandbox s) = Some s ∧ decode_config (encode_config mtu) = Some mtu.
Proof.
  intros Hs Hmtu. split.
  - by rewrite decode_encoded_sandbox, clean_response_id.
  - unfold decode_config, decode_into, encode_config, encode_json.
    rewrite (decode_object 1) by (first [exact shallow | constructor; [apply wf_num, fmt_d_number|constructor]]).
    cbn [clean map]. erewrite decode_struct_int; done.
Qed.

(** ** Witnesses *)

Definition wire_request : createSandboxRequest :=
  mk_createSandboxRequest (mk_WorkloadReference "apps" "api-7d9c" "") "sandbox-id"
    ("#cloud-config" +:+ String (byte_chr 10) "run: <a> & b" +:+ String (byte_chr 195) (String (byte_chr 169) ""))
    2 0 "".

Lemma request_round_trip_witness : decode_request (marshal_request wire_request) = Ok wire_request.
Proof.
  assert (Hs : sendable wire_request)
    by (split; [repeat constructor | split; split; vm_compute; discriminate]).
  assert (Hl : Z.of_nat (String.length (marshal_request wire_request)) ≤ 2 ^ 20)
    by (vm_compute; discriminate).
  exact (request_round_trip wire_request Hs Hl).
Defined.

Lemma response_round_trip_witness :
  decode_sandbox (encode_sandbox (mk_sandboxResponse "psb-1" "api-7d9c" ["10.90.0.8"]))
  = Some (mk_sandboxResponse "psb-1" "api-7d9c" ["10.90.0.8"]).
Proof.
  assert (Hs : Forall (λ x, valid_utf8 x = true) ["psb-1"; "api-7d9c"; "10.90.0.8"]) by (repeat constructor).
  assert (Hm : in_int64 1400) by (split; vm_compute; discriminate).
  exact (proj1 (response_round_trip (mk_sandboxResponse "psb-1" "api-7d9c" ["10.90.0.8"]) 1400 Hs Hm)).
Defined.
