(* ===== verification/Url.v ===== *)
(** * URLs: what the plug-in and the server use of Go's [net/url]

    [url.Parse] and [ParseRequestURI], [URL.String], [EscapedPath],
    [RequestURI], [PathEscape] and [PathUnescape], as functions on byte strings.
    The text of their errors is not modelled. Hosts are parsed as for the schemes
    http and https, where a host has at most one colon outside brackets; the
    plug-in refuses other schemes whatever their host is. *)

From Stdlib Require Import Ascii.
From S2P Require Import Prelude GoFmt GoStrings GoNet.

Local Open Scope Z_scope.

(** ** Escaping *)

Inductive encoding : Type :=
| encodePath | encodePathSegment | encodeHost | encodeZone | encodeUserPassword | encodeFragment.

Definition is_alnum (c : ascii) : bool :=
  let b := byte_val c in between 97 122 b || between 65 90 b || between 48 57 b.

Definition shouldEscape (c : ascii) (mode : encoding) : bool :=
  let within l := contains_char c l in
  if is_alnum c || within "-_.~" then false
  else
    match mode with
    | encodeHost | encodeZone => negb (within "!$&'()*+,;=:[]<>" || (byte_val c =? 34))
    | encodePath => negb (within "$&+,/:;=@")
    | encodePathSegment => negb (within "$&+:=@")
    | encodeUserPassword => negb (within "$&+,;=")
    | encodeFragment => negb (within "$&+,/:;=?@!()*")
    end.

Definition upper_hex (d : Z) : ascii := if d <? 10 then byte_chr (48 + d) else byte_chr (55 + d).

Fixpoint escape (s : string) (mode : encoding) : string :=
  match s with
  | EmptyString => EmptyString
  | String c s =>
      if shouldEscape c mode
      then String "%" (String (upper_hex (byte_val c / 16))
                         (String (upper_hex (byte_val c mod 16)) (escape s mode)))
      else String c (escape s mode)
  end.

Definition unhex (c : ascii) : Z :=
  let b := byte_val c in
  if between 48 57 b then b - 48 else if between 97 102 b then b - 87 else b - 55.

(** What a [%] and the two digits after it may stand for in a host or a zone. *)
Definition escape_allowed (a b : ascii) (mode : encoding) : bool :=
  let percent := bool_decide (a = "2"%char ∧ b = "5"%char) in
  let v := byte_chr (16 * unhex a + unhex b) in
  match mode with
  | encodeHost => negb (unhex a <? 8) || percent
  | encodeZone => percent || bool_decide (v = " "%char) || negb (shouldEscape v encodeHost)
  | _ => true
  end.

Definition byte_allowed (c : ascii) (mode : encoding) : bool :=
  match mode with
  | encodeHost | encodeZone => negb ((byte_val c <? 128) && shouldEscape c mode)
  | _ => true
  end.

Fixpoint unescape (s : string) (mode : encoding) : option string :=
  match s with
  | EmptyString => Some EmptyString
  | String c s =>
      if decide (c = "%"%char) then
        match s with
        | String a (String b s) =>
            if is_hexdigit a && is_hexdigit b && escape_allowed a b mode
            then String (byte_chr (16 * unhex a + unhex b)) <$> unescape s mode
            else None
        | _ => None
        end
      else if byte_allowed c mode then String c <$> unescape s mode else None
  end.

Definition PathEscape (s : string) : string := escape s encodePathSegment.

(** ** Parsing *)

Record URL : Type := mk_URL {
  Scheme : string;
  Opaque : string;
  User : option (string * option string);
  Host : string;
  Path : string;
  RawPath : string;
  OmitHost : bool;
  ForceQuery : bool;
  RawQuery : string;
  Fragment : string;
  RawFragment : string;
}.

Definition empty_URL : URL := mk_URL "" "" None "" "" "" false false "" "" "".

(** [strings.Cut] by one byte: what precedes and what follows the first one. *)
Fixpoint cut (sep : ascii) (s : string) : option (string * string) :=
  match s with
  | EmptyString => None
  | String c s =>
      if decide (c = sep) then Some (EmptyString, s)
      else match cut sep s with Some (a, b) => Some (String c a, b) | None => None end
  end.

(** The same by the last one ([strings.LastIndex]). *)
Fixpoint cut_last (sep : ascii) (s : string) : option (string * string) :=
  match s with
  | EmptyString => None
  | String c s =>
      match cut_last sep s with
      | Some (a, b) => Some (String c a, b)
      | None => if decide (c = sep) then Some (EmptyString, s) else None
      end
  end.

(** [getScheme]: [None] for an empty scheme before a colon. *)
Fixpoint scheme_go (first : bool) (s : string) : option (string * string) :=
  match s with
  | EmptyString => None
  | String c s =>
      let b := byte_val c in
      if between 97 122 b || between 65 90 b
         || (negb first && (between 48 57 b || contains_char c "+-."))
      then match scheme_go false s with Some (a, r) => Some (String c a, r) | None => None end
      else if decide (c = ":"%char) then Some (EmptyString, s) else None
  end.

Definition getScheme (rawURL : string) : option (string * string) :=
  match scheme_go true rawURL with
  | Some (EmptyString, _) => None
  | Some (scheme, rest) => Some (scheme, rest)
  | None => Some (EmptyString, rawURL)
  end.

Fixpoint ToLower (s : string) : string :=
  match s with
  | EmptyString => EmptyString
  | String c s =>
      String (if between 65 90 (byte_val c) then byte_chr (byte_val c + 32) else c) (ToLower s)
  end.

(** [validOptionalPort]: nothing, or a colon and digits. *)
Definition validOptionalPort (port : string) : bool :=
  match port with
  | EmptyString => true
  | String c s => bool_decide (c = ":"%char) && string_forall (λ c, between 48 57 (byte_val c)) s
  end.

(** What precedes and what follows the first [%25]. *)
Fixpoint cut_zone (s : string) : option (string * string) :=
  match strip_prefix "%25" s with
  | Some _ => Some (EmptyString, s)
  | None =>
      match s with
      | EmptyString => None
      | String c s => match cut_zone s with Some (a, b) => Some (String c a, b) | None => None end
      end
  end.

(** An address in brackets. *)
Definition parse_ip_literal (literal : string) : option string :=
  let text :=
    match cut_zone literal with
    | Some (h, z) =>
        match unescape h encodeHost, unescape z encodeZone with
        | Some h, Some z => Some (h +:+ z)
        | _, _ => None
        end
    | None => unescape literal encodeHost
    end in
  match text with
  | Some text => if ParseAddr_ok text && bool_decide (ip_family text = Some true) then Some text else None
  | None => None
  end.

Definition parseHost (host : string) : option string :=
  match strip_prefix "[" host with
  | Some inner =>
      match cut_last "]" inner with
      | None => None
      | Some (literal, port) =>
          if validOptionalPort port
          then match parse_ip_literal literal with
               | Some text => Some ("[" +:+ text +:+ "]" +:+ port)
               | None => None
               end
          else None
      end
  | None =>
      match cut ":" host with
      | Some (_, port) =>
          if validOptionalPort (String ":" port) then unescape host encodeHost else None
      | None => unescape host encodeHost
      end
  end.

Definition valid_user_byte (c : ascii) : bool := is_alnum c || contains_char c "-._:~!$&'()*+,;=%@".

Definition parse_user (userinfo : string) : option (string * option string) :=
  if negb (string_forall valid_user_byte userinfo) then None
  else
    match cut ":" userinfo with
    | None => (λ u, (u, None)) <$> unescape userinfo encodeUserPassword
    | Some (u, p) =>
        match unescape u encodeUserPassword, unescape p encodeUserPassword with
        | Some u, Some p => Some (u, Some p)
        | _, _ => None
        end
    end.

Definition parseAuthority (authority : string) : option (option (string * option string) * string) :=
  match cut_last "@" authority with
  | None => (λ h, (None, h)) <$> parseHost authority
  | Some (userinfo, host) =>
      match parseHost host, parse_user userinfo with
      | Some host, Some user => Some (Some user, host)
      | _, _ => None
      end
  end.

(** [setPath]: the raw path is kept when it is not the default encoding. *)
Definition setPath (u : URL) (p : string) : option URL :=
  match unescape p encodePath with
  | None => None
  | Some path =>
      let raw := if String.eqb (escape path encodePath) p then "" else p in
      Some (mk_URL u.(Scheme) u.(Opaque) u.(User) u.(Host) path raw u.(OmitHost)
              u.(ForceQuery) u.(RawQuery) u.(Fragment) u.(RawFragment))
  end.

Definition setFragment (u : URL) (f : string) : option URL :=
  match unescape f encodeFragment with
  | None => None
  | Some frag =>
      let raw := if String.eqb (escape frag encodeFragment) f then "" else f in
      Some (mk_URL u.(Scheme) u.(Opaque) u.(User) u.(Host) u.(Path) u.(RawPath) u.(OmitHost)
              u.(ForceQuery) u.(RawQuery) frag raw)
  end.

Definition is_control (c : ascii) : bool := (byte_val c <? 32) || (byte_val c =? 127).

Definition HasPrefix (s p : string) : bool := bool_decide (is_Some (strip_prefix p s)).

(** The query: a lone [?] at the end is remembered. *)
Definition cut_query (rest : string) : string * bool * string :=
  match cut "?" rest with
  | None => (rest, false, "")
  | Some (r, EmptyString) => (r, true, "")
  | Some (r, q) => (r, false, q)
  end.

(** The part after scheme and query: authority and path. *)
Definition parse_rest (viaRequest : bool) (u : URL) (rest : string) : option URL :=
  match strip_prefix "//" rest with
  | Some after =>
      if negb (String.eqb u.(Scheme) "") || (negb viaRequest && negb (HasPrefix rest "///"))
      then
        let '(authority, path) :=
          match cut "/" after with Some (a, p) => (a, String "/" p) | None => (after, "") end in
        match parseAuthority authority with
        | None => None
        | Some (user, host) =>
            setPath (mk_URL u.(Scheme) "" user host "" "" false u.(ForceQuery) u.(RawQuery) "" "") path
        end
      else setPath u rest
  | None =>
      setPath (mk_URL u.(Scheme) "" None "" "" ""
                 (negb (String.eqb u.(Scheme) "") && HasPrefix rest "/")
                 u.(ForceQuery) u.(RawQuery) "" "") rest
  end.

(** [parse]; [viaRequest] for a request line. *)
Definition parse (rawURL : string) (viaRequest : bool) : option URL :=
  if negb (string_forall (λ c, negb (is_control c)) rawURL) then None
  else if String.eqb rawURL "" && viaRequest then None
  else if String.eqb rawURL "*"
  then Some (mk_URL "" "" None "" "*" "" false false "" "" "")
  else
    match getScheme rawURL with
    | None => None
    | Some (scheme, rest) =>
        let scheme := ToLower scheme in
        let '(rest, force, query) := cut_query rest in
        let u := mk_URL scheme "" None "" "" "" false force query "" "" in
        if HasPrefix rest "/" then parse_rest viaRequest u rest
        else if negb (String.eqb scheme "")
        then Some (mk_URL scheme rest None "" "" "" false force query "" "")
        else if viaRequest then None
        else if contains_char ":" (before "/" rest) then None
        else parse_rest viaRequest u rest
    end.

Definition Parse (rawURL : string) : option URL :=
  match cut "#" rawURL with
  | None => parse rawURL false
  | Some (u, frag) =>
      match parse u false with
      | None => None
      | Some url => if String.eqb frag "" then Some url else setFragment url frag
      end
  end.

(** ** Printing *)

Definition validEncoded (s : string) (mode : encoding) : bool :=
  string_forall (λ c, contains_char c "!$&'()*+,;=:@[]%" || negb (shouldEscape c mode)) s.

Definition EscapedPath (u : URL) : string :=
  if negb (String.eqb u.(RawPath) "") && validEncoded u.(RawPath) encodePath
     && bool_decide (unescape u.(RawPath) encodePath = Some u.(Path))
  then u.(RawPath)
  else if String.eqb u.(Path) "*" then "*" else escape u.(Path) encodePath.

Definition EscapedFragment (u : URL) : string :=
  if negb (String.eqb u.(RawFragment) "") && validEncoded u.(RawFragment) encodeFragment
     && bool_decide (unescape u.(RawFragment) encodeFragment = Some u.(Fragment))
  then u.(RawFragment) else escape u.(Fragment) encodeFragment.

Definition user_String (user : string * option string) : string :=
  escape user.1 encodeUserPassword
  +:+ match user.2 with Some p => ":" +:+ escape p encodeUserPassword | None => "" end.

(** Scheme and authority, as [String] writes them. *)
Definition authority_String (u : URL) : string :=
  if String.eqb u.(Scheme) "" && String.eqb u.(Host) "" && bool_decide (u.(User) = None) then ""
  else if u.(OmitHost) && String.eqb u.(Host) "" && bool_decide (u.(User) = None) then ""
  else
    (if negb (String.eqb u.(Host) "") || negb (String.eqb u.(Path) "") || bool_decide (is_Some u.(User))
     then "//" else "")
    +:+ match u.(User) with Some user => user_String user +:+ "@" | None => "" end
    +:+ escape u.(Host) encodeHost.

Definition query_String (u : URL) : string :=
  if u.(ForceQuery) || negb (String.eqb u.(RawQuery) "") then "?" +:+ u.(RawQuery) else "".

(** [URL.String]. *)
Definition URL_String (u : URL) : string :=
  let scheme := if String.eqb u.(Scheme) "" then "" else u.(Scheme) +:+ ":" in
  let body :=
    if negb (String.eqb u.(Opaque) "") then scheme +:+ u.(Opaque)
    else
      let start := scheme +:+ authority_String u in
      let path := EscapedPath u in
      let slash := if negb (String.eqb path "") && negb (HasPrefix path "/") && negb (String.eqb u.(Host) "")
                   then "/" else "" in
      let dot := if String.eqb (start +:+ slash) "" && contains_char ":" (before "/" path) then "./" else "" in
      start +:+ slash +:+ dot +:+ path in
  body +:+ query_String u
  +:+ (if String.eqb u.(Fragment) "" then "" else "#" +:+ EscapedFragment u).

(** [URL.RequestURI]: what stands in the request line. *)
Definition RequestURI (u : URL) : string :=
  let result :=
    if String.eqb u.(Opaque) ""
    then let p := EscapedPath u in if String.eqb p "" then "/" else p
    else if HasPrefix u.(Opaque) "//" then u.(Scheme) +:+ ":" +:+ u.(Opaque) else u.(Opaque) in
  result +:+ query_String u.

(** ** The server's side of a request line *)

(** The segments [ServeMux] matches: those of the escaped path, each unescaped
    where it can be. *)
Definition mux_segments (u : URL) : list string :=
  match Split (EscapedPath u) "/" with
  | [] => []
  | _ :: segments => map (λ s, default s (unescape s encodePathSegment)) segments
  end.

Definition request_segments (requestURI : string) : option (list string) :=
  mux_segments <$> parse requestURI true.

Example Parse_examples :
  (URL_String <$> Parse "http://pod-sandbox-api.system.svc:8080/base/?a#b%2fc")
    = Some "http://pod-sandbox-api.system.svc:8080/base/?a#b%2fc"
  ∧ (Host <$> Parse "https://u:p@[fd00::1%25eth0]:8443") = Some "[fd00::1%eth0]:8443"
  ∧ (RawPath <$> Parse "http://h/a%2Fb") = Some "/a%2Fb"
  ∧ map Parse ["http://[::1"; "http://h:80:80/"; "http://h:x"; ":x"; "http://h/%zz"; "http://h%41/"]
    = repeat None 6
  ∧ (Scheme <$> Parse "host:8080/x") = Some "host"
  ∧ request_segments "/v1/sandboxes/a%2520b" = Some ["v1"; "sandboxes"; "a%20b"].
Proof. by vm_compute. Qed.

(** ** Lemmas *)

Lemma upper_hex_val d : 0 ≤ d < 16 → unhex (upper_hex d) = d ∧ is_hexdigit (upper_hex d) = true.
Proof.
  intros Hd. unfold upper_hex. destruct (Z.ltb_spec d 10).
  - unfold unhex, is_hexdigit. rewrite byte_val_chr by lia.
    rewrite (proj2 (between_spec 48 57 _)) by lia. split; [lia|done].
  - unfold unhex, is_hexdigit. rewrite byte_val_chr by lia.
    rewrite (proj2 (between_false 48 57 _)), (proj2 (between_false 97 102 _)) by lia.
    rewrite (proj2 (between_spec 65 70 _)) by lia. split; [lia|done].
Qed.

(** In these modes every byte can stand for itself or be escaped. *)
Definition lax (mode : encoding) : bool :=
  match mode with encodeHost | encodeZone => false | _ => true end.

Lemma percent_escaped mode : shouldEscape "%" mode = true.
Proof. by destruct mode. Qed.

Lemma unescape_escape s mode : lax mode = true → unescape (escape s mode) mode = Some s.
Proof.
  intros Hm. assert (∀ a b, escape_allowed a b mode = true) as Hab by (intros; by destruct mode).
  assert (∀ c, byte_allowed c mode = true) as Hc by (intros; by destruct mode).
  induction s as [|c s IH]; [done|]. cbn [escape]. destruct (shouldEscape c mode) eqn:He.
  - destruct (byte_nibbles c) as [H1 H2]. cbn [unescape].
    destruct (upper_hex_val _ H1) as [-> ->], (upper_hex_val _ H2) as [-> ->].
    rewrite Hab, IH. cbn. rewrite <- Z.div_mod by lia. by rewrite byte_chr_val.
  - cbn [unescape]. rewrite decide_False by (intros ->; by rewrite percent_escaped in He).
    by rewrite Hc, IH.
Qed.

(** Bytes that are left alone. *)
Definition unreserved (c : ascii) : bool := is_alnum c || contains_char c "-_.~".

Lemma escape_id P s mode :
  (∀ c, P c = true → shouldEscape c mode = false) → string_forall P s = true → escape s mode = s.
Proof.
  intros HP. induction s as [|c s IH]; [done|]. cbn [string_forall escape].
  intros [Hc Hs]%andb_true_iff. by rewrite HP, IH.
Qed.

Lemma unreserved_kept c mode : unreserved c = true → shouldEscape c mode = false.
Proof. unfold unreserved, shouldEscape. intros H. cbv zeta. by rewrite H. Qed.

Lemma PathEscape_id s : string_forall unreserved s = true → PathEscape s = s.
Proof. apply escape_id. intros c. apply unreserved_kept. Qed.

(** Escaped bytes. *)
Lemma escape_chars (P : ascii → bool) s mode :
  P "%"%char = true → (∀ d, 0 ≤ d < 16 → P (upper_hex d) = true) →
  (∀ c, shouldEscape c mode = false → P c = true) → string_forall P (escape s mode) = true.
Proof.
  intros Hp Hx Hc. induction s as [|c s IH]; [done|]. cbn [escape].
  destruct (shouldEscape c mode) eqn:He; cbn [string_forall].
  - destruct (byte_nibbles c) as [H1 H2]. by rewrite Hp, !Hx, IH.
  - by rewrite Hc, IH.
Qed.

Lemma escape_app a b mode : escape (a +:+ b) mode = escape a mode +:+ escape b mode.
Proof.
  induction a as [|c a IH]; [done|]. rewrite string_app_cons. cbn [escape].
  case_match; rewrite IH; by rewrite ?string_app_cons.
Qed.

(** ** Cutting *)

Lemma cut_none sep s : contains_char sep s = false → cut sep s = None.
Proof.
  induction s as [|c s IH]; [done|]. cbn. destruct (decide (c = sep)); [done|]. intros H. by rewrite IH.
Qed.

Lemma cut_last_none sep s : contains_char sep s = false → cut_last sep s = None.
Proof.
  induction s as [|c s IH]; [done|]. cbn. destruct (decide (c = sep)); [done|]. intros H. by rewrite IH.
Qed.

Lemma cut_app sep a b : contains_char sep a = false → cut sep (a +:+ String sep b) = Some (a, b).
Proof.
  induction a as [|c a IH]; intros H.
  - change (cut sep (String sep b) = Some ("", b)). cbn [cut]. by destruct (decide (sep = sep)).
  - rewrite string_app_cons. cbn [cut contains_char] in *.
    destruct (decide (c = sep)); [done|]. by rewrite IH.
Qed.

Lemma HasPrefix_cons c s : HasPrefix (String c s) (String c "") = true.
Proof.
  apply bool_decide_eq_true_2. change (String c s) with (String c "" +:+ s).
  rewrite strip_prefix_app. by eexists.
Qed.

(** ** Plain endpoints: an http or https URL without user, query and fragment *)

Definition plain_host (host : string) : bool :=
  negb (String.eqb host "") && string_forall unreserved (before ":" host)
  && match cut ":" host with
     | None => true
     | Some (_, port) => string_forall (λ c, between 48 57 (byte_val c)) port
     end.

(** Bytes of a path that parses to itself. *)
Definition path_byte (c : ascii) : bool := unreserved c || bool_decide (c = "/"%char).
Definition plain_path (p : string) : bool :=
  string_forall path_byte p && (String.eqb p "" || HasPrefix p "/").

Definition is_http (scheme : string) : bool := String.eqb scheme "http" || String.eqb scheme "https".

(** The bytes of a plain host. *)
Definition host_byte (c : ascii) : bool := unreserved c || bool_decide (c = ":"%char).

Lemma cut_spec sep s a b : cut sep s = Some (a, b) → s = a +:+ String sep b ∧ before sep s = a.
Proof.
  revert a. induction s as [|c s IH]; intros a; [done|]. cbn. destruct (decide (c = sep)) as [->|].
  - intros [= <- <-]. done.
  - destruct (cut sep s) as [[a' b']|]; [|done]. intros [= <- <-]. destruct (IH a' eq_refl) as [Hs Hb].
    rewrite string_app_cons. split; congruence.
Qed.

Lemma before_all sep s : cut sep s = None → before sep s = s.
Proof.
  induction s as [|c s IH]; [done|]. cbn. destruct (decide (c = sep)); [done|].
  destruct (cut sep s) as [[??]|]; [done|]. intros _. by rewrite IH.
Qed.

Lemma plain_host_bytes host : plain_host host = true → string_forall host_byte host = true ∧ host ≠ "".
Proof.
  unfold plain_host. rewrite !andb_true_iff, negb_true_iff, String.eqb_neq. intros [[Hne Hb] Hp].
  split; [|done]. destruct (cut ":" host) as [[a b]|] eqn:Hc.
  - apply cut_spec in Hc as [-> Ha]. rewrite Ha in Hb. rewrite string_forall_app. cbn [string_forall].
    apply andb_true_iff. split; [|apply andb_true_iff; split; [done|]].
    + revert Hb. apply string_forall_impl. intros c Hc. unfold host_byte. by rewrite Hc.
    + revert Hp. apply string_forall_impl. intros c Hd. unfold host_byte, unreserved, is_alnum. rewrite Hd.
      by rewrite !orb_true_r.
  - rewrite before_all in Hb by done. revert Hb. apply string_forall_impl.
    intros c Hd. unfold host_byte. by rewrite Hd.
Qed.

Lemma host_byte_kept c : host_byte c = true → shouldEscape c encodeHost = false.
Proof.
  unfold host_byte. rewrite orb_true_iff. intros [H|H%bool_decide_eq_true]; [by apply unreserved_kept|by subst].
Qed.

Lemma unescape_host host : string_forall host_byte host = true → unescape host encodeHost = Some host.
Proof.
  induction host as [|c s IH]; [done|]. cbn [string_forall unescape]. intros [Hc Hs]%andb_true_iff.
  rewrite decide_False by (by intros ->). unfold byte_allowed.
  by rewrite host_byte_kept, andb_false_r, IH.
Qed.

Lemma parseAuthority_plain host : plain_host host = true → parseAuthority host = Some (None, host).
Proof.
  intros Hh. destruct (plain_host_bytes host Hh) as [Hb Hne]. unfold parseAuthority.
  rewrite cut_last_none by (by apply (string_forall_not_contains host_byte)).
  unfold parseHost. assert (strip_prefix "[" host = None) as ->.
  { destruct host as [|c s]; [done|]. cbn [string_forall] in Hb. apply andb_true_iff in Hb as [Hc _].
    cbn [strip_prefix]. by destruct (decide ("["%char = c)) as [<-|]. }
  rewrite unescape_host by done. unfold plain_host in Hh. rewrite !andb_true_iff in Hh.
  destruct Hh as [_ Hp]. destruct (cut ":" host) as [[a b]|]; [|done].
  cbn [validOptionalPort]. by rewrite Hp.
Qed.

(** The bytes of an escaped path. *)
Definition escaped_byte (c : ascii) : bool := negb (shouldEscape c encodePath) || bool_decide (c = "%"%char).

Lemma upper_hex_unreserved d : 0 ≤ d < 16 → unreserved (upper_hex d) = true.
Proof.
  intros Hd. unfold unreserved, is_alnum. unfold upper_hex. destruct (Z.ltb_spec d 10).
  - rewrite byte_val_chr by lia. rewrite (proj2 (between_spec 48 57 _)) by lia. by rewrite !orb_true_r.
  - rewrite byte_val_chr by lia. rewrite (proj2 (between_spec 65 90 _)) by lia. by rewrite !orb_true_r.
Qed.

Lemma escaped_path_bytes p : string_forall escaped_byte (escape p encodePath) = true.
Proof.
  apply escape_chars; [done| |].
  - intros d Hd. unfold escaped_byte. by rewrite unreserved_kept by (by apply upper_hex_unreserved).
  - intros c Hc. unfold escaped_byte. by rewrite Hc.
Qed.

Lemma escaped_not_control c : escaped_byte c = true → is_control c = false.
Proof. destruct c as [[] [] [] [] [] [] [] []]; vm_compute; done. Qed.

Lemma host_byte_escaped c : host_byte c = true → escaped_byte c = true.
Proof. destruct c as [[] [] [] [] [] [] [] []]; vm_compute; done. Qed.

(** Parsing a plain URL, with any path in its default encoding. *)
Lemma Parse_plain scheme host p :
  is_http scheme = true → plain_host host = true → (p = "" ∨ ∃ q, p = String "/" q) →
  Parse (scheme +:+ "://" +:+ host +:+ escape p encodePath)
  = Some (mk_URL scheme "" None host p "" false false "" "" "").
Proof.
  intros Hs Hh Hp. destruct (plain_host_bytes host Hh) as [Hb _].
  pose proof (escaped_path_bytes p) as He.
  assert (Hall : string_forall escaped_byte (host +:+ escape p encodePath) = true).
  { rewrite string_forall_app, He, andb_true_r. revert Hb. apply string_forall_impl, host_byte_escaped. }
  assert (Hrest : string_forall escaped_byte ("//" +:+ host +:+ escape p encodePath) = true)
    by (rewrite string_forall_app; exact Hall).
  assert (Hraw : string_forall escaped_byte (scheme +:+ "://" +:+ host +:+ escape p encodePath) = true).
  { unfold is_http in Hs. apply orb_true_iff in Hs as [->%String.eqb_eq | ->%String.eqb_eq]; exact Hall. }
  unfold Parse. rewrite cut_none by (by apply (string_forall_not_contains escaped_byte)).
  unfold parse. rewrite (string_forall_impl escaped_byte _ _ (λ c H, eq_trans (f_equal negb (escaped_not_control c H)) eq_refl) Hraw).
  cbn [negb].
  assert (Hsch : getScheme (scheme +:+ "://" +:+ host +:+ escape p encodePath)
                 = Some (scheme, "//" +:+ host +:+ escape p encodePath) ∧ ToLower scheme = scheme
                 ∧ String.eqb scheme "" = false
                 ∧ String.eqb (scheme +:+ "://" +:+ host +:+ escape p encodePath) "" = false
                 ∧ String.eqb (scheme +:+ "://" +:+ host +:+ escape p encodePath) "*" = false).
  { unfold is_http in Hs. apply orb_true_iff in Hs as [->%String.eqb_eq | ->%String.eqb_eq]; done. }
  destruct Hsch as (-> & -> & Hne & -> & ->). cbn [andb].
  unfold cut_query. rewrite cut_none by (by apply (string_forall_not_contains escaped_byte)).
  change ("//" +:+ host +:+ escape p encodePath) with (String "/" (String "/" (host +:+ escape p encodePath))).
  rewrite HasPrefix_cons. unfold parse_rest.
  change (String "/" (String "/" (host +:+ escape p encodePath))) with ("//" +:+ (host +:+ escape p encodePath)).
  rewrite strip_prefix_app. cbn [Scheme]. rewrite Hne. cbn [negb orb].
  assert (contains_char "/" host = false) as Hnoslash by (by apply (string_forall_not_contains host_byte)).
  assert (match cut "/" (host +:+ escape p encodePath) with
          | Some (a, p) => (a, String "/" p) | None => (host +:+ escape p encodePath, "") end
          = (host, escape p encodePath)) as ->.
  { destruct Hp as [-> | (q & ->)].
    - cbn [escape]. rewrite string_app_nil_r. by rewrite cut_none.
    - change (escape (String "/" q) encodePath) with (String "/" (escape q encodePath)). by rewrite cut_app. }
  rewrite parseAuthority_plain by done. unfold setPath.
  rewrite unescape_escape by done. by rewrite String.eqb_refl.
Qed.

(** Printing one. *)
Lemma String_plain scheme host p :
  is_http scheme = true → plain_host host = true → (∃ q, p = String "/" q) →
  URL_String (mk_URL scheme "" None host p "" false false "" "" "")
  = scheme +:+ "://" +:+ host +:+ escape p encodePath.
Proof.
  intros Hs Hh (q & ->). destruct (plain_host_bytes host Hh) as [Hb Hne].
  assert (escape host encodeHost = host) as Hesc by (by apply (escape_id host_byte); [apply host_byte_kept|]).
  apply String.eqb_neq in Hne.
  unfold URL_String.
  change (EscapedPath _) with (String "/" (escape q encodePath)).
  change (escape (String "/" q) encodePath) with (String "/" (escape q encodePath)).
  rewrite HasPrefix_cons. unfold authority_String.
  cbn [Scheme Opaque User Host Path OmitHost Fragment].
  rewrite Hne, Hesc.
  unfold is_http in Hs. apply orb_true_iff in Hs as [->%String.eqb_eq | ->%String.eqb_eq]; cbn -[String.append];
    rewrite ?string_app_nil_r; repeat (rewrite ?string_app_assoc, ?string_app_cons, ?string_app_nil_l); done.
Qed.

(** ** Segments *)

(** A path's slashes are not escaped, and an escaped byte has none. *)
Lemma Split_escape p : Split (escape p encodePath) "/" = map (λ s, escape s encodePath) (Split p "/").
Proof.
  induction p as [|c p IH]; [done|]. rewrite Split_cons. destruct (decide (c = "/"%char)) as [->|Hc].
  - change (escape (String "/" p) encodePath) with (String "/" (escape p encodePath)).
    rewrite Split_cons. rewrite decide_True by done. by rewrite IH.
  - change (String c p) with (String c "" +:+ p). rewrite escape_app.
    rewrite Split_app_plain, IH.
    { destruct (Split p "/") as [|x l]; [done|]. cbn [map]. rewrite <- escape_app. done. }
    apply (string_forall_not_contains (λ d, bool_decide (d ≠ "/"%char))); [done|].
    cbn [escape]. destruct (shouldEscape c encodePath).
    + destruct (byte_nibbles c) as [H1 H2].
      assert (∀ d, 0 ≤ d < 16 → bool_decide (upper_hex d ≠ "/"%char) = true) as Hx.
      { intros d Hd. apply bool_decide_eq_true_2. intros E. apply upper_hex_unreserved in Hd. by rewrite E in Hd. }
      cbn [string_forall]. rewrite !Hx by done. done.
    + cbn [string_forall]. by rewrite bool_decide_eq_true_2.
Qed.

Lemma unescape_lax s m1 m2 : lax m1 = true → lax m2 = true → unescape s m1 = unescape s m2.
Proof.
  intros H1 H2. assert (∀ a b, escape_allowed a b m1 = escape_allowed a b m2) as Ha
    by (intros; by destruct m1, m2).
  assert (∀ c, byte_allowed c m1 = byte_allowed c m2) as Hb by (intros; by destruct m1, m2).
  induction s as [s IH] using string_len_ind. destruct s as [|c s]; [done|]. cbn [unescape].
  destruct (decide (c = "%"%char)).
  - destruct s as [|a [|b s]]; try done. rewrite Ha, (IH s) by (cbn; lia). done.
  - by rewrite Hb, (IH s) by (cbn; lia).
Qed.

(** The server sees the segments of the path the client set. *)
Lemma request_segments_path q :
  request_segments (escape (String "/" q) encodePath) = Some (Split q "/").
Proof.
  set (e := escape (String "/" q) encodePath).
  assert (He : e = String "/" (escape q encodePath)) by reflexivity.
  pose proof (escaped_path_bytes (String "/" q)) as Hb. fold e in Hb.
  assert (Hparse : parse e true = Some (mk_URL "" "" None "" (String "/" q) "" false false "" "" "")).
  { unfold parse.
    rewrite (string_forall_impl escaped_byte _ _ (λ c H, eq_trans (f_equal negb (escaped_not_control c H)) eq_refl) Hb).
    cbn [negb]. assert (String.eqb e "" = false ∧ String.eqb e "*" = false ∧ getScheme e = Some ("", e))
      as (-> & -> & ->) by done.
    cbn [andb]. unfold cut_query. rewrite cut_none by (by apply (string_forall_not_contains escaped_byte)).
    assert (HasPrefix e "/" = true) as Hpre by (rewrite He; apply HasPrefix_cons).
    rewrite Hpre. unfold parse_rest, setPath. rewrite Hpre.
    assert (unescape e encodePath = Some (String "/" q)) as -> by (by apply unescape_escape).
    destruct (strip_prefix "//" e); cbn -[escape]; fold e; rewrite String.eqb_refl; reflexivity. }
  unfold request_segments. rewrite Hparse. cbn [fmap option_fmap option_map]. unfold mux_segments.
  change (EscapedPath _) with e. subst e. rewrite Split_escape, Split_cons. rewrite decide_True by done.
  cbn [map]. f_equal. rewrite map_map. induction (Split q "/") as [|x l IH]; [done|]. cbn [map].
  rewrite (unescape_lax _ encodePathSegment encodePath) by done.
  rewrite unescape_escape by done. cbn. by rewrite IH.
Qed.
