(* ===== verification/GoFloat.v ===== *)
(** * [float64]: what the plug-in uses of Go's floating-point numbers

    A [float64] is a [spec_float] of the Standard Library, with 53 bits of
    precision. [ParseFloat] of a decimal literal rounds the exact value to the
    nearest [float64]; [json_float] is the encoding of encoding/json, the shortest
    decimal that parses back; [to_int64] is the conversion to [int]. *)

From Stdlib Require Import Ascii SpecFloat.
From S2P Require Import Prelude GoFmt GoStrings Json.

Local Open Scope Z_scope.

Definition float64 : Type := spec_float.

#[export] Instance float64_eq_dec : EqDecision float64.
Proof. unfold float64. solve_decision. Defined.

Definition prec : Z := 53.
Definition emax : Z := 1024.

(** ** Decimals *)

Definition decimal_digits (d : Z) : Z := Z.of_nat (String.length (fmt_u d)).

Definition finite (f : float64) : option float64 :=
  match f with S754_zero _ | S754_finite _ _ _ => Some f | _ => None end.

(** The [float64] nearest to [d * 10 ^ e]; [None] is a range error. Values of more
    than 310 digits overflow and those below 10^-330 round to zero, whatever the
    digits are, so that no power is computed for them. *)
Definition float_of_decimal (neg : bool) (d e : Z) : option float64 :=
  match d with
  | Z.pos m =>
      if 310 <? decimal_digits d + e then None
      else if decimal_digits d + e <? -330 then Some (S754_zero neg)
      else if 0 <=? e
      then finite (binary_round prec emax neg (Z.to_pos (d * 10 ^ e)) 0)
      else
        let '(mz, ez, lz) := SFdiv_core_binary prec emax d 0 (10 ^ (- e)) 0 in
        finite (binary_round_aux prec emax neg mz ez lz)
  | _ => Some (S754_zero neg)
  end.

(** ** Parsing a literal the JSON scanner accepted *)

(** Digits from [acc] on; the number of digits read; what follows. *)
Fixpoint read_digits (s : string) (acc n : Z) : Z * Z * string :=
  match s with
  | String c rest =>
      match digit_val c with
      | Some d => read_digits rest (acc * 10 + d) (n + 1)
      | None => (acc, n, s)
      end
  | EmptyString => (acc, n, s)
  end.

Definition read_exponent (s : string) : option Z :=
  match s with
  | EmptyString => Some 0
  | String c s =>
      if (byte_val c =? 101) || (byte_val c =? 69) then
        let '(neg, s) :=
          match strip_prefix "-" s with
          | Some s => (true, s)
          | None => (false, TrimPrefix s "+")
          end in
        let '(e, n, rest) := read_digits s 0 0 in
        if (n =? 0) || negb (String.eqb rest "") then None else Some (if neg then - e else e)
      else None
  end.

Definition ParseFloat (s : string) : option float64 :=
  let '(neg, s) := match strip_prefix "-" s with Some s => (true, s) | None => (false, s) end in
  let '(d, n, s) := read_digits s 0 0 in
  let '(d, frac, s) := match strip_prefix "." s with Some s => read_digits s d 0 | None => (d, 0, s) end in
  if n =? 0 then None
  else
    match read_exponent s with
    | Some e => float_of_decimal neg d (e - frac)
    | None => None
    end.

(** ** The shortest decimal *)

(** A positive [m * 2 ^ e] as a fraction. *)
Definition fraction (m : positive) (e : Z) : Z * Z :=
  if 0 <=? e then (Z.pos m * 2 ^ e, 1) else (Z.pos m, 2 ^ (- e)).

(** The [k] with [10 ^ (k - 1) <= num / den < 10 ^ k]. *)
Fixpoint small_exponent (fuel : nat) (num den k : Z) : Z :=
  match fuel with
  | O => k
  | S fuel => if den <=? num then k else small_exponent fuel (num * 10) den (k - 1)
  end.

Definition decimal_exponent (num den : Z) : Z :=
  if den <=? num then decimal_digits (num / den) else small_exponent 400 num den 1.

(** A decimal of [n] digits whose first digit stands for [10 ^ (k - 1)]; ten to the
    [n] is written with one digit. *)
Definition scaled (k n d : Z) : Z * Z := if d =? 10 ^ n then (1, k) else (d, k - n).

(** The decimals of [n] digits next to the value, the closest first. *)
Definition candidates (num den k n : Z) : list (Z * Z) :=
  let num := if k <=? n then num * 10 ^ (n - k) else num in
  let den := if k <=? n then den else den * 10 ^ (k - n) in
  let q := num / den in
  let r := num mod den in
  map (scaled k n)
    (if r =? 0 then [q]
     else if (2 * r <? den) || ((2 * r =? den) && Z.even q) then [q; q + 1] else [q + 1; q]).

Definition parses_back (f : float64) (c : Z * Z) : bool :=
  bool_decide (float_of_decimal false c.1 c.2 = Some f).

(** The first decimal that parses back, by its number of digits; seventeen always
    suffice. *)
Fixpoint shortest_go (fuel : nat) (f : float64) (num den k n : Z) : option (Z * Z) :=
  match fuel with
  | O => None
  | S fuel =>
      match List.find (parses_back f) (candidates num den k n) with
      | Some c => Some c
      | None => shortest_go fuel f num den k (n + 1)
      end
  end.

Definition shortest (m : positive) (e : Z) : option (Z * Z) :=
  let '(num, den) := fraction m e in
  shortest_go 17 (S754_finite false m e) num den (decimal_exponent num den) 1.

(** ** Encoding *)

Fixpoint zeros (n : nat) : string := match n with O => "" | S n => String "0" (zeros n) end.

(** [%f] with the digits of the shortest decimal [d * 10 ^ e]. *)
Definition format_f (d e : Z) : string :=
  let digits := fmt_u d in
  let dp := decimal_digits d + e in
  if 0 <=? e then digits +:+ zeros (Z.to_nat e)
  else if 0 <? dp
  then String.substring 0 (Z.to_nat dp) digits +:+ "."
       +:+ String.substring (Z.to_nat dp) (Z.to_nat (- e)) digits
  else "0." +:+ zeros (Z.to_nat (- dp)) +:+ digits.

(** [%e], with the exponent as encoding/json cleans it up. *)
Definition format_e (d e : Z) : string :=
  let digits := fmt_u d in
  let x := decimal_digits d + e - 1 in
  let tail := String.substring 1 (Nat.pred (String.length digits)) digits in
  String.substring 0 1 digits +:+ (if String.eqb tail "" then "" else "." +:+ tail)
  +:+ (if x <? 0 then "e-" else "e+") +:+ fmt_u (Z.abs x).

Definition one_millionth : float64 := default (S754_zero false) (float_of_decimal false 1 (-6)).
Definition ten_to_21 : float64 := default (S754_zero false) (float_of_decimal false 1 21).

(** The encoding of a number; [None] for infinities and NaN, which encoding/json
    refuses. *)
Definition json_float (f : float64) : option string :=
  match f with
  | S754_zero s => Some (if s then "-0" else "0")
  | S754_finite s m e =>
      let sign := if s then "-" else "" in
      let abs := S754_finite false m e in
      match shortest m e with
      | Some (d, x) =>
          Some (sign +:+ if SFltb abs one_millionth || SFleb ten_to_21 abs
                         then format_e d x else format_f d x)
      | None => None
      end
  | _ => None
  end.

(** ** Conversion to [int] *)

Definition truncate (f : float64) : Z :=
  match f with
  | S754_finite s m e => let '(num, den) := fraction m e in if s then - (num / den) else num / den
  | _ => 0
  end.

(** A value that [int] cannot hold converts to an implementation-dependent one. *)
Definition to_int64 (other : float64 → Z) (f : float64) : Z :=
  if between (- 2 ^ 63) (2 ^ 63 - 1) (truncate f) then truncate f else other f.

Definition reencode (s : string) : option string :=
  match ParseFloat s with Some f => json_float f | None => None end.

Example json_float_examples :
  map reencode ["1500"; "0"; "-0"; "1450.5"; "1e3"; "0.1"; "1e21"; "123456789012345678901"; "0.0000001";
                "-2.5E-3"; "5e-324"; "1.7976931348623157e308"; "9007199254740993"; "1e-400"]
  = map Some ["1500"; "0"; "-0"; "1450.5"; "1000"; "0.1"; "1e+21"; "123456789012345680000"; "1e-7";
              "-0.0025"; "5e-324"; "1.7976931348623157e+308"; "9007199254740992"; "0"]
  ∧ map reencode ["1e400"; "1.8e308"] = [None; None]
  ∧ map (λ s, truncate (default (S754_zero false) (ParseFloat s))) ["1450.9"; "-3.5"; "1e3"] = [1450; -3; 1000].
Proof. by vm_compute. Qed.

(** ** Lemmas: an encoded number is a JSON number and parses back *)

(** The value of a string of digits. *)
Fixpoint digits_value (acc : Z) (s : string) : Z :=
  match s with
  | EmptyString => acc
  | String c s => digits_value (acc * 10 + (byte_val c - 48)) s
  end.

(** A string that does not go on with a digit. *)
Definition stops (s : string) : Prop := match s with EmptyString => True | String c _ => is_digit c = false end.

Lemma read_digits_app ds tail acc n :
  digits ds → stops tail →
  read_digits (ds +:+ tail) acc n = (digits_value acc ds, n + Z.of_nat (String.length ds), tail).
Proof.
  unfold digits. revert acc n. induction ds as [|c ds IH]; intros acc n Hd Ht.
  - rewrite string_app_nil_l, Z.add_0_r. destruct tail as [|c tail]; [done|]. cbn [read_digits].
    unfold digit_val. cbn in Ht. unfold is_digit in Ht. by rewrite Ht.
  - cbn [string_forall] in Hd. apply andb_true_iff in Hd as [Hc Hd].
    rewrite string_app_cons. cbn [read_digits]. unfold digit_val. unfold is_digit in Hc. rewrite Hc.
    rewrite IH by done. cbn [String.length digits_value]. do 2 f_equal. lia.
Qed.

Lemma digits_value_app a b acc : digits_value acc (a +:+ b) = digits_value (digits_value acc a) b.
Proof. revert acc. induction a as [|c a IH]; intros acc; [done|]. rewrite string_app_cons. apply IH. Qed.

Lemma digits_value_fmt fuel n acc :
  0 ≤ n < 10 ^ Z.of_nat fuel → digits_value 0 (fmt_digits fuel n acc) = digits_value n acc.
Proof.
  revert n acc. induction fuel as [|fuel IH]; intros n acc Hn; [cbn in *; by replace n with 0 by lia|].
  rewrite Nat2Z.inj_succ, Z.pow_succ_r in Hn by lia. cbn [fmt_digits]. destruct (Z.ltb_spec n 10).
  - cbn [digits_value]. rewrite byte_val_digit by lia. f_equal. lia.
  - rewrite IH by (split; [apply Z.div_pos; lia|apply Z.div_lt_upper_bound; lia]).
    cbn [digits_value]. pose proof (Z.mod_pos_bound n 10). rewrite byte_val_digit by lia. f_equal.
    pose proof (Z.div_mod n 10). lia.
Qed.

Lemma digits_value_fmt_u n : 0 ≤ n → digits_value 0 (fmt_u n) = n.
Proof. intros Hn. unfold fmt_u. by rewrite digits_value_fmt by (split; [done|by apply fmt_u_fuel]). Qed.

Lemma zeros_digits n : digits (zeros n).
Proof. induction n as [|n IH]; [done|]. exact IH. Qed.

Lemma length_zeros n : String.length (zeros n) = n.
Proof. induction n as [|n IH]; [done|]. cbn. by rewrite IH. Qed.

Lemma digits_value_zeros n acc : digits_value acc (zeros n) = acc * 10 ^ Z.of_nat n.
Proof.
  revert acc. induction n as [|n IH]; intros acc; [cbn; lia|]. cbn [zeros digits_value]. rewrite IH.
  change (byte_val "0" - 48) with 0. rewrite Nat2Z.inj_succ, Z.pow_succ_r by lia. ring.
Qed.

(** The number of digits. *)
Lemma fmt_digits_length fuel n acc :
  0 < n < 10 ^ Z.of_nat fuel →
  ∃ l, String.length (fmt_digits fuel n acc) = (l + String.length acc)%nat
       ∧ (1 ≤ l)%nat ∧ 10 ^ (Z.of_nat l - 1) ≤ n < 10 ^ Z.of_nat l.
Proof.
  revert n acc. induction fuel as [|fuel IH]; intros n acc Hn; [cbn in Hn; lia|].
  rewrite Nat2Z.inj_succ, Z.pow_succ_r in Hn by lia. cbn [fmt_digits]. destruct (Z.ltb_spec n 10).
  - exists 1%nat. split; [done|]. split; [lia|]. cbn. lia.
  - destruct (IH (n / 10) (String (digit_chr (n mod 10)) acc)) as (l & -> & Hl & Hb).
    { split; [apply Z.div_str_pos; lia|apply Z.div_lt_upper_bound; lia]. }
    exists (S l). cbn [String.length]. split; [lia|]. split; [lia|].
    rewrite Nat2Z.inj_succ. pose proof (Z.div_mod n 10). pose proof (Z.mod_pos_bound n 10).
    replace (Z.succ (Z.of_nat l) - 1) with (Z.succ (Z.of_nat l - 1)) by lia.
    rewrite !Z.pow_succ_r by lia. lia.
Qed.

Lemma decimal_digits_spec d : 0 < d → 1 ≤ decimal_digits d ∧ 10 ^ (decimal_digits d - 1) ≤ d < 10 ^ decimal_digits d.
Proof.
  intros Hd. unfold decimal_digits, fmt_u.
  destruct (fmt_digits_length _ d "" (conj Hd (fmt_u_fuel d ltac:(lia)))) as (l & -> & Hl & Hb).
  rewrite Nat.add_0_r. split; [lia|done].
Qed.

Lemma decimal_digits_unique d n : 0 < d → 10 ^ (n - 1) ≤ d < 10 ^ n → decimal_digits d = n.
Proof.
  intros Hd Hn. destruct (decimal_digits_spec d Hd) as [H1 H2].
  assert (0 < n) by (destruct (Z.le_gt_cases n 0); [|lia]; destruct (decide (n = 0)) as [->|];
    [cbn in Hn; lia|rewrite (Z.pow_neg_r 10 n) in Hn by lia; lia]).
  assert (n - 1 < decimal_digits d) by (apply (Z.pow_lt_mono_r_iff 10); lia).
  assert (decimal_digits d - 1 < n) by (apply (Z.pow_lt_mono_r_iff 10); lia).
  lia.
Qed.

Lemma decimal_digits_shift d e : 0 < d → 0 ≤ e → decimal_digits (d * 10 ^ e) = decimal_digits d + e.
Proof.
  intros Hd He. destruct (decimal_digits_spec d Hd) as [H1 H2].
  assert (0 < 10 ^ e) by (by apply Z.pow_pos_nonneg).
  apply decimal_digits_unique; [nia|].
  replace (decimal_digits d + e - 1) with ((decimal_digits d - 1) + e) by lia.
  rewrite !Z.pow_add_r by lia. nia.
Qed.

Lemma float_of_decimal_shift neg d e :
  0 < d → 0 ≤ e → float_of_decimal neg (d * 10 ^ e) 0 = float_of_decimal neg d e.
Proof.
  intros Hd He. assert (0 < 10 ^ e) by (by apply Z.pow_pos_nonneg).
  pose proof (decimal_digits_shift d e Hd He) as Hs.
  unfold float_of_decimal. destruct (d * 10 ^ e) as [|m|m] eqn:Hm; [nia| |nia]. rewrite Hs, Z.add_0_r.
  destruct d as [|p|p] eqn:Hp; [lia| |lia]. rewrite (proj2 (Z.leb_le 0 e)) by done.
  by rewrite Z.pow_0_r, Z.mul_1_r.
Qed.

(** The sign is only carried along. *)
Lemma finite_sign sx mx ex lx f :
  finite (binary_round_aux prec emax false mx ex lx) = Some f →
  finite (binary_round_aux prec emax sx mx ex lx) = Some (if sx then SFopp f else f).
Proof.
  unfold binary_round_aux. destruct (shr_fexp prec emax mx ex lx) as [mrs1 e1].
  destruct (shr_fexp prec emax _ e1 loc_Exact) as [mrs e].
  destruct (shr_m mrs); cbn [finite]; [intros; simplify_eq; by destruct sx| |done].
  destruct (e <=? emax - prec); cbn [finite]; [intros; simplify_eq; by destruct sx|done].
Qed.

Lemma float_of_decimal_sign neg d e f :
  float_of_decimal false d e = Some f → float_of_decimal neg d e = Some (if neg then SFopp f else f).
Proof.
  unfold float_of_decimal. destruct d as [|m|m]; intros H; try (simplify_eq; by destruct neg).
  destruct (310 <? _); [done|]. destruct (_ <? -330); [simplify_eq; by destruct neg|].
  destruct (0 <=? e).
  - revert H. unfold binary_round. destruct (shl_align _ _ _). apply finite_sign.
  - destruct (SFdiv_core_binary _ _ _ _ _ _) as [[mz ez] lz]. by apply finite_sign.
Qed.

Lemma shortest_go_spec fuel f num den k n c :
  shortest_go fuel f num den k n = Some c → float_of_decimal false c.1 c.2 = Some f.
Proof.
  revert n. induction fuel as [|fuel IH]; intros n; [done|]. cbn [shortest_go].
  destruct (List.find _ _) as [c'|] eqn:Hf; [|apply IH]. intros [= <-].
  apply List.find_some in Hf as [_ H]. by apply bool_decide_eq_true in H.
Qed.

Lemma shortest_spec m e d x :
  shortest m e = Some (d, x) → float_of_decimal false d x = Some (S754_finite false m e) ∧ 0 < d.
Proof.
  unfold shortest. destruct (fraction m e) as [num den]. intros H%shortest_go_spec. cbn in H.
  split; [done|]. unfold float_of_decimal in H. destruct d; [done|lia|done].
Qed.

(** ** The two formats *)

Lemma substring_split k s :
  (k ≤ String.length s)%nat →
  s = String.substring 0 k s +:+ String.substring k (String.length s - k) s
  ∧ String.length (String.substring 0 k s) = k.
Proof.
  revert k. induction s as [|c s IH]; intros k Hk; destruct k as [|k]; cbn [String.length] in *; try lia.
  - done.
  - split; [|done]. change (String.substring 0 0 (String c s)) with "". rewrite string_app_nil_l, Nat.sub_0_r.
    clear. cbn [String.substring String.length]. f_equal. induction s as [|c' s IH]; [done|].
    cbn [String.length String.substring]. by f_equal.
  - destruct (IH k ltac:(lia)) as [H1 H2].
    change (String.substring 0 (S k) (String c s)) with (String c (String.substring 0 k s)).
    change (String.substring (S k) ?n (String c s)) with (String.substring k n s).
    rewrite string_app_cons, Nat.sub_succ. cbn [String.length]. rewrite H2. split; [by rewrite <- H1|done].
Qed.

Lemma digits_app a b : digits (a +:+ b) ↔ digits a ∧ digits b.
Proof. unfold digits. rewrite string_forall_app. apply andb_true_iff. Qed.

(** Reading the parts of a literal. *)
Lemma ParseFloat_parts sign i f e x :
  (sign = "" ∨ sign = "-") → i ≠ "" → digits i → digits f → stops e → read_exponent e = Some x →
  (f = "" → strip_prefix "." e = None) →
  ParseFloat (sign +:+ i +:+ (if String.eqb f "" then "" else "." +:+ f) +:+ e)
  = float_of_decimal (negb (String.eqb sign "")) (digits_value 0 (i +:+ f)) (x - Z.of_nat (String.length f)).
Proof.
  intros Hsign Hi Hdi Hdf He Hx Hdot. unfold ParseFloat.
  assert (match strip_prefix "-" (sign +:+ i +:+ (if String.eqb f "" then "" else "." +:+ f) +:+ e) with
          | Some s => (true, s)
          | None => (false, sign +:+ i +:+ (if String.eqb f "" then "" else "." +:+ f) +:+ e)
          end
          = (negb (String.eqb sign ""), i +:+ (if String.eqb f "" then "" else "." +:+ f) +:+ e)) as ->.
  { destruct Hsign as [-> | ->]; [|by rewrite strip_prefix_app]. rewrite string_app_nil_l.
    destruct i as [|c i]; [done|]. unfold digits in Hdi. cbn [string_forall] in Hdi.
    apply andb_true_iff in Hdi as [Hc _]. rewrite string_app_cons. cbn [strip_prefix].
    rewrite decide_False by (by intros <-). done. }
  assert (Hlen : 0 + Z.of_nat (String.length i) =? 0 = false)
    by (destruct i; [done|]; cbn; apply Z.eqb_neq; lia).
  destruct (String.eqb_spec f "") as [->|Hf].
  - rewrite string_app_nil_l, string_app_nil_r, read_digits_app by done. rewrite Hlen. cbn [String.length].
    by rewrite Hdot, Hx by done.
  - rewrite read_digits_app by done. rewrite string_app_assoc, strip_prefix_app.
    rewrite read_digits_app by done. rewrite Hlen, Hx, digits_value_app. do 2 f_equal.
Qed.

(** Integer part, fraction and exponent of a literal, and the decimal they stand
    for. *)
Definition spells (s : string) (d x : Z) : Prop :=
  ∃ i f e y, s = i +:+ (if String.eqb f "" then "" else "." +:+ f) +:+ e
    ∧ int_part i ∧ digits i ∧ digits f ∧ exp_part e ∧ read_exponent e = Some y
    ∧ ∀ neg, float_of_decimal neg (digits_value 0 (i +:+ f)) (y - Z.of_nat (String.length f))
             = float_of_decimal neg d x.

Lemma positive_digits d :
  0 < d → ∃ c r, fmt_u d = String c r ∧ between 49 57 (byte_val c) = true ∧ is_digit c = true ∧ digits r
                 ∧ Z.of_nat (String.length r) = decimal_digits d - 1.
Proof.
  intros Hd. destruct (fmt_u_int d ltac:(lia)) as [E|(c & r & E & Hc & Hr)].
  - pose proof (digits_value_fmt_u d ltac:(lia)) as Hv. rewrite E in Hv. change (digits_value 0 "0") with 0 in Hv. lia.
  - exists c, r. unfold decimal_digits. rewrite E. split_and!; try done.
    + apply between_spec in Hc. apply between_spec. lia.
    + cbn [String.length]. lia.
Qed.

Lemma exp_part_nil : exp_part "".
Proof. by left. Qed.

Lemma format_f_spells d x : 0 < d → spells (format_f d x) d x.
Proof.
  intros Hd. pose proof (digits_value_fmt_u d ltac:(lia)) as Hv. pose proof (fmt_u_digits d ltac:(lia)) as Hdig.
  destruct (positive_digits d Hd) as (c & r & Hs & Hc & Hc' & Hr & Hlen). unfold format_f.
  destruct (Z.leb_spec 0 x).
  - exists (fmt_u d +:+ zeros (Z.to_nat x)), "", "", 0. rewrite !string_app_nil_r.
    assert (digits (fmt_u d +:+ zeros (Z.to_nat x))) as Hi by (apply digits_app; split; [done|apply zeros_digits]).
    split_and!; [done| |done|done|by left|done|].
    + right. rewrite Hs, string_app_cons. eexists c, _. split_and!; [done|done|].
      apply digits_app. split; [done|apply zeros_digits].
    + intros neg. rewrite digits_value_app, Hv, digits_value_zeros, Z2Nat.id by done.
      by apply float_of_decimal_shift.
  - destruct (Z.ltb_spec 0 (decimal_digits d + x)) as [Hdp|Hdp].
    + set (k := Z.to_nat (decimal_digits d + x)).
      assert (Hk : (k ≤ String.length (fmt_u d))%nat) by (unfold decimal_digits in *; lia).
      assert (Hrest : (String.length (fmt_u d) - k)%nat = Z.to_nat (- x)) by (unfold decimal_digits in *; lia).
      destruct (substring_split k (fmt_u d) Hk) as [Hsplit Hl]. rewrite Hrest in Hsplit.
      set (i := String.substring 0 k (fmt_u d)) in *.
      set (f := String.substring k (Z.to_nat (- x)) (fmt_u d)) in *.
      assert (Hf : Z.of_nat (String.length f) = - x).
      { apply (f_equal String.length) in Hsplit. rewrite string_length_app in Hsplit. lia. }
      assert (digits i ∧ digits f) as [Hi Hf'] by (apply digits_app; by rewrite <- Hsplit).
      assert (String.eqb f "" = false) as Hne by (apply String.eqb_neq; intros E; rewrite E in Hf; cbn in Hf; lia).
      exists i, f, "", 0. rewrite Hne, !string_app_nil_r.
      split_and!; [done| |done|done|apply exp_part_nil|done|].
      * right. destruct i as [|ci ri] eqn:Ei; [cbn in Hl; lia|]. exists ci, ri.
        rewrite string_app_cons, Hs in Hsplit. injection Hsplit as <- _.
        unfold digits in Hi. cbn [string_forall] in Hi. apply andb_true_iff in Hi as [_ Hi]. done.
      * intros neg. rewrite <- Hsplit, Hv, Hf. f_equal. lia.
    + exists "0", (zeros (Z.to_nat (- (decimal_digits d + x))) +:+ fmt_u d), "", 0.
      assert (String.eqb (zeros (Z.to_nat (- (decimal_digits d + x))) +:+ fmt_u d) "" = false) as ->.
      { apply String.eqb_neq. intros E%(f_equal String.length). rewrite string_length_app, Hs in E. cbn in E. lia. }
      rewrite string_app_nil_r. split_and!; [done|by left|done| |apply exp_part_nil|done|].
      * apply digits_app. split; [apply zeros_digits|done].
      * intros neg. rewrite !digits_value_app. change (digits_value 0 "0") with 0.
        rewrite digits_value_zeros, Z.mul_0_l, Hv, string_length_app, length_zeros. f_equal.
        unfold decimal_digits in *. lia.
Qed.

Lemma read_exponent_fmt x :
  exp_part ((if x <? 0 then "e-" else "e+") +:+ fmt_u (Z.abs x))
  ∧ read_exponent ((if x <? 0 then "e-" else "e+") +:+ fmt_u (Z.abs x)) = Some x.
Proof.
  pose proof (fmt_u_digits (Z.abs x) ltac:(lia)) as Hd. pose proof (fmt_u_nonempty (Z.abs x) ltac:(lia)) as Hne.
  assert (Hread : read_digits (fmt_u (Z.abs x)) 0 0
                  = (Z.abs x, Z.of_nat (String.length (fmt_u (Z.abs x))), "")).
  { pose proof (read_digits_app (fmt_u (Z.abs x)) "" 0 0 Hd I) as E. rewrite string_app_nil_r in E. rewrite E.
    by rewrite digits_value_fmt_u by lia. }
  assert (Hlen : Z.of_nat (String.length (fmt_u (Z.abs x))) =? 0 = false)
    by (destruct (fmt_u (Z.abs x)); [done|]; cbn; apply Z.eqb_neq; lia).
  destruct (Z.ltb_spec x 0); (split; [right|]).
  - exists "-"%char, (fmt_u (Z.abs x)). rewrite !string_app_cons. tauto.
  - change (read_exponent ("e-" +:+ fmt_u (Z.abs x))) with
      (let '(e, n, rest) := read_digits (fmt_u (Z.abs x)) 0 0 in
       if (n =? 0) || negb (String.eqb rest "") then None else Some (- e)).
    rewrite Hread, Hlen. cbn. f_equal. lia.
  - exists "+"%char, (fmt_u (Z.abs x)). rewrite !string_app_cons. tauto.
  - change (read_exponent ("e+" +:+ fmt_u (Z.abs x))) with
      (let '(e, n, rest) := read_digits (fmt_u (Z.abs x)) 0 0 in
       if (n =? 0) || negb (String.eqb rest "") then None else Some e).
    rewrite Hread, Hlen. cbn. f_equal. lia.
Qed.

Lemma format_e_spells d x : 0 < d → spells (format_e d x) d x.
Proof.
  intros Hd. pose proof (digits_value_fmt_u d ltac:(lia)) as Hv.
  destruct (positive_digits d Hd) as (c & r & Hs & Hc & Hc' & Hr & Hlen). unfold format_e.
  set (y := decimal_digits d + x - 1). destruct (read_exponent_fmt y) as [He Hy].
  rewrite Hs. cbn [String.length Nat.pred].
  destruct (substring_split 1 (String c r)) as [Hsplit Hl]; [cbn; lia|].
  cbn [String.length] in Hsplit. rewrite Nat.sub_succ, Nat.sub_0_r in Hsplit.
  change (String.substring 0 1 (String c r)) with (String c (String.substring 0 0 r)) in *.
  assert (String.substring 0 0 r = "") as E0 by (by destruct r). rewrite E0 in *.
  rewrite string_app_cons, string_app_nil_l in Hsplit. injection Hsplit as Hsplit.
  change (String.substring 1 (String.length r) (String c r)) with (String.substring 0 (String.length r) r).
  rewrite <- Hsplit.
  exists (String c ""), r, ((if y <? 0 then "e-" else "e+") +:+ fmt_u (Z.abs y)), y.
  assert (digits (String c "")) as Hi by (unfold digits; cbn; by rewrite Hc').
  split_and!; [done| |done|done|done|done|].
  - right. by exists c, "".
  - intros neg. rewrite string_app_cons, string_app_nil_l, <- Hs, Hv, Hlen. f_equal. subst y. lia.
Qed.

(** A spelled literal is a JSON number and parses to its decimal. *)
Lemma spells_number sign s d x :
  (sign = "" ∨ sign = "-") → spells s d x →
  number (sign +:+ s) ∧ ParseFloat (sign +:+ s) = float_of_decimal (negb (String.eqb sign "")) d x.
Proof.
  intros Hsign (i & f & e & y & -> & Hi & Hdi & Hf & He & Hy & Hv). split.
  - exists sign, i, (if String.eqb f "" then "" else "." +:+ f), e. split_and!; try done.
    destruct (String.eqb_spec f ""); [by left|]. right. by exists f.
  - rewrite (ParseFloat_parts sign i f e y); try done.
    + destruct Hi as [-> | (c & r & -> & _)]; done.
    + destruct He as [-> | (sg & r & -> & _)]; done.
    + intros _. destruct He as [-> | (sg & r & -> & _)]; done.
Qed.

(** What encoding/json writes for a [float64] is a number that reads back. *)
Lemma json_float_reads f s : json_float f = Some s → number s ∧ ParseFloat s = Some f.
Proof.
  destruct f as [sg|sg| |sg m e]; try done; cbn [json_float].
  - intros [= <-]. destruct sg; (split; [|done]).
    + exists "-", "0", "", "". split_and!; [done|tauto|by left|by left|by left].
    + exists "", "0", "", "". split_and!; [done|tauto|by left|by left|by left].
  - destruct (shortest m e) as [[d x]|] eqn:Hsh; [|done].
    intros Hs%(inj Some). subst s.
    apply shortest_spec in Hsh as [Hdec Hd].
    apply (float_of_decimal_sign sg) in Hdec.
    set (body := if _ || _ then format_e d x else format_f d x).
    assert (Hb : spells body d x) by (subst body; destruct (_ || _); [by apply format_e_spells|by apply format_f_spells]).
    destruct (spells_number (if sg then "-" else "") body d x) as [Hn ->]; [destruct sg; tauto|done|].
    split; [done|]. destruct sg; exact Hdec.
Qed.

(** ** Integers below 2^53 are exact *)

Lemma digits2_size p : digits2_pos p = Pos.size p.
Proof. induction p as [p IH|p IH|]; cbn; by rewrite ?IH. Qed.

Lemma digits2_shift p n : digits2_pos (Pos.iter xO p n) = (digits2_pos p + n)%positive.
Proof.
  induction n as [|n IH] using Pos.peano_ind; [cbn; lia|]. rewrite Pos.iter_succ. cbn [digits2_pos].
  rewrite IH. lia.
Qed.

Lemma shift_value p n : Z.pos (Pos.iter xO p n) = Z.pos p * 2 ^ Z.pos n.
Proof.
  induction n as [|n IH] using Pos.peano_ind; [cbn; lia|]. rewrite Pos.iter_succ, Pos2Z.inj_succ, Z.pow_succ_r by lia.
  rewrite Pos2Z.inj_xO, IH. ring.
Qed.

Lemma small_digits2 p : Z.pos p < 2 ^ 53 → Z.pos (digits2_pos p) ≤ 53.
Proof.
  intros Hp. rewrite digits2_size. pose proof (Pos.size_le p) as Hs.
  assert (2 ^ Z.pos (Pos.size p) ≤ Z.pos p~0) as Hle by (rewrite <- Pos2Z.inj_pow; lia).
  rewrite Pos2Z.inj_xO in Hle. destruct (Z.le_gt_cases (Z.pos (Pos.size p)) 53) as [|Hgt]; [done|].
  assert (2 ^ 54 ≤ 2 ^ Z.pos (Pos.size p)) by (apply Z.pow_le_mono_r; lia). lia.
Qed.

(** A mantissa of 53 bits is not rounded. *)
Lemma round_aux_exact sx m e :
  digits2_pos m = 53%positive → -1074 ≤ e ≤ 971 →
  binary_round_aux prec emax sx (Z.pos m) e loc_Exact = S754_finite sx m e.
Proof.
  intros Hm He. assert (Hf : fexp prec emax (Zdigits2 (Z.pos m) + e) = e).
  { unfold Zdigits2. rewrite Hm. unfold fexp, emin, prec, emax. lia. }
  assert (Hs : shr_fexp prec emax (Z.pos m) e loc_Exact = (Build_shr_record (Z.pos m) false false, e)).
  { unfold shr_fexp. rewrite Hf, Z.sub_diag. reflexivity. }
  unfold binary_round_aux. rewrite Hs. cbn [shr_m loc_of_shr_record round_nearest_even]. rewrite Hs. cbn [shr_m].
  by rewrite (proj2 (Z.leb_le e (emax - prec))) by (unfold emax, prec; lia).
Qed.

Lemma binary_round_small sx p :
  Z.pos p < 2 ^ 53 →
  ∃ m e, binary_round prec emax sx p 0 = S754_finite sx m e ∧ ∀ num den, fraction m e = (num, den) → num / den = Z.pos p.
Proof.
  intros Hp. pose proof (small_digits2 p Hp) as Hd. unfold binary_round, shl_align.
  assert (Hfe : fexp prec emax (Z.pos (digits2_pos p) + 0) = Z.pos (digits2_pos p) - 53)
    by (unfold fexp, emin, prec, emax; lia).
  rewrite Hfe. destruct (Z.pos (digits2_pos p) - 53 - 0) as [|q|q] eqn:Hq; [|lia|].
  - exists p, 0. rewrite round_aux_exact by lia. split; [done|].
    intros num den. unfold fraction. cbn [Z.leb Z.compare]. rewrite Z.pow_0_r, Z.mul_1_r.
    intros [= <- <-]. apply Z.div_1_r.
  - exists (Pos.iter xO p q), (Z.pos (digits2_pos p) - 53). split.
    + apply round_aux_exact; [rewrite digits2_shift; lia|lia].
    + unfold fraction. rewrite (proj2 (Z.leb_gt 0 _)) by lia. intros num den [= <- <-].
      rewrite shift_value. replace (- (Z.pos (digits2_pos p) - 53)) with (Z.pos q) by lia.
      apply Z.div_mul. pose proof (Z.pow_pos_nonneg 2 (Z.pos q)). lia.
Qed.

(** A printed integer reads as itself. *)
Lemma ParseFloat_int z :
  0 < z < 2 ^ 53 → ∃ f, ParseFloat (fmt_d z) = Some f ∧ truncate f = z.
Proof.
  intros Hz. assert (Hs : spells (fmt_u z) z 0).
  { exists (fmt_u z), "", "", 0. rewrite !string_app_nil_r.
    split_and!; [done|apply fmt_u_int; lia|apply fmt_u_digits; lia|done|by left|done|].
    intros neg. rewrite digits_value_fmt_u by lia. done. }
  destruct (spells_number "" (fmt_u z) z 0) as [_ Hp]; [by left|done|].
  rewrite string_app_nil_l in Hp. unfold fmt_d. rewrite (proj2 (Z.ltb_ge z 0)), Hp by lia.
  destruct z as [|p|p]; try lia. unfold float_of_decimal.
  assert (Hd : decimal_digits (Z.pos p) + 0 ≤ 310).
  { destruct (decimal_digits_spec (Z.pos p)) as [H1 [H2 _]]; [lia|].
    destruct (Z.le_gt_cases (decimal_digits (Z.pos p)) 310); [lia|].
    assert (10 ^ 310 ≤ 10 ^ (decimal_digits (Z.pos p) - 1)) by (apply Z.pow_le_mono_r; lia).
    assert (2 ^ 53 < 10 ^ 310) by (vm_compute; reflexivity). lia. }
  assert (1 ≤ decimal_digits (Z.pos p)) by (apply decimal_digits_spec; lia).
  rewrite (proj2 (Z.ltb_ge _ _)), (proj2 (Z.ltb_ge _ _)) by lia. cbn [Z.leb Z.compare].
  rewrite Z.pow_0_r, Z.mul_1_r. cbn [Z.to_pos].
  destruct (binary_round_small (negb (String.eqb "" "")) p) as (m & e & -> & Hfr); [lia|].
  exists (S754_finite (negb (String.eqb "" "")) m e). split; [done|]. cbn [truncate negb String.eqb].
  destruct (fraction m e) as [num den]. by apply Hfr.
Qed.
