(* ===== verification/JsonText.v ===== *)
(** * What the JSON scanner delivers

    Every value that is scanned has valid UTF-8 in its strings and keys, and is
    nested no deeper than the limit of encoding/json. *)

From Stdlib Require Import Ascii.
From S2P Require Import Prelude GoFmt GoStrings Json.

Local Open Scope Z_scope.

(** ** Unquoted strings are valid *)

Lemma runes_bytes r s : wf_rune r → r ≠ Invalid → runes (rune_bytes r +:+ s) = r :: runes s.
Proof.
  destruct r as [a|a b|a b c|a b c d|]; intros Hwf Hi; cbn [wf_rune rune_bytes] in *; try done;
    rewrite !string_app_cons, string_app_nil_l; cbn [runes].
  - by rewrite Hwf.
  - pose proof (utf8_2_lead _ _ Hwf). rewrite (proj1 (not_ascii a ltac:(lia))). by rewrite Hwf.
  - pose proof (utf8_3_lead _ _ _ Hwf). rewrite (proj1 (not_ascii a ltac:(lia))), utf8_2_no by lia. by rewrite Hwf.
  - pose proof (utf8_4_lead _ _ _ _ Hwf). rewrite (proj1 (not_ascii a ltac:(lia))), utf8_2_no, utf8_3_no by lia.
    by rewrite Hwf.
Qed.

Lemma valid_bytes r s :
  wf_rune r → r ≠ Invalid → valid_utf8 s = true → valid_utf8 (rune_bytes r +:+ s) = true.
Proof. intros Hwf Hi Hs. unfold valid_utf8. rewrite runes_bytes by done. by destruct r. Qed.

Lemma valid_replacement s : valid_utf8 s = true → valid_utf8 (replacement +:+ s) = true.
Proof. apply (valid_bytes (R3 (byte_chr 239) (byte_chr 191) (byte_chr 189))); done. Qed.

Lemma valid_encoded u s :
  0 ≤ u < 1114112 → surrogate u = false → valid_utf8 s = true → valid_utf8 (encode_rune u +:+ s) = true.
Proof.
  intros Hu Hsur Hs. unfold encode_rune. unfold surrogate in Hsur. apply between_false in Hsur.
  assert (Hmod : ∀ x, 0 ≤ x mod 64 < 64) by (intros; apply Z.mod_pos_bound; lia).
  pose proof (Z.div_mod u 64 ltac:(lia)). pose proof (Hmod u).
  assert (u / 4096 = u / 64 / 64) as E1 by (by rewrite Z.div_div by lia).
  assert (u / 262144 = u / 64 / 64 / 64) as E2 by (by rewrite !Z.div_div by lia).
  pose proof (Z.div_mod (u / 64) 64 ltac:(lia)). pose proof (Hmod (u / 64)).
  pose proof (Z.div_mod (u / 64 / 64) 64 ltac:(lia)). pose proof (Hmod (u / 64 / 64)).
  assert (Hc : ∀ x, 0 ≤ x < 64 → continuation (byte_chr (128 + x)) = true).
  { intros x Hx. unfold continuation. rewrite byte_val_chr by lia. apply between_spec. lia. }
  destruct (Z.ltb_spec u 128); [|destruct (Z.ltb_spec u 2048); [|destruct (Z.ltb_spec u 65536)]].
  - apply (valid_bytes (R1 (byte_chr u))); [|done|done]. cbn. unfold is_ascii. rewrite byte_val_chr by lia.
    by apply Z.ltb_lt.
  - apply (valid_bytes (R2 (byte_chr (192 + u / 64)) (byte_chr (128 + u mod 64)))); [|done|done].
    cbn. unfold utf8_2. rewrite Hc by lia. rewrite byte_val_chr by lia. rewrite andb_true_r. apply between_spec. lia.
  - apply (valid_bytes (R3 (byte_chr (224 + u / 4096)) (byte_chr (128 + u / 64 mod 64)) (byte_chr (128 + u mod 64))));
      [|done|done].
    cbn. unfold utf8_3. rewrite Hc by lia. rewrite E1, !byte_val_chr by lia.
    rewrite andb_true_r, !orb_true_iff, !andb_true_iff, !Z.eqb_eq, !between_spec. lia.
  - rewrite E1, E2.
    apply (valid_bytes (R4 (byte_chr (240 + u / 64 / 64 / 64)) (byte_chr (128 + u / 64 / 64 mod 64))
                         (byte_chr (128 + u / 64 mod 64)) (byte_chr (128 + u mod 64)))); [|done|done].
    cbn. unfold utf8_4. rewrite !Hc by lia. rewrite !byte_val_chr by lia.
    rewrite !andb_true_r, !orb_true_iff, !andb_true_iff, !Z.eqb_eq, !between_spec. lia.
Qed.

Lemma hexdigit_bound c : 0 ≤ hexdigit_val c < 16.
Proof.
  unfold hexdigit_val. destruct (between 48 57 _) eqn:E1; [apply between_spec in E1; lia|].
  destruct (between 97 102 _) eqn:E2; [apply between_spec in E2; lia|]. apply Z.mod_pos_bound. lia.
Qed.

Lemma hex4_bound a b c d : 0 ≤ hex4 a b c d < 65536.
Proof.
  unfold hex4. pose proof (hexdigit_bound a). pose proof (hexdigit_bound b).
  pose proof (hexdigit_bound c). pose proof (hexdigit_bound d). lia.
Qed.

Lemma pair_valid u v s :
  pairs_up u v = true → valid_utf8 s = true → valid_utf8 (encode_rune (pair_rune u v) +:+ s) = true.
Proof.
  unfold pairs_up, pair_rune. rewrite andb_true_iff, !between_spec. intros Hp.
  apply valid_encoded; [lia|]. apply between_false. lia.
Qed.

Lemma unescape_ascii e : is_ascii (unescape e) = true.
Proof. destruct e as [[] [] [] [] [] [] [] []]; done. Qed.

(** One rune at a time, by the length of what is left. *)
Lemma unquote_valid s : valid_utf8 (unquote s) = true.
Proof.
  induction s as [s IH] using string_len_ind. destruct s as [|a s1]; [done|]. cbn [unquote].
  destruct (decide (a = backslash)) as [_|_].
  { destruct s1 as [|e s2]; [done|]. destruct (decide (e = "u"%char)).
    - destruct s2 as [|h1 [|h2 [|h3 [|h4 s6]]]]; try done. cbv zeta.
      assert (H6 : valid_utf8 (unquote s6) = true) by (apply IH; cbn; lia).
      pose proof (hex4_bound h1 h2 h3 h4). destruct (surrogate (hex4 h1 h2 h3 h4)) eqn:Hsur.
      + assert (Hr : valid_utf8 (replacement +:+ unquote s6) = true) by (by apply valid_replacement).
        destruct s6 as [|x [|y [|g1 [|g2 [|g3 [|g4 s12]]]]]]; try exact Hr.
        destruct (decide _); [|exact Hr]. destruct (pairs_up _ _) eqn:Hp; [|exact Hr].
        apply pair_valid; [done|]. apply IH. cbn. lia.
      + apply valid_encoded; [lia|done|done].
    - apply (valid_bytes (R1 (unescape e))); [apply unescape_ascii|done|]. apply IH. cbn. lia. }
  destruct (is_ascii a) eqn:Ha; [apply (valid_bytes (R1 a)); [done|done|apply IH; cbn; lia]|].
  destruct s1 as [|b s2]; [done|].
  destruct (utf8_2 a b) eqn:H2; [apply (valid_bytes (R2 a b)); [done|done|apply IH; cbn; lia]|].
  destruct s2 as [|c s3]; [apply valid_replacement, IH; cbn; lia|].
  destruct (utf8_3 a b c) eqn:H3; [apply (valid_bytes (R3 a b c)); [done|done|apply IH; cbn; lia]|].
  destruct s3 as [|d s4]; [apply valid_replacement, IH; cbn; lia|].
  destruct (utf8_4 a b c d) eqn:H4; [apply (valid_bytes (R4 a b c d)); [done|done|apply IH; cbn; lia]|].
  apply valid_replacement, IH. cbn. lia.
Qed.

(** ** The shape of a scanned value *)

#[local] Opaque maxNestingDepth.

Set Warnings "-register-all".

Inductive text : nat → json → Prop :=
| text_null d : text d JNull
| text_bool d b : text d (JBool b)
| text_num d lit : text d (JNum lit)
| text_str d s : valid_utf8 s = true → text d (JStr s)
| text_arr d l : Forall (text d) l → text (S d) (JArr l)
| text_obj d ms : Forall (λ kv : string * json, valid_utf8 kv.1 = true ∧ text d kv.2) ms → text (S d) (JObj ms).

Notation members_text d ms := (Forall (λ kv : string * json, valid_utf8 kv.1 = true ∧ text d kv.2) ms).

Definition frame_text (d : nat) (f : frame) : Prop :=
  match f with
  | FArr l => Forall (text d) l
  | FKey ms | FNext ms => members_text d ms
  | FColon ms k | FValue ms k => members_text d ms ∧ valid_utf8 k = true
  end.

(** What a container holds is nested as deeply as the stack allows. *)
Fixpoint frames_text (st : list frame) : Prop :=
  match st with
  | [] => True
  | f :: st' =>
      (length st ≤ maxNestingDepth)%nat ∧ frame_text (maxNestingDepth - length st) f ∧ frames_text st'
  end.

Definition mode_text (m : mode) : Prop :=
  match m with InWord _ v => ∀ d, text d v | _ => True end.

Definition result_text (r : step_result) : Prop :=
  match r with
  | More m st => mode_text m ∧ frames_text st
  | Complete v _ => text maxNestingDepth v
  | SyntaxError => True
  end.

Lemma deliver_text v b st :
  text (maxNestingDepth - length st) v → frames_text st → result_text (deliver v b st).
Proof.
  intros Hv Hst. destruct st as [|f st]; cbn [deliver].
  - cbn [length result_text] in *. by rewrite Nat.sub_0_r in Hv.
  - destruct Hst as (Hlen & Hf & Hst). destruct f as [l|ms|ms k|ms k|ms]; try done.
    + split; [done|]. split; [done|]. split; [by constructor|done].
    + destruct v; try done. inversion Hv; subst. split; [done|]. split; [done|]. split; [by split|done].
    + split; [done|]. destruct Hf. split; [done|]. split; [by constructor|done].
Qed.

(** Closing a container. *)
Lemma close_array l b st : frames_text (FArr l :: st) → result_text (deliver (JArr (reverse l)) b st).
Proof.
  intros (Hlen & Hf & Hst). apply deliver_text; [|done]. cbn [length] in *.
  replace (maxNestingDepth - length st)%nat with (S (maxNestingDepth - S (length st))) by lia.
  constructor. by apply Forall_reverse.
Qed.

Lemma close_object f ms b st :
  (f = FKey ms ∨ f = FNext ms) → frames_text (f :: st) → result_text (deliver (JObj (reverse ms)) b st).
Proof.
  intros Hf0 (Hlen & Hf & Hst). apply deliver_text; [|done]. cbn [length] in *.
  replace (maxNestingDepth - length st)%nat with (S (maxNestingDepth - S (length st))) by lia.
  constructor. apply Forall_reverse. by destruct Hf0 as [-> | ->].
Qed.

Lemma push_text m f st :
  mode_text m → (∀ d, frame_text d f) → frames_text st → result_text (push m f st).
Proof.
  intros Hm Hf Hst. unfold push. case_decide; [|done].
  split; [done|]. split; [cbn [length]; lia|]. by split.
Qed.

Lemma begin_value_text c st : frames_text st → result_text (begin_value c st).
Proof.
  intros Hst. unfold begin_value. cbv zeta.
  repeat case_match; try done; try (split; [done|exact Hst]);
    try (apply push_text; [done|intros; constructor|done]); split; try done; intros; constructor.
Qed.

Lemma end_value_text c st : frames_text st → result_text (end_value c st).
Proof.
  intros Hst. unfold end_value. cbv zeta. destruct (is_space c); [by split|].
  destruct st as [|[l|ms|ms k|ms k|ms] st]; try done.
  - case_match; [by split|]. case_match; [|done]. by apply close_array.
  - case_match; [|done]. by split.
  - case_match; [split; [done|]; exact Hst|]. case_match; [|done]. eapply close_object; [by right|done].
Qed.

Lemma in_number_text n raw c st : frames_text st → result_text (in_number n raw c st).
Proof.
  intros Hst.
  assert (Hend : result_text (end_number raw c st)).
  { unfold end_number. pose proof (deliver_text (JNum (string_rev raw)) false st (text_num _ _) Hst) as Hd.
    destruct (deliver _ _ _) as [m st'|v b|] eqn:E; try done. destruct m; try done.
    apply end_value_text, Hd. }
  unfold in_number. cbv zeta. destruct n; repeat case_match; try exact Hend; try done; split; done.
Qed.

Lemma step_text m st c : mode_text m → frames_text st → result_text (step m st c).
Proof.
  intros Hm Hst. destruct m as [| | | | |raw|raw|n raw|n raw|rest v]; cbn [step].
  - by apply begin_value_text.
  - case_match; [by split|]. case_match; [|by apply begin_value_text].
    destruct st as [|[l|ms|ms k|ms k|ms] st]; try done. by apply close_array.
  - repeat case_match; try done; by split.
  - case_match; [by split|]. case_match; [|case_match; [by split|done]].
    destruct st as [|[l|ms|ms k|ms k|ms] st]; try done. eapply close_object; [by left|done].
  - by apply end_value_text.
  - case_match; [apply deliver_text; [constructor; apply unquote_valid|done]|].
    repeat case_match; try done; by split.
  - repeat case_match; try done; by split.
  - repeat case_match; try done; by split.
  - by apply in_number_text.
  - destruct rest as [|x [|y rest]]; [done| |]; case_match; try done.
    apply deliver_text; [apply Hm|done].
Qed.

(** Every value that is scanned is a text. *)
Lemma scan_text m st s v rest :
  mode_text m → frames_text st → scan m st s = Some (v, rest) → text maxNestingDepth v.
Proof.
  revert m st. induction s as [|c s IH]; intros m st Hm Hst; cbn [scan].
  - destruct m as [| | | | |raw|raw|n raw|n raw|rest' v']; try done. destruct st; [|by destruct n].
    destruct n; try done; intros [= <- <-]; constructor.
  - pose proof (step_text m st c Hm Hst) as Hs. destruct (step m st c) as [m' st'|v' []|]; try done.
    + destruct Hs as [Hm' Hst']. by apply IH.
    + by intros [= <- <-].
    + by intros [= <- <-].
Qed.

Lemma unmarshal_text s v : unmarshal_value s = Some v → text maxNestingDepth v.
Proof.
  unfold unmarshal_value. destruct (scan BeginValue [] s) as [[v' rest]|] eqn:E; [|done].
  case_match; [|done]. intros [= <-]. by apply (scan_text BeginValue [] s v' rest).
Qed.
