(* ===== verification/JsonAny.v ===== *)
(** * JSON documents as Go values: [map[string]any]

    What [json.Unmarshal] builds in a [map[string]any], and what
    [json.MarshalIndent] writes of it. A Go map is an association list without
    duplicates, kept in the order of its keys, which is the order the encoder
    writes it in. *)

From Stdlib Require Import Ascii SpecFloat Sorted.
From S2P Require Import Prelude GoFmt GoStrings Json GoFloat JsonText.

Local Open Scope Z_scope.

(** ** Values *)

Set Warnings "-register-all".

Inductive any : Type :=
| ANil
| ABool (b : bool)
| AFloat (f : float64)
| AInt (z : Z)
| AString (s : string)
| ASlice (l : list any)
| AMap (m : list (string * any)).

Fixpoint map_set {V} (k : string) (v : V) (m : list (string * V)) : list (string * V) :=
  match m with
  | [] => [(k, v)]
  | (k', v') :: m' =>
      match String.compare k k' with
      | Lt => (k, v) :: m
      | Eq => (k, v) :: m'
      | Gt => (k', v') :: map_set k v m'
      end
  end.

Fixpoint map_get {V} (k : string) (m : list (string * V)) : option V :=
  match m with
  | [] => None
  | (k', v) :: m => if String.eqb k k' then Some v else map_get k m
  end.

(** A map from its entries in the order they are set. *)
Definition map_of {V} (l : list (string * V)) : list (string * V) :=
  foldl (λ m kv, map_set kv.1 kv.2 m) [] l.

(** ** Decoding *)

(** The value of an interface: numbers are [float64]; of two equal keys the last
    one counts. A number out of range makes the whole call fail. *)
Fixpoint to_any (v : json) : option any :=
  match v with
  | JNull => Some ANil
  | JBool b => Some (ABool b)
  | JNum lit => match ParseFloat lit with Some f => Some (AFloat f) | None => None end
  | JStr s => Some (AString s)
  | JArr l => match all_some to_any l with Some l => Some (ASlice l) | None => None end
  | JObj ms =>
      match all_some (λ kv, let '(k, v) := kv in match to_any v with Some a => Some (k, a) | None => None end) ms with
      | Some ms => Some (AMap (map_of ms))
      | None => None
      end
  end.

(** [json.Unmarshal(data, &document)] for a nil [map[string]any]: an object, or
    [null], which leaves the map nil. *)
Definition unmarshal_map (data : string) : option (list (string * any)) :=
  match unmarshal_value data with
  | Some (JObj ms) => match to_any (JObj ms) with Some (AMap m) => Some m | _ => None end
  | Some JNull => Some []
  | _ => None
  end.

(** ** Encoding *)

Fixpoint to_json (a : any) : option json :=
  match a with
  | ANil => Some JNull
  | ABool b => Some (JBool b)
  | AFloat f => match json_float f with Some lit => Some (JNum lit) | None => None end
  | AInt z => Some (JNum (fmt_d z))
  | AString s => Some (JStr s)
  | ASlice l => match all_some to_json l with Some l => Some (JArr l) | None => None end
  | AMap m =>
      match all_some (λ kv, let '(k, a) := kv in match to_json a with Some v => Some (k, v) | None => None end) m with
      | Some m => Some (JObj m)
      | None => None
      end
  end.

(** [json.MarshalIndent(document, EmptyString, four spaces)]. *)
Definition MarshalIndent (m : list (string * any)) : option string :=
  match to_json (AMap m) with Some v => Some (print_indent v) | None => None end.


(** ** Lemmas on maps *)

Definition key_lt (a b : string) : Prop := String.compare a b = Lt.

Lemma ascii_compare_trans a b c : Ascii.compare a b = Lt → Ascii.compare b c = Lt → Ascii.compare a c = Lt.
Proof. unfold Ascii.compare. rewrite !N.compare_lt_iff. lia. Qed.

Lemma ascii_compare_refl a : Ascii.compare a a = Eq.
Proof. apply N.compare_refl. Qed.

Lemma key_lt_trans a b c : key_lt a b → key_lt b c → key_lt a c.
Proof.
  unfold key_lt. revert b c. induction a as [|x a IH]; intros [|y b] [|z c] H1 H2; cbn in *; try done.
  destruct (Ascii.compare x y) eqn:Hxy; try done; destruct (Ascii.compare y z) eqn:Hyz; try done.
  - apply Ascii.compare_eq_iff in Hxy as ->, Hyz as ->. rewrite ascii_compare_refl. by eapply IH.
  - apply Ascii.compare_eq_iff in Hxy as ->. by rewrite Hyz.
  - apply Ascii.compare_eq_iff in Hyz as <-. by rewrite Hxy.
  - by rewrite (ascii_compare_trans x y z).
Qed.

Lemma key_gt a b : String.compare a b = Gt → key_lt b a.
Proof. unfold key_lt. rewrite String.compare_antisym. by destruct (String.compare b a). Qed.

Definition sorted_map {V} (m : list (string * V)) : Prop := StronglySorted key_lt (map fst m).

Lemma map_set_above {V} x k (v : V) m :
  key_lt x k → Forall (key_lt x) (map fst m) → Forall (key_lt x) (map fst (map_set k v m)).
Proof.
  intros Hk. induction m as [|[k' v'] m IH]; intros Hm; cbn [map_set map fst] in *; [by repeat constructor|].
  inversion_clear Hm. destruct (String.compare k k'); cbn; repeat constructor; auto.
Qed.

Lemma map_set_sorted {V} k (v : V) m : sorted_map m → sorted_map (map_set k v m).
Proof.
  unfold sorted_map. induction m as [|[k' v'] m IH]; intros Hm; cbn [map_set map fst] in *; [by repeat constructor|].
  inversion_clear Hm as [|? ? Hs Hf]. destruct (String.compare k k') eqn:Hc; cbn [map fst].
  - apply String.compare_eq_iff in Hc as ->. by constructor.
  - constructor; [by constructor|]. constructor; [done|].
    eapply Forall_impl; [exact Hf|]. intros x Hx. by eapply key_lt_trans.
  - constructor; [by apply IH|]. apply map_set_above; [by apply key_gt|done].
Qed.

Lemma map_of_sorted {V} (l : list (string * V)) : sorted_map (map_of l).
Proof.
  unfold map_of. assert (sorted_map (@nil (string * V))) as H by constructor. revert H.
  generalize (@nil (string * V)). induction l as [|kv l IH]; intros m Hm; [done|]. cbn. by apply IH, map_set_sorted.
Qed.

(** The entries of a map come from what was set. *)
Lemma map_set_Forall {V} (P : string * V → Prop) k v m :
  P (k, v) → Forall P m → Forall P (map_set k v m).
Proof.
  intros Hkv. induction m as [|[k' v'] m IH]; intros Hm; cbn [map_set]; [by constructor|].
  inversion_clear Hm. destruct (String.compare k k'); repeat constructor; auto.
Qed.

Lemma map_of_Forall {V} (P : string * V → Prop) l : Forall P l → Forall P (map_of l).
Proof.
  unfold map_of. assert (Forall P (@nil (string * V))) as H by constructor. revert H.
  generalize (@nil (string * V)). induction l as [|[k v] l IH]; intros m Hm Hl; [done|].
  inversion_clear Hl. cbn. apply IH; [by apply map_set_Forall|done].
Qed.

(** Setting the entries of a sorted map in order rebuilds it. *)
Lemma map_set_last {V} k (v : V) m : Forall (λ x, key_lt x k) (map fst m) → map_set k v m = m ++ [(k, v)].
Proof.
  induction m as [|[k' v'] m IH]; intros Hm; cbn in *; [done|]. inversion_clear Hm as [|? ? Hk Hr].
  unfold key_lt in Hk. rewrite String.compare_antisym, Hk. cbn. by rewrite IH.
Qed.

Lemma map_of_id {V} (l : list (string * V)) : sorted_map l → map_of l = l.
Proof.
  unfold map_of, sorted_map. change l with ([] ++ l) at 1 3. generalize (@nil (string * V)) as acc.
  induction l as [|[k v] l IH]; intros acc Hs; [by rewrite app_nil_r|]. cbn [foldl fst snd].
  rewrite map_set_last.
  - rewrite IH; [by rewrite <- app_assoc|]. by rewrite <- app_assoc.
  - rewrite map_app in Hs. clear -Hs. induction acc as [|[k' v'] acc IH]; [constructor|].
    cbn in Hs. inversion_clear Hs as [|? ? Hs' Hf]. cbn. constructor; [|by apply IH].
    rewrite Forall_app in Hf. destruct Hf as [_ Hf]. by inversion Hf.
Qed.

(** Reading what was set. *)
Lemma map_get_set {V} k (v : V) m : map_get k (map_set k v m) = Some v.
Proof.
  induction m as [|[k' v'] m IH]; cbn [map_set map_get]; [by rewrite String.eqb_refl|].
  destruct (String.compare k k') eqn:Hc; cbn [map_get]; rewrite ?String.eqb_refl; try done.
  destruct (String.eqb_spec k k') as [->|]; [|done].
  rewrite String.compare_antisym in Hc. exfalso. clear -Hc.
  assert (String.compare k' k' = Eq) as E.
  { clear. induction k' as [|c k IH]; [done|]. cbn. by rewrite ascii_compare_refl. }
  by rewrite E in Hc.
Qed.

Lemma map_get_set_ne {V} k k' (v : V) m : k ≠ k' → map_get k (map_set k' v m) = map_get k m.
Proof.
  intros Hne. induction m as [|[x w] m IH]; cbn [map_set map_get].
  - by rewrite (proj2 (String.eqb_neq _ _)).
  - destruct (String.compare k' x) eqn:Hc; cbn [map_get].
    + apply String.compare_eq_iff in Hc as <-. by rewrite (proj2 (String.eqb_neq _ _)).
    + by rewrite (proj2 (String.eqb_neq k k')).
    + by rewrite IH.
Qed.

(** ** Values that are written and read back *)

(** Depth at most [d], sorted maps, valid strings, integers a [float64] covers. *)
Inductive wf_any : nat → any → Prop :=
| wf_nil d : wf_any d ANil
| wf_abool d b : wf_any d (ABool b)
| wf_float d f : wf_any d (AFloat f)
| wf_aint d z : is_Some (ParseFloat (fmt_d z)) → wf_any d (AInt z)
| wf_string d s : valid_utf8 s = true → wf_any d (AString s)
| wf_slice d l : Forall (wf_any d) l → wf_any (S d) (ASlice l)
| wf_map d m :
    sorted_map m → Forall (λ kv : string * any, valid_utf8 kv.1 = true ∧ wf_any d kv.2) m → wf_any (S d) (AMap m).

(** What a reader sees: every number is a [float64]. *)
Fixpoint as_read (a : any) : any :=
  match a with
  | AInt z => match ParseFloat (fmt_d z) with Some f => AFloat f | None => ANil end
  | ASlice l => ASlice (map as_read l)
  | AMap m => AMap (map (λ kv, let '(k, a) := kv in (k, as_read a)) m)
  | a => a
  end.

Definition read_map (m : list (string * any)) : list (string * any) :=
  map (λ kv, let '(k, a) := kv in (k, as_read a)) m.

Lemma map_id_Forall {A} (f : A → A) l : Forall (λ x, f x = x) l → map f l = l.
Proof. induction 1 as [|x l Hx _ IH]; [done|]. cbn. by rewrite Hx, IH. Qed.

(** A decoded value is well formed, and is read as it is. *)
Lemma text_wf d v a : text d v → to_any v = Some a → wf_any d a ∧ as_read a = a.
Proof.
  revert v a. induction d as [d IH] using lt_wf_ind. intros v a Hv.
  destruct Hv as [d|d b|d lit|d s Hs|d l Hl|d ms Hms]; cbn [to_any].
  - intros [= <-]. split; [constructor|done].
  - intros [= <-]. split; [constructor|done].
  - destruct (ParseFloat lit); [|done]. intros [= <-]. split; [constructor|done].
  - intros [= <-]. split; [by constructor|done].
  - destruct (all_some to_any l) as [l'|] eqn:E; [|done]. intros [= <-].
    assert (Forall (λ a, wf_any d a ∧ as_read a = a) l') as [H1 H2]%Forall_and.
    { apply all_some_Forall2 in E. induction E as [|x y l l' Hxy _ IHl]; [constructor|].
      inversion_clear Hl. constructor; [eapply (IH d); [lia|done|done]|auto]. }
    split; [by constructor|]. cbn. f_equal. by apply map_id_Forall.
  - destruct (all_some _ ms) as [m|] eqn:E; [|done]. intros [= <-].
    assert (Forall (λ kv : string * any, (valid_utf8 kv.1 = true ∧ wf_any d kv.2) ∧ as_read kv.2 = kv.2) (map_of m))
      as [H1 H2]%Forall_and.
    { apply map_of_Forall. apply all_some_Forall2 in E.
      induction E as [|[k v] [k' a] ms m Hkv _ IHm]; [constructor|]. inversion_clear Hms as [|? ? [Hk Hv] Hms'].
      constructor; [|auto]. destruct (to_any v) as [a'|] eqn:Ha; [|done]. injection Hkv as <- <-. cbn [fst snd] in *.
      destruct (IH d ltac:(lia) v a' Hv Ha). by split. }
    split; [constructor; [apply map_of_sorted|done]|]. cbn [as_read]. f_equal. apply map_id_Forall.
    eapply Forall_impl; [exact H2|]. intros [k a] Hka. cbn in Hka. by rewrite Hka.
Qed.

(** Sorting, by the keys alone. *)
Lemma sorted_map_keys {V W} (m : list (string * V)) (m' : list (string * W)) :
  map fst m = map fst m' → sorted_map m → sorted_map m'.
Proof. unfold sorted_map. by intros ->. Qed.

Lemma read_map_keys m : map fst (read_map m) = map fst m.
Proof. unfold read_map. induction m as [|[k a] m IH]; [done|]. cbn. by f_equal. Qed.

(** What the encoder makes of a value is well formed and decodes to what a reader
    sees of it. *)
Lemma write_read d a v :
  wf_any d a → to_json a = Some v → wf_json d v ∧ to_any (clean v) = Some (as_read a).
Proof.
  revert a v. induction d as [d IH] using lt_wf_ind. intros a v Ha.
  destruct Ha as [d|d b|d f|d z Hz|d s Hs|d l Hl|d m Hsort Hm]; cbn [to_json as_read].
  - intros [= <-]. split; [constructor|done].
  - intros [= <-]. split; [constructor|done].
  - destruct (json_float f) as [lit|] eqn:E; [|done]. intros [= <-].
    apply json_float_reads in E as [Hn Hp]. split; [by constructor|]. cbn. by rewrite Hp.
  - intros [= <-]. split; [constructor; apply fmt_d_number|]. cbn -[ParseFloat fmt_d].
    by destruct Hz as [f ->].
  - intros [= <-]. split; [constructor|]. cbn. by rewrite to_valid_id.
  - destruct (all_some to_json l) as [l'|] eqn:E; [|done]. intros [= <-]. apply all_some_Forall2 in E.
    assert (Forall (wf_json d) l' ∧ all_some to_any (map clean l') = Some (map as_read l)) as [Hw Hr].
    { induction E as [|x y l l' Hxy _ IHl]; [split; [constructor|done]|]. inversion_clear Hl as [|? ? Hx Hl'].
      destruct (IHl Hl') as [Hw Hr]. destruct (IH d ltac:(lia) x y Hx Hxy) as [Hy Hay].
      split; [by constructor|]. cbn. by rewrite Hay, Hr. }
    split; [by constructor|]. cbn. by rewrite Hr.
  - destruct (all_some _ m) as [ms|] eqn:E; [|done]. intros [= <-]. apply all_some_Forall2 in E.
    assert (Forall (λ kv : string * json, wf_json d kv.2) ms
      ∧ all_some (λ kv, let '(k, v) := kv in match to_any v with Some a => Some (k, a) | None => None end)
          (map (λ kv, let '(k, v) := kv in (to_valid k, clean v)) ms) = Some (read_map m)) as [Hw Hr].
    { clear Hsort. induction E as [|[k a] [k' v] m ms Hkv _ IHm]; [split; [constructor|done]|].
      inversion_clear Hm as [|? ? [Hk Ha] Hm']. destruct (IHm Hm') as [Hw Hr].
      destruct (to_json a) as [v'|] eqn:Hj; [|done]. injection Hkv as <- <-.
      destruct (IH d ltac:(lia) a v' Ha Hj) as [Hwv Hav].
      split; [by constructor|]. cbn [map]. cbn [all_some]. rewrite Hav.
      cbn [fst] in Hk. rewrite (to_valid_id k) by done. by rewrite Hr. }
    split; [by constructor|]. cbn [clean to_any]. rewrite Hr. rewrite map_of_id; [done|].
    eapply sorted_map_keys; [symmetry; apply read_map_keys|done].
Qed.

(** A document that was unmarshalled, changed and written is read as it was
    changed. *)
Lemma MarshalIndent_reads d m s :
  wf_any (S d) (AMap m) → (S d ≤ maxNestingDepth)%nat → MarshalIndent m = Some s →
  unmarshal_map s = Some (read_map m).
Proof.
  intros Hm Hd. unfold MarshalIndent. destruct (to_json (AMap m)) as [v|] eqn:E; [|done].
  intros Hs%(inj Some). subst s.
  destruct (write_read (S d) (AMap m) v Hm E) as [Hw Hr].
  cbn [to_json] in E. destruct (all_some _ m) as [ms|]; [|done]. injection E as <-.
  inversion Hw as [| | | | |? ? Hms]; subst. unfold unmarshal_map.
  rewrite (unmarshal_indented d) by done. cbn [clean] in Hr |- *. by rewrite Hr.
Qed.

Lemma unmarshal_map_wf s m :
  unmarshal_map s = Some m → wf_any maxNestingDepth (AMap m) ∧ read_map m = m.
Proof.
  unfold unmarshal_map. destruct (unmarshal_value s) as [v|] eqn:E; [|done]. apply unmarshal_text in E.
  destruct v; try done.
  - intros [= <-]. split; [|done]. apply (wf_map (Nat.pred maxNestingDepth)); constructor.
  - destruct (to_any (JObj members)) as [a|] eqn:Ha; [|done]. destruct (text_wf _ _ _ E Ha) as [Hw Hr].
    destruct a; try done. intros [= <-]. split; [done|]. by injection Hr.
Qed.

(** Changing a map. *)
Lemma wf_map_set d k v m :
  wf_any (S d) (AMap m) → valid_utf8 k = true → wf_any d v → wf_any (S d) (AMap (map_set k v m)).
Proof.
  intros Hm Hk Hv. inversion Hm as [| | | | | |? ? Hs Hf]; subst.
  constructor; [by apply map_set_sorted|]. by apply map_set_Forall.
Qed.

Lemma wf_map_get d k v m : wf_any (S d) (AMap m) → map_get k m = Some v → wf_any d v.
Proof.
  intros Hm. inversion_clear Hm as [| | | | | |? ? _ Hf]. induction Hf as [|[k' v'] m [_ Hv] _ IH]; [done|].
  cbn. destruct (String.eqb k k'); [|done]. by intros [= <-].
Qed.

Lemma map_get_read k m : map_get k (read_map m) = as_read <$> map_get k m.
Proof. induction m as [|[k' v] m IH]; [done|]. cbn. by destruct (String.eqb k k'). Qed.

Lemma read_map_set k v m : read_map (map_set k v m) = map_set k (as_read v) (read_map m).
Proof.
  induction m as [|[k' v'] m IH]; [done|]. cbn [map_set read_map map].
  destruct (String.compare k k'); cbn; [done|done|]. by f_equal.
Qed.
