(* ===== verification/GoTime.v ===== *)
(** * [time.ParseDuration]

    Durations are nanoseconds in an [int64]. The fraction of a unit is computed in
    [float64], as Go does. *)

From Stdlib Require Import Ascii SpecFloat.
From S2P Require Import Prelude GoFmt GoStrings GoFloat.

Local Open Scope Z_scope.

(** [leadingInt]: digits, with the overflow check of each step; [None] is an
    overflow. *)
Fixpoint leadingInt (s : string) (x : Z) : option (Z * string) :=
  match s with
  | String c rest =>
      match digit_val c with
      | None => Some (x, s)
      | Some d =>
          if 2 ^ 63 / 10 <? x then None
          else let x := x * 10 + d in if 2 ^ 63 <? x then None else leadingInt rest x
      end
  | EmptyString => Some (x, s)
  end.

Definition float_of_Z (z : Z) : float64 := binary_normalize prec emax z 0 false.
Definition float_mul (a b : float64) : float64 := SFmul prec emax a b.
Definition float_div (a b : float64) : float64 := SFdiv prec emax a b.

(** [leadingFraction]: digits beyond the range are dropped. *)
Fixpoint leadingFraction (s : string) (x : Z) (scale : float64) (overflow : bool) : Z * float64 * string :=
  match s with
  | String c rest =>
      match digit_val c with
      | None => (x, scale, s)
      | Some d =>
          if overflow || ((2 ^ 63 - 1) / 10 <? x) then leadingFraction rest x scale true
          else
            let y := x * 10 + d in
            if 2 ^ 63 <? y then leadingFraction rest x scale true
            else leadingFraction rest y (float_mul scale (float_of_Z 10)) false
      end
  | EmptyString => (x, scale, s)
  end.

(** The unit: everything up to a dot or a digit. *)
Fixpoint leadingUnit (s : string) : string * string :=
  match s with
  | String c rest =>
      if decide (c = "."%char) then (EmptyString, s)
      else match digit_val c with
           | Some _ => (EmptyString, s)
           | None => let '(u, r) := leadingUnit rest in (String c u, r)
           end
  | EmptyString => (EmptyString, s)
  end.

Definition micro (a b : Z) : string := String (byte_chr a) (String (byte_chr b) "s").

Definition unitMap (u : string) : option Z :=
  if String.eqb u "ns" then Some 1
  else if String.eqb u "us" || String.eqb u (micro 194 181) || String.eqb u (micro 206 188) then Some 1000
  else if String.eqb u "ms" then Some (1000 * 1000)
  else if String.eqb u "s" then Some (1000 * 1000 * 1000)
  else if String.eqb u "m" then Some (60 * 1000 * 1000 * 1000)
  else if String.eqb u "h" then Some (3600 * 1000 * 1000 * 1000)
  else None.

Definition starts_number (s : string) : bool :=
  match s with
  | String c _ => bool_decide (c = "."%char) || bool_decide (is_Some (digit_val c))
  | EmptyString => false
  end.

(** One number with its unit: its nanoseconds, and what follows. *)
Definition parse_element (s : string) : option (Z * string) :=
  if negb (starts_number s) then None
  else
    match leadingInt s 0 with
    | None => None
    | Some (v, s1) =>
        let pre := negb (Nat.eqb (String.length s) (String.length s1)) in
        let '(f, scale, s2, post) :=
          match strip_prefix "." s1 with
          | Some s1' =>
              let '(f, scale, s2) := leadingFraction s1' 0 (float_of_Z 1) false in
              (f, scale, s2, negb (Nat.eqb (String.length s1') (String.length s2)))
          | None => (0, float_of_Z 1, s1, false)
          end in
        if negb pre && negb post then None
        else
          let '(u, s3) := leadingUnit s2 in
          match unitMap u with
          | None => None
          | Some unit =>
              if 2 ^ 63 / unit <? v then None
              else
                let v := v * unit in
                let v := if 0 <? f
                         then v + truncate (float_mul (float_of_Z f) (float_div (float_of_Z unit) scale))
                         else v in
                if 2 ^ 63 <? v then None else Some (v, s3)
          end
    end.

(** The loop; each element takes at least one byte. *)
Fixpoint parse_elements (fuel : nat) (s : string) (d : Z) : option Z :=
  match s with
  | EmptyString => Some d
  | _ =>
      match fuel with
      | O => None
      | S fuel =>
          match parse_element s with
          | None => None
          | Some (v, s) => if 2 ^ 63 <? d + v then None else parse_elements fuel s (d + v)
          end
      end
  end.

Definition ParseDuration (s : string) : option Z :=
  let '(neg, s) :=
    match strip_prefix "-" s with
    | Some s => (true, s)
    | None => (false, TrimPrefix s "+")
    end in
  if String.eqb s "0" then Some 0
  else if String.eqb s "" then None
  else
    match parse_elements (String.length s) s 0 with
    | None => None
    | Some d => if neg then Some (- d) else if 2 ^ 63 - 1 <? d then None else Some d
    end.

Example ParseDuration_examples :
  map ParseDuration ["2m"; "1h30m"; "1.5s"; "-10ms"; "0"; "+0"; ".5h"; "3.000000001s"; "9223372036854775807ns"]
  = map Some [120000000000; 5400000000000; 1500000000; -10000000; 0; 0; 1800000000000; 3000000001;
              9223372036854775807]
  ∧ map ParseDuration [""; "-"; "3"; "1x"; "."; "1.s.s"; "9223372036854775808ns"; "1e3s"] = repeat None 8.
Proof. by vm_compute. Qed.
