(* ===== verification/Client.v ===== *)
(** * The HTTP client of the plug-in: client.go

    [httpSandboxClient] as programs over one call, [http.Client.Do]. The request
    and response types of client.go have the fields of those of the server, so the
    records of [Server] stand for both; their encodings are in [Wire]. *)

From Stdlib Require Import Ascii.
From S2P Require Import Prelude GoFmt GoStrings Prog Api Server Json Wire Url.

Local Open Scope Z_scope.

(** ** The interface [sandboxClient] *)

Record sandboxClient (E : effects) : Type := mk_sandboxClient {
  sc_Config : prog E (result go_error Z);
  sc_Create : createSandboxRequest → prog E (result go_error sandboxResponse);
  sc_Delete : string → prog E (result go_error unit);
}.

Arguments mk_sandboxClient {E} _ _ _.
Arguments sc_Config {E} _.
Arguments sc_Create {E} _ _.
Arguments sc_Delete {E} _ _.

(** ** Calls *)

(** A request as [http.NewRequestWithContext] and [Header.Set] build it. *)
Record outgoing : Type := mk_outgoing {
  out_method : string;
  out_url : URL;
  out_contentType : option string;
  out_authorization : option string;
  out_body : option string;
}.

(** [resp.StatusCode], [resp.Status] and what can be read of [resp.Body]. *)
Record incoming : Type := mk_incoming { in_code : Z; in_status : string; in_body : string }.

(** The client's timeout; [None] is [http.DefaultClient], which has none. *)
Inductive client_call : Type := HttpDo (timeout : option Z) (request : outgoing).

Definition ClientE : effects := Effects client_call (λ _, result go_error incoming).

(** ** The client *)

Record httpSandboxClient : Type := mk_httpSandboxClient {
  hc_baseURL : URL;
  hc_token : string;
  hc_timeout : option Z;
}.

Definition newHTTPSandboxClient (endpoint token : string) (client : option Z)
    : result go_error httpSandboxClient :=
  match Parse endpoint with
  | None => Err (Errorf "parse Pod Sandbox endpoint: %w" [ArgErr (ErrorsNew "invalid URL")])
  | Some baseURL =>
      if negb (String.eqb baseURL.(Scheme) "http") && negb (String.eqb baseURL.(Scheme) "https")
      then Err (Errorf "pod sandbox endpoint must use http or https" [])
      else if String.eqb baseURL.(Host) ""
      then Err (Errorf "pod sandbox endpoint must include a host" [])
      else Ok (mk_httpSandboxClient baseURL token client)
  end.

Definition with_path (u : URL) (p : string) : URL :=
  mk_URL u.(Scheme) u.(Opaque) u.(User) u.(Host) p u.(RawPath) u.(OmitHost) u.(ForceQuery)
    u.(RawQuery) u.(Fragment) u.(RawFragment).

(** [http.NewRequest] parses the URL it is given and drops an empty port. *)
Definition request_url (rawURL : string) : option URL :=
  match Parse rawURL with
  | Some u =>
      Some (mk_URL u.(Scheme) u.(Opaque) u.(User) (TrimSuffix u.(Host) ":") u.(Path) u.(RawPath)
              u.(OmitHost) u.(ForceQuery) u.(RawQuery) u.(Fragment) u.(RawFragment))
  | None => None
  end.

(** [do]: [decode] is the decoder of [result], [None] for a nil one; [zero] is what
    [result] points to before the call. *)
Definition do {A} (c : httpSandboxClient) (method path : string) (body : option string)
    (decode : option (string → option A)) (zero : A) : prog ClientE (result go_error A) :=
  let requestURL := with_path c.(hc_baseURL) (TrimSuffix c.(hc_baseURL).(Path) "/" +:+ "/" +:+ path) in
  match request_url (URL_String requestURL) with
  | None => Ret (Err (Errorf "create Pod Sandbox request: %w" [ArgErr (ErrorsNew "invalid URL")]))
  | Some url =>
      let req := mk_outgoing method url
                   (match body with Some _ => Some "application/json" | None => None end)
                   (if String.eqb c.(hc_token) "" then None else Some ("Bearer " +:+ c.(hc_token)))
                   body in
      let! resp := @perform ClientE (HttpDo c.(hc_timeout) req) in
      match resp with
      | Err err => Ret (Err (Errorf "call Pod Sandbox API: %w" [ArgErr err]))
      | Ok resp =>
          if (resp.(in_code) <? 200) || (300 <=? resp.(in_code))
          then Ret (Err (Errorf "pod sandbox API returned %s: %s"
                           [ArgS resp.(in_status); ArgS (TrimSpace (max_bytes 4096 resp.(in_body)))]))
          else
            match decode with
            | None => Ret (Ok zero)
            | Some decode =>
                if resp.(in_code) =? StatusNoContent then Ret (Ok zero)
                else
                  match decode resp.(in_body) with
                  | Some result => Ret (Ok result)
                  | None => Ret (Err (Errorf "decode Pod Sandbox response: %w" [ArgErr (ErrorsNew "invalid JSON")]))
                  end
            end
      end
  end.

Definition client_Config (c : httpSandboxClient) : prog ClientE (result go_error Z) :=
  do c "GET" "v1/config" None (Some decode_config) 0.

Definition client_Create (c : httpSandboxClient) (request : createSandboxRequest)
    : prog ClientE (result go_error sandboxResponse) :=
  do c "POST" "v1/sandboxes" (Some (marshal_request request)) (Some decode_sandbox) (mk_sandboxResponse "" "" []).

Definition client_Delete (c : httpSandboxClient) (id : string) : prog ClientE (result go_error unit) :=
  do c "DELETE" ("v1/sandboxes/" +:+ PathEscape id) None None tt.

(** [httpSandboxClient] implements [sandboxClient]. *)
Definition http_client (c : httpSandboxClient) : sandboxClient ClientE :=
  mk_sandboxClient (client_Config c) (client_Create c) (client_Delete c).
