(* ===== verification/Provider.v ===== *)
(** * The Cloud API Adaptor provider: provider.go and config.go

    [kubernetesProvider] over any [sandboxClient]. The cloud-init package of Cloud
    API Adaptor is not part of the repository: a [CloudConfig] has the write files
    the provider looks at and whatever else it has ([cc_rest], [wf_rest]), and how
    generators write user data ([generate], [generate_other]) is a parameter. *)

From Stdlib Require Import Ascii SpecFloat.
From S2P Require Import Prelude GoFmt GoStrings GoNet GoFloat GoTime Prog Api Server Json JsonAny Wire Url Client.

Local Open Scope Z_scope.

(** ** Configuration *)

Record config : Type := mk_config { pv_Endpoint : string; pv_Token : string; pv_Timeout : string }.

Record kubernetesProvider (E : effects) : Type := mk_provider {
  pv_config : config;
  pv_client : option (sandboxClient E);
}.

Arguments mk_provider {E} _ _.
Arguments pv_config {E} _.
Arguments pv_client {E} _.

(** Two minutes, in nanoseconds. *)
Definition default_timeout : Z := 2 * 60 * 1000 * 1000 * 1000.

Definition provider_timeout (cfg : config) : result go_error Z :=
  if String.eqb cfg.(pv_Timeout) "" then Ok default_timeout
  else
    match ParseDuration cfg.(pv_Timeout) with
    | Some parsed => Ok parsed
    | None => Err (Errorf "parse KUBERNETES_POD_SANDBOX_TIMEOUT: %w" [ArgErr (ErrorsNew "invalid duration")])
    end.

Definition newKubernetesProvider (cfg : config) (client : option (sandboxClient ClientE))
    : result go_error (kubernetesProvider ClientE) :=
  let? timeout := provider_timeout cfg in
  match client with
  | Some client => Ok (mk_provider cfg (Some client))
  | None =>
      if String.eqb cfg.(pv_Endpoint) "" then Ok (mk_provider cfg None)
      else
        let? created := newHTTPSandboxClient cfg.(pv_Endpoint) cfg.(pv_Token) (Some timeout) in
        Ok (mk_provider cfg (Some (http_client created)))
  end.

(** ** The manager: manager.go

    [ParseCmd] registers three flags with Cloud API Adaptor's registrar, which takes
    the value of a flag from the command line, the environment variable or the
    default, in its own way ([value]). *)
Record flag_with_env : Type := mk_flag {
  fl_name : string; fl_default : string; fl_env : string; fl_required : bool; fl_secret : bool;
  fl_set : string → config → config
}.

Definition ParseCmd : list flag_with_env :=
  [mk_flag "kubernetes-endpoint" "" "KUBERNETES_POD_SANDBOX_ENDPOINT" true false
     (λ v c, mk_config v c.(pv_Token) c.(pv_Timeout));
   mk_flag "kubernetes-token" "" "KUBERNETES_POD_SANDBOX_TOKEN" false true
     (λ v c, mk_config c.(pv_Endpoint) v c.(pv_Timeout));
   mk_flag "kubernetes-timeout" "2m" "KUBERNETES_POD_SANDBOX_TIMEOUT" false false
     (λ v c, mk_config c.(pv_Endpoint) c.(pv_Token) v)].

Definition providerConfig (value : flag_with_env → string) : config :=
  foldl (λ c f, f.(fl_set) (value f) c) (mk_config "" "" "") ParseCmd.

Definition NewProvider (cfg : config) : result go_error (kubernetesProvider ClientE) :=
  newKubernetesProvider cfg None.

(** Without a setting, the timeout is the default of [newKubernetesProvider]. *)
Example default_timeouts_agree :
  provider_timeout (providerConfig fl_default) = Ok default_timeout
  ∧ provider_timeout (mk_config "" "" "") = Ok default_timeout.
Proof. by vm_compute. Qed.

(** ** Instances *)

(** The fields used of Cloud API Adaptor's [InstanceTypeSpec]; an [Instance]. An
    address is kept as the text it was parsed from. *)
Record InstanceTypeSpec : Type := mk_InstanceTypeSpec { it_VCPUs : Z; it_Memory : Z; it_Arch : string }.
Record Instance : Type := mk_Instance { in_ID : string; in_Name : string; in_IPs : list string }.

(** [ConfigVerifier], with the client it finds. *)
Definition ConfigVerifier {E} (p : kubernetesProvider E) : result go_error (sandboxClient E) :=
  if String.eqb p.(pv_config).(pv_Endpoint) ""
  then Err (Errorf "KUBERNETES_POD_SANDBOX_ENDPOINT is required" [])
  else
    match p.(pv_client) with
    | None => Err (Errorf "pod sandbox API client is not configured" [])
    | Some client => Ok client
    end.

Definition DeleteInstance {E} (p : kubernetesProvider E) (instanceID : string) : prog E (option go_error) :=
  if String.eqb instanceID "" then Ret (Some (Errorf "DeleteInstance called with empty instanceID" []))
  else
    match ConfigVerifier p with
    | Err err => Ret (Some err)
    | Ok client =>
        let! r := client.(sc_Delete) instanceID in
        match r with
        | Err err => Ret (Some (Errorf "delete Kubernetes Pod Sandbox %q: %w" [ArgS instanceID; ArgErr err]))
        | Ok _ => Ret None
        end
    end.

(** The addresses of a response, up to the first that does not parse. *)
Fixpoint parse_addrs (rawIPs : list string) : result string (list string) :=
  match rawIPs with
  | [] => Ok []
  | rawIP :: rest =>
      if ParseAddr_ok rawIP
      then match parse_addrs rest with Ok ips => Ok (rawIP :: ips) | Err bad => Err bad end
      else Err rawIP
  end.

(** What the provider makes of the sandbox that was created: an instance, and an
    error with an instance when it is not usable. *)
Definition instance_of (created : sandboxResponse) : option Instance * option go_error :=
  match parse_addrs created.(rs_IPs) with
  | Err rawIP =>
      (Some (mk_Instance created.(rs_ID) created.(rs_Name) []),
       Some (Errorf "parse Pod Sandbox IP %q: %w" [ArgS rawIP; ArgErr (ErrorsNew "invalid address")]))
  | Ok ips =>
      (Some (mk_Instance created.(rs_ID) created.(rs_Name) ips),
       if String.eqb created.(rs_ID) "" || bool_decide (ips = [])
       then Some (Errorf "pod sandbox API returned an incomplete instance" []) else None)
  end.

(** ** User data *)

Definition agentProtocolForwarderConfigPath : string := "/run/peerpod/apf.json".
Definition guestProxyURL : string := "http://192.0.2.1:3128".
Definition cdhProxyDropInPath : string := "/etc/systemd/system/confidential-data-hub.service.d/proxy.conf".
Definition apfOrderingDropInPath : string :=
  "/etc/systemd/system/agent-protocol-forwarder.service.d/ordering.conf".

(** A line, and one that sets a quoted environment variable. *)
Definition line (s : string) : string := s +:+ String (byte_chr 10) "".
Definition environment (s : string) : string :=
  line ("Environment=" +:+ String (byte_chr 34) s +:+ String (byte_chr 34) "").

Definition cdhProxyDropIn : string :=
  line "[Service]" +:+ environment ("HTTP_PROXY=" +:+ guestProxyURL)
  +:+ environment ("HTTPS_PROXY=" +:+ guestProxyURL) +:+ environment "NO_PROXY=127.0.0.1,localhost".
Definition apfOrderingDropIn : string :=
  line "[Unit]" +:+ line "Requires=netns@podns.service"
  +:+ line "After=cloud-init.service netns@podns.service".

(** The document that names the source Pod. *)
Record pod_document : Type := mk_pod_document { pd_PodName : string; pd_PodNamespace : string; pd_PodUID : string }.

Definition pod_document_fields : list (field pod_document) :=
  [string_field "pod-name" (λ s o, mk_pod_document s o.(pd_PodNamespace) o.(pd_PodUID));
   string_field "pod-namespace" (λ s o, mk_pod_document o.(pd_PodName) s o.(pd_PodUID));
   string_field "pod-uid" (λ s o, mk_pod_document o.(pd_PodName) o.(pd_PodNamespace) s)].

Definition unmarshal_pod_document (content : string) : option pod_document :=
  match unmarshal_value content with
  | Some v => decode_struct pod_document_fields v (mk_pod_document "" "" "")
  | None => None
  end.

Section cloudinit.
Context {wf_rest cc_rest other : Type} (wf_zero : wf_rest).

Record WriteFile : Type := mk_WriteFile { wf_Path : string; wf_Content : string; wf_more : wf_rest }.
Record CloudConfig : Type := mk_CloudConfig { cc_WriteFiles : list WriteFile; cc_more : cc_rest }.

(** A [CloudConfigGenerator]: a [*CloudConfig] or another one. *)
Inductive generator : Type :=
| GCloudConfig (c : CloudConfig)
| GOther (o : other).

Context (generate : CloudConfig → result go_error string) (generate_other : other → result go_error string).

(** The [int] an out-of-range [float64] is converted to: implementation-dependent
    in Go. *)
Context (int_overflow : float64 → Z).

Fixpoint find_reference (files : list WriteFile) (reference : WorkloadReference) : WorkloadReference :=
  match files with
  | [] => reference
  | f :: files =>
      if negb (String.eqb f.(wf_Path) agentProtocolForwarderConfigPath) then find_reference files reference
      else
        match unmarshal_pod_document f.(wf_Content) with
        | None => reference
        | Some document =>
            mk_WorkloadReference document.(pd_PodNamespace)
              (if String.eqb document.(pd_PodName) "" then reference.(wr_Name) else document.(pd_PodName))
              document.(pd_PodUID)
        end
  end.

Definition sourceWorkloadReference (g : generator) (fallbackName : string) : WorkloadReference :=
  let reference := mk_WorkloadReference "" fallbackName "" in
  match g with
  | GOther _ => reference
  | GCloudConfig config => find_reference config.(cc_WriteFiles) reference
  end.

(** One agent-protocol-forwarder configuration, with its MTU lowered to
    [networkMTU]. [podNetwork] is the map inside [document], so that writing to it
    changes the document. *)
Definition adjust_document (networkMTU : Z) (content : string) : result go_error string :=
  match unmarshal_map content with
  | None => Err (Errorf "parse agent protocol forwarder config: %w" [ArgErr (ErrorsNew "invalid JSON")])
  | Some document =>
      match map_get "pod-network" document with
      | Some (AMap podNetwork) =>
          match map_get "mtu" podNetwork with
          | Some (AFloat current) =>
              let document :=
                if networkMTU <? to_int64 int_overflow current
                then map_set "pod-network" (AMap (map_set "mtu" (AInt networkMTU) podNetwork)) document
                else document in
              match MarshalIndent document with
              | Some encoded => Ok encoded
              | None => Err (Errorf "encode agent protocol forwarder config: %w" [ArgErr (ErrorsNew "unsupported value")])
              end
          | _ => Err (Errorf "agent protocol forwarder config has no numeric MTU" [])
          end
      | _ => Err (Errorf "agent protocol forwarder config has no pod-network object" [])
      end
  end.

(** The loop over the write files: the adjusted files and the last configuration
    that was encoded. *)
Fixpoint adjust_files (networkMTU : Z) (files : list WriteFile) (apfConfig : string)
    : result go_error (list WriteFile * string) :=
  match files with
  | [] => Ok ([], apfConfig)
  | f :: files =>
      if negb (String.eqb f.(wf_Path) agentProtocolForwarderConfigPath)
      then
        let? rest := adjust_files networkMTU files apfConfig in
        Ok (f :: rest.1, rest.2)
      else
        let? encoded := adjust_document networkMTU f.(wf_Content) in
        let? rest := adjust_files networkMTU files encoded in
        Ok (mk_WriteFile f.(wf_Path) encoded f.(wf_more) :: rest.1, rest.2)
  end.

Definition drop_ins : list WriteFile :=
  [mk_WriteFile apfOrderingDropInPath apfOrderingDropIn wf_zero;
   mk_WriteFile cdhProxyDropInPath cdhProxyDropIn wf_zero].

Definition Generate (g : generator) : result go_error string :=
  match g with GCloudConfig c => generate c | GOther o => generate_other o end.

Definition generateUserData (g : generator) (networkMTU : Z) : result go_error string :=
  match g with
  | GOther _ => Generate g
  | GCloudConfig config =>
      if networkMTU <=? 0 then Generate g
      else
        let? adjusted := adjust_files networkMTU config.(cc_WriteFiles) "" in
        if String.eqb adjusted.2 "" then Err (Errorf "agent protocol forwarder config is missing" [])
        else generate (mk_CloudConfig (adjusted.1 ++ drop_ins) config.(cc_more))
  end.

(** ** [CreateInstance]: an instance, an error, or both *)
Definition CreateInstance {E} (p : kubernetesProvider E) (podName sandboxID : string) (cloudConfig : generator)
    (spec : InstanceTypeSpec) : prog E (option Instance * option go_error) :=
  match ConfigVerifier p with
  | Err err => Ret (None, Some err)
  | Ok client =>
      let! providerConfig := client.(sc_Config) in
      match providerConfig with
      | Err err => Ret (None, Some (Errorf "get Kubernetes Pod Sandbox configuration: %w" [ArgErr err]))
      | Ok networkMTU =>
          match generateUserData cloudConfig networkMTU with
          | Err err => Ret (None, Some (Errorf "generate Pod VM user data: %w" [ArgErr err]))
          | Ok userData =>
              let! created := client.(sc_Create)
                (mk_createSandboxRequest (sourceWorkloadReference cloudConfig podName) sandboxID userData
                   spec.(it_VCPUs) spec.(it_Memory) spec.(it_Arch)) in
              match created with
              | Err err => Ret (None, Some (Errorf "create Kubernetes Pod Sandbox: %w" [ArgErr err]))
              | Ok created => Ret (instance_of created)
              end
          end
      end
  end.
End cloudinit.

Arguments WriteFile _ : clear implicits.
Arguments CloudConfig _ _ : clear implicits.
Arguments generator _ _ _ : clear implicits.
