(* ===== verification/ProviderSafety.v ===== *)
(** * Properties of the provider

    What the guest reads in the user data the provider generates, and what comes
    out of [CreateInstance] and [DeleteInstance] for every behaviour of the API. *)

From Stdlib Require Import Ascii SpecFloat.
From S2P Require Import Prelude GoFmt GoStrings GoNet GoFloat Prog Api Server Json JsonText JsonAny Wire Client Provider.

Local Open Scope Z_scope.

#[local] Opaque maxNestingDepth.

(** ** One configuration *)

(** What a reader finds in a configuration: the document, its network, its MTU. *)
Definition has_mtu (content : string) (document network : list (string * any)) (mtu : float64) : Prop :=
  unmarshal_map content = Some document ∧ map_get "pod-network" document = Some (AMap network)
  ∧ map_get "mtu" network = Some (AFloat mtu).

(** [after] is [before] but for the MTU, which is at most [networkMTU]. *)
Definition mtu_lowered (networkMTU : Z) (before after : string) : Prop :=
  ∃ document network mtu document' network' mtu',
    has_mtu before document network mtu ∧ has_mtu after document' network' mtu'
    ∧ (∀ k, k ≠ "pod-network" → map_get k document' = map_get k document)
    ∧ (∀ k, k ≠ "mtu" → map_get k network' = map_get k network)
    ∧ (in_int64 (truncate mtu) → truncate mtu' = Z.min (truncate mtu) networkMTU).

Lemma wf_map_depth n m : wf_any n (AMap m) → ∃ d, n = S d.
Proof. inversion 1; eauto. Qed.

Lemma to_int64_exact overflow f : in_int64 (truncate f) → to_int64 overflow f = truncate f.
Proof. intros Hf. unfold to_int64. rewrite (proj2 (between_spec _ _ _)); [done|]. unfold in_int64, min_int64, max_int64 in Hf. lia. Qed.

(** A document that is written as it was read. *)
Lemma unchanged_reads content document enc :
  unmarshal_map content = Some document → MarshalIndent document = Some enc → unmarshal_map enc = Some document.
Proof.
  intros [Hw Hr]%unmarshal_map_wf Henc. destruct (wf_map_depth _ _ Hw) as [d Hd]. rewrite Hd in Hw.
  rewrite (MarshalIndent_reads d document enc); [by rewrite Hr|done|lia|done].
Qed.

(** A document whose MTU was set. *)
Lemma lowered_reads content document network z enc :
  0 < z < 2 ^ 53 → unmarshal_map content = Some document → map_get "pod-network" document = Some (AMap network) →
  MarshalIndent (map_set "pod-network" (AMap (map_set "mtu" (AInt z) network)) document) = Some enc →
  ∃ mtu', truncate mtu' = z
    ∧ unmarshal_map enc = Some (map_set "pod-network" (AMap (map_set "mtu" (AFloat mtu') network)) document).
Proof.
  intros Hz [Hw Hr]%unmarshal_map_wf Hnet Henc. destruct (wf_map_depth _ _ Hw) as [d Hd]. rewrite Hd in Hw.
  pose proof (wf_map_get d _ _ _ Hw Hnet) as Hn. destruct (wf_map_depth _ _ Hn) as [d' ->].
  destruct (ParseFloat_int z Hz) as (mtu' & Hp & Ht). exists mtu'. split; [done|].
  assert (Hrn : read_map network = network).
  { pose proof (map_get_read "pod-network" document) as E. rewrite Hr, Hnet in E. cbn in E.
    injection E as E. unfold read_map. congruence. }
  erewrite (MarshalIndent_reads (S d')); [| |lia|exact Henc].
  - f_equal. rewrite read_map_set, Hr. cbn [as_read]. fold (read_map (map_set "mtu" (AInt z) network)).
    rewrite read_map_set, Hrn. cbn [as_read]. by rewrite Hp.
  - apply wf_map_set; [done|done|]. apply wf_map_set; [done|done|]. constructor. by rewrite Hp.
Qed.

Lemma adjust_document_lowers overflow networkMTU content enc :
  0 < networkMTU < 2 ^ 53 → adjust_document overflow networkMTU content = Ok enc →
  mtu_lowered networkMTU content enc.
Proof.
  intros Hz. unfold adjust_document. destruct (unmarshal_map content) as [document|] eqn:Hdoc; [|done].
  destruct (map_get "pod-network" document) as [[| | | | | |network]|] eqn:Hnet; try done.
  destruct (map_get "mtu" network) as [[| |mtu| | | |]|] eqn:Hmtu; try done.
  destruct (Z.ltb_spec networkMTU (to_int64 overflow mtu)) as [Hlt|Hge].
  - destruct (MarshalIndent _) as [e|] eqn:Henc; [|done]. intros [= <-].
    destruct (lowered_reads _ _ _ _ _ Hz Hdoc Hnet Henc) as (mtu' & Ht & Hread).
    eexists document, network, mtu, _, _, mtu'. split; [done|]. split; [|split; [|split]].
    + split; [exact Hread|]. split; apply map_get_set.
    + intros k Hk. by apply map_get_set_ne.
    + intros k Hk. by apply map_get_set_ne.
    + intros Hr. rewrite to_int64_exact in Hlt by done. lia.
  - destruct (MarshalIndent _) as [e|] eqn:Henc; [|done]. intros [= <-].
    exists document, network, mtu, document, network, mtu. split; [done|]. split; [|split; [done|split; [done|]]].
    + split; [by eapply unchanged_reads|done].
    + intros Hr. rewrite to_int64_exact in Hge by done. lia.
Qed.

(** ** The write files *)

Section provider.
Context {wf_rest cc_rest other : Type} (wf_zero : wf_rest).
Context (generate : CloudConfig wf_rest cc_rest → result go_error string).
Context (generate_other : other → result go_error string) (int_overflow : float64 → Z).

Notation WriteFile := (WriteFile wf_rest).
Notation generator := (generator wf_rest cc_rest other).

Definition is_apf (f : WriteFile) : Prop := f.(wf_Path) = agentProtocolForwarderConfigPath.

(** A file as it was, but for the MTU of a configuration. *)
Definition adjusted (networkMTU : Z) (f f' : WriteFile) : Prop :=
  if decide (is_apf f)
  then f'.(wf_Path) = f.(wf_Path) ∧ f'.(wf_more) = f.(wf_more)
       ∧ mtu_lowered networkMTU f.(wf_Content) f'.(wf_Content)
  else f' = f.

Lemma encoded_nonempty networkMTU content enc :
  adjust_document int_overflow networkMTU content = Ok enc → enc ≠ "".
Proof.
  unfold adjust_document. repeat case_match; try done; intros [= <-];
    unfold MarshalIndent, print_indent in *; repeat case_match; simplify_eq;
    match goal with H : to_json (AMap _) = Some _ |- _ => cbn [to_json] in H; destruct (all_some _ _) as [[]|]; simplify_eq; done end.
Qed.

Lemma adjust_files_spec networkMTU files last files' last' :
  0 < networkMTU < 2 ^ 53 → adjust_files int_overflow networkMTU files last = Ok (files', last') →
  Forall2 (adjusted networkMTU) files files'
  ∧ (last' = last ∧ Forall (λ f, ¬ is_apf f) files ∨ last' ≠ "" ∧ Exists is_apf files).
Proof.
  intros Hz. revert last files' last'. induction files as [|f files IH]; intros last files' last'; cbn [adjust_files].
  { intros [= <- <-]. split; [constructor|]. by left. }
  destruct (String.eqb_spec f.(wf_Path) agentProtocolForwarderConfigPath) as [Hp|Hp]; cbn [negb].
  - destruct (adjust_document _ _ _) as [enc|] eqn:Henc; [|done].
    destruct (adjust_files _ _ files enc) as [[rest l]|] eqn:Hrest; [|done]. intros [= <- <-].
    destruct (IH _ _ _ Hrest) as [Hall Hl]. split.
    + constructor; [|done]. unfold adjusted. rewrite decide_True by done. split_and!; [done|done|].
      by eapply adjust_document_lowers.
    + right. split; [|by left]. destruct Hl as [[-> _]|[Hne _]]; [by eapply encoded_nonempty|done].
  - destruct (adjust_files _ _ files last) as [[rest l]|] eqn:Hrest; [|done]. intros [= <- <-].
    destruct (IH _ _ _ Hrest) as [Hall Hl]. split.
    + constructor; [|done]. unfold adjusted. by rewrite decide_False.
    + destruct Hl as [[-> Hno]|[Hne Hex]]; [left; split; [done|by constructor]|right; split; [done|by right]].
Qed.

(** ** Properties *)

(** C10. The guest's network. User data generated for a cloud-config and an MTU is
    that of the same cloud-config with the two drop-ins appended and, in every
    agent-protocol-forwarder configuration (there is at least one), the MTU lowered
    to the given one where it was higher: as the guest reads it, everything else in
    the document is unchanged, and every other file is as it was. *)
Theorem user_data_adjusted config networkMTU data :
  0 < networkMTU < 2 ^ 53 →
  generateUserData (other := other) wf_zero generate generate_other int_overflow (GCloudConfig config) networkMTU
    = Ok data →
  ∃ files, generate (mk_CloudConfig (files ++ drop_ins wf_zero) config.(cc_more)) = Ok data
    ∧ Forall2 (adjusted networkMTU) config.(cc_WriteFiles) files
    ∧ Exists is_apf config.(cc_WriteFiles).
Proof.
  intros Hz. unfold generateUserData. rewrite (proj2 (Z.leb_gt networkMTU 0)) by lia.
  destruct (adjust_files _ _ _ _) as [[files last]|] eqn:Hfiles; [|done]. cbn [fst snd].
  destruct (adjust_files_spec _ _ _ _ _ Hz Hfiles) as [Hall Hlast].
  destruct (String.eqb_spec last ""); [done|]. intros Hgen. exists files. split_and!; [done|done|].
  destruct Hlast as [[-> _]|[_ Hex]]; done.
Qed.

(** A sandbox that CAA can use as an instance. *)
Definition usable (s : sandboxResponse) : Prop :=
  s.(rs_ID) ≠ "" ∧ s.(rs_IPs) ≠ [] ∧ Forall (λ ip, ParseAddr_ok ip = true) s.(rs_IPs).

Lemma parse_addrs_ok l : Forall (λ ip, ParseAddr_ok ip = true) l → parse_addrs l = Ok l.
Proof. induction 1 as [|ip l Hip _ IH]; [done|]. cbn. by rewrite Hip, IH. Qed.

Lemma parse_addrs_inv l ips : parse_addrs l = Ok ips → ips = l ∧ Forall (λ ip, ParseAddr_ok ip = true) l.
Proof.
  revert ips. induction l as [|ip l IH]; intros ips; cbn; [intros [= <-]; done|].
  destruct (ParseAddr_ok ip) eqn:Hip; [|done]. destruct (parse_addrs l) as [ips'|]; [|done].
  intros [= <-]. destruct (IH _ eq_refl) as [-> ?]. split; [done|by constructor].
Qed.

(** The instance of a sandbox always has its identity; there is no error exactly
    for a usable one. *)
Lemma instance_of_spec s :
  ∃ i, (instance_of s).1 = Some i ∧ i.(in_ID) = s.(rs_ID) ∧ i.(in_Name) = s.(rs_Name)
    ∧ ((instance_of s).2 = None ↔ usable s) ∧ (usable s → i.(in_IPs) = s.(rs_IPs)).
Proof.
  unfold instance_of, usable. destruct (parse_addrs s.(rs_IPs)) as [ips|bad] eqn:Hp.
  - apply parse_addrs_inv in Hp as [-> Hall]. eexists. split_and!; [done..| |done]. cbn [snd].
    destruct (String.eqb_spec s.(rs_ID) ""), (decide (s.(rs_IPs) = [])); cbn;
      [rewrite ?bool_decide_eq_true_2 by done..|]; rewrite ?bool_decide_eq_false_2 by done; naive_solver.
  - eexists. split_and!; [done..| |]; cbn [snd].
    + split; [done|]. intros (_ & _ & Hall). by rewrite parse_addrs_ok in Hp.
    + intros (_ & _ & Hall). by rewrite parse_addrs_ok in Hp.
Qed.

(** The request [CreateInstance] sends. *)
Definition instance_request (g : generator) (podName sandboxID data : string) (spec : InstanceTypeSpec)
    : createSandboxRequest :=
  mk_createSandboxRequest (sourceWorkloadReference g podName) sandboxID data
    spec.(it_VCPUs) spec.(it_Memory) spec.(it_Arch).

(** The sandbox [CreateInstance] was answered: with the client that is configured,
    the configuration was read, the user data generated for its MTU and the request
    with it answered by that sandbox. *)
Definition answered {E} (p : kubernetesProvider E) (g : generator) (podName sandboxID : string)
    (spec : InstanceTypeSpec) (t : list (event E)) (created : sandboxResponse) : Prop :=
  ∃ client t1 t2 networkMTU data,
    ConfigVerifier p = Ok client ∧ t = t1 ++ t2 ∧ exec client.(sc_Config) t1 (Ok networkMTU)
    ∧ generateUserData wf_zero generate generate_other int_overflow g networkMTU = Ok data
    ∧ exec (client.(sc_Create) (instance_request g podName sandboxID data spec)) t2 (Ok created).

(** Why no sandbox was answered, with the error that says so: the provider is not
    configured; the configuration cannot be read; the user data cannot be generated; or
    the request fails. *)
Inductive refused {E} (p : kubernetesProvider E) (g : generator) (podName sandboxID : string)
    (spec : InstanceTypeSpec) : list (event E) → go_error → Prop :=
| not_configured err : ConfigVerifier p = Err err → refused p g podName sandboxID spec [] err
| no_configuration client t err :
    ConfigVerifier p = Ok client → exec client.(sc_Config) t (Err err) →
    refused p g podName sandboxID spec t (Errorf "get Kubernetes Pod Sandbox configuration: %w" [ArgErr err])
| no_user_data client t networkMTU err :
    ConfigVerifier p = Ok client → exec client.(sc_Config) t (Ok networkMTU) →
    generateUserData wf_zero generate generate_other int_overflow g networkMTU = Err err →
    refused p g podName sandboxID spec t (Errorf "generate Pod VM user data: %w" [ArgErr err])
| not_created client t1 t2 networkMTU data err :
    ConfigVerifier p = Ok client → exec client.(sc_Config) t1 (Ok networkMTU) →
    generateUserData wf_zero generate generate_other int_overflow g networkMTU = Ok data →
    exec (client.(sc_Create) (instance_request g podName sandboxID data spec)) t2 (Err err) →
    refused p g podName sandboxID spec (t1 ++ t2) (Errorf "create Kubernetes Pod Sandbox: %w" [ArgErr err]).

Lemma exec_CreateInstance {E} (p : kubernetesProvider E) g podName sandboxID spec t inst err :
  exec (CreateInstance wf_zero generate generate_other int_overflow p podName sandboxID g spec) t (inst, err) →
  (∃ e, inst = None ∧ err = Some e ∧ refused p g podName sandboxID spec t e)
  ∨ ∃ created, answered p g podName sandboxID spec t created ∧ (inst, err) = instance_of created.
Proof.
  unfold CreateInstance. destruct (ConfigVerifier p) as [client|e] eqn:Hc; intros Hx.
  2: { exec_step Hx. simplify_eq. left. eexists. split_and!; [done..|by constructor]. }
  apply exec_bind in Hx as (t1 & t2 & r & -> & Hcfg & Hx).
  destruct r as [mtu|e]; [|exec_step Hx; simplify_eq; rewrite app_nil_r; left; eexists; split_and!; [done..|by econstructor]].
  destruct (generateUserData _ _ _ _ _ _) as [data|e] eqn:Hd;
    [|exec_step Hx; simplify_eq; rewrite app_nil_r; left; eexists; split_and!; [done..|by econstructor]].
  apply exec_bind in Hx as (t3 & t4 & r & -> & Hcr & Hx).
  destruct r as [created|e]; [|exec_step Hx; simplify_eq; rewrite app_nil_r; left; eexists; split_and!; [done..|by econstructor]].
  apply exec_ret_inv in Hx as [-> Ha]. right. exists created. split; [|done].
  exists client, t1, t3, mtu, data. rewrite app_nil_r. done.
Qed.

(** C15. Instances and errors. When the API answered a sandbox, [CreateInstance] gives
    an instance of its identity and name, whatever else the sandbox holds, so that the
    caller can delete it; and there is no error exactly when the sandbox has an
    identity and at least one address, all of them valid, which are then the ones of
    the instance. There is no instance only when no sandbox was answered, because the
    provider is not configured, the configuration could not be read, the user data
    could not be generated or the request failed, and then the error says which. *)
Theorem create_instance_exact {E} (p : kubernetesProvider E) g podName sandboxID spec t inst err :
  exec (CreateInstance wf_zero generate generate_other int_overflow p podName sandboxID g spec) t (inst, err) →
  (∃ e, inst = None ∧ err = Some e ∧ refused p g podName sandboxID spec t e)
  ∨ ∃ created i, answered p g podName sandboxID spec t created
      ∧ inst = Some i ∧ i.(in_ID) = created.(rs_ID) ∧ i.(in_Name) = created.(rs_Name)
      ∧ (err = None ↔ usable created) ∧ (err = None → i.(in_IPs) = created.(rs_IPs)).
Proof.
  intros [Hno|(created & Hans & Hi)]%exec_CreateInstance; [by left|]. right.
  destruct (instance_of_spec created) as (i & E1 & Hid & Hname & Herr & Hips).
  rewrite <- Hi in E1, Herr. cbn in E1, Herr. exists created, i. split_and!; [done..|]. tauto.
Qed.
End provider.

(** ** Witnesses *)

Definition apf_document (mtu : string) : string :=
  print (JObj [("pod-name", JStr "api-7d9c"); ("pod-network", JObj [("interface", JStr "eth0"); ("mtu", JNum mtu)])]).

Definition cloud_fixture : CloudConfig unit unit :=
  mk_CloudConfig [mk_WriteFile "/run/peerpod/daemon.json" "{}" tt;
                  mk_WriteFile agentProtocolForwarderConfigPath (apf_document "1500") tt] tt.

(** A generator that writes the contents one after the other. *)
Definition concat_files (c : CloudConfig unit unit) : result go_error string :=
  Ok (foldr (λ f s, f.(wf_Content) +:+ s) "" c.(cc_WriteFiles)).

Definition no_overflow (f : float64) : Z := 0.

Definition fixture_data : string :=
  match generateUserData (other := unit) tt concat_files (λ _, Ok "") no_overflow (GCloudConfig cloud_fixture) 1400 with
  | Ok data => data
  | Err _ => ""
  end.

Lemma user_data_adjusted_witness :
  ∃ files, concat_files (mk_CloudConfig (files ++ drop_ins tt) cloud_fixture.(cc_more)) = Ok fixture_data
    ∧ Forall2 (adjusted 1400) cloud_fixture.(cc_WriteFiles) files
    ∧ Exists is_apf cloud_fixture.(cc_WriteFiles).
Proof.
  assert (Hm : 0 < 1400 < 2 ^ 53) by (split; reflexivity).
  assert (Hg : generateUserData (other := unit) tt concat_files (λ _, Ok "") no_overflow
                 (GCloudConfig cloud_fixture) 1400 = Ok fixture_data) by (vm_compute; reflexivity).
  exact (user_data_adjusted tt concat_files (λ _, Ok "") no_overflow cloud_fixture 1400 fixture_data Hm Hg).
Defined.

(** A client that is answered a sandbox with an address that does not parse. *)
Definition unusable_client : sandboxClient ClientE :=
  mk_sandboxClient (Ret (Ok 1400)) (λ _, Ret (Ok (mk_sandboxResponse "psb-1" "api-7d9c" ["10.90.0"]))) (λ _, Ret (Ok tt)).

Definition unusable_provider : kubernetesProvider ClientE :=
  mk_provider (mk_config "http://api:8080" "" "") (Some unusable_client).

Definition unusable_instance : Instance := mk_Instance "psb-1" "api-7d9c" [].

Lemma create_instance_exact_witness :
  ∃ created, answered tt concat_files (λ _ : unit, Ok "") no_overflow unusable_provider (GCloudConfig cloud_fixture)
      "api" "sandbox-id" (mk_InstanceTypeSpec 2 512 "") [] created
    ∧ unusable_instance.(in_ID) = created.(rs_ID) ∧ unusable_instance.(in_Name) = created.(rs_Name) ∧ ¬ usable created.
Proof.
  set (err := Errorf "parse Pod Sandbox IP %q: %w" [ArgS "10.90.0"; ArgErr (ErrorsNew "invalid address")]).
  assert (Hx : exec (CreateInstance tt concat_files (λ _ : unit, Ok "") no_overflow unusable_provider "api"
                       "sandbox-id" (GCloudConfig cloud_fixture) (mk_InstanceTypeSpec 2 512 "")) []
                 (Some unusable_instance, Some err)) by (vm_compute; reflexivity).
  destruct (create_instance_exact tt concat_files (λ _ : unit, Ok "") no_overflow unusable_provider
           (GCloudConfig cloud_fixture) "api" "sandbox-id" (mk_InstanceTypeSpec 2 512 "") []
           (Some unusable_instance) (Some err) Hx) as [(e & Hi & _)|(created & i & Hans & Hi & Hid & Hname & Herr & _)];
    [discriminate Hi|]. injection Hi as <-.
  exists created. split; [exact Hans|]. split; [exact Hid|]. split; [exact Hname|].
  intros Hu. apply Herr in Hu. discriminate Hu.
Defined.
