(* ===== verification/System.v ===== *)
(** * The plug-in and the API server together

    A client program runs against the server: each [http.Client.Do] is one run of
    [ServeHTTP] on the request line, headers and body the client sends, with the
    bodies encoded and decoded as in [Wire]. The network may lose a request before
    it is served, or its response afterwards. The text of an error response
    ([render]) and of a status line ([status_line]) are parameters: the client only
    copies them into its own errors. *)

From Stdlib Require Import Ascii.
From S2P Require Import Prelude GoFmt GoStrings Sha256 Prog Api Kube Server ServerWorld ServerAuth ServerLifecycle.
From S2P Require Import GoNet GoFloat Json Wire Url Client Provider ProviderSafety.

Local Open Scope Z_scope.

(** ** Calls of the composed system *)

Inductive system_call : Type :=
| YServer (c : server_call)
| YNet.

Definition SystemE : effects :=
  Effects system_call (λ c, match c with YServer c => server_answer c | YNet => option go_error end).

Notation network := (@perform SystemE YNet).

Fixpoint on_server {A} (p : prog ServerE A) : prog SystemE A :=
  match p with
  | Ret a => Ret a
  | Call c k => @Call SystemE A (YServer c) (λ r, on_server (k r))
  end.

Definition server_event (e : event ServerE) : event SystemE :=
  match e with Ev c r => @Ev SystemE (YServer c) r end.

Section system.
Context `{ControllerUtil} (render : go_error → string) (status_line : Z → string).
Context (cfg : Config) (fuel : nat).

(** The response on the wire. *)
Definition on_wire (r : response) : incoming :=
  mk_incoming r.(resp_code) (status_line r.(resp_code))
    match r.(resp_body) with
    | NoBody => ""
    | BodyError e => line (render e)
    | BodyConfig networkMTU => encode_config networkMTU
    | BodySandbox s => encode_sandbox s
    end.

(** The request the server sees; [None] for a request line it cannot parse, which
    net/http answers itself. *)
Definition at_server (o : outgoing) : option http_request :=
  match request_segments (RequestURI o.(out_url)) with
  | Some segments =>
      Some (mk_http_request o.(out_method) segments (default "" o.(out_authorization)) (default "" o.(out_body)))
  | None => None
  end.

Definition bad_request : incoming := mk_incoming StatusBadRequest (status_line StatusBadRequest) "400 Bad Request".

(** One exchange. A server that is still polling has not answered; the client then
    has no response either. *)
Definition exchange (o : outgoing) : prog SystemE (result go_error incoming) :=
  let! lost := network in
  match lost with
  | Some err => Ret (Err err)
  | None =>
      match at_server o with
      | None => Ret (Ok bad_request)
      | Some r =>
          let! resp := on_server (ServeHTTP decode_request cfg fuel r) in
          let! lost := network in
          match lost, resp with
          | Some err, _ => Ret (Err err)
          | None, Some resp => Ret (Ok (on_wire resp))
          | None, None => Ret (Err (ContextErr "still waiting for a response"))
          end
      end
  end.

(** A client program against the server. *)
Fixpoint connect {A} (p : prog ClientE A) : prog SystemE A :=
  match p with
  | Ret a => Ret a
  | Call c k => let '(HttpDo _ o) := c in let! r := exchange o in connect (k r)
  end.

(** ** Lemmas *)

Lemma exec_on_server {A} (p : prog ServerE A) t a :
  exec (on_server p) t a → ∃ ts, t = map server_event ts ∧ exec p ts a.
Proof.
  revert t. induction p as [b|c k IH]; intros t Hx.
  - destruct t; [|done]. by exists [].
  - cbn [on_server] in Hx. exec_step Hx. destruct (IH _ _ Hx) as (ts & -> & Hts).
    exists (Ev c r :: ts). split; [done|]. cbn. eauto.
Qed.

Lemma exec_connect_bind {A B} (p : prog ClientE A) (f : A → prog ClientE B) t b :
  exec (connect (bind p f)) t b → ∃ t1 t2 a, t = t1 ++ t2 ∧ exec (connect p) t1 a ∧ exec (connect (f a)) t2 b.
Proof.
  revert t. induction p as [a|[tm o] k IH]; intros t Hx.
  - by exists [], t, a.
  - cbn [bind connect] in Hx. apply exec_bind in Hx as (t1 & t2 & r & -> & He & Hx).
    apply IH in Hx as (t3 & t4 & a & -> & Hk & Hf). exists (t1 ++ t3), t4, a. split; [by rewrite app_assoc|].
    split; [|done]. cbn [connect]. apply exec_bind. eauto 10.
Qed.

(** An exchange that gave a response: the server served the request. *)
Lemma exec_exchange o t i :
  exec (exchange o) t (Ok i) →
  i = bad_request ∨ ∃ r ts resp, at_server o = Some r ∧ exec (ServeHTTP decode_request cfg fuel r) ts (Some resp)
    ∧ i = on_wire resp ∧ t = [@Ev SystemE YNet None] ++ map server_event ts ++ [@Ev SystemE YNet None].
Proof.
  unfold exchange. intros Hx. exec_step Hx. destruct r as [err|]; [by exec_step Hx|].
  destruct (at_server o) as [r|] eqn:Hr; [|exec_step Hx; left; congruence].
  apply exec_bind in Hx as (t1 & t2 & resp & -> & Hs & Hx). apply exec_on_server in Hs as (ts & -> & Hs).
  exec_step Hx. destruct r0 as [err|]; [by exec_step Hx|]. destruct resp as [resp|]; [|by exec_step Hx].
  exec_step Hx. injection Ha as ->. right. exists r, ts, resp. split_and!; [done..|]. done.
Qed.

(** ** Plain endpoints *)

(** An http or https endpoint with a host, an optional port and no path. *)
Record plain_endpoint (endpoint : string) (base : URL) : Prop := mk_plain {
  plain_parsed : Parse endpoint = Some base;
  plain_scheme : is_http base.(Scheme) = true;
  plain_hosted : plain_host base.(Host) = true;
  plain_rest : ∃ p, base = mk_URL base.(Scheme) "" None base.(Host) p "" false false "" "" "" ∧ (p = "" ∨ p = "/");
}.

Lemma plain_endpoint_intro scheme host p :
  is_http scheme = true → plain_host host = true → (p = "" ∨ p = "/") →
  plain_endpoint (scheme +:+ "://" +:+ host +:+ p) (mk_URL scheme "" None host p "" false false "" "" "").
Proof.
  intros Hs Hh Hp. split; [|done|done|by exists p].
  assert (escape p encodePath = p) as He by (by destruct Hp as [-> | ->]).
  rewrite <- He at 1. apply Parse_plain; [done|done|]. destruct Hp as [-> | ->]; [by left|right; by exists ""].
Qed.

(** The request line of a plain endpoint is the path the client asked for. *)
Lemma plain_request endpoint base path :
  plain_endpoint endpoint base →
  ∃ u, request_url (URL_String (with_path base (TrimSuffix base.(Path) "/" +:+ "/" +:+ path))) = Some u
       ∧ RequestURI u = escape (String "/" path) encodePath.
Proof.
  intros [_ Hs Hh (p & Hb & Hp)].
  assert (with_path base (TrimSuffix base.(Path) "/" +:+ "/" +:+ path)
          = mk_URL base.(Scheme) "" None base.(Host) (String "/" path) "" false false "" "" "") as ->.
  { rewrite Hb. cbn [Path with_path Scheme Host]. by destruct Hp as [-> | ->]. }
  rewrite String_plain by (done || by eexists). unfold request_url.
  rewrite Parse_plain by (done || (right; by eexists)). eexists. split; [done|].
  unfold RequestURI, query_String, EscapedPath.
  change (String.eqb (escape (String "/" path) encodePath) "") with false.
  cbn -[escape]. by rewrite string_app_nil_r.
Qed.

Definition bearer (token : string) : string := if String.eqb token "" then "" else "Bearer " +:+ token.

Lemma TrimPrefix_bearer token : TrimPrefix (bearer token) "Bearer " = token.
Proof.
  unfold bearer. destruct (String.eqb_spec token "") as [->|]; [done|]. apply TrimPrefix_app.
Qed.

(** A call of the client that succeeds: the server served the request and answered
    with a code of success. *)
Lemma exec_do {A} endpoint base c method path body (decode : option (string → option A)) zero t a :
  plain_endpoint endpoint base → c.(hc_baseURL) = base →
  exec (connect (do c method path body decode zero)) t (Ok a) →
  ∃ ts resp,
    exec (ServeHTTP decode_request cfg fuel
            (mk_http_request method (Split path "/") (bearer c.(hc_token)) (default "" body))) ts (Some resp)
    ∧ t = [@Ev SystemE YNet None] ++ map server_event ts ++ [@Ev SystemE YNet None]
    ∧ 200 ≤ resp.(resp_code) < 300
    ∧ match decode with
      | Some decode => resp.(resp_code) = StatusNoContent ∨ decode (on_wire resp).(in_body) = Some a
      | None => True
      end.
Proof.
  intros Hp Hb. unfold do. rewrite Hb. destruct (plain_request endpoint base path Hp) as (u & -> & Hu).
  cbn [bind perform connect]. intros (t1 & t2 & r & -> & He & Hx)%exec_bind.
  destruct r as [i|err]; [|by cbn [connect] in Hx; exec_step Hx].
  destruct ((in_code i <? 200) || (300 <=? in_code i)) eqn:Hcode; [by cbn [connect] in Hx; exec_step Hx|].
  apply orb_false_iff in Hcode as [Hc1%Z.ltb_ge Hc2%Z.leb_gt].
  apply exec_exchange in He as [->|(r & ts & resp & Hr & Hs & -> & ->)]; [change (400 < 300) in Hc2; lia|].
  unfold at_server in Hr. cbn [out_url out_method out_authorization out_body] in Hr.
  rewrite Hu, request_segments_path in Hr. injection Hr as <-.
  exists ts, resp. split.
  { destruct (String.eqb c.(hc_token) "") eqn:Ht; unfold bearer; rewrite Ht; exact Hs. }
  assert (t2 = [] ∧ match decode with
      | Some decode => resp.(resp_code) = StatusNoContent ∨ decode (on_wire resp).(in_body) = Some a
      | None => True end) as [-> Hdec].
  { destruct decode as [decode|]; [|by cbn [connect] in Hx; exec_step Hx].
    destruct (in_code (on_wire resp) =? StatusNoContent) eqn:Hnc;
      [apply Z.eqb_eq in Hnc; cbn [connect] in Hx; exec_step Hx; auto|].
    destruct (decode (in_body (on_wire resp))) eqn:Hd; cbn [connect] in Hx; exec_step Hx; [|done].
    injection Ha as ->. auto. }
  rewrite app_nil_r. split_and!; [done|exact Hc1|exact Hc2|done].
Qed.

(** ** Client traces and the system's traces *)

(** The exchanges of a client trace, in order. *)
Inductive realizes : list (event ClientE) → list (event SystemE) → Prop :=
| realizes_nil : realizes [] []
| realizes_cons tm o (r : result go_error incoming) tc t1 t2 :
    exec (exchange o) t1 r → realizes tc t2 → realizes (@Ev ClientE (HttpDo tm o) r :: tc) (t1 ++ t2).

Lemma exec_connect {A} (p : prog ClientE A) t a :
  exec (connect p) t a ↔ ∃ tc, exec p tc a ∧ realizes tc t.
Proof.
  split.
  - revert t. induction p as [b|[tm o] k IH]; intros t Hx; cbn [connect] in Hx.
    + apply exec_ret_inv in Hx as [-> ->]. exists []. split; [done|constructor].
    + apply exec_bind in Hx as (t1 & t2 & r & -> & He & Hx). apply IH in Hx as (tc & Hp & Hr).
      exists (@Ev ClientE (HttpDo tm o) r :: tc). split; [by exists r|by constructor].
  - intros (tc & Hp & Hr). revert p Hp. induction Hr as [|tm o r tc t1 t2 He Hr IH]; intros p Hp.
    + destruct p; [done|done].
    + destruct p as [b|c k]; [done|]. destruct Hp as (r' & E & Hp).
      assert (c = HttpDo tm o) as -> by (by apply (f_equal ev_call) in E).
      apply (f_equal (λ e : event ClientE, match e with @Ev _ (HttpDo _ _) r => r end)) in E. cbn in E. subst r'.
      cbn [connect]. apply exec_bind. eauto 10.
Qed.

Lemma realizes_app tc1 tc2 t :
  realizes (tc1 ++ tc2) t → ∃ t1 t2, t = t1 ++ t2 ∧ realizes tc1 t1 ∧ realizes tc2 t2.
Proof.
  revert t. induction tc1 as [|e tc1 IH]; intros t Hr; cbn in Hr.
  - exists [], t. split_and!; [done|constructor|done].
  - inversion Hr as [|tm o r tc ta tb He Hr']; subst. apply IH in Hr' as (t1 & t2 & -> & H1 & H2).
    exists (ta ++ t1), t2. split_and!; [by rewrite app_assoc|by constructor|done].
Qed.

(** ** The server's events *)

Definition system_ok (e : event SystemE) : Prop :=
  match e with Ev (YServer c) r => server_ok (@Ev ServerE c r) | _ => True end.

Lemma system_ok_server ts : Forall system_ok (map server_event ts) → Forall server_ok ts.
Proof. rewrite Forall_map. intros Ht. eapply Forall_impl; [exact Ht|]. by intros [c r]. Qed.

(** Exchanges delete no sandbox. *)
Definition deletes_none (e : event SystemE) : Prop :=
  match e with Ev (YServer (SKube (DeleteSandbox _))) _ => False | _ => True end.

Lemma deletes_none_server ts : deletes ts = [] → Forall deletes_none (map server_event ts).
Proof.
  induction ts as [|[c r] ts IH]; [constructor|]. cbn. intros Hd. constructor.
  - by destruct c as [[]| | |].
  - apply IH. by destruct c as [[]| | |].
Qed.

Lemma auth_reads_deletes ts : Forall (auth_read cfg) ts → deletes ts = [].
Proof.
  induction 1 as [|[c r] ts He _ IH]; [done|]. unfold auth_read in He. cbn in He. destruct He as [-> | ->]; exact IH.
Qed.

Lemma deletes_none_exchange ts :
  deletes ts = [] →
  Forall deletes_none ([@Ev SystemE YNet None] ++ map server_event ts ++ [@Ev SystemE YNet None]).
Proof.
  intros Hd. apply Forall_app. split; [by repeat constructor|]. apply Forall_app.
  split; [by apply deletes_none_server|by repeat constructor].
Qed.

(** ** The two requests of [CreateInstance], and the one of [DeleteInstance] *)

Context (endpoint : string) (base : URL) (Hplain : plain_endpoint endpoint base).
Context (c : httpSandboxClient) (Hbase : c.(hc_baseURL) = base).

Lemma exec_served t method path body {A} (decode : option (string → option A)) zero a :
  exec (connect (do c method path body decode zero)) t (Ok a) → Forall system_ok t →
  ∃ ts resp,
    exec (ServeHTTP decode_request cfg fuel
            (mk_http_request method (Split path "/") (bearer c.(hc_token)) (default "" body))) ts (Some resp)
    ∧ t = [@Ev SystemE YNet None] ++ map server_event ts ++ [@Ev SystemE YNet None]
    ∧ Forall server_ok ts ∧ 200 ≤ resp.(resp_code) < 300
    ∧ match decode with
      | Some decode => resp.(resp_code) = StatusNoContent ∨ decode (on_wire resp).(in_body) = Some a
      | None => True
      end.
Proof.
  intros Hx Hok. destruct (exec_do _ _ _ _ _ _ _ _ _ _ Hplain Hbase Hx) as (ts & resp & Hs & -> & Hcode & Hd).
  exists ts, resp. rewrite !Forall_app in Hok. split; [done|]. split; [done|].
  split; [apply system_ok_server, Hok|]. by split.
Qed.

(** What [authorize] lets through. *)
Lemma exec_authorized next ts resp :
  exec (authorize cfg next (bearer c.(hc_token))) ts (Some resp) → resp.(resp_code) < StatusBadRequest →
  ∃ t1 t2 a, ts = t1 ++ t2 ∧ Forall (auth_read cfg) t1 ∧ entitled cfg c.(hc_token) t1 a ∧ exec (next a) t2 (Some resp).
Proof.
  intros [(t1 & t2 & a & -> & Hro & Hent & Hn)|(_ & r & [= <-] & Hcode)]%exec_authorize Hlt.
  - rewrite TrimPrefix_bearer in Hent. eauto 10.
  - by destruct Hcode as [Hc | Hc]; rewrite Hc in Hlt.
Qed.

(** Routing of the client's requests. *)
Lemma route_config auth body :
  ServeHTTP decode_request cfg fuel (mk_http_request "GET" (Split "v1/config" "/") auth body)
  = authorize cfg getConfig auth.
Proof. reflexivity. Qed.

Lemma route_create auth body :
  ServeHTTP decode_request cfg fuel (mk_http_request "POST" (Split "v1/sandboxes" "/") auth body)
  = authorize cfg (λ access, createSandbox decode_request fuel access body) auth.
Proof. reflexivity. Qed.

Lemma route_delete auth body id :
  contains_char "/" id = false → id ≠ "" →
  ServeHTTP decode_request cfg fuel (mk_http_request "DELETE" (Split ("v1/sandboxes/" +:+ id) "/") auth body)
  = authorize cfg (λ access, deleteSandbox access id) auth.
Proof.
  intros Hid Hne. assert (Split ("v1/sandboxes/" +:+ id) "/" = ["v1"; "sandboxes"; id]) as ->.
  { change ("v1/sandboxes/" +:+ id) with ("v1" +:+ String "/" ("sandboxes" +:+ String "/" id)).
    assert (Split id "/" = [id]) as E.
    { rewrite <- (string_app_nil_r id) at 1. rewrite Split_app_plain by done.
      transitivity [id +:+ ""]; [reflexivity|by rewrite string_app_nil_r]. }
    rewrite (Split_app_plain "/" "v1"), Split_cons by done. rewrite decide_True by done.
    rewrite (Split_app_plain "/" "sandboxes"), Split_cons by done. rewrite decide_True, E by done. reflexivity. }
  unfold ServeHTTP. cbn [req_segments req_method]. apply String.eqb_neq in Hne. by rewrite Hne.
Qed.

Lemma exec_configured t networkMTU :
  exec (connect (client_Config c)) t (Ok networkMTU) → Forall system_ok t → Forall deletes_none t.
Proof.
  intros Hx Hok. apply exec_served in Hx as (ts & resp & Hs & -> & _ & Hcode & _); [|done].
  apply deletes_none_exchange. rewrite route_config in Hs.
  apply exec_authorized in Hs as (t1 & t2 & a & -> & Hro & _ & Hn); [|unfold StatusBadRequest; lia].
  rewrite deletes_app, (auth_reads_deletes t1) by done.
  unfold getConfig, getClass in Hn. exec_step Hn. destruct r; by exec_step Hn.
Qed.

Lemma exec_created_sandbox t request created :
  sendable request →
  exec (connect (client_Create c request)) t (Ok created) → Forall system_ok t →
  ∃ t1 ts a o, t = [@Ev SystemE YNet None] ++ map server_event (t1 ++ ts) ++ [@Ev SystemE YNet None]
    ∧ entitled cfg c.(hc_token) t1 a
    ∧ got_sandbox (request_key a request) (Ok o) ∈ ts ∧ Forall deletes_none t
    ∧ conditionTrue o.(sb_Status).(st_Conditions) ConditionReady = true
    ∧ created = clean_response (mk_sandboxResponse (sandboxName request.(rq_SandboxID))
                                  request.(rq_WorkloadRef).(wr_Name) o.(sb_Status).(st_IPs)).
Proof.
  intros Hsend Hx Hok. apply exec_served in Hx as (ts & resp & Hs & Ht & Hsok & Hcode & Hdec); [|done].
  rewrite route_create in Hs.
  apply exec_authorized in Hs as (t1 & t2 & a & -> & Hro & Hent & Hn); [|unfold StatusBadRequest; lia].
  apply Forall_app in Hsok as [_ Hok2].
  destruct (returns_exec _ _ _ _ (createSandbox_codes _ _ _ _) Hn resp eq_refl) as [H201|Hbad];
    [|unfold StatusBadRequest in Hbad; lia].
  destruct (exec_created _ _ _ _ _ _ Hn Hok2 H201) as (r & t' & o & Hreq & -> & Hready & _ & Hdel & Hbody).
  apply decode_sent in Hreq; [|done]. subst r.
  exists t1, (t' ++ [got_sandbox (request_key a request) (Ok o)]), a, o. split_and!; [done|done|set_solver| |done|].
  - rewrite Ht. apply deletes_none_exchange. by rewrite deletes_app, Hdel, (auth_reads_deletes).
  - destruct Hdec as [H204|Hdec]; [by rewrite H201 in H204|]. cbn [on_wire in_body] in Hdec.
    rewrite Hbody, decode_encoded_sandbox in Hdec. by injection Hdec.
Qed.
End system.

(** ** Labels, which are what sandbox names are made of, are sent as they are *)

Lemma label_unreserved c : is_label_char c = true → unreserved c = true.
Proof. destruct c as [[] [] [] [] [] [] [] []]; vm_compute; done. Qed.

Lemma label_valid s : string_forall is_label_char s = true → valid_utf8 s = true.
Proof.
  unfold valid_utf8. induction s as [|c s IH]; [done|]. cbn [string_forall]. intros [Hc Hs]%andb_true_iff.
  assert (is_ascii c = true) as Ha by (revert Hc; clear; destruct c as [[] [] [] [] [] [] [] []]; vm_compute; done).
  cbn [runes]. rewrite Ha. cbn. by apply IH.
Qed.

Lemma label_path id :
  string_forall is_label_char id = true → PathEscape id = id ∧ contains_char "/" id = false.
Proof.
  intros Hid. split.
  - apply PathEscape_id. eapply string_forall_impl; [apply label_unreserved|done].
  - by apply (string_forall_not_contains is_label_char).
Qed.

(** ** Properties *)

Section properties.
Context `{ControllerUtil} (render : go_error → string) (status_line : Z → string).
Context (cfg : Config) (fuel : nat).
Context {wf_rest cc_rest other : Type} (wf_zero : wf_rest).
Context (generate : CloudConfig wf_rest cc_rest → result go_error string).
Context (generate_other : other → result go_error string) (int_overflow : float64 → Z).

Notation connect := (connect render status_line cfg fuel).

Lemma new_provider pcfg p base :
  plain_endpoint pcfg.(pv_Endpoint) base → newKubernetesProvider pcfg None = Ok p →
  ∃ timeout, ConfigVerifier p = Ok (http_client (mk_httpSandboxClient base pcfg.(pv_Token) (Some timeout))).
Proof.
  intros [Hparse Hs Hh _]. unfold newKubernetesProvider. destruct (provider_timeout pcfg) as [tm|]; [|done].
  destruct (String.eqb_spec pcfg.(pv_Endpoint) "") as [E|Hne].
  { rewrite E in Hparse. vm_compute in Hparse. by injection Hparse as <-. }
  unfold newHTTPSandboxClient. rewrite Hparse. unfold is_http in Hs.
  assert (negb (String.eqb base.(Scheme) "http") && negb (String.eqb base.(Scheme) "https") = false) as ->
    by (by rewrite <- negb_orb, Hs).
  assert (String.eqb base.(Host) "" = false) as -> by (apply String.eqb_neq; intros E; by rewrite E in Hh).
  intros [= <-]. exists tm. unfold ConfigVerifier. cbn [pv_config pv_client].
  by rewrite (proj2 (String.eqb_neq _ _) Hne).
Qed.

(** What stands behind an instance that was returned without an error. *)
Lemma exec_instance pcfg p base g podName sandboxID spec t i :
  plain_endpoint pcfg.(pv_Endpoint) base → newKubernetesProvider pcfg None = Ok p →
  (∀ networkMTU data,
     generateUserData wf_zero generate generate_other int_overflow g networkMTU = Ok data →
     sendable (instance_request g podName sandboxID data spec)) →
  exec (connect (CreateInstance wf_zero generate generate_other int_overflow p podName sandboxID g spec)) t
    (Some i, None) →
  Forall system_ok t →
  ∃ t1 a o,
    Forall (λ e, server_event e ∈ t) t1 ∧ entitled cfg pcfg.(pv_Token) t1 a
    ∧ server_event (got_sandbox (NN a.(acc_Namespace) (sandboxName sandboxID)) (Ok o)) ∈ t
    ∧ conditionTrue o.(sb_Status).(st_Conditions) ConditionReady = true
    ∧ i.(in_ID) = sandboxName sandboxID
    ∧ i.(in_IPs) = map to_valid o.(sb_Status).(st_IPs) ∧ i.(in_IPs) ≠ []
    ∧ Forall deletes_none t.
Proof.
  intros Hplain Hnew Hsend Hx Hok. destruct (new_provider pcfg p base Hplain Hnew) as [tm Hver].
  apply exec_connect in Hx as (tc & Hx & Hr).
  apply exec_CreateInstance in Hx as [(? & ? & _)|(created & (client & tc1 & tc2 & mtu & data & Hc & -> & Hcfg & Hdata & Hcr) & Hi)];
    [done|].
  rewrite Hver in Hc. injection Hc as <-. cbn [http_client sc_Config sc_Create] in Hcfg, Hcr.
  apply realizes_app in Hr as (ta & tb & -> & Hra & Hrb). apply Forall_app in Hok as [Hoka Hokb].
  assert (Hxa : exec (connect (client_Config (mk_httpSandboxClient base pcfg.(pv_Token) (Some tm)))) ta (Ok mtu))
    by (apply exec_connect; eauto).
  assert (Hxb : exec (connect (client_Create (mk_httpSandboxClient base pcfg.(pv_Token) (Some tm))
                   (instance_request g podName sandboxID data spec))) tb (Ok created))
    by (apply exec_connect; eauto).
  apply (exec_configured _ _ _ _ _ _ Hplain) in Hxa; [|done|done].
  apply (exec_created_sandbox _ _ _ _ _ _ Hplain) in Hxb as (t1 & ts & a & o & -> & Hent & Hin & Hdel & Hready & ->);
    [|done|by eapply Hsend|done].
  destruct (instance_of_spec (clean_response (mk_sandboxResponse
     (sandboxName (instance_request g podName sandboxID data spec).(rq_SandboxID))
     (instance_request g podName sandboxID data spec).(rq_WorkloadRef).(wr_Name) o.(sb_Status).(st_IPs))))
    as (i' & E1 & Hid & _ & Herr & Hips).
  rewrite <- Hi in E1, Herr. cbn [fst snd] in E1, Herr. injection E1 as <-.
  destruct Herr as [Huse _]. specialize (Huse eq_refl). specialize (Hips Huse). destruct Huse as (_ & Hne & _).
  exists t1, a, o. split_and!.
  - apply Forall_forall. intros e He. rewrite !elem_of_app, map_app, elem_of_app. right. right. left. left.
    by apply elem_of_map.
  - done.
  - rewrite !elem_of_app, map_app, elem_of_app. right. right. left. right. by apply elem_of_map.
  - done.
  - rewrite Hid. apply to_valid_id, label_valid, sandboxName_label.
  - by rewrite Hips.
  - by rewrite Hips.
  - apply Forall_app. by split.
Qed.

(** C3. A created instance exists. When [CreateInstance], against the API server,
    returns an instance without an error, then the server, for an access the
    plug-in's token is entitled to, read the sandbox of the given sandbox ID as
    ready; the instance has the sandbox's name as its ID and its addresses; and no
    sandbox was deleted. *)
Theorem instance_is_ready_sandbox pcfg p base g podName sandboxID spec t i :
  plain_endpoint pcfg.(pv_Endpoint) base → newKubernetesProvider pcfg None = Ok p →
  (∀ networkMTU data,
     generateUserData wf_zero generate generate_other int_overflow g networkMTU = Ok data →
     sendable (instance_request g podName sandboxID data spec)) →
  exec (connect (CreateInstance wf_zero generate generate_other int_overflow p podName sandboxID g spec)) t
    (Some i, None) →
  Forall system_ok t →
  ∃ t1 a o,
    Forall (λ e, server_event e ∈ t) t1 ∧ entitled cfg pcfg.(pv_Token) t1 a
    ∧ server_event (got_sandbox (NN a.(acc_Namespace) (sandboxName sandboxID)) (Ok o)) ∈ t
    ∧ conditionTrue o.(sb_Status).(st_Conditions) ConditionReady = true
    ∧ i.(in_ID) = sandboxName sandboxID
    ∧ i.(in_IPs) = map to_valid o.(sb_Status).(st_IPs) ∧ i.(in_IPs) ≠ []
    ∧ Forall deletes_none t.
Proof. apply exec_instance. Qed.

(** C16. Deleting an instance deletes its sandbox. When [DeleteInstance] of an
    instance whose ID is a DNS label (as every sandbox name is) succeeds against the
    API server, then, for an access the plug-in's token is entitled to, the sandbox
    of that name was absent or deleted, and no other sandbox was deleted. *)
Theorem delete_reaches_sandbox pcfg p base id t :
  plain_endpoint pcfg.(pv_Endpoint) base → newKubernetesProvider pcfg None = Ok p →
  string_forall is_label_char id = true →
  exec (connect (DeleteInstance p id)) t None → Forall system_ok t →
  ∃ t1 ts a,
    t = [@Ev SystemE YNet None] ++ map server_event (t1 ++ ts) ++ [@Ev SystemE YNet None]
    ∧ entitled cfg pcfg.(pv_Token) t1 a
    ∧ gone (NN a.(acc_Namespace) id) ts
    ∧ Forall (λ k, k = NN a.(acc_Namespace) id) (deletes (t1 ++ ts)).
Proof.
  intros Hplain Hnew Hid Hx Hok. destruct (new_provider pcfg p base Hplain Hnew) as [tm Hver].
  unfold DeleteInstance in Hx. destruct (String.eqb_spec id "") as [|Hne]; [by cbn [System.connect] in Hx; exec_step Hx|].
  rewrite Hver in Hx. cbn [http_client sc_Delete] in Hx.
  apply exec_connect_bind in Hx as (ta & tb & r & -> & Hx & Hret).
  destruct r as [[]|err]; cbn [System.connect] in Hret; exec_step Hret; [|done]. rewrite app_nil_r in *.
  unfold client_Delete in Hx. destruct (label_path id Hid) as [Hesc Hslash]. rewrite Hesc in Hx.
  apply (exec_served _ _ _ _ _ _ Hplain) in Hx as (ts & resp & Hs & -> & Hsok & Hcode & _); [|done|done].
  rewrite route_delete in Hs by done.
  apply exec_authorized in Hs as (t1 & t2 & a & -> & Hro & Hent & Hn); [|unfold StatusBadRequest; lia].
  apply Forall_app in Hsok as [_ Hok2].
  apply exec_deleted in Hn as [Hgone Hdel]; [|done|unfold StatusBadRequest; lia].
  exists t1, t2, a. split_and!; [done..|]. by rewrite deletes_app, (auth_reads_deletes cfg t1).
Qed.
End properties.

(** ** Witnesses *)

(** The world of the server with a network that loses nothing. *)
Definition system_handle (w : world) (c : SystemE) : world * answer c :=
  match c return world * @answer SystemE c with
  | YServer c => world_handle w c
  | YNet => (w, None)
  end.

Lemma system_trace_ok {A} (p : prog SystemE A) w : Forall system_ok (run_trace system_handle w p).
Proof.
  revert w. induction p as [a|[c|] k IH]; intros w; [constructor| |].
  - pose proof (world_ok w c) as Hok. cbn [run_trace]. cbn [system_handle].
    destruct (world_handle w c) as [w' r]. constructor; [done|]. apply IH.
  - constructor; [done|]. apply IH.
Qed.

Definition plugin_config : config := mk_config "http://pod-sandbox-api:8080" "cluster-secret" "".

Definition plugin_base : URL := mk_URL "http" "" None "pod-sandbox-api:8080" "" "" false false "" "" "".

Definition plugin : kubernetesProvider ClientE :=
  mk_provider plugin_config
    (Some (http_client (mk_httpSandboxClient plugin_base "cluster-secret" (Some default_timeout)))).

Lemma plugin_new : newKubernetesProvider plugin_config None = Ok plugin.
Proof.
  assert (Hc : newHTTPSandboxClient "http://pod-sandbox-api:8080" "cluster-secret" (Some default_timeout)
               = Ok (mk_httpSandboxClient plugin_base "cluster-secret" (Some default_timeout)))
    by (vm_compute; reflexivity).
  unfold newKubernetesProvider. change (provider_timeout plugin_config) with (@Ok go_error Z default_timeout).
  cbn [plugin_config pv_Endpoint pv_Token]. rewrite Hc. reflexivity.
Qed.

Definition fixture_generator : generator unit unit unit := GOther tt.

Definition fixture_create : prog SystemE (option Instance * option go_error) :=
  connect (λ _, "error") (λ _, "status") config_fixture 5
    (CreateInstance tt concat_files (λ _ : unit, Ok "userdata") no_overflow plugin "api-7d9c" "sandbox-id" fixture_generator
       (mk_InstanceTypeSpec 2 512 "amd64")).

Definition fixture_instance : Instance := mk_Instance (sandboxName "sandbox-id") "api-7d9c" ["10.90.0.8"].

Lemma instance_is_ready_sandbox_witness :
  let t := run_trace system_handle ready_world fixture_create in
  ∃ t1 a o,
    Forall (λ e, server_event e ∈ t) t1 ∧ entitled config_fixture "cluster-secret" t1 a
    ∧ server_event (got_sandbox (NN a.(acc_Namespace) (sandboxName "sandbox-id")) (Ok o)) ∈ t
    ∧ conditionTrue o.(sb_Status).(st_Conditions) ConditionReady = true
    ∧ fixture_instance.(in_ID) = sandboxName "sandbox-id"
    ∧ fixture_instance.(in_IPs) = map to_valid o.(sb_Status).(st_IPs) ∧ fixture_instance.(in_IPs) ≠ []
    ∧ Forall deletes_none t.
Proof.
  intros t.
  assert (Hp : plain_endpoint plugin_config.(pv_Endpoint) plugin_base)
    by (exact (plain_endpoint_intro "http" "pod-sandbox-api:8080" "" eq_refl eq_refl (or_introl eq_refl))).
  pose proof plugin_new as Hn.
  assert (Hs : ∀ networkMTU data,
     generateUserData tt concat_files (λ _ : unit, Ok "userdata") no_overflow fixture_generator networkMTU = Ok data →
     sendable (instance_request fixture_generator "api-7d9c" "sandbox-id" data (mk_InstanceTypeSpec 2 512 "amd64"))).
  { intros networkMTU data E. injection E as E. rewrite <- E.
    split; [repeat constructor | split; split; vm_compute; discriminate]. }
  assert (Hr : (run system_handle ready_world fixture_create).2 = (Some fixture_instance, None))
    by (vm_compute; reflexivity).
  pose proof (run_exec system_handle ready_world fixture_create) as Hx. rewrite Hr in Hx. fold t in Hx.
  exact (instance_is_ready_sandbox (λ _, "error") (λ _, "status") config_fixture 5 tt concat_files
           (λ _ : unit, Ok "userdata") no_overflow plugin_config plugin plugin_base fixture_generator "api-7d9c" "sandbox-id"
           (mk_InstanceTypeSpec 2 512 "amd64") t fixture_instance Hp Hn Hs Hx (system_trace_ok fixture_create ready_world)).
Defined.

Definition fixture_delete : prog SystemE (option go_error) :=
  connect (λ _, "error") (λ _, "status") config_fixture 5 (DeleteInstance plugin "psb-1").

Lemma delete_reaches_sandbox_witness :
  let t := run_trace system_handle ready_world fixture_delete in
  ∃ t1 ts a,
    t = [@Ev SystemE YNet None] ++ map server_event (t1 ++ ts) ++ [@Ev SystemE YNet None]
    ∧ entitled config_fixture "cluster-secret" t1 a
    ∧ gone (NN a.(acc_Namespace) "psb-1") ts
    ∧ Forall (λ k, k = NN a.(acc_Namespace) "psb-1") (deletes (t1 ++ ts)).
Proof.
  intros t.
  assert (Hp : plain_endpoint plugin_config.(pv_Endpoint) plugin_base)
    by (exact (plain_endpoint_intro "http" "pod-sandbox-api:8080" "" eq_refl eq_refl (or_introl eq_refl))).
  pose proof plugin_new as Hn.
  assert (Hr : (run system_handle ready_world fixture_delete).2 = None) by (vm_compute; reflexivity).
  pose proof (run_exec system_handle ready_world fixture_delete) as Hx. rewrite Hr in Hx. fold t in Hx.
  exact (delete_reaches_sandbox (λ _, "error") (λ _, "status") config_fixture 5 plugin_config plugin plugin_base
           "psb-1" t Hp Hn eq_refl Hx (system_trace_ok fixture_delete ready_world)).
Defined.
