(* ===== verification/Proxy.v ===== *)
(** * The proxies of the runner: cmd/runner/main.go

    The goroutines behind [startAgentProxy] and [startHTTPProxy]. Handlers are
    programs over the calls of one connection or request. [bridgeConnections],
    whose three goroutines share two connections, is a step relation. *)

From Stdlib Require Import Ascii.
From stdpp Require Import relations.
From S2P Require Import Prelude GoFmt GoStrings Prog.

Local Open Scope Z_scope.

(** ** Handlers *)

(** [http.Header]. *)
Notation header := (gmap string (list string)).

Record proxy_request : Type := mk_proxy_request {
  px_Method : string;
  px_URL : string;
  px_Host : string;
  px_RequestURI : string;
  px_Header : header;
  px_Body : string;
}.

(** A response whose body is still to be read. *)
Record proxy_response : Type := mk_proxy_response { ps_Code : Z; ps_Header : header }.

(** The two ends of a bridge: the accepted (or hijacked) connection, and the one
    that was dialled. *)
Inductive side : Type := Downstream | Upstream.

#[export] Instance side_eq_dec : EqDecision side.
Proof. solve_decision. Defined.

Inductive proxy_call : Type :=
| Accept                                        (* listener.Accept *)
| SpawnConnection (target : string)             (* go proxyConnection(connection, target) *)
| DialUpstream (target : string) (seconds : Z)
| CloseSide (s : side)
| Bridge                                        (* bridgeConnections, as a call or a goroutine *)
| IsHijacker                                    (* response.(http.Hijacker) *)
| Hijack
| WriteClient (text : string)
| CloneTransport                                (* the clone of http.DefaultTransport *)
| RoundTrip (proxied : bool) (outbound : proxy_request)
| CloseIdleConnections                          (* of the transport *)
| WriteHeader (h : header) (code : Z)           (* the header added, then response.WriteHeader *)
| CopyBody                                      (* io.Copy(response, upstream.Body) *)
| CloseBody
| HttpError (text : string) (code : Z).

(** [CopyBody] is what was copied, and the error that ended it early. *)
Definition proxy_answer (c : proxy_call) : Type :=
  match c with
  | Accept | DialUpstream _ _ | Hijack | WriteClient _ => option go_error
  | IsHijacker => bool
  | RoundTrip _ _ => result go_error proxy_response
  | CopyBody => string * option go_error
  | SpawnConnection _ | CloseSide _ | Bridge | CloneTransport | CloseIdleConnections | WriteHeader _ _ | CloseBody
  | HttpError _ _ => unit
  end.

Definition ProxyE : effects := Effects proxy_call proxy_answer.
Notation px c := (@perform ProxyE c).

(** The accept loop of [startAgentProxy], for at most [fuel] connections: it ends
    with the listener ([true]), or goes on. *)
Fixpoint accept_loop (fuel : nat) (target : string) : prog ProxyE bool :=
  match fuel with
  | O => Ret false
  | S fuel =>
      let! err := px Accept in
      match err with
      | Some _ => Ret true
      | None => px (SpawnConnection target) ;;; accept_loop fuel target
      end
  end.

Definition proxyConnection (target : string) : prog ProxyE unit :=
  let! err := px (DialUpstream target 5) in
  match err with
  | Some _ => px (CloseSide Downstream)
  | None => px Bridge
  end.

Definition connection_established : string :=
  "HTTP/1.1 200 Connection Established"
  +:+ String (byte_chr 13) (String (byte_chr 10) (String (byte_chr 13) (String (byte_chr 10) ""))).

Definition proxyConnect (request : proxy_request) : prog ProxyE unit :=
  let! err := px (DialUpstream request.(px_Host) 10) in
  match err with
  | Some _ => px (HttpError "upstream unavailable" 502)
  | None =>
      let! ok := px IsHijacker in
      if negb ok then
        px (CloseSide Upstream) ;;;
        px (HttpError "CONNECT is unsupported" 500)
      else
        let! err := px Hijack in
        match err with
        | Some _ => px (CloseSide Upstream)
        | None =>
            let! err := px (WriteClient connection_established) in
            match err with
            | Some _ => px (CloseSide Downstream) ;;; px (CloseSide Upstream)
            | None => px Bridge
            end
        end
  end.

(** [Header.Add], to a header in canonical form. *)
Definition header_add (h : header) (key value : string) : header :=
  <[key := default [] (h !! key) ++ [value]]> h.

(** The loop that copies the upstream's header; the order of the keys is that of
    the map, the order of the values of a key is kept. *)
Definition copy_header (upstream response : header) : header :=
  map_fold (λ key values h, foldl (λ h value, header_add h key value) h values) response upstream.

(** The request that goes out: no request URI, no [Proxy-Connection]. *)
Definition outbound_request (r : proxy_request) : proxy_request :=
  mk_proxy_request r.(px_Method) r.(px_URL) r.(px_Host) "" (delete "Proxy-Connection" r.(px_Header)) r.(px_Body).

(** The transport is one of the request's own, without a proxy; its connections are
    left to its idle timeout. The error of the copy is dropped. *)
Definition proxyHTTP (request : proxy_request) : prog ProxyE unit :=
  if String.eqb request.(px_Method) "CONNECT" then proxyConnect request
  else
    px CloneTransport ;;;
    let! upstream := px (RoundTrip false (outbound_request request)) in
    match upstream with
    | Err _ => px (HttpError "upstream unavailable" 502)
    | Ok upstream =>
        px (WriteHeader (copy_header upstream.(ps_Header) ∅) upstream.(ps_Code)) ;;;
        px CopyBody ;;;
        px CloseBody
    end.

(** ** [bridgeConnections] *)

Definition opposite (s : side) : side := match s with Downstream => Upstream | Upstream => Downstream end.

(** A connection: what arrived on it and how much of that was read, whether its
    peer has finished sending, what was written to it, whether it failed, was closed
    for writing, or closed, and whether it is a [*net.TCPConn], which alone can be
    closed for writing. *)
Record conn : Type := mk_conn {
  arrived : string; taken : nat; eof : bool; reset : bool; written : string; wclosed : bool; closed : bool;
  tcp : bool
}.

Definition new_conn (tcp : bool) : conn := mk_conn "" 0 false false "" false false tcp.

(** The goroutine that copies from a side to the opposite one: reading, about to
    write what it read, out of its loop, or done. *)
Inductive copier : Type := Reading | Writing (chunk : string) | Ended | Signalled.

(** The calling goroutine: waiting for the first signal, then closing. *)
Inductive main_state : Type := Waiting | Woken | ClosedUpstream | Returned.

(** A value for each side. *)
Record both (V : Type) : Type := mk_both { downstream : V; upstream : V }.

Arguments mk_both {V} _ _.
Arguments downstream {V} _.
Arguments upstream {V} _.

Definition at_side {V} (b : both V) (s : side) : V :=
  match s with Downstream => b.(downstream) | Upstream => b.(upstream) end.

Coercion at_side : both >-> Funclass.

Definition upd {V} (b : both V) (s : side) (v : V) : both V :=
  match s with Downstream => mk_both v b.(upstream) | Upstream => mk_both b.(downstream) v end.

Record bridge : Type := mk_bridge { conns : both conn; copiers : both copier; main : main_state }.

Definition start (tcp : both bool) : bridge :=
  mk_bridge (mk_both (new_conn (tcp Downstream)) (new_conn (tcp Upstream))) (mk_both Reading Reading) Waiting.

(** Changes of a connection. *)
Definition arrives (c : conn) (data : string) : conn :=
  mk_conn (c.(arrived) +:+ data) c.(taken) c.(eof) c.(reset) c.(written) c.(wclosed) c.(closed) c.(tcp).
Definition ends (c : conn) : conn :=
  mk_conn c.(arrived) c.(taken) true c.(reset) c.(written) c.(wclosed) c.(closed) c.(tcp).
Definition resets (c : conn) : conn :=
  mk_conn c.(arrived) c.(taken) c.(eof) true c.(written) c.(wclosed) c.(closed) c.(tcp).
Definition takes (c : conn) (n : nat) : conn :=
  mk_conn c.(arrived) (c.(taken) + n) c.(eof) c.(reset) c.(written) c.(wclosed) c.(closed) c.(tcp).
Definition puts (c : conn) (chunk : string) : conn :=
  mk_conn c.(arrived) c.(taken) c.(eof) c.(reset) (c.(written) +:+ chunk) c.(wclosed) c.(closed) c.(tcp).
Definition closes_write (c : conn) : conn :=
  mk_conn c.(arrived) c.(taken) c.(eof) c.(reset) c.(written) (c.(tcp) || c.(wclosed)) c.(closed) c.(tcp).
Definition closes (c : conn) : conn :=
  mk_conn c.(arrived) c.(taken) c.(eof) c.(reset) c.(written) c.(wclosed) true c.(tcp).

(** One step of a peer, of a copier or of the caller. *)
Inductive bridge_step : bridge → bridge → Prop :=
| peer_sends b s data :
    (b.(conns) s).(eof) = false →
    bridge_step b (mk_bridge (upd b.(conns) s (arrives (b.(conns) s) data)) b.(copiers) b.(main))
| peer_finishes b s :
    bridge_step b (mk_bridge (upd b.(conns) s (ends (b.(conns) s))) b.(copiers) b.(main))
| peer_resets b s :
    bridge_step b (mk_bridge (upd b.(conns) s (resets (b.(conns) s))) b.(copiers) b.(main))
| copy_read b s n :
    b.(copiers) s = Reading → (b.(conns) s).(closed) = false →
    (0 < n)%nat → ((b.(conns) s).(taken) + n ≤ String.length (b.(conns) s).(arrived))%nat →
    bridge_step b (mk_bridge (upd b.(conns) s (takes (b.(conns) s) n))
                     (upd b.(copiers) s (Writing (String.substring (b.(conns) s).(taken) n (b.(conns) s).(arrived))))
                     b.(main))
| copy_read_ends b s :
    b.(copiers) s = Reading →
    (b.(conns) s).(closed) = true ∨ (b.(conns) s).(reset) = true
    ∨ (b.(conns) s).(eof) = true ∧ (b.(conns) s).(taken) = String.length (b.(conns) s).(arrived) →
    bridge_step b (mk_bridge b.(conns) (upd b.(copiers) s Ended) b.(main))
| copy_write b s chunk :
    b.(copiers) s = Writing chunk → (b.(conns) (opposite s)).(closed) = false →
    bridge_step b (mk_bridge (upd b.(conns) (opposite s) (puts (b.(conns) (opposite s)) chunk))
                     (upd b.(copiers) s Reading) b.(main))
| copy_write_fails b s chunk :
    b.(copiers) s = Writing chunk →
    (b.(conns) (opposite s)).(closed) = true ∨ (b.(conns) (opposite s)).(reset) = true →
    bridge_step b (mk_bridge b.(conns) (upd b.(copiers) s Ended) b.(main))
| copy_write_partly b s chunk n :
    b.(copiers) s = Writing chunk → (b.(conns) (opposite s)).(closed) = false →
    (b.(conns) (opposite s)).(reset) = true → (n ≤ String.length chunk)%nat →
    bridge_step b (mk_bridge (upd b.(conns) (opposite s) (puts (b.(conns) (opposite s)) (String.substring 0 n chunk)))
                     (upd b.(copiers) s Ended) b.(main))
| copy_signals b s :
    b.(copiers) s = Ended →
    bridge_step b (mk_bridge (upd b.(conns) (opposite s) (closes_write (b.(conns) (opposite s))))
                     (upd b.(copiers) s Signalled) b.(main))
| caller_wakes b s :
    b.(main) = Waiting → b.(copiers) s = Signalled →
    bridge_step b (mk_bridge b.(conns) b.(copiers) Woken)
| caller_closes_upstream b :
    b.(main) = Woken →
    bridge_step b (mk_bridge (upd b.(conns) Upstream (closes (b.(conns) Upstream))) b.(copiers) ClosedUpstream)
| caller_closes_downstream b :
    b.(main) = ClosedUpstream →
    bridge_step b (mk_bridge (upd b.(conns) Downstream (closes (b.(conns) Downstream))) b.(copiers) Returned).

Definition reachable (b : bridge) : Prop := ∃ tcp, rtc bridge_step (start tcp) b.

(** ** Lemmas on the bridge *)

Definition is_prefix (a b : string) : Prop := ∃ r, b = a +:+ r.

Lemma is_prefix_refl a : is_prefix a a.
Proof. exists "". by rewrite string_app_nil_r. Qed.

Lemma is_prefix_trans a b c : is_prefix a b → is_prefix b c → is_prefix a c.
Proof. intros [r ->] [q ->]. exists (r +:+ q). by rewrite string_app_assoc. Qed.

(** What the copier of a side has read. *)
Definition read_of (c : conn) : string := String.substring 0 c.(taken) c.(arrived).

(** A copier has written what it has read, but for the chunk in its hands; after its
    end a part may be missing. *)
Definition copied (c d : conn) (k : copier) : Prop :=
  (c.(taken) ≤ String.length c.(arrived))%nat
  ∧ match k with
    | Reading => d.(written) = read_of c
    | Writing chunk => d.(written) +:+ chunk = read_of c
    | Ended | Signalled => is_prefix d.(written) (read_of c)
    end.

Definition is_ended (k : copier) : Prop := k = Ended ∨ k = Signalled.

(** The invariant. *)
Definition bridge_inv (b : bridge) : Prop :=
  (∀ s, copied (b.(conns) s) (b.(conns) (opposite s)) (b.(copiers) s))
  ∧ (∀ s, (b.(conns) (opposite s)).(wclosed) = true → b.(copiers) s = Signalled)
  ∧ match b.(main) with
    | Waiting | Woken => (b.(conns) Upstream).(closed) = false ∧ (b.(conns) Downstream).(closed) = false
    | ClosedUpstream => (b.(conns) Upstream).(closed) = true ∧ (b.(conns) Downstream).(closed) = false
    | Returned => (b.(conns) Upstream).(closed) = true ∧ (b.(conns) Downstream).(closed) = true
    end
  ∧ (b.(main) ≠ Waiting → ∃ s, b.(copiers) s = Signalled).

Lemma opposite_ne s : opposite s ≠ s.
Proof. by destruct s. Qed.

Lemma upd_eq {V} (f : both V) s v : upd f s v s = v.
Proof. by destruct s. Qed.

Lemma upd_ne {V} (f : both V) s s' v : s' ≠ s → upd f s v s' = f s'.
Proof. by destruct s, s'. Qed.

(** How [copied] follows the changes of a connection. *)
Lemma copied_same c d c' d' k :
  c'.(arrived) = c.(arrived) → c'.(taken) = c.(taken) → d'.(written) = d.(written) →
  copied c d k → copied c' d' k.
Proof. unfold copied, read_of. intros -> -> ->. done. Qed.

Lemma copied_arrives c d k data : copied c d k → copied (arrives c data) d k.
Proof.
  intros [Hlen Hk]. split; [cbn; rewrite string_length_app; lia|].
  assert (read_of (arrives c data) = read_of c) as -> by (by apply substring_app). done.
Qed.

Lemma copied_takes c d n :
  copied c d Reading → (c.(taken) + n ≤ String.length c.(arrived))%nat →
  copied (takes c n) d (Writing (String.substring c.(taken) n c.(arrived))).
Proof.
  intros [_ Hk] Hn. split; [done|]. unfold read_of in *. cbn [takes taken arrived].
  by rewrite substring_add, Hk.
Qed.

Lemma copied_puts c d chunk : copied c d (Writing chunk) → copied c (puts d chunk) Reading.
Proof. intros [Hlen Hk]. by split. Qed.

Lemma copied_ended c d k k' : copied c d k → is_ended k' → copied c d k'.
Proof.
  intros [Hlen Hk] Hk'. split; [done|].
  assert (is_prefix d.(written) (read_of c)) as Hp.
  { destruct k as [|chunk| |]; [rewrite Hk; apply is_prefix_refl|by exists chunk|done|done]. }
  by destruct Hk' as [-> | ->].
Qed.

Lemma copied_puts_part c d chunk n :
  copied c d (Writing chunk) → copied c (puts d (String.substring 0 n chunk)) Ended.
Proof.
  intros [Hlen Hk]. split; [done|]. destruct (substring_prefix n chunk) as [t Ht]. exists t.
  cbn [puts written]. by rewrite <- Hk, string_app_assoc, <- Ht.
Qed.

#[local] Hint Resolve copied_arrives copied_takes copied_puts copied_puts_part : bridge.
#[local] Hint Extern 1 (copied _ _ _) => eapply copied_same; [| | |eassumption]; reflexivity : bridge.
#[local] Hint Extern 2 (copied _ _ _) => eapply copied_ended; [eassumption|] : bridge.
#[local] Hint Extern 1 (is_ended _) => first [by left | by right] : bridge.

(** The copiers, over any step. *)
Lemma step_copied b b' :
  (∀ s, copied (b.(conns) s) (b.(conns) (opposite s)) (b.(copiers) s)) → bridge_step b b' →
  ∀ s, copied (b'.(conns) s) (b'.(conns) (opposite s)) (b'.(copiers) s).
Proof.
  intros Hc Hstep s0. pose proof (Hc Downstream) as HD. pose proof (Hc Upstream) as HU. clear Hc.
  destruct Hstep as [b s data H|b s|b s|b s n Hk H1 H2 H3|b s Hk H|b s chunk Hk H|b s chunk Hk H|b s chunk n Hk H1 H2 H3
    |b s Hk|b s Hm Hk|b Hm|b Hm];
    try destruct s; destruct s0; cbn [conns copiers opposite] in *; rewrite ?upd_eq, ?upd_ne by done;
    try (rewrite Hk in *); auto with bridge.
Qed.

Lemma step_inv b b' : bridge_inv b → bridge_step b b' → bridge_inv b'.
Proof.
  intros (Hc & Hw & Hm & Hs) Hstep. split; [by eapply step_copied|]. clear Hc.
  pose proof (Hw Downstream) as HD. pose proof (Hw Upstream) as HU. cbn [opposite] in *.
  destruct Hstep as [b s data H|b s|b s|b s n Hk H1 H2 H3|b s Hk H|b s chunk Hk H|b s chunk Hk H|b s chunk n Hk H1 H2 H3
    |b s Hk|b s Hwait Hk|b Hwait|b Hwait];
    (split; [|split]); cbn [conns copiers main] in *; try (rewrite Hwait in * );
    try (intros s0; try destruct s; destruct s0; cbn [opposite]; rewrite ?upd_eq, ?upd_ne by done; cbn; auto; congruence);
    try (by destruct (main b); try destruct s; cbn [opposite]; rewrite ?upd_eq, ?upd_ne by done);
    try (intros Hne; destruct (Hs Hne) as [s0 Hs0]; exists s0; try destruct s; destruct s0;
         rewrite ?upd_eq, ?upd_ne by done; congruence).
  all: try (by eauto).
  all: try (split; rewrite ?upd_eq, ?upd_ne by done; cbn; tauto).
  all: intros s0 Hwc; destruct s, s0; cbn [opposite] in *; rewrite ?upd_eq, ?upd_ne in Hwc |- * by done;
    cbn in Hwc; auto; try (specialize (HD Hwc); congruence); specialize (HU Hwc); congruence.
Qed.

Lemma reachable_inv b : reachable b → bridge_inv b.
Proof.
  intros [kinds Hr]. assert (Hinv : bridge_inv (start kinds)).
  { split; [|split; [|split]]; [|by intros []|done|done]. intros []; split; (reflexivity || apply Nat.le_refl). }
  revert Hinv. induction Hr as [b|b1 b2 b3 Hstep _ IH]; [done|].
  intros Hinv. by apply IH, (step_inv b1).
Qed.

(** ** Properties *)

(** C18. The bridge is faithful. However peers, copiers and the caller interleave,
    what was written to either side is a prefix of what arrived on the other, all of
    what was read of it but the chunk in the copier's hands while that copier runs;
    neither side is closed before one direction has ended; and both are closed when
    [bridgeConnections] returns. *)
Theorem bridge_faithful b :
  reachable b →
  (∀ s, is_prefix (b.(conns) (opposite s)).(written) (b.(conns) s).(arrived)
        ∧ (b.(copiers) s = Reading → (b.(conns) (opposite s)).(written) = read_of (b.(conns) s)))
  ∧ ((∃ s, (b.(conns) s).(closed) = true) → ∃ s, b.(copiers) s = Signalled)
  ∧ (b.(main) = Returned → ∀ s, (b.(conns) s).(closed) = true).
Proof.
  intros (Hc & _ & Hm & Hs)%reachable_inv. split; [|split].
  - intros s. destruct (Hc s) as [Hlen Hk]. split; [|by intros E; rewrite E in Hk].
    destruct (substring_prefix (b.(conns) s).(taken) (b.(conns) s).(arrived)) as [t Ht].
    destruct (copied_ended _ _ _ Ended (Hc s) (or_introl eq_refl)) as [_ Hp].
    eapply is_prefix_trans; [exact Hp|]. by exists t.
  - intros [s Hcl]. apply Hs. intros E. rewrite E in Hm. destruct Hm. destruct s; congruence.
  - intros E s. rewrite E in Hm. by destruct Hm, s.
Qed.

(** An execution without any failure of the network in which the response is lost:
    the client sends its request and finishes sending, that direction ends first,
    and both connections are closed while the whole response, which has arrived, is
    still unread. *)
Lemma bridge_loses_response :
  ∃ b, reachable b ∧ b.(main) = Returned
    ∧ (∀ s, (b.(conns) s).(reset) = false ∧ (b.(conns) s).(eof) = true)
    ∧ (b.(conns) Upstream).(written) = "request" ∧ (b.(conns) Upstream).(arrived) = "response"
    ∧ (b.(conns) Downstream).(written) = "".
Proof.
  eexists. split.
  - exists (mk_both true true).
    eapply rtc_l; [by apply (peer_sends _ Downstream "request")|]; cbv.
    eapply rtc_l; [by apply (peer_finishes _ Downstream)|]; cbv.
    eapply rtc_l; [apply (copy_read _ Downstream 7); [done|done|lia|cbn; lia]|]; cbv.
    eapply rtc_l; [by apply (copy_write _ Downstream "request")|]; cbv.
    eapply rtc_l; [by apply (peer_sends _ Upstream "response")|]; cbv.
    eapply rtc_l; [by apply (peer_finishes _ Upstream)|]; cbv.
    eapply rtc_l; [apply (copy_read_ends _ Downstream); [done|right; right; done]|]; cbv.
    eapply rtc_l; [by apply (copy_signals _ Downstream)|]; cbv.
    eapply rtc_l; [by apply (caller_wakes _ Downstream)|]; cbv.
    eapply rtc_l; [by apply caller_closes_upstream|]; cbv.
    eapply rtc_l; [by apply caller_closes_downstream|]; cbv. apply rtc_refl.
  - split_and!; [done|intros []; done|done|done|done].
Qed.

(** ** What the handlers own *)

(** The connections a handler has to close or hand over, whether it has an open
    response body, and whether it has a transport, whose pool keeps the connections it
    opened until it is told to close them. *)
Record owned : Type := mk_owned { sides : both bool; body : bool; pool : bool }.

Definition owns (o : owned) (e : event ProxyE) : owned :=
  match e with
  | Ev (DialUpstream _ _) None => mk_owned (upd o.(sides) Upstream true) o.(body) o.(pool)
  | Ev Hijack None => mk_owned (upd o.(sides) Downstream true) o.(body) o.(pool)
  | Ev (CloseSide s) _ => mk_owned (upd o.(sides) s false) o.(body) o.(pool)
  | Ev Bridge _ => mk_owned (mk_both false false) o.(body) o.(pool)
  | Ev CloneTransport _ => mk_owned o.(sides) o.(body) true
  | Ev (RoundTrip _ _) (Ok _) => mk_owned o.(sides) true o.(pool)
  | Ev CloseBody _ => mk_owned o.(sides) false o.(pool)
  | Ev CloseIdleConnections _ => mk_owned o.(sides) o.(body) false
  | _ => o
  end.

(** Only what is owned is used, closed or handed over. *)
Definition may (o : owned) (c : ProxyE) : Prop :=
  match c with
  | CloseSide s => o.(sides) s = true
  | Bridge => o.(sides) = mk_both true true
  | WriteClient _ => o.(sides) Downstream = true
  | RoundTrip _ _ | CloseIdleConnections => o.(pool) = true
  | CopyBody | CloseBody => o.(body) = true
  | _ => True
  end.

Definition nothing : owned := mk_owned (mk_both false false) false false.

(** The pool of its transport, and nothing else. *)
Definition only_pool : owned := mk_owned (mk_both false false) false true.

(** From what it owns at the start, a handler uses only what it owns and is left with
    [left]. *)
Definition tidy (o : owned) (t : list (event ProxyE)) (left : owned) : Prop :=
  foldl owns o t = left ∧ ∀ t1 e t2, t = t1 ++ e :: t2 → may (foldl owns o t1) (ev_call e).

Lemma wp_tidy {A} (p : prog ProxyE A) o left t a :
  wp (tracked may owns) p (λ o _, o = left) o → exec p t a → tidy o t left.
Proof. intros Hwp Hx. exact (wp_tracked_exec may owns p (λ o _, o = left) o t a Hwp Hx). Qed.

(** Calls one after the other, with every answer. *)
#[local] Ltac proxy_wp :=
  cbn [bind perform]; repeat (split; [done|]; intros ? ? ->; cbn [bind perform]; try case_match); try done.

Lemma wp_proxyConnect r : wp (tracked may owns) (proxyConnect r) (λ o _, o = nothing) nothing.
Proof. unfold proxyConnect. proxy_wp. Qed.

(** The calls of a request that is not CONNECT, by the answer to its round trip. *)
Definition forwarded (request : proxy_request) (r : result go_error proxy_response) (copied : string * option go_error)
    : list (event ProxyE) :=
  [@Ev ProxyE CloneTransport tt; @Ev ProxyE (RoundTrip false (outbound_request request)) r]
  ++ match r with
     | Err _ => [@Ev ProxyE (HttpError "upstream unavailable" 502) tt]
     | Ok u => [@Ev ProxyE (WriteHeader (copy_header u.(ps_Header) ∅) u.(ps_Code)) tt; @Ev ProxyE CopyBody copied; @Ev ProxyE CloseBody tt]
     end.

(** Each of them can happen. *)
Lemma forwarded_exec request r copied :
  request.(px_Method) ≠ "CONNECT" → exec (proxyHTTP request) (forwarded request r copied) tt.
Proof.
  intros Hm. unfold proxyHTTP. rewrite (proj2 (String.eqb_neq _ _) Hm). cbn [bind perform].
  exists tt. split; [done|]. exists r. split; [done|].
  by destruct r; cbn [bind perform]; repeat (eexists; split; [done|]).
Qed.

(** Copying a header into an empty one. *)
Lemma header_adds h key values :
  foldl (λ h value, header_add h key value) h values
  = if decide (values = []) then h else <[key := default [] (h !! key) ++ values]> h.
Proof.
  revert h. induction values as [|v values IH]; intros h; [done|]. cbn [foldl]. rewrite IH.
  rewrite (decide_False (P := v :: values = [])) by done. unfold header_add.
  rewrite lookup_insert_eq. cbn [from_option]. unfold id. destruct (decide (values = [])) as [->|]; [done|].
  rewrite insert_insert_eq, <- app_assoc. done.
Qed.

Lemma copy_header_id h : map_Forall (λ _ values, values ≠ []) h → copy_header h ∅ = h.
Proof.
  unfold copy_header. intros Hh. revert Hh.
  apply (map_fold_weak_ind (λ r m, map_Forall (λ _ values, values ≠ []) m → r = m)); [done|].
  intros key values m r Hkey IH Hm. rewrite map_Forall_insert in Hm by done. destruct Hm as [Hv Hm].
  rewrite (IH Hm), header_adds, decide_False by done. by rewrite Hkey.
Qed.

(** The accept loop serves every connection it accepts, each in a goroutine of its
    own, and ends with the first error of the listener and with nothing else. *)
Lemma accept_loop_serves fuel target t ended :
  exec (accept_loop fuel target) t ended →
  ∃ n, t = concat (replicate n [@Ev ProxyE Accept None; @Ev ProxyE (SpawnConnection target) tt])
         ∧ ended = false ∧ n = fuel
       ∨ ∃ err, t = concat (replicate n [@Ev ProxyE Accept None; @Ev ProxyE (SpawnConnection target) tt])
                    ++ [@Ev ProxyE Accept (Some err)] ∧ ended = true.
Proof.
  revert t. induction fuel as [|fuel IH]; intros t Hx; cbn [accept_loop] in Hx.
  - exec_step Hx. exists O. by left.
  - exec_step Hx. destruct r as [err|]; [exec_step Hx; exists O; right; by exists err|].
    exec_step Hx. destruct r. apply IH in Hx as (n & [(-> & -> & ->)|(err & -> & ->)]).
    + exists (S fuel). by left.
    + exists (S n). right. by exists err.
Qed.

(** C38. What the proxies close, and what they leave. Every execution of
    [proxyConnection], and of [proxyHTTP] for a CONNECT request, closes each connection
    it has exactly once or hands both to the bridge, and uses none that it does not
    have. For any other request, [proxyHTTP] sends the request without its URI and its
    Proxy-Connection header through a transport of its own, answers 502 when that
    fails, and otherwise passes on the status and the header of the upstream (exactly,
    when no key is without a value) and its body as far as it could be copied, whose
    error it drops, and closes the body. But it is left with the pool of that
    transport: the connection to the upstream is not closed with the request. *)
Theorem connections_closed :
  (∀ target t, exec (proxyConnection target) t tt → tidy (mk_owned (mk_both true false) false false) t nothing)
  ∧ (∀ request t, exec (proxyHTTP request) t tt →
       if decide (request.(px_Method) = "CONNECT") then tidy nothing t nothing
       else tidy nothing t only_pool ∧ ∃ r copied, t = forwarded request r copied)
  ∧ ∀ h, map_Forall (λ _ values, values ≠ []) h → copy_header h ∅ = h.
Proof.
  split; [|split; [|apply copy_header_id]].
  - intros target t. apply wp_tidy. unfold proxyConnection. proxy_wp.
  - intros request t. unfold proxyHTTP. destruct (String.eqb_spec request.(px_Method) "CONNECT") as [Hm|Hm].
    + rewrite decide_True by done. apply wp_tidy, wp_proxyConnect.
    + rewrite decide_False by done. intros Hx. split; [eapply wp_tidy; [|exact Hx]; proxy_wp|].
      exec_step Hx. destruct r. exec_step Hx. exists r. destruct r as [u|err].
      * exec_step Hx. destruct r. exec_step Hx. exists r. exec_step Hx. destruct r0. by exec_step Hx.
      * exec_step Hx. destruct r. exists ("", None). by exec_step Hx.
Qed.

(** ** Witnesses *)

(** The request has gone through, the response is on its way. *)
Definition halfway : bridge :=
  mk_bridge (mk_both (mk_conn "request" 7 true false "" false false true) (mk_conn "resp" 4 false false "request" false false true))
    (mk_both Reading (Writing "resp")) Waiting.

Lemma bridge_faithful_witness :
  (∀ s, is_prefix (halfway.(conns) (opposite s)).(written) (halfway.(conns) s).(arrived)
        ∧ (halfway.(copiers) s = Reading → (halfway.(conns) (opposite s)).(written) = read_of (halfway.(conns) s)))
  ∧ ((∃ s, (halfway.(conns) s).(closed) = true) → ∃ s, halfway.(copiers) s = Signalled)
  ∧ (halfway.(main) = Returned → ∀ s, (halfway.(conns) s).(closed) = true).
Proof.
  assert (Hr : reachable halfway).
  { exists (mk_both true true).
    eapply rtc_l; [by apply (peer_sends _ Downstream "request")|]; cbv.
    eapply rtc_l; [by apply (peer_finishes _ Downstream)|]; cbv.
    eapply rtc_l; [apply (copy_read _ Downstream 7); [done|done|lia|cbn; lia]|]; cbv.
    eapply rtc_l; [by apply (copy_write _ Downstream "request")|]; cbv.
    eapply rtc_l; [by apply (peer_sends _ Upstream "resp")|]; cbv.
    eapply rtc_l; [apply (copy_read _ Upstream 4); [done|done|lia|cbn; lia]|]; cbv. apply rtc_refl. }
  exact (bridge_faithful halfway Hr).
Defined.

(** A request whose response breaks off. *)
Definition get_request : proxy_request :=
  mk_proxy_request "GET" "http://kbs.example/" "kbs.example" "http://kbs.example/" {["Proxy-Connection" := ["keep-alive"]]} "".

Definition cut_short : list (event ProxyE) :=
  forwarded get_request (Ok (mk_proxy_response 200 {["Content-Type" := ["application/json"]]}))
    ("{", Some (ErrorsNew "unexpected EOF")).

Lemma connections_closed_witness : foldl owns nothing cut_short = only_pool.
Proof.
  assert (Hx : exec (proxyHTTP get_request) cut_short tt) by (apply forwarded_exec; discriminate).
  pose proof (proj1 (proj2 connections_closed) get_request cut_short Hx) as Hc.
  rewrite decide_False in Hc by discriminate. exact (proj1 (proj1 Hc)).
Defined.
