(* ===== verification/Cluster.v ===== *)
(** * The control plane as one concurrent system

    Any number of clients of the API server (plug-ins and others), the
    reconciliations of the controller and the rest of the cluster act on one
    Kubernetes store, one call at a time, in any order. The API server and the
    controller share the manager's client (cmd/main.go), whose reads come from a
    cache when [cached] holds: a read may then be answered from any earlier state.
    Any call may fail, before or after it took effect. *)

From Stdlib Require Import Ascii.
From stdpp Require Import relations.
From S2P Require Import Prelude GoFmt GoStrings Sha256 Prog Api Kube Server ServerWorld ServerAuth ServerLifecycle.
From S2P Require Import Controller ControllerSafety GoFloat Json Wire Url Client Provider ProviderSafety System.

Local Open Scope Z_scope.

(** A program that is under way: the calls it made, and what is left. *)
Record thread (E : effects) (J A : Type) : Type := mk_thread {
  th_job : J;
  th_trace : list (event E);
  th_prog : prog E A;
}.

Arguments mk_thread {E J A} _ _ _.
Arguments th_job {E J A} _.
Arguments th_trace {E J A} _.
Arguments th_prog {E J A} _.

(** The answer of a call that failed. *)
Definition failed (err : go_error) (c : kube_call) : kube_answer c :=
  match c with
  | GetClass _ | GetSandbox _ | ListSandboxes | CreateSandbox _ | DeleteSandbox _ | PatchSandboxStatus _ _
  | GetSecret _ | ListSecrets _ _ _ | CreateSecret _ | UpdateSecret _ | DeleteSecret _
  | GetPod _ | CreatePod _ | DeletePod _ => Err err
  end.

Section cluster.
Context {Store : Type} `{ApiServerLaws Store} `{!StatusLaws Store}.
Context `{ControllerUtilLaws, StatusConditionsLaws}.
Context (cached : bool) (error_string : go_error → string).
Context (render : go_error → string) (status_line : Z → string) (cfg : Config) (fuel : nat).
Context {wf_rest cc_rest other : Type} (wf_zero : wf_rest).
Context (generate : CloudConfig wf_rest cc_rest → result go_error string).
Context (generate_other : other → result go_error string) (int_overflow : float64 → Z).

(** ** Clients

    Calls of the plug-in, each with a provider made from its configuration, and
    other requests to the API server. *)

Inductive job : Type :=
| JCreate (pcfg : config) (podName sandboxID : string) (g : generator wf_rest cc_rest other)
    (spec : InstanceTypeSpec)
| JDelete (pcfg : config) (id : string)
| JRequest (r : http_request).

Inductive outcome : Type :=
| OInstance (r : option Instance * option go_error)
| ODeleted (r : option go_error)
| OResponse (r : option response).

Definition job_code (j : job) : prog SystemE outcome :=
  match j with
  | JCreate pcfg podName sandboxID g spec =>
      match NewProvider pcfg with
      | Err err => Ret (OInstance (None, Some err))
      | Ok p =>
          let! r := connect render status_line cfg fuel
            (CreateInstance wf_zero generate generate_other int_overflow p podName sandboxID g spec) in
          Ret (OInstance r)
      end
  | JDelete pcfg id =>
      match NewProvider pcfg with
      | Err err => Ret (ODeleted (Some err))
      | Ok p => let! r := connect render status_line cfg fuel (DeleteInstance p id) in Ret (ODeleted r)
      end
  | JRequest r => let! r := on_server (ServeHTTP decode_request cfg fuel r) in Ret (OResponse r)
  end.

(** ** The system *)

(** The store, the states it went through, the clients, and the reconciliations
    under way: the work queue runs at most one per key. *)
Record cluster : Type := mk_cluster {
  ck_now : Store;
  ck_past : list Store;
  ck_clients : gmap nat (thread SystemE job outcome);
  ck_reconciles : gmap NamespacedName (thread KubeE Z reconcile_result);
}.

Definition states (c : cluster) : list Store := c.(ck_now) :: c.(ck_past).

Definition moved (c : cluster) (s : Store) : cluster :=
  mk_cluster s (states c) c.(ck_clients) c.(ck_reconciles).
Definition set_client (c : cluster) (i : nat) (th : thread SystemE job outcome) : cluster :=
  mk_cluster c.(ck_now) c.(ck_past) (<[i := th]> c.(ck_clients)) c.(ck_reconciles).
Definition set_reconcile (c : cluster) (k : NamespacedName) (th : thread KubeE Z reconcile_result) : cluster :=
  mk_cluster c.(ck_now) c.(ck_past) c.(ck_clients) (<[k := th]> c.(ck_reconciles)).

(** How a call can be answered, and the state it leaves. *)
Inductive answered (ck : cluster) (c : kube_call) : kube_answer c → Store → Prop :=
| answered_store r s :
    api_step ck.(ck_now) c r s → answered ck c r s
| answered_cache old r s :
    cached = true → is_mutation c = false → old ∈ ck.(ck_past) → api_step old c r s →
    answered ck c r ck.(ck_now)
| answered_not err :
    answered ck c (failed err c) ck.(ck_now)
| answered_lost r s err :
    api_step ck.(ck_now) c r s → answered ck c (failed err c) s.

(** What the rest of the cluster may do: anything, but for the status of a sandbox,
    which only the controller writes. *)
Definition status_kept (s s' : Store) : Prop :=
  ∀ k o', api_sandboxes s' !! k = Some o' →
    o'.(sb_Status) = empty_status
    ∨ ∃ o, api_sandboxes s !! k = Some o ∧ o'.(sb_Status) = o.(sb_Status).

Definition snoc_event {E J A} (th : thread E J A) (e : event E) (p : prog E A) : thread E J A :=
  mk_thread th.(th_job) (th.(th_trace) ++ [e]) p.

Inductive cluster_step : cluster → cluster → Prop :=
| client_starts ck i j :
    ck.(ck_clients) !! i = None →
    cluster_step ck (set_client ck i (mk_thread j [] (job_code j)))
| client_calls ck i th c k r s :
    ck.(ck_clients) !! i = Some th → th.(th_prog) = @Call SystemE outcome (YServer (SKube c)) k → answered ck c r s →
    cluster_step ck (set_client (moved ck s) i (snoc_event th (@Ev SystemE (YServer (SKube c)) r) (k r)))
| client_steps ck i th (c : SystemE) k (r : answer c) :
    ck.(ck_clients) !! i = Some th → th.(th_prog) = Call c k →
    (∀ c', c ≠ YServer (SKube c')) → system_ok (Ev c r) →
    cluster_step ck (set_client ck i (snoc_event th (Ev c r) (k r)))
| reconcile_starts ck key now :
    ck.(ck_reconciles) !! key = None →
    cluster_step ck (set_reconcile ck key (mk_thread now [] (Reconcile now error_string key)))
| reconcile_calls ck key th c k r s :
    ck.(ck_reconciles) !! key = Some th → th.(th_prog) = Call c k → answered ck c r s →
    cluster_step ck (set_reconcile (moved ck s) key (snoc_event th (@Ev KubeE c r) (k r)))
| reconcile_ends ck key th r :
    ck.(ck_reconciles) !! key = Some th → th.(th_prog) = Ret r →
    cluster_step ck (mk_cluster ck.(ck_now) ck.(ck_past) ck.(ck_clients) (delete key ck.(ck_reconciles)))
| others_act ck s :
    status_kept ck.(ck_now) s → cluster_step ck (moved ck s).

(** It starts without sandboxes, clients and reconciliations. *)
Definition initial (ck : cluster) : Prop :=
  api_sandboxes ck.(ck_now) = ∅ ∧ ck.(ck_past) = [] ∧ ck.(ck_clients) = ∅ ∧ ck.(ck_reconciles) = ∅.

Definition reachable (ck : cluster) : Prop := ∃ ck0, initial ck0 ∧ rtc cluster_step ck0 ck.

(** ** What was there *)

Definition was_sandbox (l : list Store) (k : NamespacedName) (o : PodSandbox) : Prop :=
  ∃ s, s ∈ l ∧ api_sandboxes s !! k = Some o.
Definition was_class (l : list Store) (n : string) (o : PodSandboxClass) : Prop :=
  ∃ s, s ∈ l ∧ api_classes s !! n = Some o.
Definition was_pod (l : list Store) (k : NamespacedName) (o : Pod) : Prop :=
  ∃ s, s ∈ l ∧ api_pods s !! k = Some o.

(** A runner Pod of the key, of the generation that a sandbox and its class had. *)
Definition had_runner (l : list Store) (k : NamespacedName) (runner : Pod) : Prop :=
  was_pod l k runner
  ∧ ∃ sb class, was_sandbox l k sb ∧ was_class l sb.(sb_Spec).(ps_ClassName) class
      ∧ annotation runner.(pod_meta) templateGeneration = template_generation sb class.

(** ** Reconciliations, call by call

    A status is patched at most once, after the sandbox was read, and on the
    evidence of the calls before. *)
Definition reconcile_may (now : Z) (key : NamespacedName) (h : list (event KubeE)) (c : KubeE) : Prop :=
  match c with
  | PatchSandboxStatus base new =>
      status_writes h = [] ∧ saw_sandbox key (Ok base) ∈ h ∧ sandbox_key new = key
      ∧ justified now key h base new
  | CreateSandbox _ => False
  | _ => True
  end.

Notation wp_reconcile now key := (wp (history (reconcile_may now key) reconcile_ok)).

Lemma status_writes_snoc h e : status_write e = None → status_writes (h ++ [e]) = status_writes h.
Proof. intros He. unfold status_writes. rewrite omap_app. cbn. by rewrite He, app_nil_r. Qed.

(** The sandbox was read and nothing was written yet. *)
Definition unwritten (key : NamespacedName) (sb : PodSandbox) (h : list (event KubeE)) : Prop :=
  status_writes h = [] ∧ saw_sandbox key (Ok sb) ∈ h ∧ sandbox_key sb = key.

Lemma unwritten_snoc key sb h e : unwritten key sb h → status_write e = None → unwritten key sb (h ++ [e]).
Proof. intros (Hw & Hs & Hk) He. split_and!; [by rewrite status_writes_snoc|set_solver|done]. Qed.

(** One call of a reconciliation that is not a patch, with its answer. *)
Local Ltac next_call r Hok :=
  cbn [bind perform]; apply wp_call; [done|]; intros r ? [Hok ->]; cbn [bind].

Lemma wp_patch now key sb m k h :
  unwritten key sb h → m.(sb_meta) = sb.(sb_meta) → justified now key h sb m →
  wp_reconcile now key (patch_then sb m k) (λ _ _, True) h.
Proof.
  intros (Hw & Hs & Hk) Hm Hj. unfold patch_then. cbn [bind perform]. apply wp_call.
  - split_and!; [done..|by unfold sandbox_key; rewrite Hm|done].
  - intros r h' [_ ->]. by destruct r.
Qed.

Lemma wp_waiting now key sb reason message k h :
  unwritten key sb h → reason ≠ "RunnerFailed" →
  wp_reconcile now key (patch_then sb (with_ready now sb ConditionFalse reason message sb.(sb_Status)) k)
    (λ _ _, True) h.
Proof. intros Hh Hr. apply wp_patch; [done|done|by constructor]. Qed.

Lemma wp_with_runner now key sb class desired runner h :
  unwritten key sb h → pod_key runner = key →
  annotation desired.(pod_meta) templateGeneration = template_generation sb class →
  saw_class sb.(sb_Spec).(ps_ClassName) (Ok class) ∈ h → saw_pod key (Ok runner) ∈ h →
  wp_reconcile now key (with_runner now error_string sb desired runner) (λ _ _, True) h.
Proof.
  intros Hh Hp Hgen Hc Hr. unfold with_runner. rewrite Hgen.
  destruct (String.eqb_spec (annotation runner.(pod_meta) templateGeneration) (template_generation sb class));
    cbn [negb].
  - destruct (stopped_phase runner) eqn:Hph; apply wp_patch; [done|done|by eapply write_failed|done|done|].
    by eapply write_observed.
  - next_call r Hok.
    destruct r as [|err]; [|destruct (IsNotFound err)]; apply wp_waiting; (done || by apply unwritten_snoc).
Qed.

Lemma wp_read_runner now key sb class desired h :
  unwritten key sb h →
  annotation desired.(pod_meta) templateGeneration = template_generation sb class →
  saw_class sb.(sb_Spec).(ps_ClassName) (Ok class) ∈ h →
  wp_reconcile now key (read_runner now error_string key sb desired) (λ _ _, True) h.
Proof.
  intros Hh Hgen Hc. unfold read_runner. next_call r Hok.
  destruct r as [runner|err].
  - eapply wp_with_runner; [by apply unwritten_snoc|by apply Hok|done|set_solver|set_solver].
  - destruct (IsNotFound err); [|done]. apply wp_waiting; [by apply unwritten_snoc|done].
Qed.

Lemma wp_with_class now key sb class h :
  unwritten key sb h → saw_class sb.(sb_Spec).(ps_ClassName) (Ok class) ∈ h →
  wp_reconcile now key (with_class now error_string key sb class) (λ _ _, True) h.
Proof.
  intros Hh Hc. unfold with_class. next_call r Hok.
  assert (Hh' := unwritten_snoc _ _ _ (@Ev KubeE (GetSecret _) r) Hh eq_refl).
  destruct r as [secret|err]; [|by apply wp_waiting].
  destruct (secret.(sec_Data) !! "userdata"); [|by apply wp_waiting].
  destruct (SetControllerReference_pod sb (desiredRunner sb class)) as [desired|] eqn:Hset; [|done].
  apply desired_generation in Hset as (Hgen & _ & _). unfold with_desired. next_call r Hmade.
  assert (Hh'' := unwritten_snoc _ _ _ (@Ev KubeE (CreatePod desired) r) Hh' eq_refl).
  destruct r as [made|err]; [|destruct (IsAlreadyExists err); [|by apply wp_waiting]];
    (apply (wp_read_runner _ _ _ class); [done| |set_solver]); unfold annotation.
  - by rewrite (proj2 (Hmade _ eq_refl) _ _ Hgen).
  - by rewrite Hgen.
Qed.

Lemma wp_Reconcile now key :
  wp_reconcile now key (Reconcile now error_string key) (λ _ _, True) [].
Proof.
  unfold Reconcile. next_call r Hok. destruct r as [sb|err]; [|done].
  destruct (om_DeletionTimestamp sb.(sb_meta)); [done|].
  assert (Hh : unwritten key sb ([] ++ [saw_sandbox key (Ok sb)]))
    by (split_and!; [done|set_solver|by apply Hok]).
  next_call r Hclass.
  assert (Hh' := unwritten_snoc _ _ _ (@Ev KubeE (GetClass _) r) Hh eq_refl).
  destruct r as [class|err]; [|by apply wp_waiting]. apply wp_with_class; [done|set_solver].
Qed.

(** ** What a call saw *)

Definition seen_in (l : list Store) (c : kube_call) : kube_answer c → Prop :=
  match c return kube_answer c → Prop with
  | GetSandbox k => λ r, ∀ o, r = Ok o → was_sandbox l k o
  | GetClass n => λ r, ∀ o, r = Ok o → was_class l n o
  | GetPod k => λ r, ∀ o, r = Ok o → was_pod l k o
  | _ => λ _, True
  end.

Definition in_kube (l : list Store) (e : event KubeE) : Prop :=
  match e with Ev c r => kube_ok c r ∧ seen_in l c r end.

Definition in_system (l : list Store) (e : event SystemE) : Prop :=
  match e with
  | Ev (YServer (SKube c)) r => kube_ok c r ∧ seen_in l c r
  | Ev c r => system_ok (@Ev SystemE c r)
  end.

Lemma seen_in_mono l l' c r : l ⊆ l' → seen_in l c r → seen_in l' c r.
Proof.
  intros Hl. destruct c; try done; cbn; intros Hs o Ho; destruct (Hs o Ho) as (s & ? & ?); exists s; set_solver.
Qed.

Lemma in_kube_mono l l' t : l ⊆ l' → Forall (in_kube l) t → Forall (in_kube l') t.
Proof. intros Hl Ht. eapply Forall_impl; [exact Ht|]. intros [c r] [Hok Hs]. split; [done|exact (seen_in_mono _ _ _ _ Hl Hs)]. Qed.

Lemma in_system_mono l l' t : l ⊆ l' → Forall (in_system l) t → Forall (in_system l') t.
Proof.
  intros Hl Ht. eapply Forall_impl; [exact Ht|]. intros [[[c| | |]|] r]; try done. intros [Hok Hs]. split; [done|exact (seen_in_mono _ _ _ _ Hl Hs)].
Qed.

Lemma failed_ok err c l : kube_ok c (failed err c) ∧ seen_in l c (failed err c).
Proof. by destruct c. Qed.

Lemma step_seen s c r s' l : s ∈ l → api_step s c r s' → kube_ok c r ∧ seen_in l c r.
Proof.
  intros Hs Hstep. split; [by eapply step_ok|]. destruct c; try done; intros o ->; exists s; (split; [done|]).
  - by eapply step_get_class.
  - by apply step_get_sandbox in Hstep.
  - by eapply step_get_pod.
Qed.

Lemma answered_seen ck c r s : answered ck c r s → kube_ok c r ∧ seen_in (states ck) c r.
Proof.
  intros [r' s' Hs|old r' s' _ _ Hold Hs|err|r' s' err _]; [eapply step_seen; [|done]; by left| |apply failed_ok..].
  eapply step_seen; [|done]. by right.
Qed.

Lemma answered_status ck c r s k o :
  answered ck c r s → api_sandboxes s !! k = Some o → status_from c (api_sandboxes ck.(ck_now) !! k) k o.
Proof.
  intros [r' s' Hs|old r' s' _ _ _ _|err|r' s' err Hs] Ho; [by eapply step_status|left; by exists o..|by eapply step_status].
Qed.

(** ** Evidence behind a status *)

(** Whenever the Ready condition is true there was a runner that was up, and each
    address was that of a runner. *)
Definition mirrored (l : list Store) (k : NamespacedName) (st : PodSandboxStatus) : Prop :=
  (conditionTrue st.(st_Conditions) ConditionReady = true → ∃ runner, had_runner l k runner ∧ runner_up runner)
  ∧ (∀ ip, ip ∈ st.(st_IPs) →
       ∃ runner, had_runner l k runner ∧ stopped_phase runner = false ∧ runner.(pod_Status).(pst_PodIP) = ip).

Definition ready_status (st : PodSandboxStatus) : Prop :=
  conditionTrue st.(st_Conditions) ConditionReady = true ∧ st.(st_IPs) ≠ [].

(** A status read as ready: the addresses are those of a runner that was up. *)
Definition backed (l : list Store) (k : NamespacedName) (st : PodSandboxStatus) : Prop :=
  ready_status st →
  ∃ runner, had_runner l k runner ∧ runner_up runner ∧ st.(st_IPs) = [runner.(pod_Status).(pst_PodIP)].

Definition evident (l : list Store) (k : NamespacedName) (st : PodSandboxStatus) : Prop :=
  mirrored l k st ∧ (cached = false → backed l k st).

Lemma had_runner_mono l l' k runner : l ⊆ l' → had_runner l k runner → had_runner l' k runner.
Proof.
  intros Hl ((s & ? & ?) & sb & class & (s1 & ? & ?) & (s2 & ? & ?) & ?).
  split; [exists s; set_solver|]. exists sb, class. split_and!; [exists s1; set_solver|exists s2; set_solver|done].
Qed.

Lemma evident_mono l l' k st : l ⊆ l' → evident l k st → evident l' k st.
Proof.
  intros Hl [[Hc Hi] Hb]. split; [split|].
  - intros (r & ? & ?)%Hc. eauto using had_runner_mono.
  - intros ip (r & ? & ? & ?)%Hi. eauto 6 using had_runner_mono.
  - intros Hca Hr. destruct (Hb Hca Hr) as (r & ? & ? & ?). eauto 6 using had_runner_mono.
Qed.

Lemma evident_empty l k : evident l k empty_status.
Proof. split; [split; [done|]|by intros _ [? _]]. intros ip Hip. by apply elem_of_nil in Hip. Qed.
(** A merge patch takes each field from one side or the other. *)
Lemma merge_conditions base new st :
  conditionTrue (merge_status base new st).(st_Conditions) ConditionReady = true →
  conditionTrue st.(st_Conditions) ConditionReady = true ∨ conditionTrue new.(st_Conditions) ConditionReady = true.
Proof. cbn. case_decide; auto. Qed.

Lemma merge_IPs base new st ip :
  ip ∈ (merge_status base new st).(st_IPs) → ip ∈ st.(st_IPs) ∨ ip ∈ new.(st_IPs).
Proof. cbn. case_decide; auto. Qed.

(** On the status it was made from, or on that of a sandbox created anew, a patch
    that gives a ready status gives the new conditions and addresses. *)
Lemma merge_ready base new st :
  st = base ∨ st = empty_status → ready_status (merge_status base new st) →
  ready_status new ∧ (merge_status base new st).(st_IPs) = new.(st_IPs).
Proof.
  unfold ready_status. cbn. intros [-> | ->]; repeat case_decide; cbn; try congruence; try done; naive_solver congruence.
Qed.

Lemma is_ready_status o : is_ready o = true ↔ ready_status o.(sb_Status).
Proof. unfold is_ready, ready_status. by rewrite andb_true_iff, negb_true_iff, bool_decide_eq_false. Qed.

Lemma current_had l key h base runner :
  Forall (in_kube l) h → saw_sandbox key (Ok base) ∈ h → current_runner key h base runner → had_runner l key runner.
Proof.
  rewrite Forall_forall. intros Hh Hb (Hp & class & Hc & Hgen). split.
  - by apply (Hh _ Hp).
  - exists base, class. split_and!; [by apply (Hh _ Hb)|by apply (Hh _ Hc)|done].
Qed.

Lemma not_ready_condition now sb status reason message st :
  status ≠ ConditionTrue →
  conditionTrue (with_ready now sb status reason message st).(sb_Status).(st_Conditions) ConditionReady = false.
Proof.
  intros Hs. destruct (with_ready_condition now sb status reason message st) as (d & Hd & <- & _).
  unfold conditionTrue. rewrite Hd. by apply bool_decide_eq_false.
Qed.

(** What stands behind the status a reconciliation writes. *)
Lemma justified_evidence l now key h base new :
  justified now key h base new → Forall (in_kube l) h → saw_sandbox key (Ok base) ∈ h →
  (conditionTrue new.(sb_Status).(st_Conditions) ConditionReady = true →
     ∃ runner, had_runner l key runner ∧ runner_up runner)
  ∧ (∀ ip, ip ∈ new.(sb_Status).(st_IPs) → ip ∈ base.(sb_Status).(st_IPs) ∨
       ∃ runner, had_runner l key runner ∧ stopped_phase runner = false ∧ runner.(pod_Status).(pst_PodIP) = ip)
  ∧ backed l key new.(sb_Status).
Proof.
  intros Hj Hh Hb. split_and!.
  - destruct Hj as [| |class runner Hc Hp Hg Hs]; [by rewrite not_ready_condition..|].
    intros Ht. exists runner. split; [eapply current_had; [done..|]; split; [done|by exists class]|].
    destruct (runner_ready runner) eqn:Hr; [|by unfold observed in Ht; rewrite Hr, not_ready_condition in Ht].
    apply runner_ready_spec in Hr as [? ?]. done.
  - destruct Hj as [| |class runner Hc Hp Hg Hs]; [by left..|]. cbn. intros ip Hip. right.
    destruct (String.eqb runner.(pod_Status).(pst_PodIP) ""); [by apply elem_of_nil in Hip|].
    apply list_elem_of_singleton in Hip as ->. exists runner.
    split_and!; [eapply current_had; [done..|]; split; [done|by exists class]|done..].
  - intros Hr. apply is_ready_status in Hr. destruct (justified_reading _ _ _ _ _ Hj) as [Hev _].
    destruct (Hev Hr) as (runner & Hcur & Hup & Hips & _). exists runner. split_and!; [by eapply current_had|done..].
Qed.

(** A patch keeps the evidence. *)
Lemma patch_evident l now key h base new st :
  justified now key h base new → Forall (in_kube l) h → saw_sandbox key (Ok base) ∈ h →
  evident l key base.(sb_Status) → evident l key st →
  (cached = false → st = base.(sb_Status) ∨ st = empty_status) →
  evident l key (merge_status base.(sb_Status) new.(sb_Status) st).
Proof.
  intros Hj Hh Hs [[_ Hbi] _] [[Hc Hi] _] Hfresh.
  destruct (justified_evidence l now key h base new Hj Hh Hs) as (Hnc & Hni & Hnb). split; [split|].
  - intros [Ht|Ht]%merge_conditions; auto.
  - intros ip [Ht|Ht]%merge_IPs; [by apply Hi|]. destruct (Hni _ Ht); auto.
  - intros Hca Hr. destruct (merge_ready _ _ _ (Hfresh Hca) Hr) as [Hn ->]. by apply Hnb.
Qed.
(** ** Clients write no status *)

Definition writes_no_status (c : SystemE) : Prop :=
  match c with YServer (SKube (PatchSandboxStatus _ _)) => False | _ => True end.

Definition server_writes_no_status (c : ServerE) : Prop := writes_no_status (YServer c).

Lemma poll_no_status n key wn sb : calls server_writes_no_status (poll n key wn sb).
Proof. revert sb. induction n as [|n IH]; intros sb; cbn [poll]; [done|]. cbn zeta. all_calls IH. Qed.

Lemma ServeHTTP_no_status r : calls server_writes_no_status (ServeHTTP decode_request cfg fuel r).
Proof.
  unfold ServeHTTP, authorize, authorizedAccess_of, token, getConfig, deleteSandbox, createSandbox, getClass,
    create_decoded, create_objects, create_with_secret, deferred_delete. cbn zeta. all_calls poll_no_status.
Qed.

Lemma on_server_no_status {A} (p : prog ServerE A) :
  calls server_writes_no_status p → calls writes_no_status (on_server p).
Proof. induction p as [a|c k IH]; cbn; [done|]. intros [Hc Hk]. split; [done|]. intros r. by apply IH. Qed.

Lemma connect_no_status {A} (p : prog ClientE A) :
  calls writes_no_status (connect render status_line cfg fuel p).
Proof.
  induction p as [a|[tm o] k IH]; cbn [connect]; [done|]. apply calls_bind; [|done]. unfold exchange.
  pose proof (λ r, on_server_no_status _ (ServeHTTP_no_status r)) as Hserve. all_calls Hserve.
Qed.

Lemma job_no_status j : calls writes_no_status (job_code j).
Proof.
  destruct j; cbn [job_code]; try (destruct (NewProvider pcfg); [|done]); apply calls_bind; try done;
    [apply connect_no_status..|apply on_server_no_status, ServeHTTP_no_status].
Qed.

(** ** The invariant *)

Definition threads_ok (ck : cluster) : Prop :=
  (∀ i th, ck.(ck_clients) !! i = Some th →
     after (job_code th.(th_job)) th.(th_trace) th.(th_prog) ∧ Forall (in_system (states ck)) th.(th_trace))
  ∧ (∀ k th, ck.(ck_reconciles) !! k = Some th →
     after (Reconcile th.(th_job) error_string k) th.(th_trace) th.(th_prog)
     ∧ Forall (in_kube (states ck)) th.(th_trace)).

Definition statuses_ok (ck : cluster) : Prop :=
  ∀ k o, was_sandbox (states ck) k o → evident (states ck) k o.(sb_Status).

(** With reads that are not cached, a sandbox whose reconciliation has not written
    yet has the status that was read, or was created again since. *)
Definition fresh (ck : cluster) : Prop :=
  cached = false → ∀ k th sb o,
    ck.(ck_reconciles) !! k = Some th → saw_sandbox k (Ok sb) ∈ th.(th_trace) → status_writes th.(th_trace) = [] →
    api_sandboxes ck.(ck_now) !! k = Some o → o.(sb_Status) = sb.(sb_Status) ∨ o.(sb_Status) = empty_status.

Record inv (ck : cluster) : Prop := mk_inv {
  inv_threads : threads_ok ck;
  inv_statuses : statuses_ok ck;
  inv_fresh : fresh ck;
}.

Lemma states_moved ck s : states ck ⊆ states (moved ck s).
Proof. unfold states. cbn. set_solver. Qed.

Lemma threads_moved ck s : threads_ok ck → threads_ok (moved ck s).
Proof.
  intros [Hc Hr]. split.
  - intros i th [Ha Ht]%Hc. split; [done|by eapply in_system_mono; [apply states_moved|]].
  - intros k th [Ha Ht]%Hr. split; [done|by eapply in_kube_mono; [apply states_moved|]].
Qed.

Lemma statuses_moved ck s :
  statuses_ok ck → (∀ k o, api_sandboxes s !! k = Some o → evident (states ck) k o.(sb_Status)) →
  statuses_ok (moved ck s).
Proof.
  intros Hs Hn k o (s' & [->|Hin]%elem_of_cons & Ho); (eapply evident_mono; [apply states_moved|]); [by apply Hn|].
  apply Hs. by exists s'.
Qed.

Lemma now_evident ck k o : inv ck → api_sandboxes ck.(ck_now) !! k = Some o → evident (states ck) k o.(sb_Status).
Proof. intros Hi Ho. apply (inv_statuses _ Hi). exists ck.(ck_now). split; [by left|done]. Qed.

Lemma kept_evident ck s k o :
  inv ck → status_kept ck.(ck_now) s → api_sandboxes s !! k = Some o → evident (states ck) k o.(sb_Status).
Proof.
  intros Hi Hk [-> | (o' & Ho & ->)]%Hk; [apply evident_empty|by apply now_evident].
Qed.

(** A move that keeps the statuses. *)
Lemma inv_moved ck s : inv ck → status_kept ck.(ck_now) s → inv (moved ck s).
Proof.
  intros Hi Hk. split.
  - apply threads_moved, Hi.
  - apply statuses_moved; [apply Hi|]. intros. by eapply kept_evident.
  - intros Hca k th sb o Hth Hsb Hw Ho. cbn in *. destruct (Hk _ _ Ho) as [-> | (o' & Ho' & ->)]; [by right|].
    by eapply (inv_fresh _ Hi).
Qed.
(** A client that starts or goes on. *)
Lemma inv_set_client ck i th :
  inv ck → after (job_code th.(th_job)) th.(th_trace) th.(th_prog) → Forall (in_system (states ck)) th.(th_trace) →
  inv (set_client ck i th).
Proof.
  intros Hi Ha Ht. split; [|apply Hi|apply Hi]. destruct (inv_threads _ Hi) as [Hc Hr]. split; [|apply Hr].
  intros j th' Hth. cbn in Hth. apply lookup_insert_Some in Hth as [[<- <-]|[_ Hth]]; [done|exact (Hc _ _ Hth)].
Qed.

(** An answer to a call that writes no status. *)
Lemma answered_kept ck c r s :
  answered ck c r s → writes_no_status (YServer (SKube c)) → status_kept ck.(ck_now) s.
Proof.
  intros Ha Hc k o Ho. destruct (answered_status _ _ _ _ _ _ Ha Ho) as [(o' & ? & ?)|Hs]; [right; eauto|].
  destruct c; try done. left. apply Hs.
Qed.

Lemma client_call_inv ck i th c k r s :
  inv ck → ck.(ck_clients) !! i = Some th → th.(th_prog) = @Call SystemE outcome (YServer (SKube c)) k →
  answered ck c r s →
  inv (set_client (moved ck s) i (snoc_event th (@Ev SystemE (YServer (SKube c)) r) (k r))).
Proof.
  intros Hi Hth Hp Ha. destruct (proj1 (inv_threads _ Hi) _ _ Hth) as [Haf Htr]. rewrite Hp in Haf.
  destruct (after_calls _ _ _ _ (job_no_status _) Haf) as [Hc _].
  apply inv_set_client; [apply inv_moved; [done|by eapply answered_kept]|exact (after_snoc _ _ _ _ _ Haf)|].
  apply Forall_app. split; [eapply in_system_mono; [apply states_moved|done]|].
  eapply in_system_mono; [apply states_moved|]. constructor; [by apply answered_seen in Ha|done].
Qed.

Lemma client_step_inv ck i th (c : SystemE) k (r : answer c) :
  inv ck → ck.(ck_clients) !! i = Some th → th.(th_prog) = Call c k →
  (∀ c', c ≠ YServer (SKube c')) → system_ok (Ev c r) → inv (set_client ck i (snoc_event th (Ev c r) (k r))).
Proof.
  intros Hi Hth Hp Hc Hok. destruct (proj1 (inv_threads _ Hi) _ _ Hth) as [Haf Htr]. rewrite Hp in Haf.
  apply inv_set_client; [done|exact (after_snoc _ _ _ _ _ Haf)|]. apply Forall_app. split; [done|]. constructor; [|done].
  destruct c as [[c'| | |]|]; [by destruct (Hc c')|done..].
Qed.

(** What a reconciliation is about to do is allowed. *)
Lemma reconcile_allowed ck key th c k :
  inv ck → ck.(ck_reconciles) !! key = Some th → th.(th_prog) = @Call KubeE reconcile_result c k →
  reconcile_may th.(th_job) key th.(th_trace) c.
Proof.
  intros Hi Hth Hp. destruct (proj2 (inv_threads _ Hi) _ _ Hth) as [Haf Htr]. rewrite Hp in Haf.
  assert (Hok : Forall reconcile_ok th.(th_trace)) by (eapply Forall_impl; [exact Htr|]; by intros [? ?] [? _]).
  pose proof (wp_history_after _ _ _ _ _ _ _ (wp_Reconcile th.(th_job) key) Haf Hok) as [Hmay _]. exact Hmay.
Qed.

(** The statuses after a call of a reconciliation: only its own is written, on evidence. *)
Lemma reconcile_statuses ck key th c k r s k' o :
  inv ck → ck.(ck_reconciles) !! key = Some th → th.(th_prog) = @Call KubeE reconcile_result c k →
  answered ck c r s → api_sandboxes s !! k' = Some o →
  evident (states ck) k' o.(sb_Status)
  ∧ ((∃ o', api_sandboxes ck.(ck_now) !! k' = Some o' ∧ o.(sb_Status) = o'.(sb_Status))
     ∨ k' = key ∧ is_Some (status_write (@Ev KubeE c r))).
Proof.
  intros Hi Hth Hp Ha Ho. pose proof (reconcile_allowed _ _ _ _ _ Hi Hth Hp) as Hmay.
  destruct (answered_status _ _ _ _ _ _ Ha Ho) as [(o' & Ho' & E)|Hs].
  { split; [|by eauto]. rewrite E. by apply now_evident. }
  destruct c as [| | |x| |base new| | | | | | | |]; try done.
  destruct Hmay as (Hw & Hsaw & Hkey & Hj), Hs as (-> & o' & Ho' & E). rewrite Hkey in *. split; [|by right; eauto].
  destruct (proj2 (inv_threads _ Hi) _ _ Hth) as [_ Htr]. rewrite E.
  eapply patch_evident; [exact Hj|done|done| |by apply now_evident|].
  - rewrite Forall_forall in Htr. apply (inv_statuses _ Hi). by apply (Htr _ Hsaw).
  - intros Hca. by eapply (inv_fresh _ Hi).
Qed.

Lemma fresh_read ck key c r s sb o :
  cached = false → answered ck c r s → @Ev KubeE c r = saw_sandbox key (Ok sb) →
  api_sandboxes s !! key = Some o → o = sb.
Proof.
  intros Hca Ha E Ho. assert (c = GetSandbox key) as -> by (by apply (f_equal ev_call) in E).
  apply (f_equal seen) in E. cbn [seen] in E. injection E as ->.
  inversion Ha as [r' s' Hs|old r' s' Hc| |]; simplify_eq; [|congruence].
  pose proof (step_read _ _ _ _ Hs eq_refl) as Hcont. apply step_get_sandbox in Hs. cbn in Hs.
  unfold contents in Hcont. congruence.
Qed.

Lemma reconcile_call_inv ck key th c k r s :
  inv ck → ck.(ck_reconciles) !! key = Some th → th.(th_prog) = @Call KubeE reconcile_result c k →
  answered ck c r s →
  inv (set_reconcile (moved ck s) key (snoc_event th (@Ev KubeE c r) (k r))).
Proof.
  intros Hi Hth Hp Ha. pose proof (λ k' o, reconcile_statuses _ _ _ _ _ _ _ k' o Hi Hth Hp Ha) as Hst.
  destruct (proj2 (inv_threads _ Hi) _ _ Hth) as [Haf Htr]. rewrite Hp in Haf. split.
  - destruct (threads_moved _ s (inv_threads _ Hi)) as [Hc Hr]. split; [exact Hc|].
    intros k' th' Hth'. cbn in Hth'. apply lookup_insert_Some in Hth' as [[<- <-]|[_ Hth']]; [|exact (Hr _ _ Hth')].
    split; [exact (after_snoc _ _ _ _ _ Haf)|]. eapply in_kube_mono; [apply states_moved|].
    apply Forall_app. split; [done|]. constructor; [by apply answered_seen in Ha|done].
  - apply (statuses_moved ck); [apply Hi|]. intros k' o Ho. by apply Hst.
  - intros Hca k' th' sb o Hth' Hsb Hw Ho. cbn in Hth', Ho.
    apply lookup_insert_Some in Hth' as [[<- <-]|[Hne Hth']].
    + cbn in Hsb, Hw. unfold status_writes in Hw. rewrite omap_app in Hw. apply app_eq_nil in Hw as [Hw Hw'].
      apply elem_of_app in Hsb as [Hsb|Hsb%list_elem_of_singleton]; [|left; f_equal; by eapply fresh_read].
      destruct (Hst _ _ Ho) as [_ [(o' & Ho' & ->)|[_ [x Hx]]]]; [by eapply (inv_fresh _ Hi)|].
      cbn in Hw', Hx. by rewrite Hx in Hw'.
    + destruct (Hst _ _ Ho) as [_ [(o' & Ho' & ->)|[-> _]]]; [|done]. by eapply (inv_fresh _ Hi).
Qed.

Lemma reconcile_start_inv ck key now :
  inv ck → inv (set_reconcile ck key (mk_thread now [] (Reconcile now error_string key))).
Proof.
  intros Hi. split; [|apply Hi|].
  - destruct (inv_threads _ Hi) as [Hc Hr]. split; [exact Hc|].
    intros k' th' Hth'. cbn in Hth'. apply lookup_insert_Some in Hth' as [[<- <-]|[_ Hth']]; [done|exact (Hr _ _ Hth')].
  - intros Hca k' th' sb o Hth' Hsb. cbn in Hth'. apply lookup_insert_Some in Hth' as [[<- <-]|[_ Hth']].
    + by apply elem_of_nil in Hsb.
    + by eapply (inv_fresh _ Hi).
Qed.

Lemma reconcile_end_inv ck key :
  inv ck → inv (mk_cluster ck.(ck_now) ck.(ck_past) ck.(ck_clients) (delete key ck.(ck_reconciles))).
Proof.
  intros Hi. split; [|apply Hi|].
  - destruct (inv_threads _ Hi) as [Hc Hr]. split; [exact Hc|].
    intros k' th' Hth'. cbn in Hth'. apply lookup_delete_Some in Hth' as [_ Hth']. exact (Hr _ _ Hth').
  - intros Hca k' th' sb o Hth'. cbn in Hth'. apply lookup_delete_Some in Hth' as [_ Hth'].
    by eapply (inv_fresh _ Hi).
Qed.

Lemma cluster_step_inv ck ck' : inv ck → cluster_step ck ck' → inv ck'.
Proof.
  intros Hi Hs. revert Hi.
  destruct Hs as [ck i j|ck i th c k r s|ck i th c k r|ck key now|ck key th c k r s|ck key th r|ck s]; intros Hi.
  - apply inv_set_client; [done|reflexivity|constructor].
  - by apply client_call_inv.
  - by apply client_step_inv.
  - by apply reconcile_start_inv.
  - by apply reconcile_call_inv.
  - by apply reconcile_end_inv.
  - by apply inv_moved.
Qed.

Lemma initial_inv ck : initial ck → inv ck.
Proof.
  intros (Hs & Hp & Hc & Hr). split; [split|..].
  - intros i th. by rewrite Hc, lookup_empty.
  - intros k th. by rewrite Hr, lookup_empty.
  - intros k o (s & Hin & Ho). unfold states in Hin. rewrite Hp in Hin. apply list_elem_of_singleton in Hin as ->.
    by rewrite Hs, lookup_empty in Ho.
  - intros _ k th sb o. by rewrite Hr, lookup_empty.
Qed.

Lemma cluster_reachable_inv ck : reachable ck → inv ck.
Proof.
  intros (ck0 & H0' & Hsteps). apply initial_inv in H0'.
  induction Hsteps as [|ck1 ck2 ck3 Hstep _ IH]; [done|]. by apply IH, (cluster_step_inv ck1).
Qed.

(** ** Properties *)

(** An event of a client that read a sandbox. *)
Lemma client_read l t k o :
  Forall (in_system l) t → server_event (got_sandbox k (Ok o)) ∈ t → was_sandbox l k o.
Proof. rewrite Forall_forall. intros Ht Hin. by apply (Ht _ Hin). Qed.

Lemma in_system_ok l t : Forall (in_system l) t → Forall system_ok t.
Proof. intros Ht. eapply Forall_impl; [exact Ht|]. by intros [[[c| | |]|] r]; [intros [? _]|..]. Qed.

(** C2. Every instance has a runner. In every interleaving of plug-ins, other
    clients, reconciliations and the rest of the cluster, an instance that
    [CreateInstance] returned without an error is a sandbox of an access the token
    is entitled to, for which a runner Pod of a generation wanted was up; each
    address is that of such a runner that had not ended. When reads are not cached, the
    addresses are exactly that of a runner that was up. *)
Theorem instance_has_runner ck i th pcfg base podName sandboxID g spec inst :
  plain_endpoint pcfg.(pv_Endpoint) base →
  (∀ networkMTU data,
     generateUserData wf_zero generate generate_other int_overflow g networkMTU = Ok data →
     sendable (instance_request g podName sandboxID data spec)) →
  reachable ck → ck.(ck_clients) !! i = Some th →
  th.(th_job) = JCreate pcfg podName sandboxID g spec → th.(th_prog) = Ret (OInstance (Some inst, None)) →
  ∃ t a, Forall (λ e, server_event e ∈ th.(th_trace)) t ∧ entitled cfg pcfg.(pv_Token) t a
    ∧ inst.(in_ID) = sandboxName sandboxID ∧ inst.(in_IPs) ≠ []
    ∧ let had := had_runner (states ck) (NN a.(acc_Namespace) (sandboxName sandboxID)) in
      (∃ runner, had runner ∧ runner_up runner)
      ∧ (∀ ip, ip ∈ inst.(in_IPs) → ∃ runner, had runner ∧ stopped_phase runner = false
            ∧ ip = to_valid runner.(pod_Status).(pst_PodIP))
      ∧ (cached = false → ∃ runner, had runner ∧ runner_up runner
            ∧ inst.(in_IPs) = [to_valid runner.(pod_Status).(pst_PodIP)]).
Proof.
  intros Hplain Hsend Hi%cluster_reachable_inv Hth Hjob Hret.
  destruct (proj1 (inv_threads _ Hi) _ _ Hth) as [Haf Htr]. rewrite Hret, Hjob in Haf.
  apply after_exec in Haf. cbn [job_code] in Haf. unfold NewProvider in Haf.
  destruct (newKubernetesProvider pcfg None) as [p|err] eqn:Hnew; [|by exec_step Haf].
  apply exec_bind in Haf as (t1 & t2 & r & Ht & Hx & Hr). exec_step Hr. injection Ha as <-. rewrite app_nil_r in Ht.
  rewrite <- Ht in Hx. apply (exec_instance _ _ _ _ _ _ _ _ _ _ _ _ _ _ _ _ _ Hplain Hnew Hsend) in Hx
    as (t & a & o & Hin & Hent & Hread & Hready & Hid & Hips & Hne & _); [|by eapply in_system_ok].
  exists t, a. split_and!; [done..|]. cbn zeta.
  destruct (inv_statuses _ Hi _ _ (client_read _ _ _ _ Htr Hread)) as [[Hc Hip] Hb].
  split; [by apply Hc|]. rewrite Hips in Hne |- *. split.
  - intros ip (x & <- & Hx')%list_elem_of_In%in_map_iff. apply list_elem_of_In in Hx'. destruct (Hip _ Hx') as (runner & ? & ? & <-). eauto.
  - intros Hca. destruct (Hb Hca) as (runner & Hhad & Hup & ->); [split; [done|]; by intros E; rewrite E in Hne|].
    by exists runner.
Qed.
End cluster.

(** ** Executable schedules

    A schedule over the concrete store: every action is a step, so a schedule that
    runs reaches a state of the system. *)
Section schedule.
Context `{ControllerUtil, StatusConditions} (error_string : go_error → string).
Context (render : go_error → string) (status_line : Z → string) (cfg : Config) (fuel : nat).
Context {wf_rest cc_rest other : Type} (wf_zero : wf_rest).
Context (generate : CloudConfig wf_rest cc_rest → result go_error string).
Context (generate_other : other → result go_error string) (int_overflow : float64 → Z).

Notation job := (@job wf_rest cc_rest other).
Notation mem_cluster := (@cluster Mem.mem wf_rest cc_rest other).
Notation code := (job_code render status_line cfg fuel wf_zero generate generate_other int_overflow).
Notation mem_step :=
  (cluster_step false error_string render status_line cfg fuel wf_zero generate generate_other int_overflow).

Inductive action : Type :=
| StartClient (i : nat) (j : job)
| RunClient (i : nat)
| StartReconcile (key : NamespacedName) (now : Z)
| RunReconcile (key : NamespacedName)
| EndReconcile (key : NamespacedName)
| ChangePods (f : gmap NamespacedName Pod → gmap NamespacedName Pod).

(** The answer of a call that is not to Kubernetes. *)
Definition plain_answer (c : SystemE) : option (answer c) :=
  match c return option (@answer SystemE c) with
  | YServer (SKube _) => None
  | YServer (SRandRead n) => Some (Ok (repeat_string n "r"))
  | YServer SWait => Some None
  | YServer SServe => Some (ServeCtxDone None)
  | YNet => Some None
  end.

Definition run_client (ck : mem_cluster) (i : nat) (th : thread SystemE job outcome) : option mem_cluster :=
  match th.(th_prog) with
  | Ret _ => None
  | Call c k =>
      match c return (@answer SystemE c → prog SystemE outcome) → option (@answer SystemE c) → option mem_cluster with
      | YServer (SKube c) => λ k _,
          let '(s, r) := Mem.handle ck.(ck_now) c in
          Some (set_client (moved ck s) i (snoc_event th (@Ev SystemE (YServer (SKube c)) r) (k r)))
      | c => λ k r, (λ r, set_client ck i (snoc_event th (@Ev SystemE c r) (k r))) <$> r
      end k (plain_answer c)
  end.

Definition run_reconcile (ck : mem_cluster) (key : NamespacedName) (th : thread KubeE Z reconcile_result)
    : option mem_cluster :=
  match th.(th_prog) with
  | Ret _ => None
  | Call c k =>
      let '(s, r) := Mem.handle ck.(ck_now) c in
      Some (set_reconcile (moved ck s) key (snoc_event th (@Ev KubeE c r) (k r)))
  end.

Definition act (ck : mem_cluster) (a : action) : option mem_cluster :=
  match a with
  | StartClient i j =>
      match ck.(ck_clients) !! i with
      | Some _ => None
      | None => Some (set_client ck i (mk_thread j [] (code j)))
      end
  | RunClient i => ck.(ck_clients) !! i ≫= run_client ck i
  | StartReconcile key now =>
      match ck.(ck_reconciles) !! key with
      | Some _ => None
      | None => Some (set_reconcile ck key (mk_thread now [] (Reconcile now error_string key)))
      end
  | RunReconcile key =>
      ck.(ck_reconciles) !! key ≫= run_reconcile ck key
  | EndReconcile key =>
      th ← ck.(ck_reconciles) !! key;
      match th.(th_prog) with
      | Ret _ => Some (mk_cluster ck.(ck_now) ck.(ck_past) ck.(ck_clients) (delete key ck.(ck_reconciles)))
      | Call _ _ => None
      end
  | ChangePods f => Some (moved ck (Mem.set_pods ck.(ck_now) (f ck.(ck_now).(Mem.pods))))
  end.

Fixpoint run_actions (l : list action) (ck : mem_cluster) : option mem_cluster :=
  match l with [] => Some ck | a :: l => act ck a ≫= run_actions l end.

Lemma run_client_step ck i th ck' :
  ck.(ck_clients) !! i = Some th → run_client ck i th = Some ck' → mem_step ck ck'.
Proof.
  intros Hth. unfold run_client. destruct (th_prog th) as [a|c k] eqn:Hp; [done|].
  destruct c as [[c|n| |]|]; cbn.
  - destruct (Mem.handle (ck_now ck) c) as [s r] eqn:Hh. intros [= <-].
    eapply client_calls; [done|done|]. by apply answered_store.
  - intros [= <-]. apply client_steps; [done|done|done|]. cbn. intros b [= <-]. apply length_repeat_string.
  - intros [= <-]. by apply client_steps.
  - intros [= <-]. by apply client_steps.
  - intros [= <-]. by apply client_steps.
Qed.

Lemma act_step ck a ck' : act ck a = Some ck' → mem_step ck ck'.
Proof.
  destruct a as [i j|i|key now|key|key|f]; cbn.
  - case_match eqn:E; [done|]. intros [= <-]. by constructor.
  - intros (th & Hth & Hr)%bind_Some. by eapply run_client_step.
  - case_match eqn:E; [done|]. intros [= <-]. by constructor.
  - intros (th & Hth & Hr)%bind_Some. unfold run_reconcile in Hr. destruct (th_prog th) as [r|c k] eqn:Hp; [done|].
    destruct (Mem.handle (ck_now ck) c) as [s r] eqn:Hh. injection Hr as <-.
    eapply reconcile_calls; [done|done|]. by apply answered_store.
  - intros (th & Hth & Hr)%bind_Some. destruct (th_prog th) as [r|c k] eqn:Hp; [|done].
    injection Hr as <-. by eapply reconcile_ends.
  - intros [= <-]. apply others_act. intros k o Ho. right. by exists o.
Qed.

Lemma run_actions_steps l ck ck' : run_actions l ck = Some ck' → rtc mem_step ck ck'.
Proof.
  revert ck. induction l as [|a l IH]; cbn; intros ck.
  - intros [= <-]. apply rtc_refl.
  - intros (ck1 & Ha & Hl)%bind_Some. eapply rtc_l; [by eapply act_step|by apply IH].
Qed.
End schedule.

(** ** Witness

    A plug-in's request, the reconciliation that creates the runner, the kubelet
    that brings it up, the reconciliation that sees it, and the end of the request. *)

Definition fixture_job : @job unit unit unit :=
  JCreate plugin_config "api-7d9c" "sandbox-id" fixture_generator (mk_InstanceTypeSpec 2 512 "amd64").

Definition fixture_key : NamespacedName := NN "cluster-a-runtime" (sandboxName "sandbox-id").

Definition fixture_cluster : @cluster Mem.mem unit unit unit := mk_cluster mem_fixture [] ∅ ∅.

Definition pods_ready (pods : gmap NamespacedName Pod) : gmap NamespacedName Pod :=
  (λ p, mk_Pod p.(pod_meta) p.(pod_Spec)
          (mk_PodStatus PodRunning "10.90.0.8" [mk_PodCondition "Ready" ConditionTrue] [])) <$> pods.

Definition reconcile_at (now : Z) : list (@action unit unit unit) :=
  StartReconcile fixture_key now :: repeat (RunReconcile fixture_key) 6 ++ [EndReconcile fixture_key].

Definition fixture_schedule : list (@action unit unit unit) :=
  StartClient 0 fixture_job :: repeat (RunClient 0) 13 ++ reconcile_at 5 ++ [ChangePods pods_ready]
  ++ reconcile_at 6 ++ repeat (RunClient 0) 2.

Definition fixture_run : option (@cluster Mem.mem unit unit unit) :=
  run_actions (λ _, "error") (λ _, "error") (λ _, "status") config_fixture 5 tt concat_files
    (λ _ : unit, Ok "userdata") no_overflow fixture_schedule fixture_cluster.

Definition fixture_end : @cluster Mem.mem unit unit unit := default fixture_cluster fixture_run.

Definition fixture_thread : thread SystemE (@job unit unit unit) outcome :=
  default (mk_thread fixture_job [] (Ret (ODeleted None))) (fixture_end.(ck_clients) !! 0%nat).

Lemma fixture_reachable :
  reachable false (λ _, "error") (λ _, "error") (λ _, "status") config_fixture 5 tt concat_files
    (λ _ : unit, Ok "userdata") no_overflow fixture_end.
Proof.
  exists fixture_cluster. split; [by repeat split|]. apply (run_actions_steps _ _ _ _ _ _ _ _ _ fixture_schedule).
  apply is_Some_default. vm_compute. reflexivity.
Qed.

Lemma instance_has_runner_witness :
  ∃ namespace runner,
    had_runner (states fixture_end) (NN namespace (sandboxName "sandbox-id")) runner ∧ runner_up runner
    ∧ fixture_instance.(in_IPs) = [to_valid runner.(pod_Status).(pst_PodIP)].
Proof.
  assert (Hp : plain_endpoint plugin_config.(pv_Endpoint) plugin_base)
    by (exact (plain_endpoint_intro "http" "pod-sandbox-api:8080" "" eq_refl eq_refl (or_introl eq_refl))).
  assert (Hs : ∀ networkMTU data,
     generateUserData tt concat_files (λ _ : unit, Ok "userdata") no_overflow fixture_generator networkMTU = Ok data →
     sendable (instance_request fixture_generator "api-7d9c" "sandbox-id" data (mk_InstanceTypeSpec 2 512 "amd64"))).
  { intros networkMTU data E. injection E as E. rewrite <- E.
    split; [repeat constructor | split; split; vm_compute; discriminate]. }
  assert (Hth : fixture_end.(ck_clients) !! 0%nat = Some fixture_thread)
    by (apply is_Some_default; vm_compute; reflexivity).
  assert (Hj : fixture_thread.(th_job) = fixture_job) by (vm_compute; reflexivity).
  assert (Hr : fixture_thread.(th_prog) = Ret (OInstance (Some fixture_instance, None))) by (vm_compute; reflexivity).
  destruct (instance_has_runner false (λ _, "error") (λ _, "error") (λ _, "status") config_fixture 5 tt concat_files
    (λ _ : unit, Ok "userdata") no_overflow fixture_end 0 fixture_thread plugin_config plugin_base "api-7d9c"
    "sandbox-id" fixture_generator (mk_InstanceTypeSpec 2 512 "amd64") fixture_instance Hp Hs fixture_reachable Hth Hj Hr)
    as (t & a & Ht & Hent & _ & _ & _ & _ & Hrunner).
  destruct (Hrunner eq_refl) as (runner & Hhad & Hup & Hips). exists a.(acc_Namespace), runner. exact (conj Hhad (conj Hup Hips)).
Defined.
