(* ===== verification/Manager.v ===== *)
(** * The controller manager command and the smoke test of the plug-in

    cmd/main.go parses its flags, configures controller-runtime's manager and
    registers the controller and the API server with it, as a program over the
    calls it makes. The flags that libraries register on the same flag set (zap's,
    and controller-runtime's kubeconfig) are a parameter. cmd/plugin-smoke checks
    that the plug-in is registered and configured. *)

From S2P Require Import Prelude GoFmt GoStrings Flags Prog Api Kube Server Url Client Provider.

Local Open Scope Z_scope.

(** ** Flags *)

(** The three flags of a certificate: directory, certificate and key file. *)
Record cert_flags : Type := mk_cert { cert_Path : string; cert_Name : string; cert_Key : string }.

Record manager_flags : Type := mk_mflags {
  mf_metricsAddr : string;
  mf_probeAddr : string;
  mf_apiAddr : string;
  mf_sandboxNamespace : string;
  mf_sandboxClassName : string;
  mf_tokenSecretName : string;
  mf_enableLeaderElection : bool;
  mf_secureMetrics : bool;
  mf_webhookCert : cert_flags;
  mf_metricsCert : cert_flags;
  mf_enableHTTP2 : bool;
}.

Definition default_mflags : manager_flags :=
  mk_mflags "0" ":8081" ":8080" "caa-provider-kubernetes-system" "default" "pod-sandbox-api" false true
    (mk_cert "" "tls.crt" "tls.key") (mk_cert "" "tls.crt" "tls.key") false.

Definition set_webhook (f : cert_flags → cert_flags) : manager_flags → manager_flags :=
  λ '(mk_mflags m p a n c t l s w k h), mk_mflags m p a n c t l s (f w) k h.
Definition set_metrics (f : cert_flags → cert_flags) : manager_flags → manager_flags :=
  λ '(mk_mflags m p a n c t l s w k h), mk_mflags m p a n c t l s w (f k) h.

Definition mflags : list (flag manager_flags) :=
  [StringVar "metrics-bind-address" (λ v '(mk_mflags m p a n c t l s w k h), mk_mflags v p a n c t l s w k h);
   StringVar "health-probe-bind-address" (λ v '(mk_mflags m p a n c t l s w k h), mk_mflags m v a n c t l s w k h);
   StringVar "api-bind-address" (λ v '(mk_mflags m p a n c t l s w k h), mk_mflags m p v n c t l s w k h);
   StringVar "namespace" (λ v '(mk_mflags m p a n c t l s w k h), mk_mflags m p a v c t l s w k h);
   StringVar "class-name" (λ v '(mk_mflags m p a n c t l s w k h), mk_mflags m p a n v t l s w k h);
   StringVar "token-secret-name" (λ v '(mk_mflags m p a n c t l s w k h), mk_mflags m p a n c v l s w k h);
   BoolVar "leader-elect" (λ v '(mk_mflags m p a n c t l s w k h), mk_mflags m p a n c t v s w k h);
   BoolVar "metrics-secure" (λ v '(mk_mflags m p a n c t l s w k h), mk_mflags m p a n c t l v w k h);
   StringVar "webhook-cert-path" (λ v, set_webhook (λ c, mk_cert v c.(cert_Name) c.(cert_Key)));
   StringVar "webhook-cert-name" (λ v, set_webhook (λ c, mk_cert c.(cert_Path) v c.(cert_Key)));
   StringVar "webhook-cert-key" (λ v, set_webhook (λ c, mk_cert c.(cert_Path) c.(cert_Name) v));
   StringVar "metrics-cert-path" (λ v, set_metrics (λ c, mk_cert v c.(cert_Name) c.(cert_Key)));
   StringVar "metrics-cert-name" (λ v, set_metrics (λ c, mk_cert c.(cert_Path) v c.(cert_Key)));
   StringVar "metrics-cert-key" (λ v, set_metrics (λ c, mk_cert c.(cert_Path) c.(cert_Name) v));
   BoolVar "enable-http2" (λ v '(mk_mflags m p a n c t l s w k h), mk_mflags m p a n c t l s w k v)].

(** Flags of two owners on one flag set. *)
Definition flag_fst {A B} (f : flag A) : flag (A * B) :=
  Flag f.(Flags.fl_name) f.(fl_bool) (λ v o, (λ a, (a, o.2)) <$> f.(Flags.fl_set) v o.1).
Definition flag_snd {A B} (f : flag B) : flag (A * B) :=
  Flag f.(Flags.fl_name) f.(fl_bool) (λ v o, (λ b, (o.1, b)) <$> f.(Flags.fl_set) v o.2).

(** ** Options of the manager *)

(** A function on [tls.Config], by what it does to [NextProtos]. *)
Definition tls_option : Type := list string → list string.

Definition disableHTTP2 : tls_option := λ _, ["http/1.1"].

Definition tlsOpts (m : manager_flags) : list tls_option :=
  if negb m.(mf_enableHTTP2) then [disableHTTP2] else [].

Record server_options : Type := mk_server_options {
  so_TLSOpts : list tls_option; so_CertDir : string; so_CertName : string; so_KeyName : string
}.

Definition with_cert (o : server_options) (c : cert_flags) : server_options :=
  if (0 <? String.length c.(cert_Path))%nat
  then mk_server_options o.(so_TLSOpts) c.(cert_Path) c.(cert_Name) c.(cert_Key) else o.

Definition webhookServerOptions (m : manager_flags) : server_options :=
  with_cert (mk_server_options (tlsOpts m) "" "" "") m.(mf_webhookCert).

Record metrics_options : Type := mk_metrics_options {
  mo_BindAddress : string;
  mo_SecureServing : bool;
  mo_WithAuthenticationAndAuthorization : bool;
  mo_server : server_options;
}.

Definition metricsServerOptions (m : manager_flags) : metrics_options :=
  mk_metrics_options m.(mf_metricsAddr) m.(mf_secureMetrics) m.(mf_secureMetrics)
    (with_cert (mk_server_options (tlsOpts m) "" "" "") m.(mf_metricsCert)).

Record ctrl_options : Type := mk_ctrl_options {
  co_Metrics : metrics_options;
  co_WebhookServer : server_options;
  co_HealthProbeBindAddress : string;
  co_LeaderElection : bool;
  co_LeaderElectionID : string;
}.

Definition manager_options (m : manager_flags) : ctrl_options :=
  mk_ctrl_options (metricsServerOptions m) (webhookServerOptions m) m.(mf_probeAddr) m.(mf_enableLeaderElection)
    "6ff71fca.caa.mnicloud.jp".

Definition api_config (m : manager_flags) (token : string) : Config :=
  mk_Config m.(mf_apiAddr) m.(mf_sandboxNamespace) token m.(mf_tokenSecretName) m.(mf_sandboxClassName).

(** ** [main] *)

Inductive manager_call : Type :=
| GetConfigOrDie                       (* whether a configuration was found; the process exits otherwise *)
| NewManager (o : ctrl_options)
| SetupWithManager                     (* of PodSandboxReconciler *)
| Getenv (name : string)
| AddRunnable (api : Config)
| AddHealthzCheck (name : string)
| AddReadyzCheck (name : string)
| StartManager.

Definition manager_answer (c : manager_call) : Type :=
  match c with
  | GetConfigOrDie => bool
  | Getenv _ => string
  | _ => option go_error
  end.

Definition ManagerE : effects := Effects manager_call manager_answer.
Notation mgr c := (@perform ManagerE c).

(** [if err != nil { os.Exit(1) }]. *)
Notation "'must!' e 'in' k" :=
  (bind e (λ r, match r with Some _ => Ret 1 | None => k end))
  (at level 200, e at level 100, k at level 200) : prog_scope.

Section manager.
Context {X : Type} (extra : list (flag X)) (extra_default : X).

Definition parse_manager (args : list string) : result Z manager_flags :=
  let? parsed := Flags.Parse (map flag_fst mflags ++ map flag_snd extra) args (default_mflags, extra_default) in
  Ok parsed.1.1.

(** Lines 210 to 229: with the API configured. *)
Definition serve_manager (api : Config) : prog ManagerE Z :=
  must! mgr (AddRunnable api) in
  must! mgr (AddHealthzCheck "healthz") in
  must! mgr (AddReadyzCheck "readyz") in
  must! mgr StartManager in
  Ret 0.

(** The status the process exits with. *)
Definition main_manager (args : list string) : prog ManagerE Z :=
  match parse_manager args with
  | Err status => Ret status
  | Ok m =>
      let! found := mgr GetConfigOrDie in
      if negb found then Ret 1
      else
        must! mgr (NewManager (manager_options m)) in
        must! mgr SetupWithManager in
        let! token := mgr (Getenv "POD_SANDBOX_API_TOKEN") in
        match New (api_config m token) with
        | Err _ => Ret 1
        | Ok api => serve_manager api
        end
  end.

(** ** Properties *)

(** What is called before the manager is started. *)
Definition registered (m : manager_flags) (token : string) (api : Config) : list (event ManagerE) :=
  [@Ev ManagerE GetConfigOrDie true; @Ev ManagerE (NewManager (manager_options m)) None;
   @Ev ManagerE SetupWithManager None; @Ev ManagerE (Getenv "POD_SANDBOX_API_TOKEN") token;
   @Ev ManagerE (AddRunnable api) None; @Ev ManagerE (AddHealthzCheck "healthz") None;
   @Ev ManagerE (AddReadyzCheck "readyz") None].

Definition starts (e : event ManagerE) : Prop := ev_call e = StartManager.

(** HTTP/2 is off for both servers unless it was asked for, and metrics that are
    served securely are served to authorized users only. *)
Lemma manager_endpoints m :
  (m.(mf_enableHTTP2) = false → ∀ protos,
     foldl (λ p f, f p) protos (manager_options m).(co_Metrics).(mo_server).(so_TLSOpts) = ["http/1.1"]
     ∧ foldl (λ p f, f p) protos (manager_options m).(co_WebhookServer).(so_TLSOpts) = ["http/1.1"])
  ∧ (manager_options m).(co_Metrics).(mo_WithAuthenticationAndAuthorization)
    = (manager_options m).(co_Metrics).(mo_SecureServing).
Proof.
  split; [|done]. intros Hh protos. cbn. unfold webhookServerOptions, with_cert, tlsOpts. rewrite Hh.
  split; by case_match.
Qed.

(** The command ends before the manager was started. *)
Local Ltac stops Hx := right; exec_step Hx; split; [repeat constructor; done|done].

(** What [New] makes of the configuration of the command. *)
Lemma New_spec m token api :
  New (api_config m token) = Ok api →
  api.(cfg_Namespace) = m.(mf_sandboxNamespace) ∧ api.(cfg_Namespace) ≠ ""
  ∧ api.(cfg_ClassName) = m.(mf_sandboxClassName) ∧ api.(cfg_ClassName) ≠ ""
  ∧ api.(cfg_Address) ≠ "" ∧ api.(cfg_TokenSecretName) ≠ "" ∧ api.(cfg_Token) = token.
Proof.
  unfold New, api_config. cbn.
  destruct (String.eqb_spec m.(mf_sandboxNamespace) ""), (String.eqb_spec m.(mf_sandboxClassName) ""); try done.
  intros [= <-]. cbn. split_and!; try done.
  - by destruct (String.eqb_spec m.(mf_apiAddr) "").
  - by destruct (String.eqb_spec m.(mf_tokenSecretName) "").
Qed.

(** C39. The manager starts complete or not at all: an execution that starts it has
    registered the controller, the API server (with a namespace and a class, an
    address and a token secret, and the token of the environment) and both checks,
    each without an error, and ends with status 0 exactly when the manager ended
    without one; an execution that does not start it never ends with status 0, but
    when help was asked for. *)
Theorem manager_starts_complete args t status :
  exec (main_manager args) t status →
  match parse_manager args with
  | Err code => t = [] ∧ status = code
  | Ok m =>
      (∃ token api e,
         t = registered m token api ++ [@Ev ManagerE StartManager e] ∧ status = (if e then 1 else 0)
         ∧ New (api_config m token) = Ok api
         ∧ api.(cfg_Namespace) = m.(mf_sandboxNamespace) ∧ api.(cfg_Namespace) ≠ ""
         ∧ api.(cfg_ClassName) = m.(mf_sandboxClassName) ∧ api.(cfg_ClassName) ≠ ""
         ∧ api.(cfg_Address) ≠ "" ∧ api.(cfg_TokenSecretName) ≠ "" ∧ api.(cfg_Token) = token)
      ∨ Forall (λ e, ¬ starts e) t ∧ status = 1
  end.
Proof.
  unfold main_manager. destruct (parse_manager args) as [m|code]; intros Hx; [|by exec_step Hx].
  exec_step Hx. destruct r; cbn [negb] in Hx; [|stops Hx].
  do 2 (exec_step Hx; destruct r; [stops Hx|]).
  exec_step Hx. destruct (New (api_config m r)) as [api|err] eqn:Hnew; [|stops Hx].
  unfold serve_manager in Hx. do 3 (exec_step Hx; destruct r0; [stops Hx|]).
  exec_step Hx. left. exists r, api, r0. apply New_spec in Hnew as Hspec.
  destruct r0; exec_step Hx; (split; [done|]; split; [done|]; split; [done|exact Hspec]).
Qed.
End manager.

(** A cluster in which everything succeeds. *)
Definition manager_handle (token : string) (s : unit) (c : ManagerE) : unit * answer c :=
  match c return unit * @answer ManagerE c with
  | GetConfigOrDie => (s, true)
  | Getenv _ => (s, token)
  | NewManager _ | SetupWithManager | AddRunnable _ | AddHealthzCheck _ | AddReadyzCheck _ | StartManager => (s, None)
  end.

Definition fixture_main : prog ManagerE Z := main_manager ([] : list (flag unit)) tt ["--class-name=cluster-a"; "--leader-elect"].

Lemma manager_starts_complete_witness :
  ∃ m token api e, parse_manager ([] : list (flag unit)) tt ["--class-name=cluster-a"; "--leader-elect"] = Ok m
    ∧ run_trace (manager_handle "secret") tt fixture_main = registered m token api ++ [@Ev ManagerE StartManager e]
    ∧ api.(cfg_ClassName) = "cluster-a" ∧ m.(mf_enableLeaderElection) = true.
Proof.
  pose proof (manager_starts_complete [] tt _ _ _ (run_exec (manager_handle "secret") tt fixture_main)) as Hs.
  set (m := mk_mflags "0" ":8081" ":8080" "caa-provider-kubernetes-system" "cluster-a" "pod-sandbox-api" true true
    (mk_cert "" "tls.crt" "tls.key") (mk_cert "" "tls.crt" "tls.key") false).
  assert (Hp : parse_manager ([] : list (flag unit)) tt ["--class-name=cluster-a"; "--leader-elect"] = Ok m)
    by (vm_compute; reflexivity).
  rewrite Hp in Hs. exists m. destruct Hs as [(token & api & e & Ht & _ & _ & _ & _ & Hc & _)|[Ht _]].
  - exists token, api, e. exact (conj Hp (conj Ht (conj Hc eq_refl))).
  - exfalso. rewrite Forall_forall in Ht. apply (Ht (@Ev ManagerE StartManager None)); [|reflexivity].
    apply list_elem_of_In. vm_compute. tauto.
Defined.

(** ** cmd/plugin-smoke

    [registered]: [providers.Get] finds the plug-in that the [init] of manager.go
    adds; [value] gives the flags their values when no argument is given. *)
Definition plugin_smoke (registered : bool) (value : flag_with_env → string) : Z :=
  if negb registered then 1
  else
    match NewProvider (providerConfig value) with
    | Err _ => 1
    | Ok provider => match ConfigVerifier provider with Err _ => 1 | Ok _ => 0 end
    end.

(** The smoke test passes exactly for an http or https endpoint with a host and a
    timeout that parses. *)
Lemma plugin_smoke_exact value :
  let cfg := providerConfig value in
  plugin_smoke true value = 0 ↔
  is_ok (provider_timeout cfg) = true
  ∧ ∃ u, Url.Parse cfg.(pv_Endpoint) = Some u ∧ (u.(Scheme) = "http" ∨ u.(Scheme) = "https") ∧ u.(Host) ≠ "".
Proof.
  intros cfg. unfold plugin_smoke, NewProvider, newKubernetesProvider. cbn [negb]. fold cfg.
  destruct (provider_timeout cfg) as [tm|err]; [|by split; [|intros [? _]]].
  destruct (String.eqb_spec cfg.(pv_Endpoint) "") as [E|Hne].
  { rewrite E. split; [|intros [_ (u & Hu & [Hs|Hs] & _)]; vm_compute in Hu; injection Hu as <-; done].
    unfold ConfigVerifier. cbn [pv_config]. by rewrite E. }
  unfold newHTTPSandboxClient. destruct (Url.Parse cfg.(pv_Endpoint)) as [u|]; [|by split; [|intros [_ (u & ? & _)]]].
  destruct (String.eqb_spec u.(Scheme) "http") as [Hs|Hs], (String.eqb_spec u.(Scheme) "https") as [Hs'|Hs'],
    (String.eqb_spec u.(Host) "") as [Hh|Hh]; cbn [negb andb];
    unfold ConfigVerifier; cbn [pv_config pv_client]; rewrite ?(proj2 (String.eqb_neq _ _) Hne); naive_solver.
Qed.
