(* ===== verification/DeepCopy.v ===== *)
(** * Deep copies: api/v1alpha1/zz_generated.deepcopy.go

    The controller takes [base := sandbox.DeepCopy()], changes [sandbox] in place
    and patches with the difference. [Controller] passes values around; here the
    same code runs on a heap with pointers, slices and maps, so that what is shared
    is visible. [DeepCopyInto] of the types of other packages (ObjectMeta,
    Condition, Toleration, ListMeta) is a parameter with the laws of [CopierLaws]. *)

From S2P Require Import Prelude Prog Api Kube Server Controller.

Local Open Scope Z_scope.

Notation loc := positive.

(** ** The heap *)

(** A slice: a window of an array. *)
Record slice : Type := mk_slice { sl_array : loc; sl_off : nat; sl_len : nat }.

(** [nil] or a reference: a map, a [*LocalObjectReference], a slice of [X], a [*X]. *)
Inductive map_ref : Type := MapRef (l : option loc).
Inductive name_ref : Type := NameRef (l : option loc).
Inductive slice_ref (X : Type) : Type := SliceRef (s : option slice).
Inductive ptr (X : Type) : Type := Ptr (l : option loc).

Arguments SliceRef {X} _.
Arguments Ptr {X} _.

Record TypeMeta : Type := mk_TypeMeta { tm_Kind : string; tm_APIVersion : string }.

(** The structs, with the references that are in them. [M], [C], [T] and [L] are the
    structs ObjectMeta, Condition, Toleration and ListMeta. *)
Record status_struct (C : Type) : Type := mk_status {
  ss_ObservedGeneration : Z;
  ss_RunnerRef : name_ref;
  ss_NodeName : string;
  ss_IPs : slice_ref string;
  ss_Conditions : slice_ref C;
}.

Record sandbox_struct (M C : Type) : Type := mk_sandbox {
  bs_TypeMeta : TypeMeta;
  bs_ObjectMeta : M;
  bs_Spec : PodSandboxSpec;
  bs_Status : status_struct C;
}.

Record class_spec_struct (T : Type) : Type := mk_class_spec {
  cs_RunnerImage : string;
  cs_PodVMImage : string;
  cs_NetworkMTU : Z;
  cs_Annotations : map_ref;
  cs_Labels : map_ref;
  cs_NodeSelector : map_ref;
  cs_Tolerations : slice_ref T;
  cs_RuntimeAssetsDir : string;
  cs_MemoryOverheadMiB : Z;
}.

Record class_struct (M T : Type) : Type := mk_class {
  ks_TypeMeta : TypeMeta;
  ks_ObjectMeta : M;
  ks_Spec : class_spec_struct T;
}.

(** PodSandboxList and PodSandboxClassList. *)
Record list_struct (L X : Type) : Type := mk_list {
  li_TypeMeta : TypeMeta;
  li_ListMeta : L;
  li_Items : slice_ref X;
}.

Arguments mk_status {C} _ _ _ _ _.
Arguments ss_ObservedGeneration {C} _.
Arguments ss_RunnerRef {C} _.
Arguments ss_NodeName {C} _.
Arguments ss_IPs {C} _.
Arguments ss_Conditions {C} _.
Arguments mk_sandbox {M C} _ _ _ _.
Arguments bs_TypeMeta {M C} _.
Arguments bs_ObjectMeta {M C} _.
Arguments bs_Spec {M C} _.
Arguments bs_Status {M C} _.
Arguments mk_class_spec {T} _ _ _ _ _ _ _ _ _.
Arguments cs_RunnerImage {T} _.
Arguments cs_PodVMImage {T} _.
Arguments cs_NetworkMTU {T} _.
Arguments cs_Annotations {T} _.
Arguments cs_Labels {T} _.
Arguments cs_NodeSelector {T} _.
Arguments cs_Tolerations {T} _.
Arguments cs_RuntimeAssetsDir {T} _.
Arguments cs_MemoryOverheadMiB {T} _.
Arguments mk_class {M T} _ _ _.
Arguments ks_TypeMeta {M T} _.
Arguments ks_ObjectMeta {M T} _.
Arguments ks_Spec {M T} _.
Arguments mk_list {L X} _ _ _.
Arguments li_TypeMeta {L X} _.
Arguments li_ListMeta {L X} _.
Arguments li_Items {L X} _.

(** What a heap cell holds; [O] are the cells of other packages. *)
Inductive cell (M C T L O : Type) : Type :=
| CMap (m : gmap string string)
| CName (name : string)
| CStrings (l : list string)
| CConditions (l : list C)
| CTolerations (l : list T)
| CSandboxes (l : list (sandbox_struct M C))
| CClasses (l : list (class_struct M T))
| CWorkload (w : WorkloadReference)
| CSpec (s : PodSandboxSpec)
| CStatus (s : status_struct C)
| CSandbox (s : sandbox_struct M C)
| CSandboxList (s : list_struct L (sandbox_struct M C))
| CClassSpec (s : class_spec_struct T)
| CClass (s : class_struct M T)
| CClassList (s : list_struct L (class_struct M T))
| COther (o : O).

Arguments CMap {M C T L O} _.
Arguments CName {M C T L O} _.
Arguments CStrings {M C T L O} _.
Arguments CConditions {M C T L O} _.
Arguments CTolerations {M C T L O} _.
Arguments CSandboxes {M C T L O} _.
Arguments CClasses {M C T L O} _.
Arguments CWorkload {M C T L O} _.
Arguments CSpec {M C T L O} _.
Arguments CStatus {M C T L O} _.
Arguments CSandbox {M C T L O} _.
Arguments CSandboxList {M C T L O} _.
Arguments CClassSpec {M C T L O} _.
Arguments CClass {M C T L O} _.
Arguments CClassList {M C T L O} _.
Arguments COther {M C T L O} _.

(** ** Copying, as an interface

    [denotes h x]: the value [x] stands for in [h]; [cells h x]: the cells it reaches;
    [copy h x]: its [DeepCopyInto], with the struct that is written. *)
Class Copier (K X V : Type) : Type := {
  denotes : gmap loc K → X → option V;
  cells : gmap loc K → X → gset loc;
  copy : gmap loc K → X → gmap loc K * X;
}.

(** A value is determined by its cells. A copy changes no cell, has the same value,
    and is made of new cells only. *)
Class CopierLaws (K X V : Type) `{Copier K X V} : Prop := {
  denotes_frame : ∀ h h' x, is_Some (denotes h x) → (∀ l, l ∈ cells h x → h' !! l = h !! l) →
    denotes h' x = denotes h x ∧ cells h' x = cells h x;
  cells_dom : ∀ h x, is_Some (denotes h x) → cells h x ⊆ dom h;
  copy_spec : ∀ h x v, denotes h x = Some v →
    h ⊆ (copy h x).1 ∧ denotes (copy h x).1 (copy h x).2 = Some v ∧ cells (copy h x).1 (copy h x).2 ## dom h;
}.

(** How a list of [X], or an [X], is kept in a cell. *)
Class Stored (K A : Type) : Type := {
  stored : A → K;
  unstored : K → option A;
  unstored_stored : ∀ a, unstored (stored a) = Some a;
}.

#[global] Hint Mode Copier ! ! - : typeclass_instances.
#[global] Hint Mode CopierLaws ! ! - - : typeclass_instances.
#[global] Hint Mode Stored ! ! : typeclass_instances.

Section generic.
Context {K : Type}.
Notation heap := (gmap loc K).
Implicit Types h : heap.

(** A location that is not in use. *)
Definition new_loc (h : heap) : loc := fresh (dom h).

Lemma new_loc_fresh (h : heap) : h !! new_loc h = None.
Proof. apply not_elem_of_dom. unfold new_loc. apply is_fresh. Qed.

Lemma alloc_grows (h : heap) c : h ⊆ <[new_loc h := c]> h.
Proof. apply insert_subseteq, new_loc_fresh. Qed.

(** A copy, made since [h], of something of value [v]. *)
Definition copied `{Copier K X V} (h h' : heap) (x : X) (v : V) : Prop :=
  denotes h' x = Some v ∧ cells h' x ## dom h.

Section copier.
Context `{CopierLaws K X V}.
Implicit Types x : X.

Lemma frame_grows h h' x v : denotes h x = Some v → h ⊆ h' → denotes h' x = Some v ∧ cells h' x = cells h x.
Proof.
  intros Hx Hh. rewrite <- Hx. apply denotes_frame; [done|]. intros l Hl.
  apply cells_dom in Hl; [|done]. apply elem_of_dom in Hl as [c Hc]. rewrite Hc. by eapply lookup_weaken.
Qed.

Lemma copied_grows h h1 h2 x v : copied h h1 x v → h1 ⊆ h2 → copied h h2 x v.
Proof. intros [Hx Hc] Hh. destruct (frame_grows _ _ _ _ Hx Hh) as [? Hc']. unfold copied. by rewrite Hc'. Qed.

(** A copy made in a later heap of something that was there before. *)
Lemma copy_later h h1 h2 x x' v :
  denotes h x = Some v → h ⊆ h1 → copy h1 x = (h2, x') → h1 ⊆ h2 ∧ copied h h2 x' v.
Proof.
  intros Hx Hh E. destruct (frame_grows _ _ _ _ Hx Hh) as [Hx1 _].
  destruct (copy_spec _ _ _ Hx1) as (Hg & Hd & Hf). rewrite E in Hg, Hd, Hf. cbn in *.
  split; [done|]. split; [done|]. apply subseteq_dom in Hh. set_solver.
Qed.
End copier.

(** *** Values without references *)

Definition flat_copier (V : Type) : Copier K V V :=
  {| denotes _ v := Some v; cells _ _ := ∅; copy h v := (h, v) |}.

Lemma flat_laws V : @CopierLaws K V V (flat_copier V).
Proof. split; cbn; [done|set_solver|]. intros h x v [= <-]. split_and!; [done..|set_solver]. Qed.

(** *** Maps of strings: [if in != nil { out = make(...); for key, val := range in { out[key] = val } }] *)

Section maps.
Context `{Stored K (gmap string string)}.

Definition copy_map (h : heap) (m : map_ref) : heap * map_ref :=
  match m with
  | MapRef None => (h, m)
  | MapRef (Some l) =>
      match h !! l ≫= unstored with
      | Some x => let l' := new_loc h in (<[l' := stored (copyMap x)]> h, MapRef (Some l'))
      | None => (h, m)
      end
  end.

#[export] Instance map_copier : Copier K map_ref (gmap string string) := {|
  denotes h m := match m with MapRef None => Some ∅ | MapRef (Some l) => h !! l ≫= unstored end;
  cells h m := match m with MapRef None => ∅ | MapRef (Some l) => {[l]} end;
  copy := copy_map;
|}.

#[export] Instance map_laws : CopierLaws K map_ref (gmap string string).
Proof.
  split.
  - intros h h' [[l|]] Hd Hf; cbn in *; [|done]. by rewrite Hf by set_solver.
  - intros h [[l|]] [v Hd]; cbn in *; [|set_solver]. apply bind_Some in Hd as (c & Hc & _).
    apply singleton_subseteq_l, elem_of_dom. eauto.
  - intros h [[l|]] v; cbn; [|intros [= <-]; split_and!; [done|done|set_solver]]. intros Hd. rewrite Hd. cbn.
    rewrite lookup_insert_eq. cbn. rewrite unstored_stored, copyMap_id.
    split_and!; [apply alloc_grows|done|]. pose proof (new_loc_fresh h) as Hn%not_elem_of_dom. set_solver.
Qed.
End maps.

(** *** Pointers to a name: [*out = new(v1.LocalObjectReference); **out = **in] *)

Section names.
Context `{Stored K string}.

Definition copy_name (h : heap) (r : name_ref) : heap * name_ref :=
  match r with
  | NameRef None => (h, r)
  | NameRef (Some l) =>
      match h !! l ≫= unstored with
      | Some name => let l' := new_loc h in (<[l' := stored (name : string)]> h, NameRef (Some l'))
      | None => (h, r)
      end
  end.

#[export] Instance name_copier : Copier K name_ref (option string) := {|
  denotes h r := match r with NameRef None => Some None | NameRef (Some l) => Some <$> (h !! l ≫= unstored) end;
  cells h r := match r with NameRef None => ∅ | NameRef (Some l) => {[l]} end;
  copy := copy_name;
|}.

#[export] Instance name_laws : CopierLaws K name_ref (option string).
Proof.
  split.
  - intros h h' [[l|]] Hd Hf; cbn in *; [|done]. by rewrite Hf by set_solver.
  - intros h [[l|]] [v Hd]; cbn in *; [|set_solver]. apply fmap_Some in Hd as (? & Hd & _).
    apply bind_Some in Hd as (c & Hc & _). apply singleton_subseteq_l, elem_of_dom. eauto.
  - intros h [[l|]] v; cbn; [|intros [= <-]; split_and!; [done|done|set_solver]]. intros Hd. apply fmap_Some in Hd as (name & Hd & ->).
    rewrite Hd. cbn. rewrite lookup_insert_eq. cbn. rewrite unstored_stored.
    split_and!; [apply alloc_grows|done|]. pose proof (new_loc_fresh h) as Hn%not_elem_of_dom. set_solver.
Qed.
End names.

(** *** Slices: [*out = make([]X, len( *in)); for i := range *in { ( *in)[i].DeepCopyInto(&( *out)[i]) }] *)

Section slices.
Context `{CopierLaws K X V}.
Implicit Types (x : X) (r : slice_ref X).

(** The loop over the elements. *)
Fixpoint copy_list (h : heap) (xs : list X) : heap * list X :=
  match xs with
  | [] => (h, [])
  | x :: xs =>
      let '(h, y) := copy h x in
      let '(h, ys) := copy_list h xs in
      (h, y :: ys)
  end.

#[export] Instance list_copier : Copier K (list X) (list V) := {|
  denotes h xs := mapM (denotes h) xs;
  cells h xs := ⋃ (cells h <$> xs);
  copy := copy_list;
|}.

Lemma denotes_cons h x (xs : list X) vs :
  denotes h (x :: xs) = Some vs ↔ ∃ v vs', denotes h x = Some v ∧ denotes h xs = Some vs' ∧ vs = v :: vs'.
Proof.
  cbn. rewrite bind_Some. split.
  - intros (v & Hv & (vs' & Hvs & [= <-])%bind_Some). eauto.
  - intros (v & vs' & Hv & Hvs & ->). exists v. split; [done|]. rewrite bind_Some. eauto.
Qed.

#[export] Instance list_laws : CopierLaws K (list X) (list V).
Proof.
  split.
  - intros h h' xs. induction xs as [|x xs IH]; [done|]. intros [vs Hd] Hf.
    apply denotes_cons in Hd as (v & vs' & Hx & Hxs & ->).
    destruct (denotes_frame h h' x) as [E1 E2]; [done|intros; apply Hf; cbn; set_solver|].
    destruct IH as [E3 E4]; [done|intros; apply Hf; cbn in *; set_solver|].
    cbn in *. by rewrite E1, E2, E3, E4.
  - intros h xs. induction xs as [|x xs IH]; cbn [cells list_copier]; [set_solver|]. intros [vs Hd].
    apply denotes_cons in Hd as (v & vs' & Hx & Hxs & ->).
    assert (Hc := cells_dom h x (ex_intro _ v Hx)). assert (Hcs := IH (ex_intro _ vs' Hxs)). cbn in *. set_solver.
  - intros h xs vs Hd.
    assert (Hlater : ∀ h1, h ⊆ h1 → h1 ⊆ (copy h1 xs).1 ∧ copied h (copy h1 xs).1 (copy h1 xs).2 vs);
      [|by destruct (Hlater h) as [? [? ?]]].
    revert vs Hd. induction xs as [|x xs IH]; intros vs Hd h1 Hh.
    { injection Hd as <-. cbn. split; [done|]. split; [done|]. cbn. set_solver. }
    apply denotes_cons in Hd as (v & vs' & Hx & Hxs & ->). cbn [copy list_copier copy_list].
    destruct (copy h1 x) as [h2 y] eqn:E. destruct (copy_later _ _ _ _ _ _ Hx Hh E) as [Hh2 Hy].
    destruct (IH vs' Hxs h2) as [Hh3 [Hys Hcys]]; [by etrans|]. cbn [copy list_copier] in *.
    destruct (copy_list h2 xs) as [h3 ys]. cbn in *. destruct (copied_grows _ _ _ _ _ Hy Hh3) as [Hy3 Hcy3].
    split; [by etrans|]. split; [apply denotes_cons; eauto|]. cbn. set_solver.
Qed.

Context `{Stored K (list X)}.

Definition window (a : list X) (s : slice) : list X := take s.(sl_len) (drop s.(sl_off) a).

(** The elements of a slice; a window is inside its array. *)
Definition elements (h : heap) (r : slice_ref X) : option (list X) :=
  match r with
  | SliceRef None => Some []
  | SliceRef (Some s) =>
      a ← h !! s.(sl_array) ≫= unstored;
      if decide (s.(sl_off) + s.(sl_len) ≤ length a)%nat then Some (window a s) else None
  end.

Definition copy_slice (h : heap) (r : slice_ref X) : heap * slice_ref X :=
  match r with
  | SliceRef None => (h, r)
  | SliceRef (Some _) =>
      match elements h r with
      | Some xs =>
          let '(h, ys) := copy_list h xs in
          let l := new_loc h in
          (<[l := stored ys]> h, SliceRef (Some (mk_slice l 0 (length ys))))
      | None => (h, r)
      end
  end.

Definition array_cell (r : slice_ref X) : gset loc :=
  match r with SliceRef None => ∅ | SliceRef (Some s) => {[s.(sl_array)]} end.

#[export] Instance slice_copier : Copier K (slice_ref X) (list V) := {|
  denotes h r := elements h r ≫= denotes h;
  cells h r := array_cell r ∪ cells h (default [] (elements h r));
  copy := copy_slice;
|}.

Lemma elements_frame h h' r : (∀ l, l ∈ array_cell r → h' !! l = h !! l) → elements h' r = elements h r.
Proof. destruct r as [[s|]]; cbn; [|done]. intros Hf. by rewrite Hf by set_solver. Qed.

Lemma elements_dom h r xs : elements h r = Some xs → array_cell r ⊆ dom h.
Proof.
  destruct r as [[s|]]; cbn; [|set_solver]. intros (a & (c & Hc & _)%bind_Some & _)%bind_Some.
  apply singleton_subseteq_l, elem_of_dom. eauto.
Qed.

Lemma elements_new h xs l :
  h !! l = Some (stored xs) → elements h (SliceRef (Some (mk_slice l 0 (length xs)))) = Some xs.
Proof.
  intros Hl. cbn. rewrite Hl. cbn. rewrite unstored_stored. cbn. rewrite decide_True by done.
  unfold window. cbn. by rewrite take_ge.
Qed.

#[export] Instance slice_laws : CopierLaws K (slice_ref X) (list V).
Proof.
  split.
  - intros h h' r [vs Hd] Hf. cbn in *. apply bind_Some in Hd as (xs & Hxs & Hvs). rewrite Hxs in *. cbn in *.
    rewrite (elements_frame h h' r), Hxs by set_solver. cbn.
    destruct (denotes_frame h h' xs) as [E1 E2]; [by eexists|intros; apply Hf; cbn in *; set_solver|].
    cbn in *. by rewrite E1, E2.
  - intros h r [vs Hd]. cbn in *. apply bind_Some in Hd as (xs & Hxs & Hvs). rewrite Hxs. cbn.
    assert (Ha := elements_dom _ _ _ Hxs). assert (Hc := cells_dom h xs (ex_intro _ vs Hvs)). cbn in Hc. set_solver.
  - intros h r vs Hd. cbn [copy denotes cells slice_copier] in *. apply bind_Some in Hd as (xs & Hxs & Hvs).
    unfold copy_slice. destruct r as [[s|]]; [|injection Hxs as <-; injection Hvs as <-; cbn; set_solver].
    rewrite Hxs. destruct (copy h xs) as [h1 ys] eqn:E. pose proof E as E'. cbn [copy list_copier] in E'.
    rewrite E'. cbn [fst snd].
    destruct (copy_later h h h1 xs ys vs Hvs (reflexivity h) E) as [Hh Hys].
    destruct (copied_grows _ _ _ _ _ Hys (alloc_grows h1 (stored ys))) as [Hd2 Hc2].
    rewrite (elements_new _ ys) by apply lookup_insert_eq. cbn [mbind option_bind default array_cell sl_array].
    split_and!; [etrans; [done|apply alloc_grows]|done|].
    pose proof (new_loc_fresh h1) as Hn%not_elem_of_dom. apply subseteq_dom in Hh. set_solver.
Qed.
End slices.

(** *** Pointers: [if in == nil { return nil }; out := new(X); in.DeepCopyInto(out); return out] *)

Section pointers.
Context `{CopierLaws K X V} `{Stored K X}.
Implicit Types x : X.

Definition DeepCopy (h : heap) (p : ptr X) : heap * ptr X :=
  match p with
  | Ptr None => (h, Ptr None)
  | Ptr (Some l) =>
      match (h !! l ≫= unstored : option X) with
      | Some x =>
          let '(h, out) := copy h x in
          let l' := new_loc h in
          (<[l' := stored out]> h, Ptr (Some l'))
      | None => (h, p)
      end
  end.

(** [if c := in.DeepCopy(); c != nil { return c }; return nil]: a nil interface, and
    not a nil pointer in an interface, for nil. *)
Definition DeepCopyObject (h : heap) (p : ptr X) : heap * option loc :=
  let '(h, c) := DeepCopy h p in
  match c with Ptr (Some l) => (h, Some l) | Ptr None => (h, None) end.

#[export] Instance ptr_copier : Copier K (ptr X) (option V) := {|
  denotes h p :=
    match p with
    | Ptr None => Some None
    | Ptr (Some l) => Some <$> ((h !! l ≫= unstored : option X) ≫= denotes h)
    end;
  cells h p :=
    match p with
    | Ptr None => ∅
    | Ptr (Some l) => {[l]} ∪ match (h !! l ≫= unstored : option X) with Some x => cells h x | None => ∅ end
    end;
  copy := DeepCopy;
|}.

Lemma ptr_denotes h l v :
  denotes h (Ptr (Some l) : ptr X) = Some (Some v) ↔
  ∃ c (x : X), h !! l = Some c ∧ unstored c = Some x ∧ denotes h x = Some v.
Proof.
  cbn. rewrite fmap_Some. split.
  - intros (v' & (x & (c & Hc & Hx)%bind_Some & Hv)%bind_Some & [= ->]). eauto.
  - intros (c & x & Hc & Hx & Hv). exists v. split; [|done]. rewrite Hc. cbn. by rewrite Hx.
Qed.

Lemma ptr_not_nil h l : denotes h (Ptr (Some l) : ptr X) ≠ Some None.
Proof. cbn. intros (v & _ & E)%fmap_Some. done. Qed.

#[export] Instance ptr_laws : CopierLaws K (ptr X) (option V).
Proof.
  split.
  - intros h h' [[l|]]; [|done]. intros [[v|] Hd] Hf; [|by apply ptr_not_nil in Hd].
    apply ptr_denotes in Hd as (c & x & Hc & Hx & Hv). cbn in *. rewrite (Hf l) by set_solver.
    rewrite Hc in *. cbn in *. rewrite Hx in *.
    destruct (denotes_frame h h' x) as [E1 E2]; [by eexists|intros; apply Hf; set_solver|]. cbn. by rewrite E1, E2.
  - intros h [[l|]]; [|cbn; set_solver]. intros [[v|] Hd]; [|by apply ptr_not_nil in Hd].
    apply ptr_denotes in Hd as (c & x & Hc & Hx & Hv). cbn. rewrite Hc. cbn. rewrite Hx.
    assert (Hl : l ∈ dom h) by (apply elem_of_dom; eauto). assert (Hd := cells_dom h x (ex_intro _ v Hv)). set_solver.
  - intros h [[l|]] [v|] Hd; [|by apply ptr_not_nil in Hd|done|cbn; set_solver].
    apply ptr_denotes in Hd as (c & x & Hc & Hx & Hv). cbn [copy ptr_copier DeepCopy].
    rewrite Hc. cbn [mbind option_bind]. rewrite Hx. destruct (copy h x) as [h1 y] eqn:E. cbn [fst snd].
    destruct (copy_later h h h1 x y v Hv (reflexivity h) E) as [Hh Hy].
    destruct (copied_grows _ _ _ _ _ Hy (alloc_grows h1 (stored y))) as [Hd2 Hc2].
    split; [etrans; [done|apply alloc_grows]|]. split.
    + apply ptr_denotes. exists (stored y), y. split_and!; [apply lookup_insert_eq|apply unstored_stored|done].
    + cbn [cells ptr_copier]. rewrite lookup_insert_eq. cbn [mbind option_bind]. rewrite unstored_stored.
      pose proof (new_loc_fresh h1) as Hn%not_elem_of_dom. apply subseteq_dom in Hh. set_solver.
Qed.
End pointers.
(** *** Structs: the fields one after the other *)

Section pairs.
Context `{CopierLaws K X V} `{CopierLaws K Y W}.
Implicit Types (x : X) (y : Y).

#[export] Instance pair_copier : Copier K (X * Y) (V * W) := {|
  denotes h p := v ← denotes h p.1; w ← denotes h p.2; Some (v, w);
  cells h p := cells h p.1 ∪ cells h p.2;
  copy h p := let '(h, x) := copy h p.1 in let '(h, y) := copy h p.2 in (h, (x, y));
|}.

Lemma pair_denotes h x y v w :
  denotes h (x, y) = Some (v, w) ↔ denotes h x = Some v ∧ denotes h y = Some w.
Proof.
  cbn. split.
  - intros (v' & Hv & (w' & Hw & [= -> ->])%bind_Some)%bind_Some. done.
  - intros [Hv Hw]. rewrite Hv. cbn. by rewrite Hw.
Qed.

#[export] Instance pair_laws : CopierLaws K (X * Y) (V * W).
Proof.
  split.
  - intros h h' [x y] [[v w] [Hx Hy]%pair_denotes] Hf. cbn in *.
    destruct (denotes_frame h h' x) as [E1 E2]; [by eexists|intros; apply Hf; set_solver|].
    destruct (denotes_frame h h' y) as [E3 E4]; [by eexists|intros; apply Hf; set_solver|].
    by rewrite E1, E2, E3, E4.
  - intros h [x y] [[v w] [Hx Hy]%pair_denotes]. cbn.
    apply union_least; apply cells_dom; by eexists.
  - intros h [x y] [v w] [Hx Hy]%pair_denotes. cbn [copy pair_copier fst snd].
    destruct (copy h x) as [h1 x'] eqn:E1. destruct (copy h1 y) as [h2 y'] eqn:E2.
    destruct (copy_later h h h1 x x' v Hx (reflexivity h) E1) as [Hh1 Hx'].
    destruct (copy_later h h1 h2 y y' w Hy Hh1 E2) as [Hh2 [Hy' Hcy]].
    destruct (copied_grows _ _ _ _ _ Hx' Hh2) as [Hx'' Hcx]. cbn [fst snd].
    split_and!; [by etrans|by apply pair_denotes|cbn; set_solver].
Qed.
End pairs.

(** A struct [R] by its fields with references, [fields r] of type [P]: [rebuild r p]
    is [r] with those of [p], and [value r v] the value of [r] when [v] is that of its
    fields. *)
Lemma struct_laws {R V} `{CopierLaws K P PV} (fields : R → P) (rebuild : R → P → R) (value : R → PV → V)
    (copy_struct : heap → R → heap * R) :
  (∀ r p, fields (rebuild r p) = p) → (∀ r p v, value (rebuild r p) v = value r v) →
  (∀ h r, copy_struct h r = let '(h, p) := copy h (fields r) in (h, rebuild r p)) →
  @CopierLaws K R V {| denotes h r := value r <$> denotes h (fields r); cells h r := cells h (fields r);
                       copy := copy_struct |}.
Proof.
  intros Hf Hv Hc. split; cbn.
  - intros h h' r Hd%fmap_is_Some Hs. destruct (denotes_frame h h' (fields r) Hd Hs) as [-> ->]. done.
  - intros h r Hd%fmap_is_Some. by apply cells_dom.
  - intros h r v (pv & Hd & ->)%fmap_Some. rewrite Hc. destruct (copy_spec _ _ _ Hd) as (Hg & Hd' & Hn).
    destruct (copy h (fields r)) as [h' p]. cbn in *. rewrite Hf, Hd'. cbn. by rewrite Hv.
Qed.
End generic.

(** ** The types of the package *)

Section cells.
Context {M C T L O : Type}.
Notation K := (cell M C T L O).

#[export] Instance stored_map : Stored K (gmap string string) :=
  {| stored := CMap; unstored c := match c with CMap m => Some m | _ => None end; unstored_stored _ := eq_refl |}.
#[export] Instance stored_name : Stored K string :=
  {| stored := CName; unstored c := match c with CName m => Some m | _ => None end; unstored_stored _ := eq_refl |}.
#[export] Instance stored_strings : Stored K (list string) :=
  {| stored := CStrings; unstored c := match c with CStrings l => Some l | _ => None end; unstored_stored _ := eq_refl |}.
#[export] Instance stored_conditions : Stored K (list C) :=
  {| stored := CConditions; unstored c := match c with CConditions l => Some l | _ => None end; unstored_stored _ := eq_refl |}.
#[export] Instance stored_tolerations : Stored K (list T) :=
  {| stored := CTolerations; unstored c := match c with CTolerations l => Some l | _ => None end; unstored_stored _ := eq_refl |}.
#[export] Instance stored_sandboxes : Stored K (list (sandbox_struct M C)) :=
  {| stored := CSandboxes; unstored c := match c with CSandboxes l => Some l | _ => None end; unstored_stored _ := eq_refl |}.
#[export] Instance stored_classes : Stored K (list (class_struct M T)) :=
  {| stored := CClasses; unstored c := match c with CClasses l => Some l | _ => None end; unstored_stored _ := eq_refl |}.
#[export] Instance stored_workload : Stored K WorkloadReference :=
  {| stored := CWorkload; unstored c := match c with CWorkload x => Some x | _ => None end; unstored_stored _ := eq_refl |}.
#[export] Instance stored_spec : Stored K PodSandboxSpec :=
  {| stored := CSpec; unstored c := match c with CSpec x => Some x | _ => None end; unstored_stored _ := eq_refl |}.
#[export] Instance stored_status : Stored K (status_struct C) :=
  {| stored := CStatus; unstored c := match c with CStatus x => Some x | _ => None end; unstored_stored _ := eq_refl |}.
#[export] Instance stored_sandbox : Stored K (sandbox_struct M C) :=
  {| stored := CSandbox; unstored c := match c with CSandbox x => Some x | _ => None end; unstored_stored _ := eq_refl |}.
#[export] Instance stored_sandbox_list : Stored K (list_struct L (sandbox_struct M C)) :=
  {| stored := CSandboxList; unstored c := match c with CSandboxList x => Some x | _ => None end; unstored_stored _ := eq_refl |}.
#[export] Instance stored_class_spec : Stored K (class_spec_struct T) :=
  {| stored := CClassSpec; unstored c := match c with CClassSpec x => Some x | _ => None end; unstored_stored _ := eq_refl |}.
#[export] Instance stored_class : Stored K (class_struct M T) :=
  {| stored := CClass; unstored c := match c with CClass x => Some x | _ => None end; unstored_stored _ := eq_refl |}.
#[export] Instance stored_class_list : Stored K (list_struct L (class_struct M T)) :=
  {| stored := CClassList; unstored c := match c with CClassList x => Some x | _ => None end; unstored_stored _ := eq_refl |}.
End cells.

Section structs.
Context {M C T L O LV : Type}.
Notation K := (cell M C T L O).
Notation heap := (gmap loc K).
Implicit Types h : heap.

Context `{CopierLaws K M ObjectMeta} `{CopierLaws K C Condition}.
Context `{CopierLaws K T Toleration} `{CopierLaws K L LV}.

(** Strings, and the structs without references. *)
#[export] Instance string_copier : Copier K string string := flat_copier string.
#[export] Instance string_laws : CopierLaws K string string := flat_laws string.

Definition WorkloadReference_DeepCopyInto (h : heap) (w : WorkloadReference) : heap * WorkloadReference := (h, w).

#[export] Instance workload_copier : Copier K WorkloadReference WorkloadReference :=
  {| denotes _ w := Some w; cells _ _ := ∅; copy := WorkloadReference_DeepCopyInto |}.
#[export] Instance workload_laws : CopierLaws K WorkloadReference WorkloadReference := flat_laws WorkloadReference.

Definition PodSandboxSpec_DeepCopyInto (h : heap) (s : PodSandboxSpec) : heap * PodSandboxSpec := (h, s).

#[export] Instance spec_copier : Copier K PodSandboxSpec PodSandboxSpec :=
  {| denotes _ s := Some s; cells _ _ := ∅; copy := PodSandboxSpec_DeepCopyInto |}.
#[export] Instance spec_laws : CopierLaws K PodSandboxSpec PodSandboxSpec := flat_laws PodSandboxSpec.

(** *** PodSandboxStatus *)

Definition PodSandboxStatus_DeepCopyInto (h : heap) (s : status_struct C) : heap * status_struct C :=
  let '(h, RunnerRef) := copy h s.(ss_RunnerRef) in
  let '(h, IPs) := copy h s.(ss_IPs) in
  let '(h, Conditions) := copy h s.(ss_Conditions) in
  (h, mk_status s.(ss_ObservedGeneration) RunnerRef s.(ss_NodeName) IPs Conditions).

Definition status_fields (s : status_struct C) : name_ref * (slice_ref string * slice_ref C) :=
  (s.(ss_RunnerRef), (s.(ss_IPs), s.(ss_Conditions))).

Definition status_value (s : status_struct C) (v : option string * (list string * list Condition)) : PodSandboxStatus :=
  mk_PodSandboxStatus s.(ss_ObservedGeneration) v.1 s.(ss_NodeName) v.2.1 v.2.2.

#[export] Instance status_copier : Copier K (status_struct C) PodSandboxStatus := {|
  denotes h s := status_value s <$> denotes h (status_fields s);
  cells h s := cells h (status_fields s);
  copy := PodSandboxStatus_DeepCopyInto;
|}.

#[export] Instance status_laws : CopierLaws K (status_struct C) PodSandboxStatus.
Proof.
  apply (struct_laws status_fields
    (λ s p, mk_status s.(ss_ObservedGeneration) p.1 s.(ss_NodeName) p.2.1 p.2.2)); [by intros ? [? [? ?]]|done|].
  intros h s. unfold PodSandboxStatus_DeepCopyInto, status_fields. cbn. by repeat case_match.
Qed.

(** *** PodSandbox *)

Definition PodSandbox_DeepCopyInto (h : heap) (s : sandbox_struct M C) : heap * sandbox_struct M C :=
  let '(h, ObjectMeta) := copy h s.(bs_ObjectMeta) in
  let '(h, Status) := copy h s.(bs_Status) in
  (h, mk_sandbox s.(bs_TypeMeta) ObjectMeta s.(bs_Spec) Status).

Definition sandbox_fields (s : sandbox_struct M C) : M * status_struct C := (s.(bs_ObjectMeta), s.(bs_Status)).

Definition sandbox_value (s : sandbox_struct M C) (v : ObjectMeta * PodSandboxStatus) : TypeMeta * PodSandbox :=
  (s.(bs_TypeMeta), mk_PodSandbox v.1 s.(bs_Spec) v.2).

#[export] Instance sandbox_copier : Copier K (sandbox_struct M C) (TypeMeta * PodSandbox) := {|
  denotes h s := sandbox_value s <$> denotes h (sandbox_fields s);
  cells h s := cells h (sandbox_fields s);
  copy := PodSandbox_DeepCopyInto;
|}.

#[export] Instance sandbox_laws : CopierLaws K (sandbox_struct M C) (TypeMeta * PodSandbox).
Proof.
  apply (struct_laws sandbox_fields (λ s p, mk_sandbox s.(bs_TypeMeta) p.1 s.(bs_Spec) p.2)); [by intros ? []|done|].
  intros h s. unfold PodSandbox_DeepCopyInto, sandbox_fields. cbn. by repeat case_match.
Qed.

(** *** PodSandboxClassSpec and PodSandboxClass *)

Definition PodSandboxClassSpec_DeepCopyInto (h : heap) (s : class_spec_struct T) : heap * class_spec_struct T :=
  let '(h, Annotations) := copy h s.(cs_Annotations) in
  let '(h, Labels) := copy h s.(cs_Labels) in
  let '(h, NodeSelector) := copy h s.(cs_NodeSelector) in
  let '(h, Tolerations) := copy h s.(cs_Tolerations) in
  (h, mk_class_spec s.(cs_RunnerImage) s.(cs_PodVMImage) s.(cs_NetworkMTU) Annotations Labels NodeSelector
        Tolerations s.(cs_RuntimeAssetsDir) s.(cs_MemoryOverheadMiB)).

Definition class_spec_fields (s : class_spec_struct T) : map_ref * (map_ref * (map_ref * slice_ref T)) :=
  (s.(cs_Annotations), (s.(cs_Labels), (s.(cs_NodeSelector), s.(cs_Tolerations)))).

Definition class_spec_value (s : class_spec_struct T)
    (v : gmap string string * (gmap string string * (gmap string string * list Toleration))) : PodSandboxClassSpec :=
  mk_PodSandboxClassSpec s.(cs_RunnerImage) s.(cs_PodVMImage) s.(cs_NetworkMTU) v.1 v.2.1 v.2.2.1 v.2.2.2
    s.(cs_RuntimeAssetsDir) s.(cs_MemoryOverheadMiB).

#[export] Instance class_spec_copier : Copier K (class_spec_struct T) PodSandboxClassSpec := {|
  denotes h s := class_spec_value s <$> denotes h (class_spec_fields s);
  cells h s := cells h (class_spec_fields s);
  copy := PodSandboxClassSpec_DeepCopyInto;
|}.

#[export] Instance class_spec_laws : CopierLaws K (class_spec_struct T) PodSandboxClassSpec.
Proof.
  apply (struct_laws class_spec_fields
    (λ s p, mk_class_spec s.(cs_RunnerImage) s.(cs_PodVMImage) s.(cs_NetworkMTU) p.1 p.2.1 p.2.2.1 p.2.2.2
              s.(cs_RuntimeAssetsDir) s.(cs_MemoryOverheadMiB))); [by intros ? [? [? [? ?]]]|done|].
  intros h s. unfold PodSandboxClassSpec_DeepCopyInto, class_spec_fields. cbn. by repeat case_match.
Qed.

Definition PodSandboxClass_DeepCopyInto (h : heap) (s : class_struct M T) : heap * class_struct M T :=
  let '(h, ObjectMeta) := copy h s.(ks_ObjectMeta) in
  let '(h, Spec) := copy h s.(ks_Spec) in
  (h, mk_class s.(ks_TypeMeta) ObjectMeta Spec).

Definition class_fields (s : class_struct M T) : M * class_spec_struct T := (s.(ks_ObjectMeta), s.(ks_Spec)).

Definition class_value (s : class_struct M T) (v : ObjectMeta * PodSandboxClassSpec) : TypeMeta * PodSandboxClass :=
  (s.(ks_TypeMeta), mk_PodSandboxClass v.1 v.2).

#[export] Instance class_copier : Copier K (class_struct M T) (TypeMeta * PodSandboxClass) := {|
  denotes h s := class_value s <$> denotes h (class_fields s);
  cells h s := cells h (class_fields s);
  copy := PodSandboxClass_DeepCopyInto;
|}.

#[export] Instance class_laws : CopierLaws K (class_struct M T) (TypeMeta * PodSandboxClass).
Proof.
  apply (struct_laws class_fields (λ s p, mk_class s.(ks_TypeMeta) p.1 p.2)); [by intros ? []|done|].
  intros h s. unfold PodSandboxClass_DeepCopyInto, class_fields. cbn. by repeat case_match.
Qed.

(** *** PodSandboxList and PodSandboxClassList *)

Section lists.
Context `{CopierLaws K X V} `{!Stored K (list X)}.

Definition List_DeepCopyInto (h : heap) (s : list_struct L X) : heap * list_struct L X :=
  let '(h, ListMeta) := copy h s.(li_ListMeta) in
  let '(h, Items) := copy h s.(li_Items) in
  (h, mk_list s.(li_TypeMeta) ListMeta Items).

Definition list_fields (s : list_struct L X) : L * slice_ref X := (s.(li_ListMeta), s.(li_Items)).

#[export] Instance items_copier : Copier K (list_struct L X) (TypeMeta * (LV * list V)) := {|
  denotes h s := (λ v, (s.(li_TypeMeta), v)) <$> denotes h (list_fields s);
  cells h s := cells h (list_fields s);
  copy := List_DeepCopyInto;
|}.

#[export] Instance items_laws : CopierLaws K (list_struct L X) (TypeMeta * (LV * list V)).
Proof.
  apply (struct_laws list_fields (λ s p, mk_list s.(li_TypeMeta) p.1 p.2)); [by intros ? []|done|].
  intros h s. unfold List_DeepCopyInto, list_fields. cbn. by repeat case_match.
Qed.
End lists.

Definition PodSandboxList_DeepCopyInto (h : heap) (s : list_struct L (sandbox_struct M C)) :=
  List_DeepCopyInto h s.
Definition PodSandboxClassList_DeepCopyInto (h : heap) (s : list_struct L (class_struct M T)) :=
  List_DeepCopyInto h s.

(** *** [DeepCopy] and [DeepCopyObject] of each type *)

Definition WorkloadReference_DeepCopy (h : heap) (p : ptr WorkloadReference) := DeepCopy h p.
Definition PodSandboxSpec_DeepCopy (h : heap) (p : ptr PodSandboxSpec) := DeepCopy h p.
Definition PodSandboxStatus_DeepCopy (h : heap) (p : ptr (status_struct C)) := DeepCopy h p.
Definition PodSandbox_DeepCopy (h : heap) (p : ptr (sandbox_struct M C)) := DeepCopy h p.
Definition PodSandboxList_DeepCopy (h : heap) (p : ptr (list_struct L (sandbox_struct M C))) := DeepCopy h p.
Definition PodSandboxClassSpec_DeepCopy (h : heap) (p : ptr (class_spec_struct T)) := DeepCopy h p.
Definition PodSandboxClass_DeepCopy (h : heap) (p : ptr (class_struct M T)) := DeepCopy h p.
Definition PodSandboxClassList_DeepCopy (h : heap) (p : ptr (list_struct L (class_struct M T))) := DeepCopy h p.

Definition PodSandbox_DeepCopyObject (h : heap) (p : ptr (sandbox_struct M C)) := DeepCopyObject h p.
Definition PodSandboxList_DeepCopyObject (h : heap) (p : ptr (list_struct L (sandbox_struct M C))) := DeepCopyObject h p.
Definition PodSandboxClass_DeepCopyObject (h : heap) (p : ptr (class_struct M T)) := DeepCopyObject h p.
Definition PodSandboxClassList_DeepCopyObject (h : heap) (p : ptr (list_struct L (class_struct M T))) := DeepCopyObject h p.

(** A [DeepCopy] method: nothing is overwritten, the copy has the value of the original
    (nil for nil), and shares no cell with anything that was there. *)
Definition deep_copy `{Copier K X V} (method : heap → X → heap * X) : Prop :=
  ∀ h p v, denotes h p = Some v →
    h ⊆ (method h p).1 ∧ denotes (method h p).1 (method h p).2 = Some v
    ∧ cells (method h p).1 (method h p).2 ## dom h.

(** A [DeepCopyObject] method: the same, and nil is a nil interface. *)
Definition deep_copy_object `{Copier K X V} `{!Stored K X} (method : heap → ptr X → heap * option loc) : Prop :=
  deep_copy (λ h p, let '(h, l) := method h p in (h, Ptr l : ptr X)).

Lemma DeepCopyObject_copies `{CopierLaws K X V} `{!Stored K X} : deep_copy_object (DeepCopyObject (X:=X)).
Proof.
  intros h p v Hp. pose proof (copy_spec h p v Hp) as Hcopy. cbn [copy ptr_copier] in Hcopy.
  unfold DeepCopyObject. by destruct (DeepCopy h p) as [h' [[l|]]].
Qed.

(** C40. Deep copies are equal and share nothing: every [DeepCopy] and [DeepCopyObject]
    of the package gives the same value, in cells that were not in use, and changes
    no cell that was; nil gives nil. *)
Theorem deep_copies_share_nothing :
  (deep_copy WorkloadReference_DeepCopy ∧ deep_copy PodSandboxSpec_DeepCopy
  ∧ deep_copy PodSandboxStatus_DeepCopy ∧ deep_copy PodSandbox_DeepCopy ∧ deep_copy PodSandboxList_DeepCopy
  ∧ deep_copy PodSandboxClassSpec_DeepCopy ∧ deep_copy PodSandboxClass_DeepCopy
  ∧ deep_copy PodSandboxClassList_DeepCopy)
  ∧ deep_copy_object PodSandbox_DeepCopyObject ∧ deep_copy_object PodSandboxList_DeepCopyObject
  ∧ deep_copy_object PodSandboxClass_DeepCopyObject ∧ deep_copy_object PodSandboxClassList_DeepCopyObject.
Proof. split; split_and!; first [apply DeepCopyObject_copies|intros h p v Hp; exact (copy_spec h p v Hp)]. Qed.
End structs.

(** ** Structs of other packages without references *)
Module Flat.
Notation K := (cell ObjectMeta Condition Toleration unit unit).
Notation heap := (gmap loc K).

#[export] Instance meta_copier : Copier K ObjectMeta ObjectMeta := flat_copier ObjectMeta.
#[export] Instance meta_laws : CopierLaws K ObjectMeta ObjectMeta := flat_laws ObjectMeta.
#[export] Instance condition_copier : Copier K Condition Condition := flat_copier Condition.
#[export] Instance condition_laws : CopierLaws K Condition Condition := flat_laws Condition.
#[export] Instance toleration_copier : Copier K Toleration Toleration := flat_copier Toleration.
#[export] Instance toleration_laws : CopierLaws K Toleration Toleration := flat_laws Toleration.
#[export] Instance list_meta_copier : Copier K unit unit := flat_copier unit.
#[export] Instance list_meta_laws : CopierLaws K unit unit := flat_laws unit.

(** A status with one address in the second place of an array of two. *)
Definition status_heap : heap :=
  {[1%positive := CStatus (mk_status 1 (NameRef (Some 2%positive)) "node-1"
                    (SliceRef (Some (mk_slice 3%positive 1 1))) (SliceRef None));
    2%positive := CName "psb-1"; 3%positive := CStrings ["10.0.0.1"; "10.0.0.2"]]}.
End Flat.

Import Flat.

Lemma deep_copies_share_nothing_witness :
  let '(h, p) := PodSandboxStatus_DeepCopy status_heap (Ptr (Some 1%positive)) in
  denotes h p = Some (Some (mk_PodSandboxStatus 1 (Some "psb-1") "node-1" ["10.0.0.2"] []))
  ∧ cells h p ## {[1%positive; 2%positive; 3%positive]}.
Proof.
  pose proof (deep_copies_share_nothing (M:=ObjectMeta) (C:=Condition) (T:=Toleration) (L:=unit) (O:=unit) (LV:=unit))
    as ((_ & _ & Hstatus & _) & _).
  destruct (Hstatus status_heap (Ptr (Some 1%positive))
    (Some (mk_PodSandboxStatus 1 (Some "psb-1") "node-1" ["10.0.0.2"] [])) eq_refl) as (_ & Hd & Hc).
  destruct (PodSandboxStatus_DeepCopy status_heap (Ptr (Some 1%positive))) as [h p].
  split; [exact Hd|]. replace (dom status_heap) with ({[1; 2; 3]} : gset loc)%positive in Hc; [exact Hc|].
  apply (bool_decide_unpack _). vm_compute. exact I.
Defined.
