(* ===== verification/PatchBase.v ===== *)
(** * The base of a status patch

    The statements of the controller that take [base := sandbox.DeepCopy()], change
    the status in place and patch with the difference, on the heap of [DeepCopy]:
    they refine [with_ready] and [observed] of [Controller]. *)

From S2P Require Import Prelude Prog Api Kube Server ServerWorld Controller ControllerSafety DeepCopy.

Local Open Scope Z_scope.

Section structs.
Context {M C T L O : Type}.
Notation K := (cell M C T L O).
Notation heap := (gmap loc K).
Implicit Types h : heap.

Context `{CopierLaws K M ObjectMeta} `{CopierLaws K C Condition}.

(** ** The controller on the heap *)

(** [meta.SetStatusCondition] may overwrite an element in place or make a new array:
    it changes no cell but those of the slice. *)
Class ConditionSetter : Type := {
  set_condition : Z → heap → slice_ref C → Condition → heap * slice_ref C;
}.

Class ConditionSetterLaws `{StatusConditions, ConditionSetter} : Prop := {
  set_condition_spec : ∀ now h r l c, denotes h r = Some l →
    let '(h', r') := set_condition now h r c in
    denotes h' r' = Some (SetStatusCondition now l c)
    ∧ dom h ⊆ dom h' ∧ (∀ x, x ∈ dom h → x ∉ cells h r → h' !! x = h !! x)
    ∧ (∀ x, x ∈ cells h' r' → x ∈ cells h r ∨ x ∉ dom h);
}.

Section controller.
Context `{ConditionSetterLaws}.

Definition alloc (h : heap) (c : K) : heap * loc := (<[new_loc h := c]> h, new_loc h).

(** [apiMeta.SetStatusCondition(&sandbox.Status.Conditions, c)]. *)
Definition set_conditions (now : Z) (h : heap) (sandbox : loc) (c : Condition) : option heap :=
  match h !! sandbox with
  | Some (CSandbox s) =>
      let st := s.(bs_Status) in
      let '(h, conditions) := set_condition now h st.(ss_Conditions) c in
      Some (<[sandbox := CSandbox (mk_sandbox s.(bs_TypeMeta) s.(bs_ObjectMeta) s.(bs_Spec)
               (mk_status st.(ss_ObservedGeneration) st.(ss_RunnerRef) st.(ss_NodeName) st.(ss_IPs) conditions))]> h)
  | _ => None
  end.

(** The statements of [progressing], [fail] and [stopped] before the patch: [base], and
    the heap with the sandbox changed. *)
Definition report_status (now : Z) (h : heap) (sandbox : loc) (status : ConditionStatus) (reason message : string)
    : option (heap * ptr (sandbox_struct M C)) :=
  let '(h, base) := PodSandbox_DeepCopy h (Ptr (Some sandbox)) in
  match h !! sandbox with
  | Some (CSandbox s) =>
      meta ← denotes h s.(bs_ObjectMeta);
      let st := s.(bs_Status) in
      let h := <[sandbox := CSandbox (mk_sandbox s.(bs_TypeMeta) s.(bs_ObjectMeta) s.(bs_Spec)
                 (mk_status meta.(om_Generation) st.(ss_RunnerRef) st.(ss_NodeName) st.(ss_IPs) st.(ss_Conditions)))]> h in
      h ← set_conditions now h sandbox
            (mk_Condition ConditionReady status meta.(om_Generation) zero_time reason message);
      Some (h, base)
  | _ => None
  end.

(** The statements of [Reconcile] that mirror a live runner. *)
Definition report_runner (now : Z) (h : heap) (sandbox : loc) (runner : Pod)
    : option (heap * ptr (sandbox_struct M C)) :=
  let ready := runner_ready runner in
  let '(h, base) := PodSandbox_DeepCopy h (Ptr (Some sandbox)) in
  match h !! sandbox with
  | Some (CSandbox s) =>
      meta ← denotes h s.(bs_ObjectMeta);
      let '(h, ref) := alloc h (CName runner.(pod_meta).(om_Name)) in
      let '(h, IPs) :=
        if String.eqb runner.(pod_Status).(pst_PodIP) "" then (h, SliceRef None)
        else let '(h, a) := alloc h (CStrings [runner.(pod_Status).(pst_PodIP)]) in
             (h, SliceRef (Some (mk_slice a 0 1))) in
      let h := <[sandbox := CSandbox (mk_sandbox s.(bs_TypeMeta) s.(bs_ObjectMeta) s.(bs_Spec)
                 (mk_status meta.(om_Generation) (NameRef (Some ref)) runner.(pod_Spec).(pod_NodeName) IPs
                    s.(bs_Status).(ss_Conditions)))]> h in
      h ← set_conditions now h sandbox
            (mk_Condition ConditionReady (boolCondition ready) meta.(om_Generation) zero_time
               (if ready then "PodVMReady" else "PodVMStarting")
               (if ready then "The PodVM is ready" else "Waiting for the PodVM runtime"));
      Some (h, base)
  | _ => None
  end.

(** *** What is shared *)

(** A sandbox as the client decodes it: it does not reach its own cell, and the array
    of its conditions is its own. *)
Definition separate (h : heap) (sandbox : loc) (s : sandbox_struct M C) : Prop :=
  let others := cells h s.(bs_ObjectMeta) ∪ cells h s.(bs_Status).(ss_RunnerRef) ∪ cells h s.(bs_Status).(ss_IPs) in
  sandbox ∉ others ∪ cells h s.(bs_Status).(ss_Conditions) ∧ cells h s.(bs_Status).(ss_Conditions) ## others.

Lemma sandbox_denotes h (s : sandbox_struct M C) tm sb :
  denotes h s = Some (tm, sb) ↔
  ∃ meta (ref : option string) ips cs, denotes h s.(bs_ObjectMeta) = Some meta ∧ denotes h s.(bs_Status).(ss_RunnerRef) = Some ref
    ∧ denotes h s.(bs_Status).(ss_IPs) = Some ips ∧ denotes h s.(bs_Status).(ss_Conditions) = Some cs
    ∧ tm = s.(bs_TypeMeta)
    ∧ sb = mk_PodSandbox meta s.(bs_Spec)
             (mk_PodSandboxStatus s.(bs_Status).(ss_ObservedGeneration) ref s.(bs_Status).(ss_NodeName) ips cs).
Proof.
  change (denotes h s) with (sandbox_value s <$> denotes h (sandbox_fields s)). unfold sandbox_fields.
  rewrite fmap_Some. split.
  - intros ([meta st] & [Hm Hst]%pair_denotes & E). injection E as -> ->.
    change (denotes h s.(bs_Status)) with (status_value s.(bs_Status) <$> denotes h (status_fields s.(bs_Status))) in Hst.
    apply fmap_Some in Hst as ([ref [ips cs]] & [Hr [Hi Hc]%pair_denotes]%pair_denotes & ->).
    exists meta, ref, ips, cs. done.
  - intros (meta & ref & ips & cs & Hm & Hr & Hi & Hc & -> & ->).
    exists (meta, status_value s.(bs_Status) (ref, (ips, cs))). split; [|done]. apply pair_denotes. split; [done|].
    change (denotes h s.(bs_Status)) with (status_value s.(bs_Status) <$> denotes h (status_fields s.(bs_Status))).
    apply fmap_Some. exists (ref, (ips, cs)). split; [|done]. apply pair_denotes. split; [done|by apply pair_denotes].
Qed.

Lemma sandbox_cells h (s : sandbox_struct M C) :
  cells h s = cells h s.(bs_ObjectMeta) ∪ (cells h s.(bs_Status).(ss_RunnerRef)
                ∪ (cells h s.(bs_Status).(ss_IPs) ∪ cells h s.(bs_Status).(ss_Conditions))).
Proof. reflexivity. Qed.

(** A write to a cell that is not reached changes no value. *)
Lemma write_other `{CopierLaws K X V} h l c (x : X) v :
  denotes h x = Some v → l ∉ cells h x → denotes (<[l := c]> h) x = Some v ∧ cells (<[l := c]> h) x = cells h x.
Proof.
  intros Hx Hl. rewrite <- Hx. apply denotes_frame; [by eexists|].
  intros l' Hl'. apply lookup_insert_ne. set_solver.
Qed.

(** [SetStatusCondition] on the sandbox: the value, and what it leaves alone. *)
Lemma set_conditions_spec now h l s c meta (ref : option string) ips cs :
  h !! l = Some (CSandbox s) → separate h l s →
  denotes h s.(bs_ObjectMeta) = Some meta → denotes h s.(bs_Status).(ss_RunnerRef) = Some ref →
  denotes h s.(bs_Status).(ss_IPs) = Some ips → denotes h s.(bs_Status).(ss_Conditions) = Some cs →
  ∃ h', set_conditions now h l c = Some h'
    ∧ denotes h' (Ptr (Some l) : ptr (sandbox_struct M C))
      = Some (Some (s.(bs_TypeMeta), mk_PodSandbox meta s.(bs_Spec)
          (mk_PodSandboxStatus s.(bs_Status).(ss_ObservedGeneration) ref s.(bs_Status).(ss_NodeName) ips
             (SetStatusCondition now cs c))))
    ∧ (∀ x, x ∈ dom h → x ≠ l → x ∉ cells h s.(bs_Status).(ss_Conditions) → h' !! x = h !! x).
Proof.
  intros Hl [Hself Hdis] Hm Hr Hi Hc. unfold set_conditions. rewrite Hl.
  pose proof (set_condition_spec now h _ _ c Hc) as Hspec.
  destruct (set_condition now h (ss_Conditions (bs_Status s)) c) as [h1 r']. destruct Hspec as (Hd & Hdom & Hf & Hcells).
  eexists. split; [done|].
  assert (Hl' : l ∈ dom h) by (apply elem_of_dom; eauto).
  assert (Hkeep : ∀ X V (HX : Copier K X V), CopierLaws K X V → ∀ (x : X) v, denotes h x = Some v →
    cells h x ## cells h s.(bs_Status).(ss_Conditions) → l ∉ cells h x → ∀ c', denotes (<[l := c']> h1) x = Some v).
  { intros X V HX HL x v Hx Hdx Hlx c'. rewrite <- Hx. apply denotes_frame; [by eexists|]. intros y Hy.
    rewrite lookup_insert_ne by set_solver. apply Hf; [|set_solver]. apply (cells_dom h x); [by eexists|done]. }
  split.
  - apply ptr_denotes. eexists _, _. split_and!; [apply lookup_insert_eq|done|]. apply sandbox_denotes.
    eexists meta, ref, ips, _. cbn [bs_ObjectMeta bs_Status bs_TypeMeta bs_Spec ss_RunnerRef ss_IPs ss_Conditions
      ss_ObservedGeneration ss_NodeName].
    split_and!; [eapply Hkeep; [exact _|done|set_solver..]|eapply Hkeep; [exact _|done|set_solver..]
      |eapply Hkeep; [exact _|done|set_solver..]| |done|done].
    apply write_other; [done|]. intros [Hx|Hx]%Hcells; set_solver.
  - intros x Hx Hne Hnc. rewrite lookup_insert_ne by done. by apply Hf.
Qed.

(** [DeepCopy] of a sandbox in the heap. *)
Lemma base_made h l s v h1 base :
  h !! l = Some (CSandbox s) → denotes h s = Some v → PodSandbox_DeepCopy h (Ptr (Some l)) = (h1, base) →
  h ⊆ h1 ∧ copied h h1 base (Some v).
Proof.
  intros Hl Hs E. assert (Hp : denotes h (Ptr (Some l) : ptr (sandbox_struct M C)) = Some (Some v))
    by (apply ptr_denotes; eauto).
  exact (copy_later h h h1 _ base _ Hp (reflexivity h) E).
Qed.

(** What [base] denotes survives every change to the sandbox and its conditions. *)
Lemma base_kept h l s v h1 base h' :
  h !! l = Some (CSandbox s) → denotes h s = Some v →
  PodSandbox_DeepCopy h (Ptr (Some l)) = (h1, base) →
  (∀ x, x ∈ dom h1 → x ≠ l → x ∉ cells h s.(bs_Status).(ss_Conditions) → h' !! x = h1 !! x) →
  denotes h' base = Some (Some v).
Proof.
  intros Hl Hs E Hf. destruct (base_made _ _ _ _ _ _ Hl Hs E) as [_ [Hb Hc]]. rewrite <- Hb.
  apply denotes_frame; [by eexists|]. intros x Hx. pose proof (cells_dom h1 base (ex_intro _ _ Hb) x Hx) as Hdx.
  pose proof (cells_dom h s (ex_intro _ _ Hs)) as Hds. rewrite sandbox_cells in Hds.
  assert (l ∈ dom h) by (apply elem_of_dom; eauto). apply Hf; set_solver.
Qed.

(** The heap when the fields of the status but the conditions were assigned: [l] holds
    [s'], which differs from [s] in its status. *)
Lemma assigned_conditions now h l s sb tm h1 base h2 s' (ref : option string) ips c :
  h !! l = Some (CSandbox s) → denotes h s = Some (tm, sb) → separate h l s →
  PodSandbox_DeepCopy h (Ptr (Some l)) = (h1, base) → h1 ⊆ h2 →
  s'.(bs_TypeMeta) = s.(bs_TypeMeta) → s'.(bs_ObjectMeta) = s.(bs_ObjectMeta) → s'.(bs_Spec) = s.(bs_Spec) →
  s'.(bs_Status).(ss_Conditions) = s.(bs_Status).(ss_Conditions) →
  denotes h2 s'.(bs_Status).(ss_RunnerRef) = Some ref → denotes h2 s'.(bs_Status).(ss_IPs) = Some ips →
  l ∉ cells h2 s'.(bs_Status).(ss_RunnerRef) ∪ cells h2 s'.(bs_Status).(ss_IPs) →
  cells h s.(bs_Status).(ss_Conditions) ## cells h2 s'.(bs_Status).(ss_RunnerRef) ∪ cells h2 s'.(bs_Status).(ss_IPs) →
  ∃ h', set_conditions now (<[l := CSandbox s']> h2) l c = Some h'
    ∧ denotes h' base = Some (Some (tm, sb))
    ∧ denotes h' (Ptr (Some l) : ptr (sandbox_struct M C))
      = Some (Some (tm, mk_PodSandbox sb.(sb_meta) sb.(sb_Spec)
          (mk_PodSandboxStatus s'.(bs_Status).(ss_ObservedGeneration) ref s'.(bs_Status).(ss_NodeName) ips
             (SetStatusCondition now sb.(sb_Status).(st_Conditions) c))))
    ∧ (∀ x, x ∈ dom h → x ≠ l → x ∉ cells h s.(bs_Status).(ss_Conditions) → h' !! x = h !! x).
Proof.
  intros Hl Hs [Hself Hdis] E Hg Et Em Es Ec Hr Hi Hlo Hco.
  pose proof Hs as (meta & ref0 & ips0 & cs & Hm & _ & _ & Hc & -> & ->)%sandbox_denotes.
  destruct (base_made _ _ _ _ _ _ Hl Hs E) as [Hg1 _].
  assert (Hg2 : h ⊆ h2) by (by etrans).
  destruct (frame_grows _ _ _ _ Hm Hg2) as [Hm2 Cm]. destruct (frame_grows _ _ _ _ Hc Hg2) as [Hc2 Cc].
  set (h3 := <[l := CSandbox s']> h2).
  destruct (write_other h2 l (CSandbox s') _ _ Hm2) as [Hm3 Cm3]; [set_solver|].
  destruct (write_other h2 l (CSandbox s') _ _ Hc2) as [Hc3 Cc3]; [set_solver|].
  destruct (write_other h2 l (CSandbox s') _ _ Hr) as [Hr3 Cr3]; [set_solver|].
  destruct (write_other h2 l (CSandbox s') _ _ Hi) as [Hi3 Ci3]; [set_solver|].
  destruct (set_conditions_spec now h3 l s' c meta ref ips cs) as (h' & Hset & Hd & Hf);
    [apply lookup_insert_eq| |by rewrite Em|done|done|by rewrite Ec|].
  { unfold separate. subst h3. rewrite Em, Ec, Cm3, Cc3, Cr3, Ci3, Cm, Cc. split; set_solver. }
  assert (Hf' : ∀ x, x ∈ dom h1 → x ≠ l → x ∉ cells h s.(bs_Status).(ss_Conditions) → h' !! x = h1 !! x).
  { intros x Hx Hne Hnc. rewrite Hf; [|subst h3; apply subseteq_dom in Hg; set_solver|done|].
    - subst h3. rewrite lookup_insert_ne by done. apply elem_of_dom in Hx as [y Hy].
      rewrite Hy. by eapply lookup_weaken.
    - subst h3. by rewrite Ec, Cc3, Cc. }
  exists h'. split_and!; [done|by eapply base_kept|by rewrite Hd, Et, Es|].
  intros x Hx Hne Hnc. rewrite Hf'; [|apply subseteq_dom in Hg1; set_solver|done|done].
  apply elem_of_dom in Hx as [y Hy]. rewrite Hy. by eapply lookup_weaken.
Qed.

(** A cell that is not of the sandbox itself nor of its conditions is left alone. *)
Definition others_kept (h h' : heap) (l : loc) (s : sandbox_struct M C) : Prop :=
  ∀ x, x ∈ dom h → x ≠ l → x ∉ cells h s.(bs_Status).(ss_Conditions) → h' !! x = h !! x.

Lemma report_status_spec now h l s tm sb status reason message :
  h !! l = Some (CSandbox s) → denotes h s = Some (tm, sb) → separate h l s →
  ∃ h' base, report_status now h l status reason message = Some (h', base)
    ∧ denotes h' base = Some (Some (tm, sb))
    ∧ denotes h' (Ptr (Some l) : ptr (sandbox_struct M C))
      = Some (Some (tm, with_ready now sb status reason message sb.(sb_Status)))
    ∧ others_kept h h' l s.
Proof.
  intros Hl Hs Hsep. unfold report_status. destruct (PodSandbox_DeepCopy h (Ptr (Some l))) as [h1 base] eqn:E.
  pose proof Hs as (meta & ref & ips & cs & Hm & Hr & Hi & Hc & -> & ->)%sandbox_denotes.
  destruct (base_made _ _ _ _ _ _ Hl Hs E) as [Hg _].
  rewrite (lookup_weaken _ _ _ _ Hl Hg). destruct (frame_grows _ _ _ _ Hm Hg) as [-> _]. cbn [mbind option_bind].
  destruct (frame_grows _ _ _ _ Hr Hg) as [Hr1 Cr]. destruct (frame_grows _ _ _ _ Hi Hg) as [Hi1 Ci].
  destruct Hsep as [Hself Hdis].
  destruct (assigned_conditions now h l s _ _ h1 base h1
    (mk_sandbox s.(bs_TypeMeta) s.(bs_ObjectMeta) s.(bs_Spec)
       (mk_status meta.(om_Generation) s.(bs_Status).(ss_RunnerRef) s.(bs_Status).(ss_NodeName)
          s.(bs_Status).(ss_IPs) s.(bs_Status).(ss_Conditions))) ref ips
    (mk_Condition ConditionReady status meta.(om_Generation) zero_time reason message) Hl Hs) as (h' & Hset & Hb & Hd & Hf);
    cbn [bs_TypeMeta bs_ObjectMeta bs_Spec bs_Status ss_RunnerRef ss_IPs ss_Conditions]; [by split|done|done|done|done|done|done|done|done|rewrite Cr, Ci; clear -Hself; set_solver
      |rewrite Cr, Ci; clear -Hdis; set_solver|].
  exists h', base. rewrite Hset. by split_and!.
Qed.

(** The name and the addresses of the runner, allocated after [h1]. *)
Lemma runner_cells h1 name ip :
  let n := new_loc h1 in let h2 := <[n := CName name]> h1 in
  let '(h3, ips) :=
    if String.eqb ip "" then (h2, SliceRef None)
    else let '(h3, a) := alloc h2 (CStrings [ip]) in (h3, SliceRef (Some (mk_slice a 0 1))) in
  h1 ⊆ h3 ∧ denotes h3 (NameRef (Some n)) = Some (Some name)
  ∧ denotes h3 (ips : slice_ref string) = Some (if String.eqb ip "" then [] else [ip])
  ∧ (cells h3 (NameRef (Some n)) ∪ cells h3 (ips : slice_ref string)) ## dom h1.
Proof.
  intros n h2. pose proof (new_loc_fresh h1) as Hn. pose proof (proj2 (not_elem_of_dom h1 _) Hn) as Hnd.
  assert (Hn2 : h2 !! n = Some (CName name)) by apply lookup_insert_eq.
  destruct (String.eqb ip ""); cbn [alloc].
  - split_and!; [apply alloc_grows|cbn; by rewrite Hn2|done|]. cbn. subst n. clear -Hnd. set_solver.
  - assert (Ha : h2 !! new_loc h2 = None) by apply new_loc_fresh.
    assert (Hne : new_loc h2 ≠ n) by congruence.
    assert (Had : new_loc h2 ∉ dom h1).
    { apply not_elem_of_dom. rewrite <- (lookup_insert_ne h1 n _ (CName name)) by congruence. exact Ha. }
    split_and!; [etrans; apply alloc_grows|cbn; by rewrite lookup_insert_ne, Hn2|cbn; by rewrite lookup_insert_eq|].
    cbn. rewrite lookup_insert_eq. cbn. subst n. clear -Hnd Had. set_solver.
Qed.

Lemma report_runner_spec now h l s tm sb runner :
  h !! l = Some (CSandbox s) → denotes h s = Some (tm, sb) → separate h l s →
  ∃ h' base, report_runner now h l runner = Some (h', base)
    ∧ denotes h' base = Some (Some (tm, sb))
    ∧ denotes h' (Ptr (Some l) : ptr (sandbox_struct M C)) = Some (Some (tm, observed now sb runner))
    ∧ others_kept h h' l s.
Proof.
  intros Hl Hs Hsep. unfold report_runner. destruct (PodSandbox_DeepCopy h (Ptr (Some l))) as [h1 base] eqn:E.
  pose proof Hs as (meta & ref & ips0 & cs & Hm & Hr & Hi & Hc & -> & ->)%sandbox_denotes.
  destruct (base_made _ _ _ _ _ _ Hl Hs E) as [Hg _].
  rewrite (lookup_weaken _ _ _ _ Hl Hg). destruct (frame_grows _ _ _ _ Hm Hg) as [-> _]. cbn [mbind option_bind].
  unfold alloc at 1. pose proof (runner_cells h1 runner.(pod_meta).(om_Name) runner.(pod_Status).(pst_PodIP)) as Hcells.
  cbn zeta in Hcells. destruct (if String.eqb _ _ then _ else _) as [h3 ips] eqn:Eips in Hcells. rewrite Eips. clear Eips.
  destruct Hcells as (Hg3 & Href & Hips & Hnew).
  assert (Hld : l ∈ dom h1) by (apply elem_of_dom; exists (CSandbox s); by eapply lookup_weaken).
  assert (Hcd : cells h s.(bs_Status).(ss_Conditions) ⊆ dom h1).
  { etrans; [apply cells_dom; by eexists|by apply subseteq_dom]. }
  destruct (assigned_conditions now h l s _ _ h1 base h3
    (mk_sandbox s.(bs_TypeMeta) s.(bs_ObjectMeta) s.(bs_Spec)
       (mk_status meta.(om_Generation) (NameRef (Some (new_loc h1))) runner.(pod_Spec).(pod_NodeName)
          ips s.(bs_Status).(ss_Conditions))) (Some runner.(pod_meta).(om_Name))
    (if String.eqb runner.(pod_Status).(pst_PodIP) "" then [] else [runner.(pod_Status).(pst_PodIP)])
    (mk_Condition ConditionReady (boolCondition (runner_ready runner)) meta.(om_Generation) zero_time
               (if runner_ready runner then "PodVMReady" else "PodVMStarting")
               (if runner_ready runner then "The PodVM is ready" else "Waiting for the PodVM runtime")) Hl Hs)
    as (h' & Hset & Hb & Hd & Hf);
    cbn [bs_TypeMeta bs_ObjectMeta bs_Spec bs_Status ss_RunnerRef ss_IPs ss_Conditions];
    [done|done|done|done|done|done|done|exact Href|exact Hips|clear -Hnew Hld; set_solver|clear -Hnew Hcd; set_solver|].
  exists h', base. rewrite Hset. by split_and!.
Qed.

(** C19. The patch is the difference. With the sandbox in the heap, its conditions
    changed in place by [SetStatusCondition], the statements before each status patch
    leave in [base] the sandbox as it was read, and in [sandbox] exactly the sandbox
    that [with_ready] and [observed] give; no cell of another object is changed. *)
Theorem base_is_separate now h l s tm sb :
  h !! l = Some (CSandbox s) → denotes h s = Some (tm, sb) → separate h l s →
  (∀ status reason message, ∃ h' base, report_status now h l status reason message = Some (h', base)
    ∧ denotes h' base = Some (Some (tm, sb))
    ∧ denotes h' (Ptr (Some l) : ptr (sandbox_struct M C))
      = Some (Some (tm, with_ready now sb status reason message sb.(sb_Status)))
    ∧ others_kept h h' l s)
  ∧ (∀ runner, ∃ h' base, report_runner now h l runner = Some (h', base)
    ∧ denotes h' base = Some (Some (tm, sb))
    ∧ denotes h' (Ptr (Some l) : ptr (sandbox_struct M C)) = Some (Some (tm, observed now sb runner))
    ∧ others_kept h h' l s).
Proof. intros Hl Hs Hsep. split; intros; [by apply report_status_spec|by apply report_runner_spec]. Qed.
End controller.

End structs.

(** ** Witness

    Structs of other packages without references, and a [SetStatusCondition] that
    overwrites in place what it finds. *)
Module Setter.
Import Flat.

Lemma flat_elements (h : heap) (r : slice_ref Condition) l : denotes h r = Some l → elements h r = Some l.
Proof.
  cbn. intros (xs & -> & Hm)%bind_Some. f_equal. revert l Hm. induction xs as [|x xs IH]; intros l Hm.
  - by injection Hm.
  - cbn in Hm. apply bind_Some in Hm as (ys & Hm & [= <-]). f_equal. by apply IH.
Qed.

Lemma flat_denotes (h : heap) (r : slice_ref Condition) l : elements h r = Some l → denotes h r = Some l.
Proof.
  cbn. intros ->. cbn. induction l as [|x l IH]; [done|]. cbn in *. by rewrite IH.
Qed.

Definition overwrite_or_append (now : Z) (h : heap) (r : slice_ref Condition) (c : Condition)
    : heap * slice_ref Condition :=
  match elements h r with
  | Some l =>
      let l' := SetStatusCondition now l c in
      match r with
      | SliceRef (Some s) =>
          match h !! s.(sl_array) with
          | Some (CConditions a) =>
              if decide (length l' = length l)
              then (<[s.(sl_array) := CConditions (take s.(sl_off) a ++ l' ++ drop (s.(sl_off) + s.(sl_len)) a)]> h, r)
              else (<[new_loc h := CConditions l']> h, SliceRef (Some (mk_slice (new_loc h) 0 (length l'))))
          | _ => (h, r)
          end
      | SliceRef None => (<[new_loc h := CConditions l']> h, SliceRef (Some (mk_slice (new_loc h) 0 (length l'))))
      end
  | None => (h, r)
  end.

#[export] Instance setter : ConditionSetter (M:=ObjectMeta) (C:=Condition) (T:=Toleration) (L:=unit) (O:=unit) :=
  {| set_condition := overwrite_or_append |}.

Lemma flat_cells (h : heap) (r : slice_ref Condition) : cells h r = array_cell r.
Proof.
  cbn. assert (⋃ ((λ _ : Condition, (∅ : gset loc)) <$> default [] (elements h r)) = ∅) as E.
  { induction (default [] (elements h r)) as [|x l IH]; [done|]. cbn. rewrite IH. set_solver. }
  rewrite E. set_solver.
Qed.

(** A new array. *)
Lemma appended (h : heap) (r : slice_ref Condition) (l' : list Condition) :
  let h' := <[new_loc h := CConditions l']> h in
  let r' := SliceRef (Some (mk_slice (new_loc h) 0 (length l'))) : slice_ref Condition in
  denotes h' r' = Some l'
  ∧ dom h ⊆ dom h' ∧ (∀ x, x ∈ dom h → x ∉ cells h r → h' !! x = h !! x)
  ∧ (∀ x, x ∈ cells h' r' → x ∈ cells h r ∨ x ∉ dom h).
Proof.
  intros h' r'. pose proof (proj2 (not_elem_of_dom h _) (new_loc_fresh h)) as Hn. split_and!.
  - apply flat_denotes, elements_new, lookup_insert_eq.
  - subst h'. set_solver.
  - intros x Hx _. apply lookup_insert_ne. set_solver.
  - intros x. rewrite flat_cells. cbn. set_solver.
Qed.

(** The window of the array, overwritten. *)
Lemma overwritten (h : heap) (s : slice) (a l' : list Condition) :
  h !! s.(sl_array) = Some (CConditions a) → (s.(sl_off) + s.(sl_len) ≤ length a)%nat → length l' = s.(sl_len) →
  let h' := <[s.(sl_array) := CConditions (take s.(sl_off) a ++ l' ++ drop (s.(sl_off) + s.(sl_len)) a)]> h in
  let r := SliceRef (Some s) : slice_ref Condition in
  denotes h' r = Some l'
  ∧ dom h ⊆ dom h' ∧ (∀ x, x ∈ dom h → x ∉ cells h r → h' !! x = h !! x)
  ∧ (∀ x, x ∈ cells h' r → x ∈ cells h r ∨ x ∉ dom h).
Proof.
  intros Ha Hlen Hl' h' r. split_and!.
  - apply flat_denotes. cbn. subst h'. rewrite lookup_insert_eq. cbn.
    rewrite decide_True by (rewrite !length_app, length_take, length_drop; lia). f_equal. unfold window.
    rewrite drop_app_length' by (rewrite length_take; lia). by apply take_app_length'.
  - subst h'. set_solver.
  - intros x _ Hx. apply lookup_insert_ne. rewrite flat_cells in Hx. cbn in Hx. set_solver.
  - intros x. rewrite !flat_cells. by left.
Qed.

#[export] Instance setter_laws : ConditionSetterLaws (M:=ObjectMeta) (C:=Condition) (T:=Toleration) (L:=unit) (O:=unit).
Proof.
  split. intros now h r l c Hd. apply flat_elements in Hd as He. cbn [set_condition setter]. unfold overwrite_or_append.
  rewrite He. destruct r as [[s|]]; [|apply appended].
  cbn in He. apply bind_Some in He as (a & (k & Hk & Ha)%bind_Some & Hw). rewrite Hk.
  destruct k; try done. injection Ha as ->. destruct (decide (sl_off s + sl_len s ≤ length a)%nat) as [Hlen|]; [|done]. injection Hw as <-.
  assert (length (window a s) = s.(sl_len)) as Hwl by (unfold window; rewrite length_take, length_drop; lia).
  case_decide as Heq; [|apply appended]. apply overwritten; [done|done|by rewrite Heq].
Qed.

(** A sandbox with a Ready condition in the second place of an array of three. *)
Definition fixture_sandbox : sandbox_struct ObjectMeta Condition :=
  mk_sandbox (mk_TypeMeta "PodSandbox" "sandbox.caa.mnicloud.jp/v1alpha1") sandbox_fixture.(sb_meta)
    sandbox_fixture.(sb_Spec) (mk_status 1 (NameRef (Some 2%positive)) "node-1" (SliceRef None)
      (SliceRef (Some (mk_slice 3%positive 1 1)))).

Definition fixture_heap : heap :=
  {[1%positive := CSandbox fixture_sandbox; 2%positive := CName "psb-1";
    3%positive := CConditions [ready_condition; ready_condition; failed_condition]]}.

Definition fixture_value : PodSandbox :=
  mk_PodSandbox sandbox_fixture.(sb_meta) sandbox_fixture.(sb_Spec)
    (mk_PodSandboxStatus 1 (Some "psb-1") "node-1" [] [ready_condition]).

End Setter.

Import Flat Setter.

Lemma base_is_separate_witness :
  ∃ h' base, report_status 7 fixture_heap 1 ConditionFalse "RunnerFailed" "stopped" = Some (h', base)
    ∧ denotes h' base = Some (Some (fixture_sandbox.(bs_TypeMeta), fixture_value))
    ∧ denotes h' (Ptr (Some 1%positive) : ptr (sandbox_struct ObjectMeta Condition))
      = Some (Some (fixture_sandbox.(bs_TypeMeta),
          with_ready 7 fixture_value ConditionFalse "RunnerFailed" "stopped" fixture_value.(sb_Status)))
    ∧ others_kept fixture_heap h' 1 fixture_sandbox.
Proof.
  assert (Hl : fixture_heap !! 1%positive = Some (CSandbox fixture_sandbox)) by reflexivity.
  assert (Hs : denotes fixture_heap fixture_sandbox = Some (fixture_sandbox.(bs_TypeMeta), fixture_value)) by reflexivity.
  assert (Hsep : separate fixture_heap 1 fixture_sandbox).
  { split; apply (bool_decide_unpack _); vm_compute; exact I. }
  exact (proj1 (base_is_separate 7 fixture_heap 1 fixture_sandbox _ _ Hl Hs Hsep) ConditionFalse "RunnerFailed" "stopped").
Defined.
