(* ===== verification/Convergence.v ===== *)
(** * Convergence: the status follows the runner

    Reconciliations one after the other, against any store that keeps the laws of the
    API server ([ApiServerLaws] and [RunnerLaws] below), while the scheduler and the
    kubelet go on with the runner Pod between any two calls. Nothing else writes the
    objects of the sandbox meanwhile, no call fails of itself, and reads are up to
    date. The deletion of a Pod is graceful: a Pod whose deletion was asked for may
    stay for as long as it likes. *)

From S2P Require Import Prelude GoFmt GoStrings Prog Api Kube Server ServerWorld Controller ControllerSafety.

Local Open Scope Z_scope.

(** ** What the controller relies on

    [Get] of a class and of a Pod; [Create] and [Delete] of a Pod, which removes it or
    only marks it; a merge patch of the status. *)
Class RunnerLaws (S : Type) `{ApiServer S} : Prop := {
  runner_get_class : ∀ s n r s', api_step s (GetClass n) r s' →
    match r with
    | Ok o => api_classes s !! n = Some o
    | Err e => IsNotFound e = true → api_classes s !! n = None
    end;
  runner_get_pod : ∀ s k r s', api_step s (GetPod k) r s' →
    match r with
    | Ok o => api_pods s !! k = Some o
    | Err e => IsNotFound e = true → api_pods s !! k = None
    end;
  runner_create_pod : ∀ s x r s', api_step s (CreatePod x) r s' →
    match r with
    | Ok o => api_pods s !! pod_key x = None
              ∧ contents s' = (api_classes s, api_sandboxes s, api_secrets s, <[pod_key x := o]> (api_pods s))
    | Err e => contents s' = contents s ∧ (IsAlreadyExists e = true → is_Some (api_pods s !! pod_key x))
    end;
  runner_delete_pod : ∀ s k r s', api_step s (DeletePod k) r s' →
    match r with
    | Ok _ => ∃ p, api_pods s !! k = Some p ∧
        (contents s' = (api_classes s, api_sandboxes s, api_secrets s, delete k (api_pods s))
         ∨ ∃ p', contents s' = (api_classes s, api_sandboxes s, api_secrets s, <[k := p']> (api_pods s))
             ∧ p'.(pod_meta).(om_UID) = p.(pod_meta).(om_UID)
             ∧ p'.(pod_meta).(om_Annotations) = p.(pod_meta).(om_Annotations)
             ∧ p'.(pod_meta).(om_DeletionTimestamp) ≠ None)
    | Err e => contents s' = contents s
    end;
  runner_patch_status : ∀ s base new r s', api_step s (PatchSandboxStatus base new) r s' →
    match r with
    | Ok o => ∃ old, api_sandboxes s !! sandbox_key new = Some old
        ∧ o.(sb_meta) = old.(sb_meta) ∧ o.(sb_Spec) = old.(sb_Spec)
        ∧ o.(sb_Status) = merge_status base.(sb_Status) new.(sb_Status) old.(sb_Status)
        ∧ contents s' = (api_classes s, <[sandbox_key new := o]> (api_sandboxes s), api_secrets s, api_pods s)
    | Err e => contents s' = contents s ∧ (IsNotFound e = true → api_sandboxes s !! sandbox_key new = None)
    end;
}.




Section convergence.
Context {Store : Type} `{ApiServerLaws Store} `{!RunnerLaws Store}.
Context `{ControllerUtilLaws, StatusConditionsLaws} (error_string : go_error → string).

(** The owner reference can be set on an object without owners. *)
Context (owner_settable : ∀ s p, p.(pod_meta).(om_OwnerReferences) = [] → ∃ p', SetControllerReference_pod s p = Ok p').

Context (key : NamespacedName) (sb : PodSandbox) (class : PodSandboxClass).
Implicit Types (s : Store) (t : list (event KubeE)).

(** ** Rounds *)







(** *** How a round ends *)





(** ** Lemmas *)






















(** ** The status follows the runner *)

End convergence.

(** ** Witness *)

Import Conditions.

#[export] Instance mem_runner_laws : RunnerLaws Mem.mem.
Proof.
  split; cbn -[Mem.handle].
  - intros s n r s'. cbn. intros [= <- <-]. repeat case_match; by simplify_eq/=.
  - intros s k r s'. cbn. intros [= <- <-]. repeat case_match; by simplify_eq/=.
  - intros s x r s'. cbn. case_match eqn:E; intros [= <- <-]; [|done]. split; [done|]. intros _. by eexists.
  - intros s k r s'. cbn. unfold Mem.remove. case_match eqn:E; intros [= <- <-]; [|done]. by eexists; split; [|left].
  - intros s base new r s'. cbn. case_match eqn:E; [case_match|]; intros [= <- <-]; [|done..]. eexists. by split_and!.
Qed.





(** The reconciliation of the sandbox, and the Pod as the kubelet reports it. *)
Definition reconciles (now : Z) : prog KubeE reconcile_result := Reconcile now text psb.

Definition after_round (now : Z) (m : Mem.mem) : Mem.mem := (run (E:=KubeE) Mem.handle m (reconciles now)).1.











(** ** A Pod that another sandbox left

    The controller compares the generations of the template only. A Pod of the same
    name that a deleted sandbox left behind, and that is on its way out, is taken for
    the runner of the new sandbox. *)
Definition leftover : Pod :=
  mk_Pod (mk_ObjectMeta "psb-1" "cluster-a-runtime" "uid-pod" 1 (Some 5)
            ∅ {[templateGeneration := "1/3"]}
            [mk_OwnerReference "sandbox.caa.mnicloud.jp/v1alpha1" "PodSandbox" "psb-1" "uid-deleted" true true])
    (desiredRunner sandbox_fixture class_fixture).(pod_Spec) running.

Lemma leftover_runner_adopted :
  ¬ owned_by sandbox_fixture leftover.(pod_meta) ∧ leftover.(pod_meta).(om_DeletionTimestamp) ≠ None
  ∧ ∃ sb', (after_round 7 (cluster sandbox_fixture {[psb := leftover]})).(Mem.sandboxes) !! psb = Some sb'
           ∧ is_ready sb' = true ∧ sb'.(sb_Status).(st_IPs) = ["10.90.0.8"].
Proof.
  split; [|split; [done|]].
  - intros (r & Hr & _ & _ & Hu). apply list_elem_of_singleton in Hr as ->. discriminate Hu.
  - vm_compute. by eexists.
Qed.
