(* ===== verification/Registration.v ===== *)
(** * What is registered: scheme, watches and permissions

    The types the package adds to a scheme (api/v1alpha1), the scheme of the manager
    (cmd/main.go), the watches of the controller ([SetupWithManager]) and the role its
    markers ask for. apimachinery's scheme and controller-runtime's builder are
    parameters with laws. *)

From S2P Require Import Prelude GoFmt GoStrings Prog Api Kube Server ServerWorld Controller ControllerSafety.

Local Open Scope Z_scope.

(** ** The scheme *)

Record GroupVersion : Type := mk_GroupVersion { gv_Group : string; gv_Version : string }.

#[export] Instance GroupVersion_eq_dec : EqDecision GroupVersion.
Proof. solve_decision. Defined.

Definition SchemeGroupVersion : GroupVersion := mk_GroupVersion "sandbox.caa.mnicloud.jp" "v1alpha1".

(** [schema.GroupVersion.String], as in an object's apiVersion. *)
Definition gv_String (gv : GroupVersion) : string :=
  if String.eqb gv.(gv_Group) "" then gv.(gv_Version) else gv.(gv_Group) +:+ "/" +:+ gv.(gv_Version).

(** [runtime.Scheme]: the kinds it recognizes. *)
Class Scheme (S : Type) : Type := {
  NewScheme : S;
  AddKnownTypes : S → GroupVersion → list string → S;
  AddToGroupVersion : S → GroupVersion → S;
  Recognizes : S → GroupVersion → string → bool;
}.

Class SchemeLaws (S : Type) `{Scheme S} : Prop := {
  known_added : ∀ s gv kinds k, k ∈ kinds → Recognizes (AddKnownTypes s gv kinds) gv k = true;
  known_kept : ∀ s gv kinds gv' k, Recognizes s gv' k = true → Recognizes (AddKnownTypes s gv kinds) gv' k = true;
  group_version_kept : ∀ s gv gv' k, Recognizes s gv' k = true → Recognizes (AddToGroupVersion s gv) gv' k = true;
}.

(** Membership in a list of literals. *)
Local Ltac listed := repeat (first [apply list_elem_of_here | apply list_elem_of_further]).

Section scheme.
Context {S : Type} `{SchemeLaws S}.

(** What the [init] of each file of types registers. *)
Definition sandbox_kinds (s : S) : result go_error S :=
  Ok (AddKnownTypes s SchemeGroupVersion ["PodSandbox"; "PodSandboxList"]).

Definition class_kinds (s : S) : result go_error S :=
  Ok (AddKnownTypes s SchemeGroupVersion ["PodSandboxClass"; "PodSandboxClassList"]).

(** The functions of the package's builder: its own, then those. *)
Definition SchemeBuilder : list (S → result go_error S) :=
  [λ s, Ok (AddToGroupVersion s SchemeGroupVersion); sandbox_kinds; class_kinds].

(** [SchemeBuilder.AddToScheme]: each function in turn, up to an error. *)
Fixpoint AddToScheme (builder : list (S → result go_error S)) (s : S) : result go_error S :=
  match builder with
  | [] => Ok s
  | f :: builder => match f s with Ok s => AddToScheme builder s | Err e => Err e end
  end.

(** [init] of the command: client-go's types, then the package's; [Must] panics on an
    error. *)
Definition manager_scheme (clientgo : S → result go_error S) : option S :=
  match clientgo NewScheme with
  | Err _ => None
  | Ok s => match AddToScheme SchemeBuilder s with Err _ => None | Ok s => Some s end
  end.

(** The kind of the object of a call. *)
Definition call_kind (c : kube_call) : GroupVersion * string :=
  match c with
  | GetClass _ => (SchemeGroupVersion, "PodSandboxClass")
  | GetSandbox _ | CreateSandbox _ | DeleteSandbox _ | PatchSandboxStatus _ _ => (SchemeGroupVersion, "PodSandbox")
  | ListSandboxes => (SchemeGroupVersion, "PodSandboxList")
  | GetSecret _ | CreateSecret _ | UpdateSecret _ | DeleteSecret _ => (mk_GroupVersion "" "v1", "Secret")
  | ListSecrets _ _ _ => (mk_GroupVersion "" "v1", "SecretList")
  | GetPod _ | CreatePod _ | DeletePod _ => (mk_GroupVersion "" "v1", "Pod")
  end.

(** Every call of the programs is about a type the scheme knows, and the owner
    references they set name the registered type. *)
Lemma scheme_complete clientgo s :
  (∀ s0 s1, clientgo s0 = Ok s1 →
     ∀ k, k ∈ ["Pod"; "Secret"; "SecretList"] → Recognizes s1 (mk_GroupVersion "" "v1") k = true) →
  manager_scheme clientgo = Some s →
  (∀ c, Recognizes s (call_kind c).1 (call_kind c).2 = true)
  ∧ ∀ sb, (Mem.owner_ref sb).(or_APIVersion) = gv_String SchemeGroupVersion
          ∧ Recognizes s SchemeGroupVersion (Mem.owner_ref sb).(or_Kind) = true.
Proof.
  intros Hgo Hs. unfold manager_scheme in Hs. destruct (clientgo NewScheme) as [s1|] eqn:E; [|done].
  cbn [AddToScheme SchemeBuilder sandbox_kinds class_kinds] in Hs. injection Hs as <-. specialize (Hgo _ _ E). clear E.
  set (s2 := AddKnownTypes (AddToGroupVersion s1 SchemeGroupVersion) SchemeGroupVersion _).
  assert (Hcore : ∀ k, k ∈ ["Pod"; "Secret"; "SecretList"] → Recognizes s2 (mk_GroupVersion "" "v1") k = true).
  { intros k Hk. by apply known_kept, group_version_kept, Hgo. }
  assert (Hsb : ∀ k, k ∈ ["PodSandbox"; "PodSandboxList"] → Recognizes s2 SchemeGroupVersion k = true).
  { intros k Hk. by apply known_added. }
  split.
  - intros c. destruct c; cbn [call_kind fst snd];
      lazymatch goal with
      | |- Recognizes _ _ "PodSandboxClass" = true => apply known_added; listed
      | |- Recognizes _ SchemeGroupVersion _ = true => apply known_kept, Hsb; listed
      | |- _ => apply known_kept, Hcore; listed
      end.
  - intros sb. split; [reflexivity|]. apply known_kept, Hsb. listed.
Qed.
End scheme.

(** ** Watches *)

Inductive watched : Type := WPodSandbox | WPodSandboxClass | WPod | WSecret.

#[export] Instance watched_eq_dec : EqDecision watched.
Proof. solve_decision. Defined.

(** The calls on the builder. *)
Inductive watch : Type :=
| For (k : watched)
| Owns (k : watched)
| Watches (k : watched) (map : string → prog KubeE (list NamespacedName)).

Definition SetupWithManager_watches : list watch :=
  [For WPodSandbox; Owns WPod; Watches WPodSandboxClass sandboxesForClass].

(** An object that was created, updated or deleted, with its name and its metadata
    before and after. *)
Record change : Type := mk_change {
  ch_kind : watched;
  ch_key : NamespacedName;
  ch_old : option ObjectMeta;
  ch_new : option ObjectMeta;
}.

(** The controller of an object, when it is a PodSandbox. *)
Definition controlled_by (m : ObjectMeta) (name : string) : Prop :=
  ∃ r, r ∈ m.(om_OwnerReferences) ∧ r.(or_Controller) = true ∧ r.(or_Kind) = "PodSandbox"
       ∧ r.(or_APIVersion) = gv_String SchemeGroupVersion ∧ r.(or_Name) = name.

(** controller-runtime's builder. [enqueues ws c t reqs]: with the watches [ws], the
    change [c] is handled with the calls [t] of the map functions, and [reqs] are
    enqueued. *)
Class Builder : Type := {
  enqueues : list watch → change → list (event KubeE) → list NamespacedName → Prop;
}.

(** [For] enqueues the object, [Owns] its controller, and [Watches] what the map
    function returns. *)
Class BuilderLaws `{Builder} : Prop := {
  for_enqueues : ∀ ws c t reqs, enqueues ws c t reqs → For c.(ch_kind) ∈ ws → c.(ch_key) ∈ reqs;
  owns_enqueues : ∀ ws c t reqs o name, enqueues ws c t reqs → For WPodSandbox ∈ ws → Owns c.(ch_kind) ∈ ws →
    (c.(ch_old) = Some o ∨ c.(ch_new) = Some o) → controlled_by o name →
    NN c.(ch_key).(nn_Namespace) name ∈ reqs;
  watches_enqueues : ∀ ws c t reqs f, enqueues ws c t reqs → Watches c.(ch_kind) f ∈ ws →
    ∃ t' keys, exec (f c.(ch_key).(nn_Name)) t' keys ∧ t' ⊆ t ∧ keys ⊆ reqs;
}.

(** The object a call reads. *)
Definition read_object (c : kube_call) : option (watched * NamespacedName) :=
  match c with
  | GetSandbox k => Some (WPodSandbox, k)
  | GetClass n => Some (WPodSandboxClass, NN "" n)
  | GetPod k => Some (WPod, k)
  | GetSecret k => Some (WSecret, k)
  | _ => None
  end.

(** What it takes for a change to lead back to [key], after a reconciliation with the
    calls [t], when the map functions make the calls [t']: a Pod has to be controlled
    by the sandbox, before or after; for a class, the list of the sandboxes has to be
    answered, and to hold the sandbox as the reconciliation read it. *)
Definition traceable (key : NamespacedName) (t : list (event KubeE)) (c : change) (t' : list (event KubeE)) : Prop :=
  match c.(ch_kind) with
  | WPodSandbox => True
  | WPod => ∃ o, (c.(ch_old) = Some o ∨ c.(ch_new) = Some o) ∧ controlled_by o key.(nn_Name)
  | WPodSandboxClass => ∀ r : result go_error (list PodSandbox), @Ev KubeE ListSandboxes r ∈ t' →
      ∃ l o sb, r = Ok l ∧ o ∈ l ∧ saw_sandbox key (Ok sb) ∈ t ∧ sandbox_key o = key ∧ o.(sb_Spec) = sb.(sb_Spec)
  | WSecret => False
  end.

Section watches.
Context `{ControllerUtilLaws, StatusConditionsLaws} (now : Z) (error_string : go_error → string).
Context `{BuilderLaws}.

(** The sandbox is read once, and then the class of that sandbox. *)
Definition reads_neither (c : kube_call) : Prop := match c with GetClass _ | GetSandbox _ => False | _ => True end.

Lemma patch_reads sb new k : calls (E:=KubeE) reads_neither (patch_then sb new k).
Proof. split; [done|]. by intros [?|?]. Qed.

Lemma with_class_reads key sb class : calls (E:=KubeE) reads_neither (with_class now error_string key sb class).
Proof.
  unfold with_class, with_desired, read_runner, with_runner, progressing, fail, stopped. all_calls patch_reads.
Qed.

Lemma class_of_sandbox key t r n a :
  exec (Reconcile now error_string key) t r → @Ev KubeE (GetClass n) a ∈ t →
  ∃ sb, n = sb.(sb_Spec).(ps_ClassName) ∧ ∀ o, saw_sandbox key (Ok o) ∈ t → o = sb.
Proof.
  intros Hx Hin. unfold Reconcile in Hx. exec_step Hx. apply elem_of_cons in Hin as [E|Hin]; [done|].
  destruct r0 as [sb|err]; [|exec_step Hx; by apply not_elem_of_nil in Hin].
  case_in Hx as Hdel; [exec_step Hx; by apply not_elem_of_nil in Hin|]. exists sb. exec_step Hx.
  assert (Hno : Forall (λ e : event KubeE, reads_neither (ev_call e)) t).
  { destruct r0 as [class|err]; (eapply calls_exec; [|exact Hx]); [apply with_class_reads|apply patch_reads]. }
  rewrite Forall_forall in Hno. split.
  - apply elem_of_cons in Hin as [E|Hin]; [|by apply Hno in Hin].
    by apply (f_equal (λ e : event KubeE, match ev_call e with GetClass n => n | _ => "" end)) in E.
  - intros o [E|[E|Hin']%elem_of_cons]%elem_of_cons; [by same_answer E|by same_answer E|by apply Hno in Hin'].
Qed.

(** The sandboxes of a class that the list holds are found, and none if it fails. *)
Lemma exec_sandboxesForClass name t keys :
  exec (sandboxesForClass name) t keys →
  ∃ r : result go_error (list PodSandbox), t = [@Ev KubeE ListSandboxes r]
    ∧ match r with
      | Ok l => ∀ o, o ∈ l → o.(sb_Spec).(ps_ClassName) = name → sandbox_key o ∈ keys
      | Err _ => keys = []
      end.
Proof.
  intros Hx. unfold sandboxesForClass in Hx. exec_step Hx. exists r. destruct r as [l|err]; exec_step Hx; split; try done.
  intros o Hin Hc. by apply list_elem_of_fmap_2, list_elem_of_filter.
Qed.

(** C9. What a reconciliation reads is watched. Take any reconciliation of [key] and
    any PodSandbox, PodSandboxClass or Pod that it read: when that object changes, the
    watches enqueue [key] again. A Pod has to be controlled by the sandbox of that
    name, before or after the change, as the ones the controller creates are; and for a
    class the list of the sandboxes must not fail, and must hold the sandbox as it was
    read. Secrets are read and not watched. *)
Theorem watches_complete key t r e c t' reqs :
  exec (Reconcile now error_string key) t r → Forall reconcile_ok t → e ∈ t →
  read_object (ev_call e) = Some (c.(ch_kind), c.(ch_key)) → c.(ch_kind) ≠ WSecret →
  enqueues SetupWithManager_watches c t' reqs → traceable key t c t' → key ∈ reqs.
Proof.
  intros Hx Hok Hin Hread Hsec Hq Htr. pose proof (reconcile_own_calls _ _ _ _ _ Hx Hok) as Hown.
  rewrite Forall_forall in Hown. specialize (Hown _ Hin). destruct e as [call a]. unfold traceable in Htr.
  destruct c as [kind ck old new]. cbn [ch_kind ch_key ch_old ch_new ev_call] in *.
  destruct call; try discriminate Hread; injection Hread as <- <-; cbn [own_call] in Hown; try done.
  - destruct (watches_enqueues _ _ _ _ sandboxesForClass Hq) as (t1 & keys & Hf & Ht1 & Hkeys); [right; right; by left|].
    apply Hkeys. cbn [ch_key nn_Name] in Hf. apply exec_sandboxesForClass in Hf as (r1 & -> & Hr1).
    destruct (Htr r1) as (l & o & sb & -> & Ho & Hsb & <- & Hspec); [apply Ht1; by left|].
    apply Hr1; [done|]. destruct (class_of_sandbox _ _ _ _ _ Hx Hin) as (sb' & -> & Honly).
    by rewrite Hspec, (Honly _ Hsb).
  - subst key0. by apply (for_enqueues _ _ _ _ Hq); left.
  - subst key0. destruct Htr as (o & Ho & Hc). destruct key as [ns name].
    refine (owns_enqueues _ _ _ _ o name Hq _ _ Ho Hc); [by left|right; by left].
Qed.
End watches.

(** ** The role *)

(** One [+kubebuilder:rbac] marker. *)
Record rule : Type := mk_rule { ru_group : string; ru_resource : string; ru_verbs : list string }.

Definition rbac_markers : list rule :=
  [mk_rule "sandbox.caa.mnicloud.jp" "podsandboxes" ["get"; "list"; "watch"; "create"; "update"; "patch"; "delete"];
   mk_rule "sandbox.caa.mnicloud.jp" "podsandboxes/status" ["get"; "update"; "patch"];
   mk_rule "sandbox.caa.mnicloud.jp" "podsandboxes/finalizers" ["update"];
   mk_rule "sandbox.caa.mnicloud.jp" "podsandboxclasses" ["get"; "list"; "watch"];
   mk_rule "" "pods" ["get"; "list"; "watch"; "create"; "delete"];
   mk_rule "" "secrets" ["get"; "list"; "watch"; "create"; "update"; "patch"; "delete"]].

Definition granted (rules : list rule) (group resource verb : string) : bool :=
  existsb (λ r, String.eqb r.(ru_group) group && String.eqb r.(ru_resource) resource
                && existsb (String.eqb verb) r.(ru_verbs)) rules.

(** The request a call is, to an authorizer. *)
Definition attributes (c : kube_call) : string * string * string :=
  match c with
  | GetClass _ => ("sandbox.caa.mnicloud.jp", "podsandboxclasses", "get")
  | GetSandbox _ => ("sandbox.caa.mnicloud.jp", "podsandboxes", "get")
  | ListSandboxes => ("sandbox.caa.mnicloud.jp", "podsandboxes", "list")
  | CreateSandbox _ => ("sandbox.caa.mnicloud.jp", "podsandboxes", "create")
  | DeleteSandbox _ => ("sandbox.caa.mnicloud.jp", "podsandboxes", "delete")
  | PatchSandboxStatus _ _ => ("sandbox.caa.mnicloud.jp", "podsandboxes/status", "patch")
  | GetSecret _ => ("", "secrets", "get")
  | ListSecrets _ _ _ => ("", "secrets", "list")
  | CreateSecret _ => ("", "secrets", "create")
  | UpdateSecret _ => ("", "secrets", "update")
  | DeleteSecret _ => ("", "secrets", "delete")
  | GetPod _ => ("", "pods", "get")
  | CreatePod _ => ("", "pods", "create")
  | DeletePod _ => ("", "pods", "delete")
  end.

Definition resource_of (k : watched) : string * string :=
  match k with
  | WPodSandbox => ("sandbox.caa.mnicloud.jp", "podsandboxes")
  | WPodSandboxClass => ("sandbox.caa.mnicloud.jp", "podsandboxclasses")
  | WPod => ("", "pods")
  | WSecret => ("", "secrets")
  end.

Definition watch_kind (w : watch) : watched := match w with For k | Owns k | Watches k _ => k end.

(** The role is enough for every call of the server and the controller, and for the
    watches; Pods cannot be changed, nor classes written. *)
Lemma role_sufficient :
  (∀ c, let '(group, resource, verb) := attributes c in granted rbac_markers group resource verb = true)
  ∧ (∀ w, w ∈ SetupWithManager_watches →
       let '(group, resource) := resource_of (watch_kind w) in
       granted rbac_markers group resource "list" = true ∧ granted rbac_markers group resource "watch" = true)
  ∧ (∀ verb, granted rbac_markers "" "pods" verb = true → verb ∈ ["get"; "list"; "watch"; "create"; "delete"])
  ∧ (∀ verb, granted rbac_markers "sandbox.caa.mnicloud.jp" "podsandboxclasses" verb = true → verb ∈ ["get"; "list"; "watch"]).
Proof.
  assert (Hverb : ∀ verb l, existsb (String.eqb verb) l || false = true → verb ∈ l).
  { intros verb l. rewrite orb_false_r. intros (v & Hin & ->%String.eqb_eq)%existsb_exists. by apply list_elem_of_In. }
  split_and!.
  - by intros [].
  - intros w Hw. repeat (apply elem_of_cons in Hw as [->|Hw]; [done|]). by apply not_elem_of_nil in Hw.
  - intros verb Hg. by apply Hverb.
  - intros verb Hg. apply Hverb. exact Hg.
Qed.

(** ** Witness: the handlers of controller-runtime *)
Module Handlers.

Definition controllers (o : option ObjectMeta) : list string :=
  match o with
  | None => []
  | Some m => or_Name <$> filter (λ r, r.(or_Controller) = true ∧ r.(or_Kind) = "PodSandbox"
                                       ∧ r.(or_APIVersion) = gv_String SchemeGroupVersion) m.(om_OwnerReferences)
  end.

Definition handled (c : change) (w : watch) : prog KubeE (list NamespacedName) :=
  match w with
  | For k => Ret (if decide (k = c.(ch_kind)) then [c.(ch_key)] else [])
  | Owns k => Ret (if decide (k = c.(ch_kind))
                   then NN c.(ch_key).(nn_Namespace) <$> (controllers c.(ch_old) ++ controllers c.(ch_new)) else [])
  | Watches k f => if decide (k = c.(ch_kind)) then f c.(ch_key).(nn_Name) else Ret []
  end.

Fixpoint handled_all (c : change) (ws : list watch) : prog KubeE (list NamespacedName) :=
  match ws with
  | [] => Ret []
  | w :: ws => let! keys := handled c w in let! rest := handled_all c ws in Ret (keys ++ rest)
  end.

#[export] Instance builder : Builder := {| enqueues ws c t reqs := exec (handled_all c ws) t reqs |}.

Lemma handled_one ws c t reqs w :
  enqueues ws c t reqs → w ∈ ws → ∃ t' keys, exec (handled c w) t' keys ∧ t' ⊆ t ∧ keys ⊆ reqs.
Proof.
  cbn. revert t reqs. induction ws as [|w' ws IH]; intros t reqs Hx Hw; [by apply not_elem_of_nil in Hw|].
  apply exec_bind in Hx as (t1 & t2 & keys & -> & Hk & Hx). apply exec_bind in Hx as (t3 & t4 & rest & -> & Hr & Hx).
  apply exec_ret_inv in Hx as [-> ->]. apply elem_of_cons in Hw as [->|Hw].
  - exists t1, keys. split_and!; [done|set_solver..].
  - destruct (IH _ _ Hr Hw) as (t' & keys' & ? & ? & ?). exists t', keys'. split_and!; [done|set_solver..].
Qed.

Lemma controllers_found o m name : o = Some m → controlled_by m name → name ∈ controllers o.
Proof.
  intros -> (r & Hr & Hc & Hk & Ha & <-). cbn. by apply list_elem_of_fmap_2, list_elem_of_filter.
Qed.

#[export] Instance builder_laws : BuilderLaws.
Proof.
  split.
  - intros ws c t reqs Hq Hw. destruct (handled_one _ _ _ _ _ Hq Hw) as (t' & keys & [_ ->]%exec_ret_inv & _ & Hk).
    apply Hk. rewrite decide_True by done. by left.
  - intros ws c t reqs o name Hq _ Hw Ho Hc. destruct (handled_one _ _ _ _ _ Hq Hw) as (t' & keys & [_ ->]%exec_ret_inv & _ & Hk).
    apply Hk. rewrite decide_True by done. apply list_elem_of_fmap_2, elem_of_app.
    destruct Ho as [Ho|Ho]; [left|right]; by eapply controllers_found.
  - intros ws c t reqs f Hq Hw. destruct (handled_one _ _ _ _ _ Hq Hw) as (t' & keys & Hx & Ht & Hk). cbn in Hx.
    rewrite decide_True in Hx by done. eauto.
Qed.
End Handlers.

Import Conditions Handlers.

(** A new generation of the class enqueues the sandbox that a reconciliation read with
    the old one. *)
Definition class_change : change :=
  mk_change WPodSandboxClass (NN "" "cluster-a") (Some old_class.(cl_meta)) (Some class_fixture.(cl_meta)).

Definition listed_sandboxes : list (event KubeE) := [@Ev KubeE ListSandboxes (Ok [sandbox_fixture])].

Lemma watches_complete_witness :
  ∃ reqs, enqueues SetupWithManager_watches class_change listed_sandboxes reqs ∧ psb ∈ reqs.
Proof.
  exists [psb].
  assert (Hq : enqueues SetupWithManager_watches class_change listed_sandboxes [psb]).
  { eexists. split; reflexivity. }
  split; [exact Hq|].
  refine (watches_complete 7 text psb (runs ready_cluster) (ends ready_cluster)
    (saw_class "cluster-a" (Ok class_fixture)) class_change listed_sandboxes [psb] (runs_exec ready_cluster) _ _ _ _ Hq _).
  - apply kube_run_ok.
  - vm_compute. right. left.
  - reflexivity.
  - discriminate.
  - intros r Hr. apply list_elem_of_singleton in Hr. exists [sandbox_fixture], sandbox_fixture, sandbox_fixture.
    split_and!; [|by left|vm_compute; left|reflexivity|reflexivity].
    apply (f_equal (λ e : event KubeE, match e with Ev ListSandboxes r => Some r | _ => None end)) in Hr. by injection Hr.
Defined.
